(* ===== verification/_CoqProject ===== *)
-Q . S2P
Prelude.v
Wire.v
Types.v
Proto.v
Codec.v
Encoding.v
Store.v
Crypto.v
Progress.v
Quorum.v
Consensus.v
Instances.v
ConsensusFacts.v
Handlers.v
Replica.v
Voting.v
Depth.v
Pacemaker.v
Collectors.v
CodecSpec.v
StoreSpec.v
CryptoSpec.v
Safety.v
Scenarios.v
Routing.v
Node.v
Net.v
Ledger.v
Locking.v
Agreement.v
Forks.v
Progression.v
Rounds.v
Forging.v
Leading.v
Synchrony.v
ViewChange.v
Deployment.v
Crash.v
Boot.v
Restart.v
Host.v
Received.v
Connections.v
Sockets.v
Cluster.v
Fleet.v
