(* ===== verification/Prelude.v ===== *)
(** * A verification of go-hotstuff

    The program is a Go library that runs chained HotStuff (Byzantine
    fault-tolerant state machine replication) and a small TCP deployment of it.

    ** The program

    - consensus.go: the replica.  One struct, four entry points ([Start], [Step]
      for a message, [Send] for data, [Tick] for time); handlers verify a
      proposal, vote, move between views, collect ballots when the replica leads
      the next view, lock and commit blocks, and persist before they send.
    - utils.go: the collectors [Votes] and [Timeouts] that merge ballots into
      certificates, and [ImportGenesis].
    - progress.go: what a handler leaves for the environment (messages, block
      events, missing blocks, a request for data).
    - store.go: the block store over a key-value database, and the chain iterator.
    - crypto/: the BLS signer and verifier behind the two interfaces of
      consensus.go.
    - types/types.pb.go, types/hash.go, encoding.go: the messages, their protobuf
      codec (generated code, in the repository), the header hash, big-endian
      integers.
    - node.go, hotstuff-node/, node/: the event loop, the TCP deployment, and a TCP
      experiment that does not use the consensus code.

    ** The files

    - Prelude.v (this file): tactics, bytes, machine integers, the result type
      [res] (value, error, panic), the monad [M] of handlers (a state is kept also
      when the process dies), its weakest precondition [wp] and the relational
      invariants [moves]/[keeps].
    - Wire.v, Types.v, Proto.v, Codec.v: types.pb.go.  [ProtoMessage] is the
      interface of a generated message, [ProtoLaws] its contract; a message that
      embeds others is verified against their contracts.
    - Encoding.v: encoding.go, types/hash.go, [HashSum].
    - Store.v: store.go over the class [KVStore] (goleveldb).
    - Crypto.v: crypto/signer.go and verifier.go over the class [BLS]; [Signer],
      [Verifier] are the interfaces of consensus.go and [VerifierLaws] what the
      collectors need of a verifier, discharged by [bls_verifier_laws].
    - Progress.v, Quorum.v: progress.go, utils.go.
    - Consensus.v: consensus.go, one definition per method.
    - Instances.v: concrete parameters (an in-memory database, a 32-byte hash, an
      ideal signature scheme, four replicas) that satisfy every assumed law and
      with which the whole replica runs in the kernel.
    - ConsensusFacts.v, Handlers.v: the invariant [Inv], the relation [evolves]
      between the states around a handler, and one lemma per method that it keeps
      both.
    - Replica.v: a replica over time, with hand-over of its progress, crashes and
      restarts ([wstep]), and the first start.
    - Voting.v: the step that casts a ballot, and why it may ([ballot_ok]).
    - Routing.v: whom a replica writes to.
    - Safety.v, Depth.v, Pacemaker.v, Collectors.v, CodecSpec.v, StoreSpec.v,
      CryptoSpec.v, Scenarios.v, Progression.v: theorems about one replica and its
      parts, by subject.
    - Rounds.v: an abstract replica, on which a good proposal is a total function
      ([follow]), what [onProposal] refines, and chains of good proposals.
    - Forging.v: what [onSync] does with blocks that one key has certified.
    - Leading.v: the same for the replica that collects the votes and proposes next
      ([collected_round]).  Synchrony.v: all replicas together ([delivery]), round
      after round.  ViewChange.v: views that pass without a block, by timeouts and
      new-views ([t_quit]).  Deployment.v: all of it from genesis on.  Crash.v: four
      replicas of which one is down.
    - Ledger.v, Locking.v, Agreement.v: a network of replicas.  Ledger.v is the
      abstract argument, on a list of votes; Locking.v shows of every handler that
      the votes it casts respect the lock; Agreement.v puts the replicas into a
      network ([gstep]) and joins the two.  Forks.v leaves that network by one step.
    - Node.v: node.go, the event loop with its channels as a step relation of
      select cases and of operations of its users, over the replica of Consensus.v.
    - Net.v: hotstuff-node/, framing and handshake over byte streams.
    - Received.v: what a decoder can make of the bytes of a peer.
    - Boot.v: crypto/utils.go, the database in memory, and how main.go of
      hotstuff-node/ builds a node.  Restart.v: a process that is started again
      ([lives]).
    - Host.v: the rest of that main.go, the process around a node: its channels,
      [dispatchMessage] and the loop of [entryPoint].
    - Connections.v: the goroutines of a TCP connection in hotstuff-node/ (Module
      [Deployed]) and of node/, with its main.go (Module [Experiment]).
    - Sockets.v: listening, accepting, dialling and the handshakes of both programs
      ([sockstep]), and the process of hotstuff-node/ with all its connections
      ([pstep]).
    - Cluster.v, Fleet.v: the processes of a deployment as one system, without and
      with their connections.

    Each layer refines the one below it: a process with connections (Sockets.v) is
    a process (Host.v), its node is an event loop (Node.v) that runs a replica over
    time (Replica.v); many of them (Fleet.v, Cluster.v) are a network of replicas
    (Agreement.v), whose votes are a ledger (Ledger.v).

    ** What the theorems show

    - Agreement.v: correct replicas never finalize conflicting blocks (C1); Fleet.v:
      neither do the processes of the deployed program (C2).  Both are about runs in
      which what the correct replicas handle is genuine ([genuine_at]; below).
    - Safety.v: a replica never votes twice in a view, not even across crashes and
      restarts (C3); its ballots are signed, and its votes justified, in the handler
      that casts them, by the leader's signature, a certified parent and the locking
      rule (C4); a finalized block heads a certified three-chain in consecutive views (C5);
      prepared, locked and committed views only grow (C7); the disk is always
      loadable and agrees with memory (C8), a restart recovers the state (C9), and
      the first start works (C10).
    - Deployment.v: a new deployment gets over up to 62 silent views by new-views and a
      timeout certificate, and then finalizes block after block (C6); Rounds.v:
      any chain of good proposals is voted for and finalized (C12).
    - Net.v: what is written as frames is read back, also when cut anywhere (C11).
      Received.v: what arrives is fit to be handled, whatever the peer sent.
    - Boot.v: the processes of a deployment start, as the network of Agreement.v
      supposes (C13).  Restart.v: started again, they vote twice (C35).
    - Node.v: under the inputs that a run gives to the event loop, in their order, the
      replica of Replica.v is in the state of the loop's, and nothing is lost, repeated
      or reordered on the way in or out (C14); the loop falls silent when nobody reads
      the missing blocks (C39).
    - Cluster.v: the processes refine the network of Agreement.v, under every condition
      on what they handle (C15).
    - Sockets.v: what is on the wire is what the replica wrote, in order, each
      message on one connection (C16), and what the other end is given is what was
      sent (C17); what ends a process (C29); the experiment (C31).
    - Depth.v: the re-entrance of [Step] is bounded by two (C18), so the depth in
      [handle] is not a restriction.
    - Collectors.v: the collectors refine a set of voters (C19, C20).
    - Pacemaker.v: leader rotation (C21), doubling and overflow of the timeout
      (C22).
    - CodecSpec.v: round trip, equivalence of the generated writer with a reference
      encoding, totality on arbitrary bytes (C23 to C25).
    - StoreSpec.v: blocks are read back and nothing else changes (C26), the chain
      iterator (C27).
    - CryptoSpec.v: honest signatures aggregate (C28); repeated voters are
      accepted (C32).
    - Connections.v: the life of a connection and of the loop that dialled it (C30).
    - Host.v: the process stops at the 101st finalized block (C40).
    - Forging.v: one key makes any replica finalize any block (C33).  Scenarios.v,
      Forks.v: executions in which one faulty peer does damage (C34, C36, C37); Crash.v: one crashed replica of four stops finality (C38).

    ** Modelling choices

    - uint64, int and byte values are [Z] or [byte] with wrap-around written out
      ([wrap64], [swrap64]); a nil slice or pointer is [None].
    - Handlers are state transformers that return or die; [log.Fatal], nil
      dereference, division by zero, index out of range and explicit panics are the
      ways to die.  What was written to the database before stays.
    - [c.timeoutCert] may be the same object as [c.timeouts.Cert], which is updated
      in place; [tcptr] models that aliasing.  A message put into [Progress] is a
      snapshot.
    - Loops over input carry fuel equal to the length of the input, and the
      totality theorem shows that it is never used up.
    - Goroutines are step relations in which every operation that may block on a
      channel, a read or a WaitGroup is a step of its own.
    - Parameters, with the laws assumed of them: goleveldb ([KVStore]: a value that
      was put is what is got, other keys are unchanged; a read or write may fail),
      BLAKE2s ([Hasher]: 32 bytes), kilic/bls12-381 ([BLS]: compression round trip,
      honest signatures verify, aggregates compose), the sources of randomness
      ([Random]: a read returns as many bytes as asked for).
    - The theorems about handlers assume of messages that the voter of a ballot is a
      64-bit number and that the encoding of a header fits in memory ([msg_ok]), which
      holds of all that is read from a connection ([received_well_formed]) and of what
      replicas send ([messages_well_formed]), and that data roots are shorter than 2^61 bytes.
    - No forgery or collision assumption is made, except in C38 (signatures of
      replicas that are up are theirs, blocks are told apart by their hashes), in C6,
      C33 and C35 (the blocks of the run have different hashes) and in C1 and C2: these
      are about the runs in which what a correct replica handles is genuine
      ([genuine_input]), that is the certificates that it accepts have the votes of a
      quorum behind them, blocks are told apart by their hashes, and the blocks of a
      sync message are linked, each parent being stored or in the message.  The steps
      of processes and of replicas are not restricted to it; the condition is on the
      inputs of a run ([gstep_when], [kstep_when], [fstep_when]).  The code ensures
      neither the first nor the last: the verifier accepts repeated voters (C32), with
      which one replica breaks agreement (C33), and a gap in a sync message breaks it
      without any forged certificate (C34).
    - A handler that dies ends the process it is in ([host_dies], [Q_state_dies]).
    - A connection reads a message when there is room for it in [inMsgsChan].  A write
      that fails may have written any proper part of the frame ([sending]); the message
      that it loses is kept as ghost state.

    ** Not modelled

    Loggers (also [c.vlog], which is nil until the first round starts); contexts
    of node.go and the period of the ticker; flag parsing and printing; the file
    database of [OpenDB]; the reflection hooks and getters of types.pb.go;
    functions that nobody calls ([collectMessages], [echoMessage],
    [example_run]); old_node/, whose code is commented out; Python and shell
    scripts.

    ** Plan

    Next: C6 with silent views between the blocks, whose votes are then lost; C38 for
    more than four replicas. *)

From Stdlib Require Import ZArith Lia.
From Stdlib Require Export Strings.Byte.
From stdpp Require Export base tactics list gmap numbers.

Open Scope Z_scope.

(** ** Tactics *)

Ltac zbool :=
  repeat match goal with
  | H : (_ =? _) = true |- _ => apply Z.eqb_eq in H
  | H : (_ =? _) = false |- _ => apply Z.eqb_neq in H
  | H : (_ <? _) = true |- _ => apply Z.ltb_lt in H
  | H : (_ <? _) = false |- _ => apply Z.ltb_ge in H
  | H : (_ <=? _) = true |- _ => apply Z.leb_le in H
  | H : (_ <=? _) = false |- _ => apply Z.leb_gt in H
  | H : (_ && _) = true |- _ => apply andb_true_iff in H as [? ?]
  | H : negb _ = true |- _ => apply negb_true_iff in H
  | H : negb _ = false |- _ => apply negb_false_iff in H
  end.

(** Case analysis on every [if] of the goal, with the tests as arithmetic. *)
Ltac split_ifs :=
  repeat (match goal with
          | |- context [if ?b then _ else _] => destruct b eqn:?
          end; zbool).

(** ** Bytes *)

Abbreviation bytes := (list byte).

#[global] Instance byte_eq_dec : EqDecision byte := Byte.byte_eq_dec.

Definition Z_of_byte (b : byte) : Z := Z.of_N (Byte.to_N b).

Definition byte_of_Z (z : Z) : byte :=
  default x00 (Byte.of_N (Z.to_N (z mod 256))).

#[global] Program Instance byte_countable : Countable byte :=
  inj_countable' Byte.to_N (fun n => default x00 (Byte.of_N n)) _.
Next Obligation. intros b. cbv beta. by rewrite Byte.of_to_N. Qed.

Lemma Z_of_byte_range b : 0 <= Z_of_byte b < 256.
Proof. unfold Z_of_byte. pose proof (Byte.to_N_bounded b). lia. Qed.

Lemma byte_of_Z_of_byte b : byte_of_Z (Z_of_byte b) = b.
Proof.
  unfold byte_of_Z. rewrite Z.mod_small by apply Z_of_byte_range.
  unfold Z_of_byte. by rewrite N2Z.id, Byte.of_to_N.
Qed.

Lemma Z_of_byte_of_Z z : Z_of_byte (byte_of_Z z) = z mod 256.
Proof.
  unfold byte_of_Z, Z_of_byte.
  pose proof (Z.mod_pos_bound z 256 ltac:(lia)).
  destruct (Byte.of_N (Z.to_N (z mod 256))) as [b|] eqn:E; simpl.
  - apply Byte.to_of_N in E. rewrite E. lia.
  - apply Byte.of_N_None_iff in E. lia.
Qed.

Lemma Z_of_byte_inj b1 b2 : Z_of_byte b1 = Z_of_byte b2 -> b1 = b2.
Proof. intros H. by rewrite <- (byte_of_Z_of_byte b1), H, byte_of_Z_of_byte. Qed.

(** A Go [[]byte]: [None] is the nil slice, [Some []] an empty one that is not
    nil.  Every use that does not compare with nil goes through [sbytes]. *)
Definition slice : Type := option bytes.
Definition sbytes (s : slice) : bytes := default [] s.

(** [len(x)] as a Go [int]. *)
Definition len {A} (l : list A) : Z := Z.of_nat (length l).

Lemma len_nonneg {A} (l : list A) : 0 <= len l.
Proof. unfold len. lia. Qed.

Lemma len_app {A} (l k : list A) : len (l ++ k) = len l + len k.
Proof. unfold len. rewrite length_app. lia. Qed.

Lemma len_cons {A} (x : A) (l : list A) : len (x :: l) = 1 + len l.
Proof. unfold len. simpl. lia. Qed.

Lemma len_nil {A} : len (@nil A) = 0.
Proof. done. Qed.

(** [bytes.Compare(a, b) == 0] on slices: contents only, nil equals empty. *)
Definition bytes_eqb (a b : bytes) : bool := bool_decide (a = b).

Lemma bytes_eqb_eq a b : bytes_eqb a b = true <-> a = b.
Proof. unfold bytes_eqb. by rewrite bool_decide_eq_true. Qed.

(** ** Machine integers *)

Definition two64 : Z := 2 ^ 64.
Definition two63 : Z := 2 ^ 63.

(** Conversion to [uint64] and, two's complement, to [int] (64 bits). *)
Definition wrap64 (z : Z) : Z := z mod two64.
Definition swrap64 (z : Z) : Z :=
  let u := z mod two64 in if u <? two63 then u else u - two64.

Definition is_u64 (z : Z) : Prop := 0 <= z < two64.

Lemma wrap64_u64 z : is_u64 (wrap64 z).
Proof. unfold is_u64, wrap64. apply Z.mod_pos_bound. done. Qed.

Lemma wrap64_small z : is_u64 z -> wrap64 z = z.
Proof. apply Z.mod_small. Qed.

Lemma swrap64_small z : 0 <= z < two63 -> swrap64 z = z.
Proof.
  intros [? H]. unfold swrap64.
  assert (two63 < two64) by done.
  rewrite Z.mod_small by lia. by apply Z.ltb_lt in H as ->.
Qed.

Lemma swrap64_range z : - two63 <= swrap64 z < two63.
Proof.
  unfold swrap64. pose proof (Z.mod_pos_bound z two64 ltac:(done)).
  assert (two64 = 2 * two63) by done. case_match; zbool; lia.
Qed.

(** A sum of two non-negative [int]s is either exact or comes out negative. *)
Lemma swrap64_add a b : 0 <= a < two63 -> 0 <= b < two63 ->
  swrap64 (a + b) = a + b \/ swrap64 (a + b) < 0.
Proof.
  intros. unfold swrap64. assert (two64 = 2 * two63) by done.
  rewrite Z.mod_small by lia. case_match; zbool; [by left|right; lia].
Qed.

Lemma u64_lor a b : is_u64 a -> is_u64 b -> is_u64 (Z.lor a b).
Proof.
  unfold is_u64. intros [Ha Ha'] [Hb Hb'].
  assert (0 <= Z.lor a b) by (by apply Z.lor_nonneg). split; [done|].
  destruct (decide (Z.lor a b = 0)) as [->|]; [done|].
  unfold two64 in *. apply Z.log2_lt_pow2; [lia|]. rewrite Z.log2_lor by done.
  apply Z.max_lub_lt.
  - destruct (decide (a = 0)) as [->|]; [done|]. apply Z.log2_lt_pow2; lia.
  - destruct (decide (b = 0)) as [->|]; [done|]. apply Z.log2_lt_pow2; lia.
Qed.

(** ** Outcomes *)

(** The error values the code returns. *)
Inductive err : Type :=
| ErrUnexpectedEOF             (* io.ErrUnexpectedEOF *)
| ErrIntOverflow               (* ErrIntOverflowTypes *)
| ErrInvalidLength             (* ErrInvalidLengthTypes *)
| ErrUnexpectedEndOfGroup      (* ErrUnexpectedEndOfGroupTypes *)
| ErrEndGroup                  (* "wiretype end group for non-group" *)
| ErrIllegalTag                (* "illegal tag" *)
| ErrWrongWireType             (* "wrong wireType for field" *)
| ErrIllegalWireType           (* skipTypes: "illegal wireType" *)
| ErrDB                        (* an error of leveldb, leveldb.ErrNotFound included *)
| ErrReadLength                (* getMessageFromReader: prefix *)
| ErrReadBody                  (* getMessageFromReader: body *)
| ErrAtoi                      (* strconv.Atoi: invalid syntax or range *)
| ErrRand.                     (* an error of the source of randomness *)

(** The ways a goroutine dies: Go run-time panics, an explicit [panic], and
    [logger.Fatal], which exits the process.  [OutOfFuel] is not an outcome of
    the code: it marks a bounded recursion that was cut short. *)
Inductive crash : Type :=
| NilDeref | OutOfRange | DivByZero | PanicCall | LogFatal | OutOfFuel.

Inductive res (A : Type) : Type :=
| Ok (a : A)
| Err (e : err)
| Panic (c : crash).
Arguments Ok {A} a.
Arguments Err {A} e.
Arguments Panic {A} c.

#[global] Instance res_ret : MRet res := @Ok.
#[global] Instance res_bind : MBind res := fun A B f m =>
  match m with Ok a => f a | Err e => Err e | Panic c => Panic c end.

#[global] Instance err_eq_dec : EqDecision err.
Proof. solve_decision. Defined.
#[global] Instance crash_eq_dec : EqDecision crash.
Proof. solve_decision. Defined.

(** Dereference of a pointer. *)
Definition deref {A} (p : option A) : res A :=
  match p with Some a => Ok a | None => Panic NilDeref end.

(** [l[i]] *)
Definition index {A} (l : list A) (i : nat) : res A :=
  match l !! i with Some a => Ok a | None => Panic OutOfRange end.

Definition is_panic {A} (r : res A) : bool :=
  match r with Panic _ => true | _ => false end.

Definition is_ok {A} (r : res A) : bool :=
  match r with Ok _ => true | _ => false end.

(** [r] does not panic, and its value satisfies [P] when it has one. *)
Definition safe {A} (P : A -> Prop) (r : res A) : Prop :=
  match r with Ok a => P a | Err _ => True | Panic _ => False end.

Lemma safe_bind {A B} (P : A -> Prop) (Q : B -> Prop) (m : res A) (f : A -> res B) :
  safe P m -> (forall a, P a -> safe Q (f a)) -> safe Q (m ≫= f).
Proof. destruct m; simpl; auto. Qed.

Lemma safe_mono {A} (P Q : A -> Prop) (r : res A) :
  safe P r -> (forall a, P a -> Q a) -> safe Q r.
Proof. destruct r; simpl; auto. Qed.

Lemma res_bind_Ok {A B} (m : res A) (f : A -> res B) b :
  m ≫= f = Ok b <-> exists a, m = Ok a /\ f a = Ok b.
Proof. destruct m; simpl; [|split; [done|by intros (? & ? & ?)]..]. split; [eauto|by intros (? & [= <-] & ?)]. Qed.

(** ** State with crashes

    A handler runs on a state and either returns a value or kills the process;
    in both cases the state reached so far (what has been written to disk) is
    kept. *)

Definition M (S A : Type) : Type := S -> S * (A + crash).

Section StateCrash.
Context {S : Type}.
Implicit Types s : S.

#[global] Instance M_ret : MRet (M S) := fun A a s => (s, inl a).
#[global] Instance M_bind : MBind (M S) := fun A B f m s =>
  match m s with
  | (s', inl a) => f a s'
  | (s', inr c) => (s', inr c)
  end.

Definition die {A} (c : crash) : M S A := fun s => (s, inr c).
Definition gets {A} (f : S -> A) : M S A := fun s => (s, inl (f s)).
Definition modify (f : S -> S) : M S unit := fun s => (f s, inl tt).
Definition skip : M S unit := fun s => (s, inl tt).
(** Run a computation that may panic but has no state; an [Err] value is the
    caller's business and never reaches this point. *)
Definition liftr {A} (r : res A) : M S A := fun s =>
  match r with
  | Ok a => (s, inl a)
  | Err _ => (s, inr PanicCall)
  | Panic c => (s, inr c)
  end.
Definition when (b : bool) (m : M S unit) : M S unit := if b then m else skip.

(** [wp m Q E s]: started in [s], [m] returns a value and a state in [Q], or
    kills the process in a state in [E]. *)
Definition wp {A} (m : M S A) (Q : A -> S -> Prop) (E : S -> Prop) (s : S) : Prop :=
  match m s with
  | (s', inl a) => Q a s'
  | (s', inr _) => E s'
  end.

Lemma wp_bind {A B} (m : M S A) (f : A -> M S B) Q E s :
  wp m (fun a => wp (f a) Q E) E s -> wp (m ≫= f) Q E s.
Proof. unfold wp, mbind, M_bind. by destruct (m s) as [s' [a|c]]. Qed.

Lemma wp_mono {A} (m : M S A) (Q Q' : A -> S -> Prop) (E E' : S -> Prop) s :
  wp m Q E s -> (forall a s', Q a s' -> Q' a s') -> (forall s', E s' -> E' s') -> wp m Q' E' s.
Proof. unfold wp. destruct (m s) as [s' [a|c]]; auto. Qed.

Lemma wp_ret {A} (a : A) (Q : A -> S -> Prop) E s : Q a s -> wp (mret a) Q E s.
Proof. done. Qed.
Lemma wp_die {A} c (Q : A -> S -> Prop) (E : S -> Prop) s : E s -> wp (die c) Q E s.
Proof. done. Qed.
Lemma wp_gets {A} (g : S -> A) (Q : A -> S -> Prop) E s : Q (g s) s -> wp (gets g) Q E s.
Proof. done. Qed.
Lemma wp_modify (g : S -> S) (Q : unit -> S -> Prop) E s : Q tt (g s) -> wp (modify g) Q E s.
Proof. done. Qed.
Lemma wp_skip (Q : unit -> S -> Prop) E s : Q tt s -> wp skip Q E s.
Proof. done. Qed.
Lemma wp_liftr {A} (r : res A) (Q : A -> S -> Prop) (E : S -> Prop) s :
  E s -> (forall a, r = Ok a -> Q a s) -> wp (liftr r) Q E s.
Proof. unfold wp, liftr. destruct r; auto. Qed.
Lemma wp_when b m (Q : unit -> S -> Prop) E s :
  (b = true -> wp m Q E s) -> (b = false -> Q tt s) -> wp (when b m) Q E s.
Proof. destruct b; intros H1 H2; [by apply H1|by apply H2]. Qed.

(** [moves I J R m]: from every state that satisfies [I], [m] stops in a state
    related to the first by [R], and in [J] when it returns.  [keeps I] is
    [moves I I]. *)
Definition moves (I J : S -> Prop) (R : S -> S -> Prop) {A} (m : M S A) : Prop :=
  forall s, I s -> wp m (fun _ s' => R s s' /\ J s') (R s) s.

Section Moves.
Context (R : S -> S -> Prop) `{!PreOrder R}.

Lemma moves_bind I J K {A B} (m : M S A) (f : A -> M S B) :
  moves I J R m -> (forall a, moves J K R (f a)) -> moves I K R (m ≫= f).
Proof.
  intros Hm Hf s Hs. apply wp_bind. eapply wp_mono; [by apply Hm| |done].
  simpl. intros a s' [HR HJ]. eapply wp_mono; [by apply Hf| |].
  - simpl. intros _ s2 [? ?]. split; [by etrans|done].
  - simpl. intros s2 ?. by etrans.
Qed.

(** Use of a component whose behaviour is known, after some steps. *)
Lemma wp_moves I J K {A} (m : M S A) s0 s :
  moves I J R m -> R s0 s -> I s -> (forall s', J s' -> K s') ->
  wp m (fun _ s' => R s0 s' /\ K s') (R s0) s.
Proof.
  intros Hm HR HI HJ. eapply wp_mono; [by apply Hm| |].
  - simpl. intros _ s2 [? ?]. split; [by etrans|auto].
  - simpl. intros s2 ?. by etrans.
Qed.

Lemma wp_moves_then I J K {A B} (m : M S A) (f : A -> M S B) s0 s :
  moves I J R m -> R s0 s -> I s ->
  (forall a s', m s = (s', inl a) -> R s0 s' -> J s' -> wp (f a) (fun _ s2 => R s0 s2 /\ K s2) (R s0) s') ->
  wp (m ≫= f) (fun _ s2 => R s0 s2 /\ K s2) (R s0) s.
Proof.
  intros Hm HR HI Hf. apply wp_bind. specialize (Hm s HI). unfold wp at 1. unfold wp in Hm.
  destruct (m s) as [s' [a|c]] eqn:E; [|by etrans].
  destruct Hm as [HR' HJ]. apply Hf; [done|by etrans|done].
Qed.

Context (I : S -> Prop).
Lemma keeps_ret {A} (a : A) : moves I I R (mret a).
Proof. intros s Hs. by split. Qed.
Lemma keeps_die {A} c : moves I I R (@die A c).
Proof. intros s Hs. apply wp_die. reflexivity. Qed.
Lemma keeps_gets {A} (f : S -> A) : moves I I R (gets f).
Proof. intros s Hs. by split. Qed.
Lemma keeps_skip : moves I I R skip.
Proof. intros s Hs. by split. Qed.
Lemma keeps_liftr {A} (r : res A) : moves I I R (liftr r).
Proof. intros s Hs. apply wp_liftr; [reflexivity|]. by split. Qed.
Lemma keeps_when b m : (b = true -> moves I I R m) -> moves I I R (when b m).
Proof. destruct b; simpl; [by intros ?; auto|]. intros _. apply keeps_skip. Qed.
Lemma keeps_bind {A B} (m : M S A) (f : A -> M S B) :
  moves I I R m -> (forall a, moves I I R (f a)) -> moves I I R (m ≫= f).
Proof. apply moves_bind. Qed.
End Moves.
End StateCrash.
Arguments die {S A} c.
Arguments M_ret {S} A a s /.
Abbreviation keeps I R m := (moves I I R m).

Create HintDb keeps.
#[export] Hint Resolve keeps_ret keeps_die keeps_gets keeps_skip keeps_liftr
  keeps_bind keeps_when : keeps.
