(* ===== verification/Wire.v ===== *)
(** * The protobuf wire format as types.pb.go reads and writes it

    Varints ([encodeVarintTypes], [sovTypes], the inlined reading loops),
    length-delimited fields, [skipTypes], the writing primitives that fill a
    buffer from its end, and the reading loop every generated [Unmarshal]
    repeats.  The abstract format is [enc_fields]: the concatenation, in order,
    of the encodings of a list of fields; the writing lemmas ([writes]) and the
    reading lemmas ([steps]) relate the two directions to it. *)

From Stdlib Require Import ZArith Lia.
From S2P Require Import Prelude.

(** ** The abstract format *)

(** [varint v] is the base-128 little-endian encoding of [v]: ten groups hold
    any 64-bit value. *)
Fixpoint varint_fuel (fuel : nat) (v : Z) : bytes :=
  match fuel with
  | O => []
  | S fuel =>
      if v <? 128 then [byte_of_Z v]
      else byte_of_Z (Z.lor (Z.land v 127) 128) :: varint_fuel fuel (Z.shiftr v 7)
  end.
Definition varint (v : Z) : bytes := varint_fuel 10 v.
Arguments varint : simpl never.

Inductive wfield : Type :=
| WVarint (num v : Z)        (* wire type 0 *)
| WBytes (num : Z) (b : bytes).  (* wire type 2 *)

Definition wfield_tag (f : wfield) : Z :=
  match f with WVarint n _ => n * 8 | WBytes n _ => n * 8 + 2 end.

Definition enc_field (f : wfield) : bytes :=
  varint (wfield_tag f) ++
  match f with
  | WVarint _ v => varint v
  | WBytes _ b => varint (len b) ++ b
  end.

Definition enc_fields (fs : list wfield) : bytes := concat (enc_field <$> fs).

(** proto3 leaves default values out. *)
Definition opt_varint (num v : Z) : list wfield :=
  if v =? 0 then [] else [WVarint num v].
Definition opt_bytes (num : Z) (b : bytes) : list wfield :=
  match b with [] => [] | _ => [WBytes num b] end.
Definition opt_msg {A} (num : Z) (enc : A -> bytes) (m : option A) : list wfield :=
  match m with None => [] | Some a => [WBytes num (enc a)] end.

(** ** Sizes *)

(** math/bits.Len64 *)
Definition Len64 (x : Z) : Z := if x =? 0 then 0 else Z.log2 x + 1.

Definition sovTypes (x : Z) : Z := (Len64 (Z.lor x 1) + 6) / 7.

(** ** Writing: a buffer filled from its end *)

Definition buf_sub (i n : nat) : res nat :=
  if (n <=? i)%nat then Ok (i - n)%nat else Panic OutOfRange.

Definition store_byte (d : bytes) (i : nat) (b : byte) : res bytes :=
  if (i <? length d)%nat then Ok (<[i := b]> d) else Panic OutOfRange.

(** [copy(d[i:], src)] *)
Definition copy_at (d : bytes) (i : nat) (src : bytes) : res bytes :=
  if (i <=? length d)%nat
  then Ok (take i d ++ take (length d - i) src ++ drop (i + length src) d)
  else Panic OutOfRange.

Fixpoint put_varint_loop (fuel : nat) (d : bytes) (offset : nat) (v : Z) : res bytes :=
  match fuel with
  | O => Panic OutOfFuel
  | S fuel =>
      if v <? 128 then store_byte d offset (byte_of_Z v)
      else
        d' ← store_byte d offset (byte_of_Z (Z.lor (Z.land v 127) 128));
        put_varint_loop fuel d' (S offset) (Z.shiftr v 7)
  end.

Definition encodeVarintTypes (d : bytes) (offset : nat) (v : Z) : res (bytes * nat) :=
  base ← buf_sub offset (Z.to_nat (sovTypes v));
  d' ← put_varint_loop 10 d base v;
  mret (d', base).

Definition wstate : Type := bytes * nat.
Definition writer : Type := wstate -> res wstate.

(** [i--; dAtA[i] = tag] *)
Definition put_tag (tag : byte) : writer := fun '(d, i) =>
  i' ← buf_sub i 1; d' ← store_byte d i' tag; mret (d', i').

(** [if v != 0 { i = encodeVarintTypes(dAtA, i, v); i--; dAtA[i] = tag }] *)
Definition put_varint_field (tag : byte) (v : Z) : writer := fun '(d, i) =>
  if v =? 0 then Ok (d, i) else encodeVarintTypes d i v ≫= put_tag tag.

(** [if len(s) > 0 { i -= len(s); copy(dAtA[i:], s); i = encodeVarintTypes(dAtA, i, uint64(len(s))); i--; dAtA[i] = tag }] *)
Definition put_bytes_field (tag : byte) (s : bytes) : writer := fun '(d, i) =>
  if len s =? 0 then Ok (d, i)
  else
    i' ← buf_sub i (length s);
    d' ← copy_at d i' s;
    encodeVarintTypes d' i' (len s) ≫= put_tag tag.

(** [size, err := m.MarshalToSizedBuffer(dAtA[:i]); i -= size; i = encodeVarintTypes(dAtA, i, uint64(size)); i--; dAtA[i] = tag];
    the nested call writes through the slice [dAtA[:i]] of the same array. *)
Definition put_msg_field (tag : byte) (marshal : bytes -> res (bytes * nat)) : writer :=
  fun '(d, i) =>
    '(d1, size) ← marshal (take i d);
    i' ← buf_sub i size;
    encodeVarintTypes (d1 ++ drop i d) i' (Z.of_nat size) ≫= put_tag tag.

Definition put_opt_msg {A} (tag : byte) (marshal : A -> bytes -> res (bytes * nat))
    (m : option A) : writer := fun st =>
  match m with None => Ok st | Some a => put_msg_field tag (marshal a) st end.

(** The repeated-message loop: from the last element to the first. *)
Fixpoint put_rep_msg {A} (tag : byte) (marshal : A -> bytes -> res (bytes * nat))
    (ms : list A) : writer := fun st =>
  match ms with
  | [] => Ok st
  | a :: ms => put_rep_msg tag marshal ms st ≫= put_msg_field tag (marshal a)
  end.

(** A [MarshalToSizedBuffer]: starts at [i := len(dAtA)], returns the buffer and
    [len(dAtA) - i]. *)
Definition run_writer (w : writer) (d : bytes) : res (bytes * nat) :=
  '(d', i) ← w (d, length d); mret (d', (length d - i)%nat).

(** ** Reading *)

Definition byte_at (d : bytes) (i : Z) : res byte :=
  if (0 <=? i) then match d !! Z.to_nat i with Some b => Ok b | None => Panic OutOfRange end
  else Panic OutOfRange.

(** [d[lo:hi]] *)
Definition slice_range (d : bytes) (lo hi : Z) : res bytes :=
  if (0 <=? lo) && (lo <=? hi) && (hi <=? len d)
  then Ok (take (Z.to_nat (hi - lo)) (drop (Z.to_nat lo) d))
  else Panic OutOfRange.

(** The loop [for shift := uint(0); ; shift += 7 { ... }] that the generator
    inlines at every varint; it returns the accumulated [uint64] and the new
    [iNdEx]. *)
Fixpoint read_varint_loop (fuel : nat) (d : bytes) (iNdEx shift acc : Z) : res (Z * Z) :=
  match fuel with
  | O => Panic OutOfFuel
  | S fuel =>
      if 64 <=? shift then Err ErrIntOverflow
      else if len d <=? iNdEx then Err ErrUnexpectedEOF
      else
        b ← byte_at d iNdEx;
        let acc' := Z.lor acc (wrap64 (Z.shiftl (Z.land (Z_of_byte b) 127) shift)) in
        if Z_of_byte b <? 128 then Ok (acc', iNdEx + 1)
        else read_varint_loop fuel d (iNdEx + 1) (shift + 7) acc'
  end.
Definition read_uint64 (d : bytes) (iNdEx : Z) : res (Z * Z) :=
  read_varint_loop 11 d iNdEx 0 0.

(** The same loop into a variable of type [int]: the same 64 bits read as two's
    complement. *)
Definition read_int (d : bytes) (iNdEx : Z) : res (Z * Z) :=
  '(u, i) ← read_uint64 d iNdEx; mret (swrap64 u, i).

(** The length of a length-delimited field and its end, [postIndex], with the
    three checks; [iNdEx] after the length is the first component. *)
Definition read_bounds (d : bytes) (iNdEx : Z) : res (Z * Z) :=
  '(n, i) ← read_int d iNdEx;
  if n <? 0 then Err ErrInvalidLength
  else
    let postIndex := swrap64 (i + n) in
    if postIndex <? 0 then Err ErrInvalidLength
    else if len d <? postIndex then Err ErrUnexpectedEOF
    else Ok (i, postIndex).

(** A length-delimited payload [dAtA[iNdEx:postIndex]] and [postIndex]. *)
Definition read_delim (d : bytes) (iNdEx : Z) : res (bytes * Z) :=
  '(i, postIndex) ← read_bounds d iNdEx;
  b ← slice_range d i postIndex;
  mret (b, postIndex).

(** [for shift := uint(0); ; shift += 7] of [skipTypes], case 0. *)
Fixpoint skip_varint_loop (fuel : nat) (d : bytes) (iNdEx shift : Z) : res Z :=
  match fuel with
  | O => Panic OutOfFuel
  | S fuel =>
      if 64 <=? shift then Err ErrIntOverflow
      else if len d <=? iNdEx then Err ErrUnexpectedEOF
      else
        b ← byte_at d iNdEx;
        if Z_of_byte b <? 128 then Ok (iNdEx + 1)
        else skip_varint_loop fuel d (iNdEx + 1) (shift + 7)
  end.

Fixpoint skip_loop (fuel : nat) (d : bytes) (iNdEx depth : Z) : res Z :=
  if iNdEx <? len d then
    match fuel with
    | O => Panic OutOfFuel
    | S fuel =>
        '(wire, i) ← read_uint64 d iNdEx;
        '(i', depth') ←
          match Z.land wire 7 with
          | 0 => j ← skip_varint_loop 11 d i 0; mret (j, depth)
          | 1 => mret (swrap64 (i + 8), depth)
          | 2 => '(n, j) ← read_int d i;
                 if n <? 0 then Err ErrInvalidLength else mret (swrap64 (j + n), depth)
          | 3 => mret (i, depth + 1)
          | 4 => if depth =? 0 then Err ErrUnexpectedEndOfGroup else mret (i, depth - 1)
          | 5 => mret (swrap64 (i + 4), depth)
          | _ => Err ErrIllegalWireType
          end;
        if i' <? 0 then Err ErrInvalidLength
        else if depth' =? 0 then Ok i'
        else skip_loop fuel d i' depth'
    end
  else Err ErrUnexpectedEOF.
Definition skipTypes (d : bytes) : res Z := skip_loop (length d) d 0 0.

(** ** The reading loop of an [Unmarshal] method *)

(** [int32(x)] *)
Definition swrap32 (z : Z) : Z :=
  let u := z mod 2 ^ 32 in if u <? 2 ^ 31 then u else u - 2 ^ 32.

(** The body of [switch fieldNum] of a message: [None] is the default case. *)
Definition field_cases (Msg : Type) : Type :=
  bytes -> Z -> Z -> Z -> Msg -> option (res (Msg * Z)).

Section Unmarshal.
Context {Msg : Type} (cases : field_cases Msg).

(** One turn of [for iNdEx < l]. *)
Definition unmarshal_field (d : bytes) (iNdEx : Z) (m : Msg) : res (Msg * Z) :=
  '(wire, i) ← read_uint64 d iNdEx;
  let fieldNum := swrap32 (Z.shiftr wire 3) in
  let wireType := Z.land wire 7 in
  if wireType =? 4 then Err ErrEndGroup
  else if fieldNum <=? 0 then Err ErrIllegalTag
  else
    match cases d fieldNum wireType i m with
    | Some r => r
    | None =>
        rest ← slice_range d iNdEx (len d);
        skippy ← skipTypes rest;
        if skippy <? 0 then Err ErrInvalidLength
        else if swrap64 (iNdEx + skippy) <? 0 then Err ErrInvalidLength
        else if len d <? swrap64 (iNdEx + skippy) then Err ErrUnexpectedEOF
        else Ok (m, swrap64 (iNdEx + skippy))
    end.

(** The loop; the first component is the receiver when the method returns
    (before the failing field, when it returns an error). *)
Fixpoint unmarshal_loop (fuel : nat) (d : bytes) (m : Msg) (iNdEx : Z) : Msg * res unit :=
  if iNdEx <? len d then
    match fuel with
    | O => (m, Panic OutOfFuel)
    | S fuel =>
        match unmarshal_field d iNdEx m with
        | Ok (m', i) => unmarshal_loop fuel d m' i
        | Err e => (m, Err e)
        | Panic c => (m, Panic c)
        end
    end
  else (m, if len d <? iNdEx then Err ErrUnexpectedEOF else Ok tt).

Definition unmarshal (m : Msg) (d : bytes) : Msg * res unit :=
  unmarshal_loop (length d) d m 0.
End Unmarshal.

(** The receiver of a nested [Unmarshal] call, or its error. *)
Definition nested {A} (r : A * res unit) : res A :=
  match r with
  | (a, Ok _) => Ok a
  | (_, Err e) => Err e
  | (_, Panic c) => Panic c
  end.

(** ** Varints *)

Lemma lor_shifted a b s : 0 <= s -> 0 <= a < 2 ^ s -> Z.lor a (Z.shiftl b s) = a + b * 2 ^ s.
Proof.
  intros Hs Ha. rewrite <- Z.add_nocarry_lor; [by rewrite Z.shiftl_mul_pow2|].
  apply Z.bits_inj'. intros k Hk. rewrite Z.land_spec, Z.bits_0.
  destruct (decide (k < s)).
  - rewrite Z.shiftl_spec_low by lia. by rewrite andb_false_r.
  - rewrite <- (Z.mod_small a (2 ^ s)) by lia.
    rewrite Z.mod_pow2_bits_high by lia. done.
Qed.

Lemma land_127 v : Z.land v 127 = v mod 128.
Proof. change 127 with (Z.ones 7). by rewrite Z.land_ones by lia. Qed.

Lemma shiftr_7 v : Z.shiftr v 7 = v / 128.
Proof. by rewrite Z.shiftr_div_pow2 by lia. Qed.

Lemma group_byte v : 0 <= v -> Z.lor (Z.land v 127) 128 = v mod 128 + 128.
Proof.
  intros. rewrite land_127. change 128 with (Z.shiftl 1 7) at 2.
  rewrite lor_shifted; [change (2 ^ 7) with 128; lia|lia|].
  apply Z.mod_pos_bound. lia.
Qed.

Lemma varint_fuel_pow n v : 128 <= v < 2 ^ (7 * Z.of_nat (S n)) ->
  (1 <= n)%nat /\ 1 <= v / 128 < 2 ^ (7 * Z.of_nat n).
Proof.
  intros [Hlo Hhi]. replace (7 * Z.of_nat (S n)) with (7 + 7 * Z.of_nat n) in Hhi by lia.
  rewrite Z.pow_add_r in Hhi by lia. change (2 ^ 7) with 128 in Hhi.
  split.
  - destruct n; [|lia]. simpl in Hhi. lia.
  - split; [apply Z.div_le_lower_bound; lia|]. apply Z.div_lt_upper_bound; lia.
Qed.

Lemma lor_1_nonzero x : Z.lor x 1 <> 0.
Proof.
  intros E. apply (f_equal (fun z => Z.testbit z 0)) in E.
  rewrite Z.lor_spec, Z.bits_0 in E. by rewrite orb_true_r in E.
Qed.

Lemma sovTypes_small v : 0 <= v < 128 -> sovTypes v = 1.
Proof.
  intros. unfold sovTypes, Len64.
  assert (Hl : Z.log2 (Z.lor v 1) = Z.max (Z.log2 v) 0) by (rewrite Z.log2_lor; [done|lia..]).
  assert (0 <= Z.log2 v) by apply Z.log2_nonneg.
  assert (Z.log2 v < 7).
  { destruct (decide (v = 0)) as [->|]; [done|]. apply Z.log2_lt_pow2; lia. }
  rewrite (proj2 (Z.eqb_neq _ _)) by apply lor_1_nonzero. rewrite Hl.
  symmetry. apply (Z.div_unique_pos _ _ _ (Z.log2 v)); lia.
Qed.

Lemma sovTypes_big v : 128 <= v -> sovTypes v = 1 + sovTypes (v / 128).
Proof.
  intros. unfold sovTypes, Len64. rewrite <- shiftr_7.
  assert (Hp : 0 < Z.shiftr v 7).
  { rewrite shiftr_7. apply Z.div_str_pos. lia. }
  assert (H7 : 7 <= Z.log2 v) by (apply Z.log2_le_pow2; lia).
  rewrite !(proj2 (Z.eqb_neq _ _)) by apply lor_1_nonzero.
  rewrite !Z.log2_lor by lia. rewrite Z.log2_shiftr by lia.
  change (Z.log2 1) with 0.
  rewrite !Z.max_l by lia. rewrite Z.max_r by lia.
  replace (Z.log2 v + 1 + 6) with (Z.log2 v - 7 + 1 + 6 + 1 * 7) by lia.
  rewrite Z.div_add by lia. lia.
Qed.

Lemma varint_fuel_len n v : (1 <= n)%nat -> 0 <= v < 2 ^ (7 * Z.of_nat n) ->
  len (varint_fuel n v) = sovTypes v.
Proof.
  revert v. induction n as [|n IH]; intros v Hn Hv; [lia|].
  simpl varint_fuel. case_match; zbool.
  - by rewrite sovTypes_small by lia.
  - rewrite len_cons, shiftr_7, sovTypes_big by lia.
    destruct (varint_fuel_pow n v ltac:(lia)). rewrite IH; lia.
Qed.

Lemma u64_pow v : is_u64 v -> 0 <= v < 2 ^ (7 * Z.of_nat 10).
Proof.
  unfold is_u64. intros [? H]. split; [done|]. eapply Z.lt_trans; [exact H|]. done.
Qed.

Lemma sovTypes_varint v : is_u64 v -> sovTypes v = len (varint v).
Proof. intros H. symmetry. apply varint_fuel_len; [lia|]. by apply u64_pow. Qed.

Lemma varint_one v : 0 <= v < 128 -> varint v = [byte_of_Z v].
Proof.
  intros. unfold varint. cbn [varint_fuel]. by rewrite (proj2 (Z.ltb_lt v 128)) by lia.
Qed.

Lemma varint_fuel_nonempty n v : (1 <= n)%nat -> 1 <= len (varint_fuel n v).
Proof.
  destruct n; [lia|]. intros _. simpl.
  case_match; rewrite len_cons; pose proof (len_nonneg (A := byte)); [done|].
  specialize (H0 (varint_fuel n (Z.shiftr v 7))). lia.
Qed.

(** ** Reading back a varint *)

Lemma byte_at_app pre b suf : byte_at (pre ++ b :: suf) (len pre) = Ok b.
Proof.
  unfold byte_at, len. rewrite (proj2 (Z.leb_le _ _)) by lia.
  rewrite Nat2Z.id, list_lookup_middle; done.
Qed.

Lemma read_varint_loop_spec n fuel d pre suf v shift acc :
  (1 <= n)%nat -> (n <= fuel)%nat ->
  d = pre ++ varint_fuel n v ++ suf ->
  0 <= v < 2 ^ (7 * Z.of_nat n) -> 0 <= shift < 64 -> v * 2 ^ shift < two64 ->
  0 <= acc < 2 ^ shift ->
  read_varint_loop fuel d (len pre) shift acc
  = Ok (acc + v * 2 ^ shift, len pre + len (varint_fuel n v)).
Proof.
  revert fuel pre v shift acc.
  induction n as [|n IH]; intros fuel pre v shift acc Hn Hf Hd Hv Hs Hmax Hacc; [lia|].
  destruct fuel as [|fuel]; [lia|]. simpl read_varint_loop.
  rewrite (proj2 (Z.leb_gt 64 shift)) by lia.
  assert (Hpow : 0 < 2 ^ shift) by (apply Z.pow_pos_nonneg; lia).
  assert (Hlow : v mod 128 <= v) by (apply Z.mod_le; lia).
  assert (Hm := Z.mod_pos_bound v 128 ltac:(lia)).
  assert (Hw : wrap64 (Z.shiftl (v mod 128) shift) = Z.shiftl (v mod 128) shift).
  { apply wrap64_small. rewrite Z.shiftl_mul_pow2 by lia. split; [lia|].
    apply Z.le_lt_trans with (v * 2 ^ shift); [|done]. nia. }
  simpl in Hd. destruct (v <? 128) eqn:E; zbool.
  - simpl varint_fuel. rewrite (proj2 (Z.ltb_lt v 128)) by lia.
    subst d. simpl app. rewrite (proj2 (Z.leb_gt _ _)).
    2:{ rewrite len_app, len_cons. pose proof (len_nonneg suf). lia. }
    rewrite byte_at_app. simpl. rewrite Z_of_byte_of_Z, (Z.mod_small v 256) by lia.
    rewrite (proj2 (Z.ltb_lt v 128)), land_127, Hw, lor_shifted, Z.mod_small by lia.
    done.
  - destruct (varint_fuel_pow n v ltac:(lia)) as [Hn' Hv'].
    assert (Hb : Z_of_byte (byte_of_Z (Z.lor (Z.land v 127) 128)) = v mod 128 + 128).
    { rewrite group_byte, Z_of_byte_of_Z, Z.mod_small by lia. done. }
    set (b := byte_of_Z (Z.lor (Z.land v 127) 128)) in *.
    assert (Hd2 : d = (pre ++ [b]) ++ varint_fuel n (v / 128) ++ suf).
    { rewrite Hd, shiftr_7, <- app_assoc. done. }
    simpl app in Hd.
    rewrite (proj2 (Z.leb_gt _ _)).
    2:{ rewrite Hd, len_app, len_cons. pose proof (len_nonneg (varint_fuel n (v ≫ 7) ++ suf)). lia. }
    rewrite Hd at 1. rewrite byte_at_app. simpl. rewrite Hb.
    rewrite (proj2 (Z.ltb_ge _ _)) by lia.
    rewrite land_127.
    replace ((v mod 128 + 128) mod 128) with (v mod 128).
    2:{ rewrite <- (Z.mul_1_l 128) at 3. rewrite Z_mod_plus_full, Z.mod_mod by lia. done. }
    rewrite Hw, lor_shifted by lia.
    assert (Hdiv : v = 128 * (v / 128) + v mod 128) by (apply Z.div_mod; lia).
    assert (Hps : 2 ^ (shift + 7) = 2 ^ shift * 128) by (rewrite Z.pow_add_r by lia; done).
    assert (shift + 7 < 64).
    { apply (Z.pow_lt_mono_r_iff 2); [lia..|]. apply Z.le_lt_trans with (v * 2 ^ shift); [nia|done]. }
    replace (len pre + 1) with (len (pre ++ [b])) by (rewrite len_app; done).
    rewrite (IH fuel (pre ++ [b]) (v / 128) (shift + 7)); [|lia|lia|done|lia|lia|nia|nia].
    rewrite len_app, len_cons, len_nil.
    simpl varint_fuel. rewrite (proj2 (Z.ltb_ge v 128)) by lia. rewrite len_cons, ?shiftr_7.
    f_equal. f_equal; [|lia]. rewrite Hps. nia.
Qed.

Lemma read_uint64_spec d pre suf v :
  d = pre ++ varint v ++ suf -> is_u64 v ->
  read_uint64 d (len pre) = Ok (v, len pre + len (varint v)).
Proof.
  intros Hd Hv. unfold read_uint64.
  rewrite (read_varint_loop_spec 10 11 d pre suf v 0 0); try lia.
  - f_equal. f_equal. change (2 ^ 0) with 1. lia.
  - done.
  - by apply u64_pow.
  - unfold is_u64 in Hv. lia.
Qed.

(** ** Writing lemmas *)

(** [w] writes exactly [e] just below the index, whatever was there. *)
Definition writes (w : writer) (e : bytes) : Prop :=
  forall pre mid suf, length mid = length e ->
  w (pre ++ mid ++ suf, length (pre ++ mid)) = Ok (pre ++ e ++ suf, length pre).

(** A [MarshalToSizedBuffer] that writes exactly [e] at the end of its buffer
    and returns how much it wrote. *)
Definition marshals (f : bytes -> res (bytes * nat)) (e : bytes) : Prop :=
  forall pre mid, length mid = length e ->
  f (pre ++ mid) = Ok (pre ++ e, length e).

Lemma split_length {A} (l : list A) (n m : nat) : length l = (n + m)%nat ->
  exists l1 l2, l = l1 ++ l2 /\ length l1 = n /\ length l2 = m.
Proof.
  intros H. exists (take n l), (drop n l).
  rewrite take_drop, length_take, length_drop. split_and!; [done|lia..].
Qed.

Lemma writes_nil : writes (fun st => Ok st) [].
Proof.
  intros pre mid suf H. apply nil_length_inv in H as ->. by rewrite app_nil_r.
Qed.

Lemma writes_seq w1 w2 e1 e2 :
  writes w1 e1 -> writes w2 e2 -> writes (fun st => w1 st ≫= w2) (e2 ++ e1).
Proof.
  intros H1 H2 pre mid suf Hl. rewrite length_app in Hl.
  destruct (split_length mid _ _ Hl) as (m2 & m1 & -> & L2 & L1).
  specialize (H1 (pre ++ m2) m1 suf L1). rewrite <- !app_assoc in H1 |- *.
  rewrite H1. simpl.
  rewrite <- app_assoc. by rewrite (H2 pre m2 (e1 ++ suf) L2).
Qed.

Lemma buf_sub_app {A} (pre mid : list A) :
  buf_sub (length (pre ++ mid)) (length mid) = Ok (length pre).
Proof.
  unfold buf_sub. rewrite length_app, (proj2 (Nat.leb_le _ _)) by lia. f_equal. lia.
Qed.

Lemma store_byte_app pre x suf b :
  store_byte (pre ++ x :: suf) (length pre) b = Ok (pre ++ b :: suf).
Proof.
  unfold store_byte. rewrite (proj2 (Nat.ltb_lt _ _)) by (rewrite length_app; simpl; lia).
  by rewrite insert_app_r_alt, Nat.sub_diag by lia.
Qed.

Lemma put_varint_loop_spec n pre mid suf v :
  (1 <= n)%nat -> 0 <= v < 2 ^ (7 * Z.of_nat n) ->
  length mid = length (varint_fuel n v) ->
  put_varint_loop n (pre ++ mid ++ suf) (length pre) v = Ok (pre ++ varint_fuel n v ++ suf).
Proof.
  revert pre mid v. induction n as [|n IH]; intros pre mid v Hn Hv; [lia|].
  simpl. case_match; zbool; intros Hl; destruct mid as [|x mid]; try done; simpl app.
  - destruct mid; [|done]. apply store_byte_app.
  - rewrite store_byte_app. simpl. destruct (varint_fuel_pow n v ltac:(lia)).
    injection Hl as Hl. rewrite shiftr_7 in Hl |- *.
    rewrite cons_middle, app_assoc. replace (S (length pre)) with (length (pre ++ [byte_of_Z (Z.lor (Z.land v 127) 128)]))
      by (rewrite length_app; simpl; lia).
    rewrite IH by (done || lia). by rewrite <- app_assoc.
Qed.

Lemma encodeVarint_writes v : is_u64 v ->
  writes (fun '(d, i) => encodeVarintTypes d i v) (varint v).
Proof.
  intros Hv pre mid suf Hl. unfold encodeVarintTypes.
  rewrite sovTypes_varint by done. unfold len. rewrite Nat2Z.id, <- Hl, buf_sub_app.
  cbn [mbind res_bind]. rewrite (put_varint_loop_spec 10) by (try apply u64_pow; done || lia).
  done.
Qed.

Lemma put_tag_writes t : writes (put_tag t) [t].
Proof.
  intros pre [|x [|]] suf; try done. intros _. unfold put_tag.
  change 1%nat with (length [x]). rewrite buf_sub_app. simpl. by rewrite store_byte_app.
Qed.

(** A tag byte is the varint of its field number and wire type. *)
Definition tag_ok (t : byte) (tag : Z) : Prop := 0 <= tag < 128 /\ t = byte_of_Z tag.

Lemma put_varint_field_writes t num v :
  tag_ok t (num * 8) -> is_u64 v ->
  writes (put_varint_field t v) (enc_fields (opt_varint num v)).
Proof.
  intros [Ht ->] Hv. unfold put_varint_field, opt_varint.
  case_match; zbool; [exact writes_nil|].
  unfold enc_fields, enc_field. simpl. rewrite app_nil_r, varint_one by done.
  exact (writes_seq _ _ _ _ (encodeVarint_writes v Hv) (put_tag_writes _)).
Qed.

Lemma copy_at_app pre mid suf b : length mid = length b ->
  copy_at (pre ++ mid ++ suf) (length pre) b = Ok (pre ++ b ++ suf).
Proof.
  intros Hl. unfold copy_at.
  rewrite (proj2 (Nat.leb_le _ _)) by (rewrite length_app; lia).
  rewrite take_app_length. do 2 f_equal.
  rewrite take_ge by (rewrite !length_app; lia).
  rewrite drop_app_add, <- Hl, drop_app_length. done.
Qed.

(** The length prefix and the tag that precede a payload already in place. *)
Lemma prefix_writes t num n : tag_ok t (num * 8 + 2) -> is_u64 n ->
  writes (fun '(d, i) => encodeVarintTypes d i n ≫= put_tag t)
    (varint (num * 8 + 2) ++ varint n).
Proof.
  intros [Ht ->] Hn. rewrite varint_one by done.
  exact (writes_seq _ _ _ _ (encodeVarint_writes n Hn) (put_tag_writes _)).
Qed.

Lemma enc_WBytes num b :
  enc_field (WBytes num b) = (varint (num * 8 + 2) ++ varint (len b)) ++ b.
Proof. unfold enc_field. simpl. by rewrite <- app_assoc. Qed.

Lemma put_bytes_field_writes t num b :
  tag_ok t (num * 8 + 2) -> len b < two64 ->
  writes (put_bytes_field t b) (enc_fields (opt_bytes num b)).
Proof.
  intros Ht Hb. unfold put_bytes_field, opt_bytes.
  destruct b as [|x b]; [exact writes_nil|].
  set (bs := x :: b) in *. rewrite (proj2 (Z.eqb_neq (len bs) 0)) by (unfold bs, len; simpl; lia).
  unfold enc_fields. simpl fmap. simpl concat. rewrite app_nil_r, enc_WBytes.
  intros pre mid suf Hl. rewrite length_app in Hl.
  destruct (split_length mid _ _ Hl) as (m1 & mb & -> & L1 & Lb).
  rewrite <- (app_assoc m1 mb suf), !(app_assoc pre m1).
  rewrite <- Lb at 1. rewrite buf_sub_app. cbn [mbind res_bind].
  rewrite copy_at_app by done. cbn [mbind res_bind]. rewrite <- !(app_assoc pre), <- app_assoc.
  apply (prefix_writes t num (len bs) Ht); [|done]. split; [apply len_nonneg|done].
Qed.

Lemma put_msg_field_writes t num f e :
  tag_ok t (num * 8 + 2) -> len e < two64 -> marshals f e ->
  writes (put_msg_field t f) (enc_field (WBytes num e)).
Proof.
  intros Ht He Hf. rewrite enc_WBytes.
  intros pre mid suf Hl. rewrite length_app in Hl.
  destruct (split_length mid _ _ Hl) as (m1 & mb & -> & L1 & Lb).
  unfold put_msg_field. rewrite (app_assoc pre (m1 ++ mb) suf), take_app_length, drop_app_length.
  rewrite (app_assoc pre m1 mb), (Hf (pre ++ m1) mb Lb). cbn [mbind res_bind].
  rewrite <- Lb at 1. rewrite buf_sub_app. cbn [mbind res_bind].
  assert (Hu : is_u64 (len e)) by (split; [apply len_nonneg|done]).
  pose proof (prefix_writes t num (len e) Ht Hu pre m1 (e ++ suf) L1) as Hp.
  rewrite <- !app_assoc in Hp. rewrite <- !app_assoc. exact Hp.
Qed.

Lemma put_opt_msg_writes {A} t num (f : A -> bytes -> res (bytes * nat)) enc (m : option A) :
  tag_ok t (num * 8 + 2) ->
  (forall a, m = Some a -> len (enc a) < two64 /\ marshals (f a) (enc a)) ->
  writes (put_opt_msg t f m) (enc_fields (opt_msg num enc m)).
Proof.
  intros Ht Hm. unfold put_opt_msg, opt_msg. destruct m as [a|]; [|exact writes_nil].
  destruct (Hm a eq_refl). unfold enc_fields. simpl fmap. simpl concat. rewrite app_nil_r.
  by apply put_msg_field_writes.
Qed.

Lemma put_rep_msg_writes {A} t num (f : A -> bytes -> res (bytes * nat)) enc (ms : list A) :
  tag_ok t (num * 8 + 2) ->
  Forall (fun a => len (enc a) < two64 /\ marshals (f a) (enc a)) ms ->
  writes (put_rep_msg t f ms) (enc_fields ((fun a => WBytes num (enc a)) <$> ms)).
Proof.
  intros Ht Hm. induction Hm as [|a ms [Ha Hf] _ IH]; [exact writes_nil|].
  apply (writes_seq _ _ _ (enc_field (WBytes num (enc a))) IH).
  by apply put_msg_field_writes.
Qed.

Lemma run_writer_marshals w e : writes w e -> marshals (run_writer w) e.
Proof.
  intros H pre mid Hl. unfold run_writer.
  specialize (H pre mid [] Hl). rewrite !app_nil_r in H. rewrite H. simpl.
  do 2 f_equal. rewrite length_app. lia.
Qed.

Lemma enc_fields_app fs gs : enc_fields (fs ++ gs) = enc_fields fs ++ enc_fields gs.
Proof. unfold enc_fields. by rewrite fmap_app, concat_app. Qed.

(** A message is written field by field, the last field first. *)
Lemma writes_fields w1 w2 fs gs :
  writes w1 (enc_fields gs) -> writes w2 (enc_fields fs) ->
  writes (fun st => w1 st ≫= w2) (enc_fields (fs ++ gs)).
Proof. rewrite enc_fields_app. apply writes_seq. Qed.

(** ** Reading lemmas *)

Lemma read_bounds_spec d pre suf b :
  d = pre ++ (varint (len b) ++ b) ++ suf -> len d < two63 ->
  read_bounds d (len pre) =
  Ok (len (pre ++ varint (len b)), len (pre ++ varint (len b) ++ b)).
Proof.
  intros Hd Hlen. assert (Hb : len b < two63).
  { rewrite Hd, !len_app in Hlen. pose proof (len_nonneg pre).
    pose proof (len_nonneg suf). pose proof (len_nonneg (varint (len b))). lia. }
  assert (Hu : is_u64 (len b)).
  { split; [apply len_nonneg|]. eapply Z.lt_trans; [exact Hb|done]. }
  unfold read_bounds, read_int.
  rewrite (read_uint64_spec d pre (b ++ suf) (len b)); [|by rewrite <- app_assoc in Hd|done].
  cbn [mbind res_bind]. pose proof (len_nonneg b).
  rewrite (swrap64_small (len b)) by lia. simpl.
  rewrite (proj2 (Z.ltb_ge (len b) 0)) by lia.
  assert (Hle : len (pre ++ varint (len b) ++ b) <= len d).
  { rewrite Hd, !len_app. pose proof (len_nonneg suf). lia. }
  rewrite !len_app in *. pose proof (len_nonneg pre). pose proof (len_nonneg (varint (len b))).
  rewrite Z.add_assoc in *. rewrite swrap64_small by lia.
  rewrite (proj2 (Z.ltb_ge _ 0)), (proj2 (Z.ltb_ge (len d) _)) by lia. done.
Qed.

Lemma slice_range_app pre b suf :
  slice_range (pre ++ b ++ suf) (len pre) (len (pre ++ b)) = Ok b.
Proof.
  unfold slice_range. rewrite !len_app.
  pose proof (len_nonneg pre). pose proof (len_nonneg b). pose proof (len_nonneg suf).
  rewrite !(proj2 (Z.leb_le _ _)) by lia. simpl. f_equal.
  replace (Z.to_nat (len pre)) with (length pre) by (unfold len; lia).
  rewrite drop_app_length.
  replace (Z.to_nat (len pre + len b - len pre)) with (length b) by (unfold len; lia).
  apply take_app_length.
Qed.

Lemma read_delim_spec d pre suf b :
  d = pre ++ (varint (len b) ++ b) ++ suf -> len d < two63 ->
  read_delim d (len pre) = Ok (b, len pre + len (varint (len b) ++ b)).
Proof.
  intros Hd Hlen. unfold read_delim. rewrite (read_bounds_spec d pre suf b) by done.
  cbn [mbind res_bind]. rewrite (app_assoc pre), Hd.
  replace (pre ++ (varint (len b) ++ b) ++ suf) with ((pre ++ varint (len b)) ++ b ++ suf)
    by (by rewrite <- !app_assoc).
  rewrite slice_range_app. simpl. do 2 f_equal. rewrite !len_app. lia.
Qed.

Section Steps.
Context {Msg : Type} (cases : field_cases Msg).

(** One field of the input takes the receiver from [m] to [m']. *)
Definition step_ok (f : wfield) (m m' : Msg) : Prop :=
  forall d pre suf, d = pre ++ enc_field f ++ suf -> len d < two63 ->
  unmarshal_field cases d (len pre) m = Ok (m', len pre + len (enc_field f)).

Inductive steps : list wfield -> Msg -> Msg -> Prop :=
| steps_nil m : steps [] m m
| steps_cons f fs m m' m'' : step_ok f m m' -> steps fs m' m'' -> steps (f :: fs) m m''.

Lemma steps_app fs gs m m' m'' :
  steps fs m m' -> steps gs m' m'' -> steps (fs ++ gs) m m''.
Proof. induction 1; simpl; [done|]. econstructor; eauto. Qed.

(** The tag of a field, read back. *)
Lemma field_tag_spec num wt d pre suf m :
  1 <= num < 16 -> 0 <= wt < 8 -> wt <> 4 ->
  d = pre ++ varint (num * 8 + wt) ++ suf ->
  unmarshal_field cases d (len pre) m =
  match cases d num wt (len (pre ++ varint (num * 8 + wt))) m with
  | Some r => r
  | None => unmarshal_field cases d (len pre) m
  end.
Proof.
  intros Hn Hw H4 Hd. unfold unmarshal_field.
  rewrite (read_uint64_spec d pre suf (num * 8 + wt)) by (done || (split; [lia|]; eapply Z.lt_trans with 128; [lia|done])).
  cbn [mbind res_bind]. rewrite len_app.
  replace (Z.shiftr (num * 8 + wt) 3) with num.
  2:{ rewrite Z.shiftr_div_pow2 by lia. change (2 ^ 3) with 8.
      rewrite Z.add_comm, Z.div_add, Z.div_small by lia. lia. }
  replace (Z.land (num * 8 + wt) 7) with wt.
  2:{ change 7 with (Z.ones 3). rewrite Z.land_ones by lia. change (2 ^ 3) with 8.
      rewrite Z.add_comm, Z.mod_add, Z.mod_small by lia. done. }
  assert (Hs : swrap32 num = num).
  { unfold swrap32. rewrite Z.mod_small by lia. by rewrite (proj2 (Z.ltb_lt _ _)) by lia. }
  rewrite Hs, (proj2 (Z.eqb_neq wt 4)), (proj2 (Z.leb_gt num 0)) by lia.
  by destruct (cases d num wt _ m).
Qed.

Lemma step_varint num v m m' :
  1 <= num < 16 -> is_u64 v ->
  (forall d i j, read_uint64 d i = Ok (v, j) -> cases d num 0 i m = Some (Ok (m', j))) ->
  step_ok (WVarint num v) m m'.
Proof.
  intros Hn Hv Hc d pre suf Hd Hlen. unfold enc_field in *. simpl in *.
  rewrite <- (Z.add_0_r (num * 8)) in *. rewrite <- app_assoc in Hd.
  rewrite (field_tag_spec num 0 _ _ _ _ Hn ltac:(lia) ltac:(lia) Hd).
  erewrite Hc; [reflexivity|].
  rewrite (read_uint64_spec d (pre ++ varint (num * 8 + 0)) suf v);
    [by rewrite !len_app, Z.add_assoc|by rewrite <- app_assoc|done].
Qed.

Lemma step_bytes num b m m' :
  1 <= num < 16 ->
  (forall d i j, read_delim d i = Ok (b, j) -> cases d num 2 i m = Some (Ok (m', j))) ->
  step_ok (WBytes num b) m m'.
Proof.
  intros Hn Hc d pre suf Hd Hlen. unfold enc_field in *. simpl in *. rewrite <- app_assoc in Hd.
  rewrite (field_tag_spec num 2 _ _ _ _ Hn ltac:(lia) ltac:(lia) Hd).
  erewrite Hc; [reflexivity|].
  rewrite (read_delim_spec d (pre ++ varint (num * 8 + 2)) suf b);
    [by rewrite !len_app, !Z.add_assoc|by rewrite <- !app_assoc in *|done].
Qed.

Lemma unmarshal_loop_steps fs m m' d pre fuel :
  steps fs m m' -> d = pre ++ enc_fields fs -> len d < two63 ->
  (length (enc_fields fs) <= fuel)%nat ->
  unmarshal_loop cases fuel d m (len pre) = (m', Ok tt).
Proof.
  intros Hs. revert pre fuel. induction Hs as [m|f fs m m' m'' Hf Hs IH]; intros pre fuel Hd Hlen Hfu.
  - assert (d = pre) as -> by (rewrite Hd; unfold enc_fields; simpl; apply app_nil_r).
    destruct fuel; simpl; by rewrite Z.ltb_irrefl.
  - change (f :: fs) with ([f] ++ fs) in *. rewrite enc_fields_app in *.
    assert (E1 : enc_fields [f] = enc_field f) by apply app_nil_r. rewrite E1 in *.
    assert (Hpos : 1 <= len (enc_field f)).
    { unfold enc_field. rewrite len_app.
      pose proof (varint_fuel_nonempty 10 (wfield_tag f) ltac:(lia)) as Hv.
      change (varint_fuel 10 (wfield_tag f)) with (varint (wfield_tag f)) in Hv.
      match goal with |- _ <= _ + len ?x => pose proof (len_nonneg x) end. lia. }
    rewrite length_app in Hfu. unfold len in Hpos. destruct fuel as [|fuel]; [lia|]. simpl.
    rewrite (proj2 (Z.ltb_lt _ _)).
    2:{ rewrite Hd, !len_app. pose proof (len_nonneg (enc_fields fs)). unfold len. lia. }
    rewrite (Hf d pre (enc_fields fs) Hd Hlen).
    replace (len pre + len (enc_field f)) with (len (pre ++ enc_field f)) by apply len_app.
    apply IH; [by rewrite <- app_assoc|done|lia].
Qed.

Lemma unmarshal_steps fs m m' :
  steps fs m m' -> len (enc_fields fs) < two63 ->
  unmarshal cases m (enc_fields fs) = (m', Ok tt).
Proof.
  intros Hs Hl. unfold unmarshal. apply (unmarshal_loop_steps fs m m' _ []); done.
Qed.
End Steps.

(** ** No panic, no runaway loop, 64-bit values *)

Lemma byte_at_safe d i : 0 <= i < len d -> safe (fun _ => True) (byte_at d i).
Proof.
  intros H. unfold byte_at. rewrite (proj2 (Z.leb_le 0 i)) by lia.
  destruct (lookup_lt_is_Some_2 d (Z.to_nat i)) as [b ->]; [unfold len in H; lia|done].
Qed.

Lemma read_varint_loop_safe fuel d i shift acc :
  0 <= i -> 64 <= shift + 7 * (Z.of_nat fuel - 1) -> (1 <= fuel)%nat -> is_u64 acc ->
  safe (fun '(v, j) => is_u64 v /\ i < j <= len d) (read_varint_loop fuel d i shift acc).
Proof.
  revert i shift acc. induction fuel as [|fuel IH]; intros i shift acc Hi Hs Hf Hacc; [lia|].
  simpl. split_ifs; try done.
  eapply safe_bind; [apply byte_at_safe; lia|]. intros b _.
  assert (is_u64 (Z.lor acc (wrap64 (Z.shiftl (Z.land (Z_of_byte b) 127) shift))))
    by (apply u64_lor; [done|apply wrap64_u64]).
  split_ifs; simpl; [split; [done|lia]|].
  eapply safe_mono; [apply IH; try done; lia|]. intros [v j]. simpl. intros [? ?]. split; [done|lia].
Qed.

Lemma read_uint64_safe d i : 0 <= i ->
  safe (fun '(v, j) => is_u64 v /\ i < j <= len d) (read_uint64 d i).
Proof. intros. apply read_varint_loop_safe; [done|lia|lia|done]. Qed.

Lemma read_int_safe d i : 0 <= i ->
  safe (fun '(n, j) => - two63 <= n < two63 /\ i < j <= len d) (read_int d i).
Proof.
  intros. eapply safe_bind; [by apply read_uint64_safe|]. intros [v j] [? ?]. simpl.
  split; [apply swrap64_range|done].
Qed.

Lemma read_bounds_safe d i : 0 <= i -> len d < two63 ->
  safe (fun '(j, p) => i < j <= p /\ p <= len d) (read_bounds d i).
Proof.
  intros Hi Hd. eapply safe_bind; [by apply read_int_safe|]. intros [n j] [Hn Hj]. simpl.
  split_ifs; simpl; try done. destruct (swrap64_add j n); lia.
Qed.

Lemma slice_range_safe d lo hi : 0 <= lo <= hi -> hi <= len d ->
  safe (fun b => len b = hi - lo) (slice_range d lo hi).
Proof.
  intros. unfold slice_range. rewrite !(proj2 (Z.leb_le _ _)) by lia. simpl.
  unfold len in *. rewrite length_take, length_drop. lia.
Qed.

Lemma read_delim_safe d i : 0 <= i -> len d < two63 ->
  safe (fun '(b, j) => len b <= len d /\ i < j <= len d) (read_delim d i).
Proof.
  intros. eapply safe_bind; [by apply read_bounds_safe|]. intros [j p] [? ?].
  eapply safe_bind; [apply slice_range_safe; lia|]. simpl. intros b Hb. lia.
Qed.

Lemma skip_varint_loop_safe fuel d i shift :
  0 <= i -> 64 <= shift + 7 * (Z.of_nat fuel - 1) -> (1 <= fuel)%nat ->
  safe (fun j => i < j <= len d) (skip_varint_loop fuel d i shift).
Proof.
  revert i shift. induction fuel as [|fuel IH]; intros i shift Hi Hs Hf; [lia|].
  simpl. split_ifs; try done.
  eapply safe_bind; [apply byte_at_safe; lia|]. intros b _.
  split_ifs; simpl; [lia|].
  eapply safe_mono; [apply IH; lia|]. simpl. intros. lia.
Qed.

Arguments read_varint_loop : simpl never.
Arguments skip_varint_loop : simpl never.

Lemma skip_loop_safe fuel d i depth :
  0 <= i -> len d < two63 -> len d - i <= Z.of_nat fuel ->
  safe (fun j => i < j < two63) (skip_loop fuel d i depth).
Proof.
  revert i depth. induction fuel as [|fuel IH]; intros i depth Hi Hd Hf; simpl;
    destruct (i <? len d) eqn:E; zbool; try done; try lia.
  eapply safe_bind; [by apply read_uint64_safe|]. intros [wire j] [_ Hj].
  eapply (safe_bind (fun '(i', _) => i' < 0 \/ i < i' < two63)).
  - assert (Hadd : forall n, 0 <= n < two63 -> swrap64 (j + n) < 0 \/ i < swrap64 (j + n) < two63).
    { intros n Hn. pose proof (swrap64_range (j + n)).
      destruct (swrap64_add j n ltac:(lia) Hn); lia. }
    assert (two63 = 2 ^ 63) by done.
    destruct (Z.land wire 7) as [|p|p]; [|do 3 try destruct p as [p|p|]|];
      split_ifs; simpl; try done; try (right; lia); try (apply Hadd; lia).
    + eapply safe_bind; [apply skip_varint_loop_safe; lia|]. simpl. intros k Hk. right. lia.
    + eapply safe_bind; [apply read_int_safe; lia|]. simpl. intros [n k] [Hn Hk].
      split_ifs; simpl; [done|]. pose proof (swrap64_range (k + n)).
      destruct (swrap64_add k n); lia.
  - intros [i' depth'] Hi'. split_ifs; simpl; try done; [lia|].
    eapply safe_mono; [apply IH; lia|]. simpl. lia.
Qed.

Lemma skipTypes_safe d : len d < two63 -> safe (fun j => 0 < j < two63) (skipTypes d).
Proof. intros. apply skip_loop_safe; [lia|done|unfold len; lia]. Qed.

Section UnmarshalWithin.
Context {Msg : Type} (cases : field_cases Msg) (wf : Msg -> Prop) (N : Z) (HN : N < two63).

(** The switch never panics, moves forward inside an input of at most [N] bytes and
    keeps [wf]. *)
Definition cases_within : Prop := forall d num wt i m,
  0 <= i <= len d -> len d <= N -> wf m ->
  match cases d num wt i m with
  | None => True
  | Some r => safe (fun '(m', j) => wf m' /\ i <= j <= len d) r
  end.

Hypothesis Hcases : cases_within.

Lemma unmarshal_field_within d i m :
  0 <= i < len d -> len d <= N -> wf m ->
  safe (fun '(m', j) => wf m' /\ i < j <= len d) (unmarshal_field cases d i m).
Proof.
  intros Hi Hd Hm. eapply safe_bind; [apply read_uint64_safe; lia|]. intros [wire j] [_ Hj].
  cbv zeta. do 2 (case_match; [done|]).
  pose proof (Hcases d (swrap32 (wire ≫ 3)) (Z.land wire 7) j m ltac:(lia) Hd Hm) as Hc.
  destruct (cases d _ _ j m) as [r|].
  - eapply safe_mono; [exact Hc|]. intros [m' k] [? ?]. split; [done|lia].
  - eapply safe_bind; [apply slice_range_safe; lia|]. intros rest Hrest. simpl in Hrest.
    eapply safe_bind; [apply skipTypes_safe; lia|]. intros skippy Hskip. simpl in Hskip.
    split_ifs; simpl; try done. destruct (swrap64_add i skippy); [lia..| |lia].
    split; [done|lia].
Qed.

Lemma unmarshal_loop_within fuel d m i :
  0 <= i <= len d -> len d <= N -> wf m -> len d - i <= Z.of_nat fuel ->
  wf (fst (unmarshal_loop cases fuel d m i))
  /\ is_panic (snd (unmarshal_loop cases fuel d m i)) = false.
Proof.
  revert m i. induction fuel as [|fuel IH]; intros m i Hi Hd Hm Hf; simpl; split_ifs; try done; try lia.
  pose proof (unmarshal_field_within d i m ltac:(lia) Hd Hm) as Hs.
  destruct (unmarshal_field cases d i m) as [[m' j]|e|c]; [|done|done].
  destruct Hs. apply IH; [lia|done|done|lia].
Qed.

Lemma unmarshal_within d m : len d <= N -> wf m ->
  wf (fst (unmarshal cases m d)) /\ is_panic (snd (unmarshal cases m d)) = false.
Proof. intros. apply unmarshal_loop_within; try done; unfold len; lia. Qed.
End UnmarshalWithin.

Lemma unmarshal_safe {Msg} (cases : field_cases Msg) (wf : Msg -> Prop) d m :
  cases_within cases wf (two63 - 1) -> len d < two63 -> wf m ->
  wf (fst (unmarshal cases m d)) /\ is_panic (snd (unmarshal cases m d)) = false.
Proof. intros Hc Hd Hm. by apply (unmarshal_within cases wf (two63 - 1)); [lia|done|lia|]. Qed.
