(* ===== verification/Types.v ===== *)
(** * The messages of types.proto, as the structs of types/types.pb.go

    One record per generated struct.  A [[]byte] field is a [slice], a pointer
    to a message an [option]; the elements of a repeated message field are the
    non-nil pointers that [Unmarshal] and the callers build.  [uint64] fields
    are [Z]; the [wf] predicates of Codec.v keep them in range. *)

From Stdlib Require Import ZArith.
From S2P Require Import Prelude.

Record Transaction : Type := mkTransaction {
  Transaction_Account : slice;
  Transaction_Nonce : Z;
  Transaction_Data : slice;
  Transaction_Sig : slice;
}.

Record Data : Type := mkData { Data_Data : list Transaction }.

Record AggregatedSignature : Type := mkAggregatedSignature {
  AggregatedSignature_Voters : list Z;
  AggregatedSignature_Sig : slice;
}.

Record Certificate : Type := mkCertificate {
  Certificate_Block : slice;
  Certificate_Sig : option AggregatedSignature;
}.

Record TimeoutCertificate : Type := mkTimeoutCertificate {
  TimeoutCertificate_View : Z;
  TimeoutCertificate_Sig : option AggregatedSignature;
}.

Record Header : Type := mkHeader {
  Header_View : Z;
  Header_Parent : slice;
  Header_ParentView : Z;
  Header_DataRoot : slice;
  Header_StateRoot : slice;
}.

Record Vote : Type := mkVote {
  Vote_Block : slice;
  Vote_View : Z;
  Vote_Voter : Z;
  Vote_Sig : slice;
}.

Record NewView : Type := mkNewView {
  NewView_View : Z;
  NewView_Voter : Z;
  NewView_Sig : slice;
  NewView_Cert : option Certificate;
}.

Record Block : Type := mkBlock {
  Block_Header : option Header;
  Block_Data : option Data;
  Block_Cert : option Certificate;
}.

Record Proposal : Type := mkProposal {
  Proposal_Header : option Header;
  Proposal_Data : option Data;
  Proposal_Sig : slice;
  Proposal_ParentCert : option Certificate;
  Proposal_Timeout : option TimeoutCertificate;
}.

Record Sync : Type := mkSync { Sync_Blocks : list Block }.

(** The oneof [isMessage_Type]. *)
Inductive Message_Type : Type :=
| Message_Proposal (p : Proposal)
| Message_Newview (n : NewView)
| Message_Vote (v : Vote)
| Message_Sync (s : Sync).

Record Message : Type := mkMessage { Message_GetType : option Message_Type }.

Record SyncRequest : Type := mkSyncRequest {
  SyncRequest_From : option Header;
  SyncRequest_Limit : Z;
}.

#[global] Instance Transaction_eq_dec : EqDecision Transaction.
Proof. solve_decision. Defined.
#[global] Instance Data_eq_dec : EqDecision Data.
Proof. solve_decision. Defined.
#[global] Instance AggregatedSignature_eq_dec : EqDecision AggregatedSignature.
Proof. solve_decision. Defined.
#[global] Instance Certificate_eq_dec : EqDecision Certificate.
Proof. solve_decision. Defined.
#[global] Instance TimeoutCertificate_eq_dec : EqDecision TimeoutCertificate.
Proof. solve_decision. Defined.
#[global] Instance Header_eq_dec : EqDecision Header.
Proof. solve_decision. Defined.
#[global] Instance Vote_eq_dec : EqDecision Vote.
Proof. solve_decision. Defined.
#[global] Instance NewView_eq_dec : EqDecision NewView.
Proof. solve_decision. Defined.
#[global] Instance Block_eq_dec : EqDecision Block.
Proof. solve_decision. Defined.
#[global] Instance Proposal_eq_dec : EqDecision Proposal.
Proof. solve_decision. Defined.
#[global] Instance Sync_eq_dec : EqDecision Sync.
Proof. solve_decision. Defined.
#[global] Instance Message_Type_eq_dec : EqDecision Message_Type.
Proof. solve_decision. Defined.
