(* ===== verification/Proto.v ===== *)
(** * The interface of a generated message, and its laws

    [ProtoMessage] is what the generator emits for a struct, [ProtoLaws] what
    it promises: [Size] is the length of the encoding, [MarshalToSizedBuffer]
    writes exactly the encoding at the end of its buffer, [Unmarshal] of the
    encoding gives the message back (empty byte fields come back nil), and
    [Unmarshal] of any input neither panics nor runs forever.  A message that
    embeds others is verified against the laws of its components. *)

From Stdlib Require Import ZArith Lia.
From S2P Require Import Prelude Wire.

Class ProtoMessage (A : Type) : Type := {
  zero : A;
  Size : A -> Z;
  MarshalToSizedBuffer : A -> bytes -> res (bytes * nat);
  Unmarshal : A -> bytes -> A * res unit;
}.

(** [func (m *T) Marshal() (dAtA []byte, err error)], the same text for every
    message. *)
Definition Marshal {A} `{ProtoMessage A} (m : A) : res bytes :=
  '(d, n) ← MarshalToSizedBuffer m (replicate (Z.to_nat (Size m)) x00);
  mret (take n d).

(** [x := &T{}; x.Unmarshal(b)] *)
Definition decode {A} `{ProtoMessage A} (b : bytes) : res A := nested (Unmarshal zero b).

Definition fits (fs : list wfield) : Prop := len (enc_fields fs) < two63.

(** What a byte field is after a round trip. *)
Definition canon_slice (s : slice) : slice :=
  match s with Some [] => None | _ => s end.

Class ProtoLaws (A : Type) `{ProtoMessage A} : Type := {
  fields : A -> list wfield;
  wf : A -> Prop;
  canon : A -> A;
  law_size m : wf m -> fits (fields m) -> Size m = len (enc_fields (fields m));
  law_marshal m : wf m -> fits (fields m) ->
    marshals (MarshalToSizedBuffer m) (enc_fields (fields m));
  law_unmarshal m : wf m -> fits (fields m) ->
    Unmarshal zero (enc_fields (fields m)) = (canon m, Ok tt);
  law_canon m : fields (canon m) = fields m;
  law_wf_zero : wf zero;
  law_safe m d : len d < two63 -> wf m ->
    wf (fst (Unmarshal m d)) /\ is_panic (snd (Unmarshal m d)) = false;
}.

Arguments canon {A _ _} m : simpl never.

Definition encoding {A} `{ProtoLaws A} (m : A) : bytes := enc_fields (fields m).
Definition good {A} `{ProtoLaws A} (m : A) : Prop := wf m /\ fits (fields m).

Section Generic.
Context {A : Type} `{ProtoLaws A}.
Implicit Types m : A.

Lemma marshal_encoding m : good m -> Marshal m = Ok (encoding m).
Proof.
  intros [Hw Hf]. unfold Marshal, encoding.
  rewrite (law_size m Hw Hf). unfold len. rewrite Nat2Z.id.
  pose proof (law_marshal m Hw Hf [] (replicate (length (enc_fields (fields m))) x00)) as Hm.
  rewrite length_replicate in Hm. specialize (Hm eq_refl). simpl in Hm. rewrite Hm. simpl.
  by rewrite take_ge by lia.
Qed.

Lemma decode_encoding m : good m -> decode (encoding m) = Ok (canon m).
Proof. intros [Hw Hf]. unfold decode, encoding. by rewrite law_unmarshal. Qed.

Lemma roundtrip m : good m -> Marshal m ≫= decode = Ok (canon m).
Proof. intros Hg. rewrite marshal_encoding by done. simpl. by apply decode_encoding. Qed.

(** Two messages with the same encoding are the same up to nil/empty. *)
Lemma encoding_inj m1 m2 : good m1 -> good m2 ->
  encoding m1 = encoding m2 -> canon m1 = canon m2.
Proof.
  intros H1 H2 E. apply decode_encoding in H1, H2. rewrite E in H1. congruence.
Qed.

Lemma encoding_canon m : encoding (canon m) = encoding m.
Proof. unfold encoding. by rewrite law_canon. Qed.

Lemma decode_safe b : len b < two63 -> safe wf (decode b).
Proof.
  intros Hb. unfold decode. destruct (law_safe zero b Hb law_wf_zero) as [Hw Hp].
  destruct (Unmarshal zero b) as [m [u|e|c]]; done.
Qed.
End Generic.

(** ** Field by field: sizes *)

Definition size_varint (v : Z) : Z := if v =? 0 then 0 else 1 + sovTypes v.
Definition size_bytes (b : bytes) : Z :=
  let l := len b in if 0 <? l then 1 + l + sovTypes l else 0.
Definition size_msg {A} `{ProtoMessage A} (m : A) : Z :=
  let l := Size m in 1 + l + sovTypes l.
Definition size_opt_msg {A} `{ProtoMessage A} (m : option A) : Z :=
  match m with None => 0 | Some a => size_msg a end.
Fixpoint size_rep_msg {A} `{ProtoMessage A} (ms : list A) : Z :=
  match ms with [] => 0 | a :: ms => size_msg a + size_rep_msg ms end.

Definition rep_msg {A} `{ProtoLaws A} (num : Z) (ms : list A) : list wfield :=
  (fun a => WBytes num (encoding a)) <$> ms.

Lemma fits_app fs gs : fits (fs ++ gs) -> fits fs /\ fits gs.
Proof.
  unfold fits. rewrite enc_fields_app, len_app.
  pose proof (len_nonneg (enc_fields fs)). pose proof (len_nonneg (enc_fields gs)). lia.
Qed.

Lemma enc_fields_one f : enc_fields [f] = enc_field f.
Proof. apply app_nil_r. Qed.

Lemma enc_fields_cons f fs : enc_fields (f :: fs) = enc_field f ++ enc_fields fs.
Proof. done. Qed.

Lemma len_WBytes num b : 1 <= num < 16 -> len b < two64 ->
  len (enc_field (WBytes num b)) = 1 + len b + sovTypes (len b).
Proof.
  intros Hn Hb. rewrite enc_WBytes, !len_app, varint_one by lia. rewrite len_cons, len_nil.
  rewrite sovTypes_varint; [lia|]. split; [apply len_nonneg|done].
Qed.

Lemma fits_WBytes num b fs : fits (WBytes num b :: fs) -> len b < two63 /\ fits fs.
Proof.
  unfold fits. rewrite enc_fields_cons, enc_WBytes, !len_app.
  pose proof (len_nonneg (varint (num * 8 + 2))). pose proof (len_nonneg (varint (len b))).
  pose proof (len_nonneg (enc_fields fs)). pose proof (len_nonneg b). lia.
Qed.

(** Upper bounds, for messages whose size is known to be moderate. *)
Lemma varint_fuel_le n v : len (varint_fuel n v) <= Z.of_nat n.
Proof.
  revert v. induction n as [|n IH]; intros v; [done|]. simpl. case_match.
  - rewrite len_cons, len_nil. lia.
  - rewrite len_cons. specialize (IH (Z.shiftr v 7)). lia.
Qed.
Lemma varint_le v : len (varint v) <= 10.
Proof. apply (varint_fuel_le 10). Qed.

Lemma len_opt_varint_le num v : len (enc_fields (opt_varint num v)) <= 20.
Proof.
  unfold opt_varint. case_match; [done|]. rewrite enc_fields_one. unfold enc_field. rewrite len_app.
  pose proof (varint_le (wfield_tag (WVarint num v))). pose proof (varint_le v). lia.
Qed.
Lemma len_opt_bytes_le num b : len (enc_fields (opt_bytes num b)) <= 20 + len b.
Proof.
  unfold opt_bytes. destruct b as [|x b]; [done|]. rewrite enc_fields_one. unfold enc_field. rewrite !len_app.
  pose proof (varint_le (wfield_tag (WBytes num (x :: b)))). pose proof (varint_le (len (x :: b))). lia.
Qed.

Lemma two63_lt_two64 z : z < two63 -> z < two64.
Proof. assert (two64 = 2 * two63) by done. assert (0 < two63) by done. lia. Qed.

Lemma fits_opt_bytes num b : fits (opt_bytes num b) -> len b < two64.
Proof.
  destruct b; [done|]. intros [? _]%fits_WBytes. by apply two63_lt_two64.
Qed.

Lemma fits_opt_msg {A} num (enc : A -> bytes) a : fits (opt_msg num enc (Some a)) -> len (enc a) < two63.
Proof. by intros [? _]%fits_WBytes. Qed.

Lemma size_varint_ok num v : 1 <= num < 16 -> is_u64 v ->
  size_varint v = len (enc_fields (opt_varint num v)).
Proof.
  intros. unfold size_varint, opt_varint. case_match; [done|].
  rewrite enc_fields_one. unfold enc_field. simpl.
  rewrite len_app, varint_one by lia. by rewrite sovTypes_varint.
Qed.

Lemma size_bytes_ok num b : 1 <= num < 16 -> fits (opt_bytes num b) ->
  size_bytes b = len (enc_fields (opt_bytes num b)).
Proof.
  intros Hn Hf%fits_opt_bytes. unfold size_bytes, opt_bytes.
  destruct b as [|x b]; [done|].
  rewrite (proj2 (Z.ltb_lt _ _)) by (rewrite len_cons; pose proof (len_nonneg b); lia).
  by rewrite enc_fields_one, len_WBytes.
Qed.

Section SizeMsg.
Context {A : Type} `{ProtoLaws A}.

Lemma size_msg_ok num (a : A) : 1 <= num < 16 -> wf a -> len (encoding a) < two63 ->
  size_msg a = len (enc_field (WBytes num (encoding a))).
Proof.
  intros. unfold size_msg. rewrite law_size by done.
  rewrite len_WBytes by (done || by apply two63_lt_two64). done.
Qed.

Lemma size_opt_msg_ok num (m : option A) :
  1 <= num < 16 -> (forall a, m = Some a -> wf a) -> fits (opt_msg num encoding m) ->
  size_opt_msg m = len (enc_fields (opt_msg num encoding m)).
Proof.
  intros Hn Hw Hf. destruct m as [a|]; [|done]. simpl. rewrite enc_fields_one.
  apply size_msg_ok; [done|by apply Hw|]. by apply fits_opt_msg in Hf.
Qed.

Lemma size_rep_msg_ok num (ms : list A) :
  1 <= num < 16 -> Forall wf ms -> fits (rep_msg num ms) ->
  size_rep_msg ms = len (enc_fields (rep_msg num ms)).
Proof.
  intros Hn Hw. induction Hw as [|a ms Ha _ IH]; [done|]. simpl. intros [? ?]%fits_WBytes.
  rewrite enc_fields_cons, len_app, <- IH by done. f_equal. by apply size_msg_ok.
Qed.

(** *** Writing an embedded message *)

Lemma put_opt_writes t num (m : option A) :
  tag_ok t (num * 8 + 2) -> (forall a, m = Some a -> wf a) -> fits (opt_msg num encoding m) ->
  writes (put_opt_msg t MarshalToSizedBuffer m) (enc_fields (opt_msg num encoding m)).
Proof.
  intros Ht Hw Hf. apply put_opt_msg_writes; [done|]. intros a ->.
  apply fits_opt_msg in Hf. split; [by apply two63_lt_two64|].
  apply law_marshal; [by apply Hw|done].
Qed.

Lemma put_rep_writes t num (ms : list A) :
  tag_ok t (num * 8 + 2) -> Forall wf ms -> fits (rep_msg num ms) ->
  writes (put_rep_msg t MarshalToSizedBuffer ms) (enc_fields (rep_msg num ms)).
Proof.
  intros Ht Hw Hf. apply put_rep_msg_writes; [done|]. revert Hf.
  induction Hw as [|a ms Ha _ IH]; simpl; [by constructor|]. intros [? ?]%fits_WBytes.
  constructor; [|by apply IH]. split; [by apply two63_lt_two64|]. by apply law_marshal.
Qed.
End SizeMsg.

(** ** Field by field: the cases of a switch *)

(** [if wireType != 0 { return ... }] and the varint loop into a [uint64] field. *)
Definition varint_case {M} (wt : Z) (d : bytes) (i : Z) (set : Z -> M) : res (M * Z) :=
  if wt =? 0 then '(v, j) ← read_uint64 d i; mret (set v, j) else Err ErrWrongWireType.

(** [m.F = append(m.F[:0], dAtA[iNdEx:postIndex]...); if m.F == nil { m.F = []byte{} }] *)
Definition bytes_case {M} (wt : Z) (d : bytes) (i : Z) (set : slice -> M) : res (M * Z) :=
  if wt =? 2 then '(b, j) ← read_delim d i; mret (set (Some b), j) else Err ErrWrongWireType.

(** [if m.F == nil { m.F = &T{} }; if err := m.F.Unmarshal(dAtA[iNdEx:postIndex]); err != nil { return err }];
    with [cur = None] also the fresh [&T{}] of a oneof or repeated field. *)
Definition msg_case {B} `{ProtoMessage B} {M} (wt : Z) (d : bytes) (i : Z) (cur : option B)
    (set : B -> M) : res (M * Z) :=
  if wt =? 2 then
    '(b, j) ← read_delim d i;
    v ← nested (Unmarshal (default zero cur) b);
    mret (set v, j)
  else Err ErrWrongWireType.

Section CaseSteps.
Context {M : Type} (cases : field_cases M).

Lemma steps_one f m m' : step_ok cases f m m' -> steps cases [f] m m'.
Proof. intros. eapply steps_cons; [done|]. apply steps_nil. Qed.

Lemma steps_varint num v (set : Z -> M) m :
  1 <= num < 16 -> is_u64 v -> set 0 = m ->
  (forall d i, cases d num 0 i m = Some (varint_case 0 d i set)) ->
  steps cases (opt_varint num v) m (set v).
Proof.
  intros Hn Hv Hz Hc. unfold opt_varint. case_match; zbool; subst; [constructor|].
  apply steps_one, step_varint; [done..|]. intros d i j Hr. rewrite Hc. unfold varint_case.
  simpl. by rewrite Hr.
Qed.

Lemma steps_bytes num s (set : slice -> M) m :
  1 <= num < 16 -> set None = m ->
  (forall d i, cases d num 2 i m = Some (bytes_case 2 d i set)) ->
  steps cases (opt_bytes num (sbytes s)) m (set (canon_slice s)).
Proof.
  intros Hn Hz Hc. destruct s as [[|x b]|]; simpl; subst; [constructor| |constructor].
  apply steps_one, step_bytes; [done|]. intros d i j Hr. rewrite Hc. unfold bytes_case.
  simpl. by rewrite Hr.
Qed.

Context {B : Type} `{ProtoLaws B}.

Lemma step_msg num b (set : B -> M) m :
  1 <= num < 16 -> good b ->
  (forall d i, cases d num 2 i m = Some (msg_case 2 d i None set)) ->
  step_ok cases (WBytes num (encoding b)) m (set (canon b)).
Proof.
  intros Hn [Hw Hf] Hc. apply step_bytes; [done|]. intros d i j Hr. rewrite Hc.
  unfold msg_case. simpl. rewrite Hr. simpl. unfold encoding. by rewrite law_unmarshal.
Qed.

Lemma steps_opt_msg num o (set : option B -> M) m :
  1 <= num < 16 -> (forall b, o = Some b -> wf b) -> fits (opt_msg num encoding o) ->
  set None = m ->
  (forall d i, cases d num 2 i m = Some (msg_case 2 d i None (fun b => set (Some b)))) ->
  steps cases (opt_msg num encoding o) m (set (canon <$> o)).
Proof.
  intros Hn Hw Hf Hz Hc. destruct o as [b|]; simpl; [|subst; constructor].
  apply steps_one. apply (step_msg num b (fun b => set (Some b)) m Hn); [|done].
  split; [by apply Hw|]. by apply fits_opt_msg in Hf.
Qed.

Lemma steps_rep_msg num bs (set : list B -> M) :
  1 <= num < 16 -> Forall wf bs -> fits (rep_msg num bs) ->
  (forall pre d i, cases d num 2 i (set pre) = Some (msg_case 2 d i None (fun b => set (pre ++ [b])))) ->
  forall pre, steps cases (rep_msg num bs) (set pre) (set (pre ++ (canon <$> bs))).
Proof.
  intros Hn Hw Hf Hc. revert Hf. induction Hw as [|b bs Hb _ IH]; intros Hf pre.
  - rewrite app_nil_r. constructor.
  - apply fits_WBytes in Hf as [? ?].
    replace (pre ++ (canon <$> b :: bs)) with ((pre ++ [canon b]) ++ (canon <$> bs))
      by (by rewrite <- app_assoc).
    eapply steps_cons; [|by apply IH].
    apply (step_msg num b (fun b => set (pre ++ [b]))); done.
Qed.
End CaseSteps.

Section CaseSafe.
Context {M : Type} (wfm : M -> Prop).

Lemma varint_case_safe wt d i (set : Z -> M) :
  0 <= i -> (forall v, is_u64 v -> wfm (set v)) ->
  safe (fun '(m', j) => wfm m' /\ i <= j <= len d) (varint_case wt d i set).
Proof.
  intros Hi Hs. unfold varint_case. case_match; [|done].
  eapply safe_bind; [by apply read_uint64_safe|]. intros [v j] [? ?]. simpl.
  split; [by apply Hs|lia].
Qed.

Lemma bytes_case_within wt d i (set : slice -> M) :
  0 <= i -> len d < two63 -> (forall s, len (sbytes s) <= len d -> wfm (set s)) ->
  safe (fun '(m', j) => wfm m' /\ i <= j <= len d) (bytes_case wt d i set).
Proof.
  intros Hi Hd Hs. unfold bytes_case. case_match; [|done].
  eapply safe_bind; [by apply read_delim_safe|]. intros [v j] [? ?]. simpl.
  split; [by apply Hs|lia].
Qed.
Lemma bytes_case_safe wt d i (set : slice -> M) :
  0 <= i -> len d < two63 -> (forall s, wfm (set s)) ->
  safe (fun '(m', j) => wfm m' /\ i <= j <= len d) (bytes_case wt d i set).
Proof. intros. by apply bytes_case_within. Qed.

(** A field that is a message, of which the decoder keeps [wfb]. *)
Lemma msg_case_within {B} `{ProtoMessage B} (wfb : B -> Prop) wt d i cur (set : B -> M) :
  0 <= i -> len d < two63 -> wfb zero -> (forall b, cur = Some b -> wfb b) ->
  (forall b bs, len bs <= len d -> wfb b -> wfb (fst (Unmarshal b bs)) /\ is_panic (snd (Unmarshal b bs)) = false) ->
  (forall b, wfb b -> wfm (set b)) ->
  safe (fun '(m', j) => wfm m' /\ i <= j <= len d) (msg_case wt d i cur set).
Proof.
  intros Hi Hd Hz Hcur Hun Hs. unfold msg_case. case_match; [|done].
  eapply safe_bind; [by apply read_delim_safe|]. intros [bs j] [Hb Hj].
  assert (Hw : wfb (default zero cur)) by (destruct cur; [by apply Hcur|done]).
  destruct (Hun (default zero cur) bs Hb Hw) as [Hw' Hp].
  destruct (Unmarshal (default zero cur) bs) as [v [u|e|c]]; simpl in *; try done.
  split; [by apply Hs|lia].
Qed.
Lemma msg_case_safe {B} `{ProtoLaws B} wt d i cur (set : B -> M) :
  0 <= i -> len d < two63 -> (forall b, cur = Some b -> wf b) ->
  (forall b, wf b -> wfm (set b)) ->
  safe (fun '(m', j) => wfm m' /\ i <= j <= len d) (msg_case wt d i cur set).
Proof.
  intros Hi Hd Hcur Hs. apply (msg_case_within wf); try done; [apply law_wf_zero|].
  intros b bs Hbs. apply law_safe. lia.
Qed.
End CaseSafe.
