(* ===== verification/Codec.v ===== *)
(** * Size, Marshal and Unmarshal of every message of types.pb.go

    Each section follows the generated methods of one struct, bottom up: the
    [X_Size], [X_MarshalToSizedBuffer] and [X_Unmarshal] definitions, the
    [ProtoMessage] instance that packs them, and the [ProtoLaws] instance that
    verifies them against the field list of types.proto ([X_fields]). *)

From Stdlib Require Import ZArith Lia.
From S2P Require Import Prelude Wire Types Proto.

(** Fields are written from the last to the first: [w1 ▷ w2] runs [w1] then [w2]. *)
Declare Scope writer_scope.
Delimit Scope writer_scope with writer.
Notation "w1 ▷ w2" := (fun st => w1 st ≫= w2)
  (at level 50, left associativity) : writer_scope.

Definition wf_opt {A} `{ProtoLaws A} (o : option A) : Prop := forall a, o = Some a -> wf a.

Lemma sbytes_canon s : sbytes (canon_slice s) = sbytes s.
Proof. by destruct s as [[]|]. Qed.

Lemma opt_msg_canon {A} `{ProtoLaws A} num (o : option A) :
  opt_msg num encoding (canon <$> o) = opt_msg num encoding o.
Proof. destruct o; simpl; [|done]. by rewrite encoding_canon. Qed.

Lemma rep_msg_canon {A} `{ProtoLaws A} num (l : list A) :
  rep_msg num (canon <$> l) = rep_msg num l.
Proof.
  unfold rep_msg. rewrite <- list_fmap_compose. apply list_fmap_ext. intros ? x _. simpl.
  by rewrite encoding_canon.
Qed.

Create HintDb proto.
Create Rewrite HintDb proto.
#[export] Hint Extern 1 (_ <= _ < _) => lia : proto.
#[export] Hint Extern 1 (tag_ok _ _) => (split; [lia|reflexivity]) : proto.
#[export] Hint Resolve put_varint_field_writes put_bytes_field_writes put_opt_writes
  put_rep_writes fits_opt_bytes : proto.
#[export] Hint Resolve varint_case_safe bytes_case_safe msg_case_safe : proto.
#[export] Hint Rewrite sbytes_canon @opt_msg_canon @rep_msg_canon : proto.

(** Split a [fits] of a field list into its parts. *)
Ltac split_fits :=
  repeat match goal with
  | H : fits (_ ++ _) |- _ => apply fits_app in H as [? ?]
  end.

Ltac split_wf := repeat match goal with H : _ /\ _ |- _ => destruct H end.

Ltac solve_marshal :=
  intros; split_wf; split_fits; apply run_writer_marshals;
  repeat (apply writes_fields); eauto with proto.

Ltac solve_safe w :=
  intros; simpl in *; apply unmarshal_safe; [|done|done];
  let m := fresh "msg" in let Hm := fresh "Hmsg" in intros ? ? ? ? m ? ? Hm;
  destruct m; unfold w, wf_opt in *; simpl in *;
  repeat (case_match; simplify_eq; try done); split_wf;
  first
    [ apply varint_case_safe; [lia|]; intros; simpl in *; split_and?; naive_solver
    | apply bytes_case_safe; [lia|lia|]; intros; simpl in *; split_and?; naive_solver
    | refine (msg_case_safe _ _ _ _ _ _ _ _ _ _); [lia|lia|naive_solver|]; intros; simpl in *; split_and?; naive_solver ].

(** ** Transaction *)

Definition Transaction_Size (m : Transaction) : Z :=
  size_bytes (sbytes m.(Transaction_Account)) + size_varint m.(Transaction_Nonce)
  + size_bytes (sbytes m.(Transaction_Data)) + size_bytes (sbytes m.(Transaction_Sig)).

Definition Transaction_MarshalToSizedBuffer (m : Transaction) : bytes -> res (bytes * nat) :=
  run_writer
    (put_bytes_field x22 (sbytes m.(Transaction_Sig))
     ▷ put_bytes_field x1a (sbytes m.(Transaction_Data))
     ▷ put_varint_field x10 m.(Transaction_Nonce)
     ▷ put_bytes_field x0a (sbytes m.(Transaction_Account)))%writer.

Definition Transaction_cases : field_cases Transaction := fun d fieldNum wt i m =>
  let '(mkTransaction acc nonce data sig) := m in
  match fieldNum with
  | 1 => Some (bytes_case wt d i (fun s => mkTransaction s nonce data sig))
  | 2 => Some (varint_case wt d i (fun v => mkTransaction acc v data sig))
  | 3 => Some (bytes_case wt d i (fun s => mkTransaction acc nonce s sig))
  | 4 => Some (bytes_case wt d i (fun s => mkTransaction acc nonce data s))
  | _ => None
  end.
Definition Transaction_Unmarshal : Transaction -> bytes -> Transaction * res unit :=
  unmarshal Transaction_cases.

#[global] Instance Transaction_proto : ProtoMessage Transaction := {
  zero := mkTransaction None 0 None None;
  Size := Transaction_Size;
  MarshalToSizedBuffer := Transaction_MarshalToSizedBuffer;
  Unmarshal := Transaction_Unmarshal;
}.

Definition Transaction_fields (m : Transaction) : list wfield :=
  opt_bytes 1 (sbytes m.(Transaction_Account)) ++ opt_varint 2 m.(Transaction_Nonce) ++
  opt_bytes 3 (sbytes m.(Transaction_Data)) ++ opt_bytes 4 (sbytes m.(Transaction_Sig)).

Definition Transaction_wf (m : Transaction) : Prop := is_u64 m.(Transaction_Nonce).

Definition Transaction_canon (m : Transaction) : Transaction :=
  mkTransaction (canon_slice m.(Transaction_Account)) m.(Transaction_Nonce)
    (canon_slice m.(Transaction_Data)) (canon_slice m.(Transaction_Sig)).

#[global] Program Instance Transaction_laws : ProtoLaws Transaction := {
  fields := Transaction_fields; wf := Transaction_wf; canon := Transaction_canon
}.
Next Obligation.
  intros m Hw Hf. simpl. unfold Transaction_fields, Transaction_Size, Transaction_wf in *. split_fits.
  rewrite !enc_fields_app, !len_app.
  rewrite (size_bytes_ok 1), (size_varint_ok 2), (size_bytes_ok 3), (size_bytes_ok 4) by auto with proto.
  lia.
Qed.
Next Obligation. unfold Transaction_fields, Transaction_wf. simpl. solve_marshal. Qed.
Next Obligation.
  intros [acc nonce data sig] Hw Hf. simpl in *. apply unmarshal_steps; [|done].
  unfold Transaction_fields in *. unfold Transaction_canon. simpl in *.
  eapply steps_app; [apply (steps_bytes _ 1 acc (fun s => mkTransaction s 0 None None)); auto with proto|].
  eapply steps_app; [apply (steps_varint _ 2 nonce (fun v => mkTransaction (canon_slice acc) v None None)); auto with proto|].
  eapply steps_app; [apply (steps_bytes _ 3 data (fun s => mkTransaction (canon_slice acc) nonce s None)); auto with proto|].
  apply (steps_bytes _ 4 sig (fun s => mkTransaction (canon_slice acc) nonce (canon_slice data) s)); auto with proto.
Qed.
Next Obligation. intros [???]. unfold Transaction_fields. simpl. by autorewrite with proto. Qed.
Next Obligation. done. Qed.
Next Obligation. solve_safe Transaction_wf. Qed.

(** ** Data *)

Definition Data_Size (m : Data) : Z := size_rep_msg m.(Data_Data).

Definition Data_MarshalToSizedBuffer (m : Data) : bytes -> res (bytes * nat) :=
  run_writer (put_rep_msg x0a MarshalToSizedBuffer m.(Data_Data)).

Definition Data_cases : field_cases Data := fun d fieldNum wt i m =>
  let '(mkData l) := m in
  match fieldNum with
  | 1 => Some (msg_case wt d i None (fun t => mkData (l ++ [t])))
  | _ => None
  end.
Definition Data_Unmarshal : Data -> bytes -> Data * res unit := unmarshal Data_cases.

#[global] Instance Data_proto : ProtoMessage Data := {
  zero := mkData [];
  Size := Data_Size;
  MarshalToSizedBuffer := Data_MarshalToSizedBuffer;
  Unmarshal := Data_Unmarshal;
}.

Definition Data_fields (m : Data) : list wfield := rep_msg 1 m.(Data_Data).
Definition Data_wf (m : Data) : Prop := Forall wf m.(Data_Data).
Definition Data_canon (m : Data) : Data := mkData (canon <$> m.(Data_Data)).

#[global] Program Instance Data_laws : ProtoLaws Data := {
  fields := Data_fields; wf := Data_wf; canon := Data_canon
}.
Next Obligation. intros m Hw Hf. by apply size_rep_msg_ok. Qed.
Next Obligation. intros m Hw Hf. apply run_writer_marshals. by apply put_rep_writes; auto with proto. Qed.
Next Obligation.
  intros [l] Hw Hf. simpl in *. apply unmarshal_steps; [|done].
  by apply (steps_rep_msg Data_cases 1 l mkData ltac:(lia) Hw Hf (fun _ _ _ => eq_refl) []).
Qed.
Next Obligation. intros [l]. apply (rep_msg_canon 1 l). Qed.
Next Obligation. constructor. Qed.
Next Obligation.
  intros m d Hd Hm. apply unmarshal_safe; [|done|done].
  intros ? num wt i [l] Hi Hd' Hw. unfold Data_wf in Hw. simpl in *.
  repeat (case_match; simplify_eq; try done).
  refine (msg_case_safe _ _ _ _ _ _ _ _ _ _); [lia|lia|done|]. intros b Hb. by apply Forall_app_2; [|constructor].
Qed.

(** ** AggregatedSignature *)

Definition AggregatedSignature_Size (m : AggregatedSignature) : Z :=
  match m.(AggregatedSignature_Voters) with
  | [] => 0
  | vs => let l := foldr (fun e l => sovTypes e + l) 0 vs in 1 + sovTypes l + l
  end + size_bytes (sbytes m.(AggregatedSignature_Sig)).

(** The temporary buffer [dAtA17[:j16]]: every voter as a varint, in order. *)
Definition pack_voters (vs : list Z) : bytes := concat (varint <$> vs).

Definition put_voters (vs : list Z) : writer := fun st =>
  match vs with [] => Ok st | _ => put_bytes_field x0a (pack_voters vs) st end.

Definition AggregatedSignature_MarshalToSizedBuffer (m : AggregatedSignature) :
    bytes -> res (bytes * nat) :=
  run_writer
    (put_bytes_field x12 (sbytes m.(AggregatedSignature_Sig))
     ▷ put_voters m.(AggregatedSignature_Voters))%writer.

(** [for iNdEx < postIndex { ...; m.Voters = append(m.Voters, v) }]: the varint
    loop is bounded by the whole input, not by [postIndex]. *)
Fixpoint packed_loop (fuel : nat) (d : bytes) (i postIndex : Z) (vs : list Z) : res (list Z * Z) :=
  if i <? postIndex then
    match fuel with
    | O => Panic OutOfFuel
    | S fuel => '(v, j) ← read_uint64 d i; packed_loop fuel d j postIndex (vs ++ [v])
    end
  else Ok (vs, i).

Definition voters_case {M} (wt : Z) (d : bytes) (i : Z) (vs : list Z) (set : list Z -> M) :
    res (M * Z) :=
  if wt =? 0 then '(v, j) ← read_uint64 d i; mret (set (vs ++ [v]), j)
  else if wt =? 2 then
    '(i1, postIndex) ← read_bounds d i;
    '(vs', j) ← packed_loop (length d) d i1 postIndex vs;
    mret (set vs', j)
  else Err ErrWrongWireType.

Definition AggregatedSignature_cases : field_cases AggregatedSignature := fun d fieldNum wt i m =>
  let '(mkAggregatedSignature vs sig) := m in
  match fieldNum with
  | 1 => Some (voters_case wt d i vs (fun vs => mkAggregatedSignature vs sig))
  | 2 => Some (bytes_case wt d i (fun s => mkAggregatedSignature vs s))
  | _ => None
  end.
Definition AggregatedSignature_Unmarshal :
    AggregatedSignature -> bytes -> AggregatedSignature * res unit :=
  unmarshal AggregatedSignature_cases.

#[global] Instance AggregatedSignature_proto : ProtoMessage AggregatedSignature := {
  zero := mkAggregatedSignature [] None;
  Size := AggregatedSignature_Size;
  MarshalToSizedBuffer := AggregatedSignature_MarshalToSizedBuffer;
  Unmarshal := AggregatedSignature_Unmarshal;
}.

Definition AggregatedSignature_fields (m : AggregatedSignature) : list wfield :=
  opt_bytes 1 (pack_voters m.(AggregatedSignature_Voters)) ++
  opt_bytes 2 (sbytes m.(AggregatedSignature_Sig)).
Definition AggregatedSignature_wf (m : AggregatedSignature) : Prop :=
  Forall is_u64 m.(AggregatedSignature_Voters).
Definition AggregatedSignature_canon (m : AggregatedSignature) : AggregatedSignature :=
  mkAggregatedSignature m.(AggregatedSignature_Voters) (canon_slice m.(AggregatedSignature_Sig)).

Lemma pack_voters_cons v vs : pack_voters (v :: vs) = varint v ++ pack_voters vs.
Proof. done. Qed.

Lemma pack_voters_len vs : Forall is_u64 vs ->
  foldr (fun e l => sovTypes e + l) 0 vs = len (pack_voters vs).
Proof.
  induction 1 as [|v vs Hv _ IH]; [done|]. simpl.
  by rewrite pack_voters_cons, len_app, IH, sovTypes_varint.
Qed.

Lemma varint_pos v : 1 <= len (varint v).
Proof. apply (varint_fuel_nonempty 10). lia. Qed.

Lemma pack_voters_pos v vs : 1 <= len (pack_voters (v :: vs)).
Proof.
  rewrite pack_voters_cons, len_app. pose proof (varint_pos v).
  pose proof (len_nonneg (pack_voters vs)). lia.
Qed.

Lemma voters_size vs : Forall is_u64 vs -> fits (opt_bytes 1 (pack_voters vs)) ->
  match vs with
  | [] => 0
  | _ => let l := foldr (fun e l => sovTypes e + l) 0 vs in 1 + sovTypes l + l
  end = len (enc_fields (opt_bytes 1 (pack_voters vs))).
Proof.
  intros Hv Hf. rewrite <- size_bytes_ok by (done || lia). unfold size_bytes.
  cbv zeta. rewrite pack_voters_len by done. destruct vs as [|v vs]; [done|].
  pose proof (pack_voters_pos v vs). rewrite (proj2 (Z.ltb_lt _ _)) by lia. lia.
Qed.

Lemma put_voters_writes vs : fits (opt_bytes 1 (pack_voters vs)) ->
  writes (put_voters vs) (enc_fields (opt_bytes 1 (pack_voters vs))).
Proof.
  intros Hf. destruct vs as [|v vs]; [exact writes_nil|].
  apply put_bytes_field_writes; auto with proto. by apply fits_opt_bytes in Hf.
Qed.

Lemma packed_loop_spec vs fuel d pre suf acc :
  Forall is_u64 vs -> d = pre ++ pack_voters vs ++ suf -> (length (pack_voters vs) <= fuel)%nat ->
  packed_loop fuel d (len pre) (len (pre ++ pack_voters vs)) acc
  = Ok (acc ++ vs, len (pre ++ pack_voters vs)).
Proof.
  intros Hv. revert fuel pre acc. induction Hv as [|v vs Hv _ IH]; intros fuel pre acc Hd Hf.
  - simpl. rewrite !app_nil_r. destruct fuel; simpl; by rewrite Z.ltb_irrefl.
  - pose proof (pack_voters_pos v vs). pose proof (varint_pos v).
    rewrite pack_voters_cons in *. rewrite <- app_assoc in Hd.
    rewrite length_app in Hf. destruct fuel as [|fuel]; [unfold len in *; lia|]. simpl.
    rewrite (proj2 (Z.ltb_lt _ _))
      by (rewrite !len_app; pose proof (len_nonneg (pack_voters vs)); lia).
    rewrite (read_uint64_spec d pre (pack_voters vs ++ suf) v) by done. cbn [mbind res_bind].
    rewrite <- len_app, (app_assoc pre), (IH fuel (pre ++ varint v));
      [|by rewrite <- app_assoc|unfold len in *; lia].
    by rewrite <- (app_assoc acc).
Qed.

Lemma voters_step vs sig : Forall is_u64 vs ->
  steps AggregatedSignature_cases (opt_bytes 1 (pack_voters vs))
    (mkAggregatedSignature [] sig) (mkAggregatedSignature vs sig).
Proof.
  intros Hv. destruct vs as [|v vs]; [constructor|].
  replace (opt_bytes 1 (pack_voters (v :: vs))) with [WBytes 1 (pack_voters (v :: vs))].
  2:{ pose proof (pack_voters_pos v vs). by destruct (pack_voters (v :: vs)). }
  set (b := pack_voters (v :: vs)). apply steps_one. intros d pre suf Hd Hlen.
  rewrite enc_WBytes in *.
  rewrite (field_tag_spec _ 1 2 d pre ((varint (len b) ++ b) ++ suf)); [|lia..|by rewrite <- !app_assoc in *].
  simpl. unfold voters_case. simpl.
  change (1 * 8 + 2) with 10 in *. set (pre' := pre ++ varint 10).
  rewrite (read_bounds_spec d pre' suf b); [|by unfold pre'; rewrite <- !app_assoc in *|done].
  cbn [mbind res_bind]. rewrite (app_assoc pre').
  pose proof (packed_loop_spec (v :: vs) (length d) d (pre' ++ varint (len b)) suf [] Hv) as Hp.
  fold b in Hp. rewrite Hp.
  - simpl. do 2 f_equal. unfold pre'. rewrite !len_app, (varint_one 10) by lia.
    rewrite !len_cons, len_nil, len_app. lia.
  - unfold pre'. by rewrite <- !app_assoc in *.
  - rewrite Hd, !length_app. lia.
Qed.

Lemma packed_loop_safe fuel d i p vs :
  0 <= i -> p <= len d -> i <= len d -> len d - i <= Z.of_nat fuel -> Forall is_u64 vs ->
  safe (fun '(vs', j) => Forall is_u64 vs' /\ i <= j <= len d) (packed_loop fuel d i p vs).
Proof.
  revert i vs. induction fuel as [|fuel IH]; intros i vs Hi Hp Hl Hf Hv; simpl;
    destruct (i <? p) eqn:E; zbool; try lia; try (split; [done|lia]).
  eapply safe_bind; [by apply read_uint64_safe|]. intros [v j] [? ?].
  eapply safe_mono; [apply IH; try lia; by apply Forall_app_2; [|constructor]|].
  intros [vs' k] [? ?]. split; [done|lia].
Qed.

Lemma voters_case_safe {M} (wfm : M -> Prop) wt d i vs (set : list Z -> M) :
  0 <= i -> len d < two63 -> Forall is_u64 vs -> (forall vs, Forall is_u64 vs -> wfm (set vs)) ->
  safe (fun '(m', j) => wfm m' /\ i <= j <= len d) (voters_case wt d i vs set).
Proof.
  intros Hi Hd Hv Hs. unfold voters_case. case_match; [|case_match; [|done]].
  - eapply safe_bind; [by apply read_uint64_safe|]. intros [v j] [? ?]. simpl.
    split; [apply Hs; by apply Forall_app_2; [|constructor]|lia].
  - eapply safe_bind; [by apply read_bounds_safe|]. intros [j p] [? ?].
    eapply safe_bind; [apply packed_loop_safe; try done; unfold len in *; lia|].
    intros [vs' k] [? ?]. simpl. split; [by apply Hs|lia].
Qed.

#[global] Program Instance AggregatedSignature_laws : ProtoLaws AggregatedSignature := {
  fields := AggregatedSignature_fields; wf := AggregatedSignature_wf;
  canon := AggregatedSignature_canon
}.
Next Obligation.
  intros [vs sig] Hw Hf. simpl. unfold AggregatedSignature_fields, AggregatedSignature_Size in *.
  simpl in *. split_fits. rewrite !enc_fields_app, !len_app.
  rewrite <- (voters_size vs), (size_bytes_ok 2) by (done || lia). by destruct vs.
Qed.
Next Obligation.
  intros [vs sig] Hw Hf. unfold AggregatedSignature_fields in *. simpl in *. split_fits.
  apply run_writer_marshals. apply writes_fields; [|by apply put_voters_writes].
  apply put_bytes_field_writes; eauto with proto.
Qed.
Next Obligation.
  intros [vs sig] Hw Hf. simpl in *. apply unmarshal_steps; [|done].
  unfold AggregatedSignature_fields, AggregatedSignature_canon. simpl.
  eapply steps_app; [by apply (voters_step vs None)|].
  apply (steps_bytes _ 2 sig (fun s => mkAggregatedSignature vs s)); auto with proto.
Qed.
Next Obligation. intros [??]. unfold AggregatedSignature_fields. simpl. by autorewrite with proto. Qed.
Next Obligation. constructor. Qed.
Next Obligation.
  intros m d Hd Hm. apply unmarshal_safe; [|done|done].
  intros ? num wt i [vs sig] Hi Hd' Hw. simpl. repeat (case_match; simplify_eq; try done).
  - apply bytes_case_safe; [lia|lia|]. done.
  - apply voters_case_safe; [lia|lia|done|]. done.
Qed.

(** ** Certificate *)

Definition Certificate_Size (m : Certificate) : Z :=
  size_bytes (sbytes m.(Certificate_Block))
  + size_opt_msg m.(Certificate_Sig).

Definition Certificate_MarshalToSizedBuffer (m : Certificate) : bytes -> res (bytes * nat) :=
  run_writer
    (put_opt_msg x12 MarshalToSizedBuffer m.(Certificate_Sig)
     ▷ put_bytes_field x0a (sbytes m.(Certificate_Block)))%writer.

Definition Certificate_cases : field_cases Certificate := fun d fieldNum wt i m =>
  let '(mkCertificate block sig) := m in
  match fieldNum with
  | 1 => Some (bytes_case wt d i (fun s => mkCertificate s sig))
  | 2 => Some (msg_case wt d i sig (fun x => mkCertificate block (Some x)))
  | _ => None
  end.
Definition Certificate_Unmarshal : Certificate -> bytes -> Certificate * res unit := unmarshal Certificate_cases.

#[global] Instance Certificate_proto : ProtoMessage Certificate := {
  zero := mkCertificate None None;
  Size := Certificate_Size;
  MarshalToSizedBuffer := Certificate_MarshalToSizedBuffer;
  Unmarshal := Certificate_Unmarshal;
}.

Definition Certificate_fields (m : Certificate) : list wfield :=
  opt_bytes 1 (sbytes m.(Certificate_Block)) ++
  opt_msg 2 encoding m.(Certificate_Sig).

Definition Certificate_wf (m : Certificate) : Prop :=
  wf_opt m.(Certificate_Sig).

Definition Certificate_canon (m : Certificate) : Certificate :=
  mkCertificate (canon_slice m.(Certificate_Block)) (canon <$> m.(Certificate_Sig)).

#[global] Program Instance Certificate_laws : ProtoLaws Certificate := {
  fields := Certificate_fields; wf := Certificate_wf; canon := Certificate_canon
}.
Next Obligation.
  intros m Hw Hf. simpl. unfold Certificate_fields, Certificate_Size, Certificate_wf in *. split_wf. split_fits.
  rewrite !enc_fields_app, !len_app.
  rewrite (size_bytes_ok 1), (size_opt_msg_ok 2) by auto with proto.
  lia.
Qed.
Next Obligation. unfold Certificate_fields, Certificate_wf. simpl. solve_marshal. Qed.
Next Obligation.
  intros [block sig] Hw Hf. simpl in *. apply unmarshal_steps; [|done].
  unfold Certificate_fields, Certificate_wf in *. unfold Certificate_canon. simpl in *. split_wf. split_fits.
  eapply steps_app; [apply (steps_bytes _ 1 block (fun s => mkCertificate s None)); auto with proto|].
  apply (steps_opt_msg _ 2 sig (fun o => mkCertificate (canon_slice block) o)); auto with proto.
Qed.
Next Obligation. intros []. unfold Certificate_fields. simpl. by autorewrite with proto. Qed.
Next Obligation. done. Qed.
Next Obligation. solve_safe Certificate_wf. Qed.

(** ** TimeoutCertificate *)

Definition TimeoutCertificate_Size (m : TimeoutCertificate) : Z :=
  size_varint m.(TimeoutCertificate_View)
  + size_opt_msg m.(TimeoutCertificate_Sig).

Definition TimeoutCertificate_MarshalToSizedBuffer (m : TimeoutCertificate) : bytes -> res (bytes * nat) :=
  run_writer
    (put_opt_msg x12 MarshalToSizedBuffer m.(TimeoutCertificate_Sig)
     ▷ put_varint_field x08 m.(TimeoutCertificate_View))%writer.

Definition TimeoutCertificate_cases : field_cases TimeoutCertificate := fun d fieldNum wt i m =>
  let '(mkTimeoutCertificate view sig) := m in
  match fieldNum with
  | 1 => Some (varint_case wt d i (fun v => mkTimeoutCertificate v sig))
  | 2 => Some (msg_case wt d i sig (fun x => mkTimeoutCertificate view (Some x)))
  | _ => None
  end.
Definition TimeoutCertificate_Unmarshal : TimeoutCertificate -> bytes -> TimeoutCertificate * res unit := unmarshal TimeoutCertificate_cases.

#[global] Instance TimeoutCertificate_proto : ProtoMessage TimeoutCertificate := {
  zero := mkTimeoutCertificate 0 None;
  Size := TimeoutCertificate_Size;
  MarshalToSizedBuffer := TimeoutCertificate_MarshalToSizedBuffer;
  Unmarshal := TimeoutCertificate_Unmarshal;
}.

Definition TimeoutCertificate_fields (m : TimeoutCertificate) : list wfield :=
  opt_varint 1 m.(TimeoutCertificate_View) ++
  opt_msg 2 encoding m.(TimeoutCertificate_Sig).

Definition TimeoutCertificate_wf (m : TimeoutCertificate) : Prop :=
  is_u64 m.(TimeoutCertificate_View) /\ wf_opt m.(TimeoutCertificate_Sig).

Definition TimeoutCertificate_canon (m : TimeoutCertificate) : TimeoutCertificate :=
  mkTimeoutCertificate m.(TimeoutCertificate_View) (canon <$> m.(TimeoutCertificate_Sig)).

#[global] Program Instance TimeoutCertificate_laws : ProtoLaws TimeoutCertificate := {
  fields := TimeoutCertificate_fields; wf := TimeoutCertificate_wf; canon := TimeoutCertificate_canon
}.
Next Obligation.
  intros m Hw Hf. simpl. unfold TimeoutCertificate_fields, TimeoutCertificate_Size, TimeoutCertificate_wf in *. split_wf. split_fits.
  rewrite !enc_fields_app, !len_app.
  rewrite (size_varint_ok 1), (size_opt_msg_ok 2) by auto with proto.
  lia.
Qed.
Next Obligation. unfold TimeoutCertificate_fields, TimeoutCertificate_wf. simpl. solve_marshal. Qed.
Next Obligation.
  intros [view sig] Hw Hf. simpl in *. apply unmarshal_steps; [|done].
  unfold TimeoutCertificate_fields, TimeoutCertificate_wf in *. unfold TimeoutCertificate_canon. simpl in *. split_wf. split_fits.
  eapply steps_app; [apply (steps_varint _ 1 view (fun v => mkTimeoutCertificate v None)); auto with proto|].
  apply (steps_opt_msg _ 2 sig (fun o => mkTimeoutCertificate view o)); auto with proto.
Qed.
Next Obligation. intros []. unfold TimeoutCertificate_fields. simpl. by autorewrite with proto. Qed.
Next Obligation. done. Qed.
Next Obligation. solve_safe TimeoutCertificate_wf. Qed.

(** ** Header *)

Definition Header_Size (m : Header) : Z :=
  size_varint m.(Header_View)
  + size_bytes (sbytes m.(Header_Parent))
  + size_varint m.(Header_ParentView)
  + size_bytes (sbytes m.(Header_DataRoot))
  + size_bytes (sbytes m.(Header_StateRoot)).

Definition Header_MarshalToSizedBuffer (m : Header) : bytes -> res (bytes * nat) :=
  run_writer
    (put_bytes_field x2a (sbytes m.(Header_StateRoot))
     ▷ put_bytes_field x22 (sbytes m.(Header_DataRoot))
     ▷ put_varint_field x18 m.(Header_ParentView)
     ▷ put_bytes_field x12 (sbytes m.(Header_Parent))
     ▷ put_varint_field x08 m.(Header_View))%writer.

Definition Header_cases : field_cases Header := fun d fieldNum wt i m =>
  let '(mkHeader view parent parentView dataRoot stateRoot) := m in
  match fieldNum with
  | 1 => Some (varint_case wt d i (fun v => mkHeader v parent parentView dataRoot stateRoot))
  | 2 => Some (bytes_case wt d i (fun s => mkHeader view s parentView dataRoot stateRoot))
  | 3 => Some (varint_case wt d i (fun v => mkHeader view parent v dataRoot stateRoot))
  | 4 => Some (bytes_case wt d i (fun s => mkHeader view parent parentView s stateRoot))
  | 5 => Some (bytes_case wt d i (fun s => mkHeader view parent parentView dataRoot s))
  | _ => None
  end.
Definition Header_Unmarshal : Header -> bytes -> Header * res unit := unmarshal Header_cases.

#[global] Instance Header_proto : ProtoMessage Header := {
  zero := mkHeader 0 None 0 None None;
  Size := Header_Size;
  MarshalToSizedBuffer := Header_MarshalToSizedBuffer;
  Unmarshal := Header_Unmarshal;
}.

Definition Header_fields (m : Header) : list wfield :=
  opt_varint 1 m.(Header_View) ++
  opt_bytes 2 (sbytes m.(Header_Parent)) ++
  opt_varint 3 m.(Header_ParentView) ++
  opt_bytes 4 (sbytes m.(Header_DataRoot)) ++
  opt_bytes 5 (sbytes m.(Header_StateRoot)).

Definition Header_wf (m : Header) : Prop :=
  is_u64 m.(Header_View) /\ is_u64 m.(Header_ParentView).

Definition Header_canon (m : Header) : Header :=
  mkHeader m.(Header_View) (canon_slice m.(Header_Parent)) m.(Header_ParentView) (canon_slice m.(Header_DataRoot)) (canon_slice m.(Header_StateRoot)).

#[global] Program Instance Header_laws : ProtoLaws Header := {
  fields := Header_fields; wf := Header_wf; canon := Header_canon
}.
Next Obligation.
  intros m Hw Hf. simpl. unfold Header_fields, Header_Size, Header_wf in *. split_wf. split_fits.
  rewrite !enc_fields_app, !len_app.
  rewrite (size_varint_ok 1), (size_bytes_ok 2), (size_varint_ok 3), (size_bytes_ok 4), (size_bytes_ok 5) by auto with proto.
  lia.
Qed.
Next Obligation. unfold Header_fields, Header_wf. simpl. solve_marshal. Qed.
Next Obligation.
  intros [view parent parentView dataRoot stateRoot] Hw Hf. simpl in *. apply unmarshal_steps; [|done].
  unfold Header_fields, Header_wf in *. unfold Header_canon. simpl in *. split_wf. split_fits.
  eapply steps_app; [apply (steps_varint _ 1 view (fun v => mkHeader v None 0 None None)); auto with proto|].
  eapply steps_app; [apply (steps_bytes _ 2 parent (fun s => mkHeader view s 0 None None)); auto with proto|].
  eapply steps_app; [apply (steps_varint _ 3 parentView (fun v => mkHeader view (canon_slice parent) v None None)); auto with proto|].
  eapply steps_app; [apply (steps_bytes _ 4 dataRoot (fun s => mkHeader view (canon_slice parent) parentView s None)); auto with proto|].
  apply (steps_bytes _ 5 stateRoot (fun s => mkHeader view (canon_slice parent) parentView (canon_slice dataRoot) s)); auto with proto.
Qed.
Next Obligation. intros []. unfold Header_fields. simpl. by autorewrite with proto. Qed.
Next Obligation. done. Qed.
Next Obligation. solve_safe Header_wf. Qed.

(** ** Vote *)

Definition Vote_Size (m : Vote) : Z :=
  size_bytes (sbytes m.(Vote_Block))
  + size_varint m.(Vote_View)
  + size_varint m.(Vote_Voter)
  + size_bytes (sbytes m.(Vote_Sig)).

Definition Vote_MarshalToSizedBuffer (m : Vote) : bytes -> res (bytes * nat) :=
  run_writer
    (put_bytes_field x22 (sbytes m.(Vote_Sig))
     ▷ put_varint_field x18 m.(Vote_Voter)
     ▷ put_varint_field x10 m.(Vote_View)
     ▷ put_bytes_field x0a (sbytes m.(Vote_Block)))%writer.

Definition Vote_cases : field_cases Vote := fun d fieldNum wt i m =>
  let '(mkVote block view voter sig) := m in
  match fieldNum with
  | 1 => Some (bytes_case wt d i (fun s => mkVote s view voter sig))
  | 2 => Some (varint_case wt d i (fun v => mkVote block v voter sig))
  | 3 => Some (varint_case wt d i (fun v => mkVote block view v sig))
  | 4 => Some (bytes_case wt d i (fun s => mkVote block view voter s))
  | _ => None
  end.
Definition Vote_Unmarshal : Vote -> bytes -> Vote * res unit := unmarshal Vote_cases.

#[global] Instance Vote_proto : ProtoMessage Vote := {
  zero := mkVote None 0 0 None;
  Size := Vote_Size;
  MarshalToSizedBuffer := Vote_MarshalToSizedBuffer;
  Unmarshal := Vote_Unmarshal;
}.

Definition Vote_fields (m : Vote) : list wfield :=
  opt_bytes 1 (sbytes m.(Vote_Block)) ++
  opt_varint 2 m.(Vote_View) ++
  opt_varint 3 m.(Vote_Voter) ++
  opt_bytes 4 (sbytes m.(Vote_Sig)).

Definition Vote_wf (m : Vote) : Prop :=
  is_u64 m.(Vote_View) /\ is_u64 m.(Vote_Voter).

Definition Vote_canon (m : Vote) : Vote :=
  mkVote (canon_slice m.(Vote_Block)) m.(Vote_View) m.(Vote_Voter) (canon_slice m.(Vote_Sig)).

#[global] Program Instance Vote_laws : ProtoLaws Vote := {
  fields := Vote_fields; wf := Vote_wf; canon := Vote_canon
}.
Next Obligation.
  intros m Hw Hf. simpl. unfold Vote_fields, Vote_Size, Vote_wf in *. split_wf. split_fits.
  rewrite !enc_fields_app, !len_app.
  rewrite (size_bytes_ok 1), (size_varint_ok 2), (size_varint_ok 3), (size_bytes_ok 4) by auto with proto.
  lia.
Qed.
Next Obligation. unfold Vote_fields, Vote_wf. simpl. solve_marshal. Qed.
Next Obligation.
  intros [block view voter sig] Hw Hf. simpl in *. apply unmarshal_steps; [|done].
  unfold Vote_fields, Vote_wf in *. unfold Vote_canon. simpl in *. split_wf. split_fits.
  eapply steps_app; [apply (steps_bytes _ 1 block (fun s => mkVote s 0 0 None)); auto with proto|].
  eapply steps_app; [apply (steps_varint _ 2 view (fun v => mkVote (canon_slice block) v 0 None)); auto with proto|].
  eapply steps_app; [apply (steps_varint _ 3 voter (fun v => mkVote (canon_slice block) view v None)); auto with proto|].
  apply (steps_bytes _ 4 sig (fun s => mkVote (canon_slice block) view voter s)); auto with proto.
Qed.
Next Obligation. intros []. unfold Vote_fields. simpl. by autorewrite with proto. Qed.
Next Obligation. done. Qed.
Next Obligation. solve_safe Vote_wf. Qed.

(** ** NewView *)

Definition NewView_Size (m : NewView) : Z :=
  size_varint m.(NewView_View)
  + size_varint m.(NewView_Voter)
  + size_bytes (sbytes m.(NewView_Sig))
  + size_opt_msg m.(NewView_Cert).

Definition NewView_MarshalToSizedBuffer (m : NewView) : bytes -> res (bytes * nat) :=
  run_writer
    (put_opt_msg x22 MarshalToSizedBuffer m.(NewView_Cert)
     ▷ put_bytes_field x1a (sbytes m.(NewView_Sig))
     ▷ put_varint_field x10 m.(NewView_Voter)
     ▷ put_varint_field x08 m.(NewView_View))%writer.

Definition NewView_cases : field_cases NewView := fun d fieldNum wt i m =>
  let '(mkNewView view voter sig cert) := m in
  match fieldNum with
  | 1 => Some (varint_case wt d i (fun v => mkNewView v voter sig cert))
  | 2 => Some (varint_case wt d i (fun v => mkNewView view v sig cert))
  | 3 => Some (bytes_case wt d i (fun s => mkNewView view voter s cert))
  | 4 => Some (msg_case wt d i cert (fun x => mkNewView view voter sig (Some x)))
  | _ => None
  end.
Definition NewView_Unmarshal : NewView -> bytes -> NewView * res unit := unmarshal NewView_cases.

#[global] Instance NewView_proto : ProtoMessage NewView := {
  zero := mkNewView 0 0 None None;
  Size := NewView_Size;
  MarshalToSizedBuffer := NewView_MarshalToSizedBuffer;
  Unmarshal := NewView_Unmarshal;
}.

Definition NewView_fields (m : NewView) : list wfield :=
  opt_varint 1 m.(NewView_View) ++
  opt_varint 2 m.(NewView_Voter) ++
  opt_bytes 3 (sbytes m.(NewView_Sig)) ++
  opt_msg 4 encoding m.(NewView_Cert).

Definition NewView_wf (m : NewView) : Prop :=
  is_u64 m.(NewView_View) /\ is_u64 m.(NewView_Voter) /\ wf_opt m.(NewView_Cert).

Definition NewView_canon (m : NewView) : NewView :=
  mkNewView m.(NewView_View) m.(NewView_Voter) (canon_slice m.(NewView_Sig)) (canon <$> m.(NewView_Cert)).

#[global] Program Instance NewView_laws : ProtoLaws NewView := {
  fields := NewView_fields; wf := NewView_wf; canon := NewView_canon
}.
Next Obligation.
  intros m Hw Hf. simpl. unfold NewView_fields, NewView_Size, NewView_wf in *. split_wf. split_fits.
  rewrite !enc_fields_app, !len_app.
  rewrite (size_varint_ok 1), (size_varint_ok 2), (size_bytes_ok 3), (size_opt_msg_ok 4) by auto with proto.
  lia.
Qed.
Next Obligation. unfold NewView_fields, NewView_wf. simpl. solve_marshal. Qed.
Next Obligation.
  intros [view voter sig cert] Hw Hf. simpl in *. apply unmarshal_steps; [|done].
  unfold NewView_fields, NewView_wf in *. unfold NewView_canon. simpl in *. split_wf. split_fits.
  eapply steps_app; [apply (steps_varint _ 1 view (fun v => mkNewView v 0 None None)); auto with proto|].
  eapply steps_app; [apply (steps_varint _ 2 voter (fun v => mkNewView view v None None)); auto with proto|].
  eapply steps_app; [apply (steps_bytes _ 3 sig (fun s => mkNewView view voter s None)); auto with proto|].
  apply (steps_opt_msg _ 4 cert (fun o => mkNewView view voter (canon_slice sig) o)); auto with proto.
Qed.
Next Obligation. intros []. unfold NewView_fields. simpl. by autorewrite with proto. Qed.
Next Obligation. done. Qed.
Next Obligation. solve_safe NewView_wf. Qed.

(** ** Block *)

Definition Block_Size (m : Block) : Z :=
  size_opt_msg m.(Block_Header)
  + size_opt_msg m.(Block_Data)
  + size_opt_msg m.(Block_Cert).

Definition Block_MarshalToSizedBuffer (m : Block) : bytes -> res (bytes * nat) :=
  run_writer
    (put_opt_msg x1a MarshalToSizedBuffer m.(Block_Cert)
     ▷ put_opt_msg x12 MarshalToSizedBuffer m.(Block_Data)
     ▷ put_opt_msg x0a MarshalToSizedBuffer m.(Block_Header))%writer.

Definition Block_cases : field_cases Block := fun d fieldNum wt i m =>
  let '(mkBlock header data cert) := m in
  match fieldNum with
  | 1 => Some (msg_case wt d i header (fun x => mkBlock (Some x) data cert))
  | 2 => Some (msg_case wt d i data (fun x => mkBlock header (Some x) cert))
  | 3 => Some (msg_case wt d i cert (fun x => mkBlock header data (Some x)))
  | _ => None
  end.
Definition Block_Unmarshal : Block -> bytes -> Block * res unit := unmarshal Block_cases.

#[global] Instance Block_proto : ProtoMessage Block := {
  zero := mkBlock None None None;
  Size := Block_Size;
  MarshalToSizedBuffer := Block_MarshalToSizedBuffer;
  Unmarshal := Block_Unmarshal;
}.

Definition Block_fields (m : Block) : list wfield :=
  opt_msg 1 encoding m.(Block_Header) ++
  opt_msg 2 encoding m.(Block_Data) ++
  opt_msg 3 encoding m.(Block_Cert).

Definition Block_wf (m : Block) : Prop :=
  wf_opt m.(Block_Header) /\ wf_opt m.(Block_Data) /\ wf_opt m.(Block_Cert).

Definition Block_canon (m : Block) : Block :=
  mkBlock (canon <$> m.(Block_Header)) (canon <$> m.(Block_Data)) (canon <$> m.(Block_Cert)).

#[global] Program Instance Block_laws : ProtoLaws Block := {
  fields := Block_fields; wf := Block_wf; canon := Block_canon
}.
Next Obligation.
  intros m Hw Hf. simpl. unfold Block_fields, Block_Size, Block_wf in *. split_wf. split_fits.
  rewrite !enc_fields_app, !len_app.
  rewrite (size_opt_msg_ok 1), (size_opt_msg_ok 2), (size_opt_msg_ok 3) by auto with proto.
  lia.
Qed.
Next Obligation. unfold Block_fields, Block_wf. simpl. solve_marshal. Qed.
Next Obligation.
  intros [header data cert] Hw Hf. simpl in *. apply unmarshal_steps; [|done].
  unfold Block_fields, Block_wf in *. unfold Block_canon. simpl in *. split_wf. split_fits.
  eapply steps_app; [apply (steps_opt_msg _ 1 header (fun o => mkBlock o None None)); auto with proto|].
  eapply steps_app; [apply (steps_opt_msg _ 2 data (fun o => mkBlock (canon <$> header) o None)); auto with proto|].
  apply (steps_opt_msg _ 3 cert (fun o => mkBlock (canon <$> header) (canon <$> data) o)); auto with proto.
Qed.
Next Obligation. intros []. unfold Block_fields. simpl. by autorewrite with proto. Qed.
Next Obligation. done. Qed.
Next Obligation. solve_safe Block_wf. Qed.

(** ** Proposal *)

Definition Proposal_Size (m : Proposal) : Z :=
  size_opt_msg m.(Proposal_Header)
  + size_opt_msg m.(Proposal_Data)
  + size_bytes (sbytes m.(Proposal_Sig))
  + size_opt_msg m.(Proposal_ParentCert)
  + size_opt_msg m.(Proposal_Timeout).

Definition Proposal_MarshalToSizedBuffer (m : Proposal) : bytes -> res (bytes * nat) :=
  run_writer
    (put_opt_msg x2a MarshalToSizedBuffer m.(Proposal_Timeout)
     ▷ put_opt_msg x22 MarshalToSizedBuffer m.(Proposal_ParentCert)
     ▷ put_bytes_field x1a (sbytes m.(Proposal_Sig))
     ▷ put_opt_msg x12 MarshalToSizedBuffer m.(Proposal_Data)
     ▷ put_opt_msg x0a MarshalToSizedBuffer m.(Proposal_Header))%writer.

Definition Proposal_cases : field_cases Proposal := fun d fieldNum wt i m =>
  let '(mkProposal header data sig parentCert timeout) := m in
  match fieldNum with
  | 1 => Some (msg_case wt d i header (fun x => mkProposal (Some x) data sig parentCert timeout))
  | 2 => Some (msg_case wt d i data (fun x => mkProposal header (Some x) sig parentCert timeout))
  | 3 => Some (bytes_case wt d i (fun s => mkProposal header data s parentCert timeout))
  | 4 => Some (msg_case wt d i parentCert (fun x => mkProposal header data sig (Some x) timeout))
  | 5 => Some (msg_case wt d i timeout (fun x => mkProposal header data sig parentCert (Some x)))
  | _ => None
  end.
Definition Proposal_Unmarshal : Proposal -> bytes -> Proposal * res unit := unmarshal Proposal_cases.

#[global] Instance Proposal_proto : ProtoMessage Proposal := {
  zero := mkProposal None None None None None;
  Size := Proposal_Size;
  MarshalToSizedBuffer := Proposal_MarshalToSizedBuffer;
  Unmarshal := Proposal_Unmarshal;
}.

Definition Proposal_fields (m : Proposal) : list wfield :=
  opt_msg 1 encoding m.(Proposal_Header) ++
  opt_msg 2 encoding m.(Proposal_Data) ++
  opt_bytes 3 (sbytes m.(Proposal_Sig)) ++
  opt_msg 4 encoding m.(Proposal_ParentCert) ++
  opt_msg 5 encoding m.(Proposal_Timeout).

Definition Proposal_wf (m : Proposal) : Prop :=
  wf_opt m.(Proposal_Header) /\ wf_opt m.(Proposal_Data) /\ wf_opt m.(Proposal_ParentCert) /\ wf_opt m.(Proposal_Timeout).

Definition Proposal_canon (m : Proposal) : Proposal :=
  mkProposal (canon <$> m.(Proposal_Header)) (canon <$> m.(Proposal_Data)) (canon_slice m.(Proposal_Sig)) (canon <$> m.(Proposal_ParentCert)) (canon <$> m.(Proposal_Timeout)).

#[global] Program Instance Proposal_laws : ProtoLaws Proposal := {
  fields := Proposal_fields; wf := Proposal_wf; canon := Proposal_canon
}.
Next Obligation.
  intros m Hw Hf. simpl. unfold Proposal_fields, Proposal_Size, Proposal_wf in *. split_wf. split_fits.
  rewrite !enc_fields_app, !len_app.
  rewrite (size_opt_msg_ok 1), (size_opt_msg_ok 2), (size_bytes_ok 3), (size_opt_msg_ok 4), (size_opt_msg_ok 5) by auto with proto.
  lia.
Qed.
Next Obligation. unfold Proposal_fields, Proposal_wf. simpl. solve_marshal. Qed.
Next Obligation.
  intros [header data sig parentCert timeout] Hw Hf. simpl in *. apply unmarshal_steps; [|done].
  unfold Proposal_fields, Proposal_wf in *. unfold Proposal_canon. simpl in *. split_wf. split_fits.
  eapply steps_app; [apply (steps_opt_msg _ 1 header (fun o => mkProposal o None None None None)); auto with proto|].
  eapply steps_app; [apply (steps_opt_msg _ 2 data (fun o => mkProposal (canon <$> header) o None None None)); auto with proto|].
  eapply steps_app; [apply (steps_bytes _ 3 sig (fun s => mkProposal (canon <$> header) (canon <$> data) s None None)); auto with proto|].
  eapply steps_app; [apply (steps_opt_msg _ 4 parentCert (fun o => mkProposal (canon <$> header) (canon <$> data) (canon_slice sig) o None)); auto with proto|].
  apply (steps_opt_msg _ 5 timeout (fun o => mkProposal (canon <$> header) (canon <$> data) (canon_slice sig) (canon <$> parentCert) o)); auto with proto.
Qed.
Next Obligation. intros []. unfold Proposal_fields. simpl. by autorewrite with proto. Qed.
Next Obligation. done. Qed.
Next Obligation. solve_safe Proposal_wf. Qed.

(** ** SyncRequest *)

Definition SyncRequest_Size (m : SyncRequest) : Z :=
  size_opt_msg m.(SyncRequest_From)
  + size_varint m.(SyncRequest_Limit).

Definition SyncRequest_MarshalToSizedBuffer (m : SyncRequest) : bytes -> res (bytes * nat) :=
  run_writer
    (put_varint_field x10 m.(SyncRequest_Limit)
     ▷ put_opt_msg x0a MarshalToSizedBuffer m.(SyncRequest_From))%writer.

Definition SyncRequest_cases : field_cases SyncRequest := fun d fieldNum wt i m =>
  let '(mkSyncRequest from_ limit) := m in
  match fieldNum with
  | 1 => Some (msg_case wt d i from_ (fun x => mkSyncRequest (Some x) limit))
  | 2 => Some (varint_case wt d i (fun v => mkSyncRequest from_ v))
  | _ => None
  end.
Definition SyncRequest_Unmarshal : SyncRequest -> bytes -> SyncRequest * res unit := unmarshal SyncRequest_cases.

#[global] Instance SyncRequest_proto : ProtoMessage SyncRequest := {
  zero := mkSyncRequest None 0;
  Size := SyncRequest_Size;
  MarshalToSizedBuffer := SyncRequest_MarshalToSizedBuffer;
  Unmarshal := SyncRequest_Unmarshal;
}.

Definition SyncRequest_fields (m : SyncRequest) : list wfield :=
  opt_msg 1 encoding m.(SyncRequest_From) ++
  opt_varint 2 m.(SyncRequest_Limit).

Definition SyncRequest_wf (m : SyncRequest) : Prop :=
  wf_opt m.(SyncRequest_From) /\ is_u64 m.(SyncRequest_Limit).

Definition SyncRequest_canon (m : SyncRequest) : SyncRequest :=
  mkSyncRequest (canon <$> m.(SyncRequest_From)) m.(SyncRequest_Limit).

#[global] Program Instance SyncRequest_laws : ProtoLaws SyncRequest := {
  fields := SyncRequest_fields; wf := SyncRequest_wf; canon := SyncRequest_canon
}.
Next Obligation.
  intros m Hw Hf. simpl. unfold SyncRequest_fields, SyncRequest_Size, SyncRequest_wf in *. split_wf. split_fits.
  rewrite !enc_fields_app, !len_app.
  rewrite (size_opt_msg_ok 1), (size_varint_ok 2) by auto with proto.
  lia.
Qed.
Next Obligation. unfold SyncRequest_fields, SyncRequest_wf. simpl. solve_marshal. Qed.
Next Obligation.
  intros [from_ limit] Hw Hf. simpl in *. apply unmarshal_steps; [|done].
  unfold SyncRequest_fields, SyncRequest_wf in *. unfold SyncRequest_canon. simpl in *. split_wf. split_fits.
  eapply steps_app; [apply (steps_opt_msg _ 1 from_ (fun o => mkSyncRequest o 0)); auto with proto|].
  apply (steps_varint _ 2 limit (fun v => mkSyncRequest (canon <$> from_) v)); auto with proto.
Qed.
Next Obligation. intros []. unfold SyncRequest_fields. simpl. by autorewrite with proto. Qed.
Next Obligation. done. Qed.
Next Obligation. solve_safe SyncRequest_wf. Qed.

(** ** Sync *)

Definition Sync_Size (m : Sync) : Z := size_rep_msg m.(Sync_Blocks).

Definition Sync_MarshalToSizedBuffer (m : Sync) : bytes -> res (bytes * nat) :=
  run_writer (put_rep_msg x0a MarshalToSizedBuffer m.(Sync_Blocks)).

Definition Sync_cases : field_cases Sync := fun d fieldNum wt i m =>
  let '(mkSync l) := m in
  match fieldNum with
  | 1 => Some (msg_case wt d i None (fun b => mkSync (l ++ [b])))
  | _ => None
  end.
Definition Sync_Unmarshal : Sync -> bytes -> Sync * res unit := unmarshal Sync_cases.

#[global] Instance Sync_proto : ProtoMessage Sync := {
  zero := mkSync [];
  Size := Sync_Size;
  MarshalToSizedBuffer := Sync_MarshalToSizedBuffer;
  Unmarshal := Sync_Unmarshal;
}.

Definition Sync_fields (m : Sync) : list wfield := rep_msg 1 m.(Sync_Blocks).
Definition Sync_wf (m : Sync) : Prop := Forall wf m.(Sync_Blocks).
Definition Sync_canon (m : Sync) : Sync := mkSync (canon <$> m.(Sync_Blocks)).

#[global] Program Instance Sync_laws : ProtoLaws Sync := {
  fields := Sync_fields; wf := Sync_wf; canon := Sync_canon
}.
Next Obligation. intros m Hw Hf. by apply size_rep_msg_ok. Qed.
Next Obligation. intros m Hw Hf. apply run_writer_marshals. by apply put_rep_writes; auto with proto. Qed.
Next Obligation.
  intros [l] Hw Hf. simpl in *. apply unmarshal_steps; [|done].
  by apply (steps_rep_msg Sync_cases 1 l mkSync ltac:(lia) Hw Hf (fun _ _ _ => eq_refl) []).
Qed.
Next Obligation. intros [l]. apply (rep_msg_canon 1 l). Qed.
Next Obligation. constructor. Qed.
Next Obligation.
  intros m d Hd Hm. apply unmarshal_safe; [|done|done].
  intros ? num wt i [l] Hi Hd' Hw. unfold Sync_wf in Hw. simpl in *.
  repeat (case_match; simplify_eq; try done).
  refine (msg_case_safe _ _ _ _ _ _ _ _ _ _); [lia|lia|done|]. intros b Hb.
  by apply Forall_app_2; [|constructor].
Qed.

(** ** Message and the oneof wrappers *)

Definition Message_Type_Size (t : Message_Type) : Z :=
  match t with
  | Message_Proposal p => size_msg p
  | Message_Newview n => size_msg n
  | Message_Vote v => size_msg v
  | Message_Sync s => size_msg s
  end.

Definition Message_Type_MarshalToSizedBuffer (t : Message_Type) : bytes -> res (bytes * nat) :=
  run_writer
    match t with
    | Message_Proposal p => put_msg_field x0a (MarshalToSizedBuffer p)
    | Message_Newview n => put_msg_field x12 (MarshalToSizedBuffer n)
    | Message_Vote v => put_msg_field x1a (MarshalToSizedBuffer v)
    | Message_Sync s => put_msg_field x22 (MarshalToSizedBuffer s)
    end.

(** [size := m.Size(); return m.MarshalToSizedBuffer(dAtA[:size])]: writes
    through the prefix of the caller's slice. *)
Definition Message_Type_MarshalTo (t : Message_Type) (d : bytes) : res (bytes * nat) :=
  let size := Z.to_nat (Message_Type_Size t) in
  if (size <=? length d)%nat then
    '(d', n) ← Message_Type_MarshalToSizedBuffer t (take size d);
    mret (d' ++ drop size d, n)
  else Panic OutOfRange.

Definition Message_Size (m : Message) : Z :=
  match m.(Message_GetType) with None => 0 | Some t => Message_Type_Size t end.

Definition Message_MarshalToSizedBuffer (m : Message) : bytes -> res (bytes * nat) :=
  run_writer (fun '(d, i) =>
    match m.(Message_GetType) with
    | None => Ok (d, i)
    | Some t =>
        i' ← buf_sub i (Z.to_nat (Message_Type_Size t));
        '(sub, _) ← Message_Type_MarshalTo t (drop i' d);
        mret (take i' d ++ sub, i')
    end).

Definition Message_cases : field_cases Message := fun d fieldNum wt i m =>
  match fieldNum with
  | 1 => Some (msg_case wt d i None (fun p => mkMessage (Some (Message_Proposal p))))
  | 2 => Some (msg_case wt d i None (fun n => mkMessage (Some (Message_Newview n))))
  | 3 => Some (msg_case wt d i None (fun v => mkMessage (Some (Message_Vote v))))
  | 4 => Some (msg_case wt d i None (fun s => mkMessage (Some (Message_Sync s))))
  | _ => None
  end.
Definition Message_Unmarshal : Message -> bytes -> Message * res unit := unmarshal Message_cases.

#[global] Instance Message_proto : ProtoMessage Message := {
  zero := mkMessage None;
  Size := Message_Size;
  MarshalToSizedBuffer := Message_MarshalToSizedBuffer;
  Unmarshal := Message_Unmarshal;
}.

Definition Message_Type_field (t : Message_Type) : wfield :=
  match t with
  | Message_Proposal p => WBytes 1 (encoding p)
  | Message_Newview n => WBytes 2 (encoding n)
  | Message_Vote v => WBytes 3 (encoding v)
  | Message_Sync s => WBytes 4 (encoding s)
  end.
Definition Message_Type_wf (t : Message_Type) : Prop :=
  match t with
  | Message_Proposal p => wf p | Message_Newview n => wf n
  | Message_Vote v => wf v | Message_Sync s => wf s
  end.
Definition Message_Type_canon (t : Message_Type) : Message_Type :=
  match t with
  | Message_Proposal p => Message_Proposal (canon p)
  | Message_Newview n => Message_Newview (canon n)
  | Message_Vote v => Message_Vote (canon v)
  | Message_Sync s => Message_Sync (canon s)
  end.

Definition Message_fields (m : Message) : list wfield :=
  match m.(Message_GetType) with None => [] | Some t => [Message_Type_field t] end.
Definition Message_wf (m : Message) : Prop :=
  forall t, m.(Message_GetType) = Some t -> Message_Type_wf t.
Definition Message_canon (m : Message) : Message :=
  mkMessage (Message_Type_canon <$> m.(Message_GetType)).

Lemma Message_Type_size_ok t : Message_Type_wf t -> fits [Message_Type_field t] ->
  Message_Type_Size t = len (enc_field (Message_Type_field t)).
Proof. destruct t; intros Hw [Hf _]%fits_WBytes; apply size_msg_ok; auto with proto. Qed.

Lemma Message_Type_marshals t : Message_Type_wf t -> fits [Message_Type_field t] ->
  marshals (Message_Type_MarshalToSizedBuffer t) (enc_field (Message_Type_field t)).
Proof.
  destruct t; intros Hw [Hf _]%fits_WBytes; apply run_writer_marshals;
    (apply put_msg_field_writes; [split; [lia|reflexivity]|by apply two63_lt_two64|by apply law_marshal]).
Qed.

(** The fields of a message, read one after the other. *)
Lemma Message_steps m : Message_wf m -> fits (Message_fields m) ->
  steps Message_cases (Message_fields m) (mkMessage None) (Message_canon m).
Proof.
  destruct m as [[t|]]; intros Hw Hf; [|constructor].
  specialize (Hw t eq_refl). unfold Message_fields, Message_canon in *. simpl in *.
  apply steps_one. destruct t; apply fits_WBytes in Hf as [Hf _].
  - by apply (step_msg _ 1 p (fun p => mkMessage (Some (Message_Proposal p)))).
  - by apply (step_msg _ 2 n (fun n => mkMessage (Some (Message_Newview n)))).
  - by apply (step_msg _ 3 v (fun v => mkMessage (Some (Message_Vote v)))).
  - by apply (step_msg _ 4 s (fun s => mkMessage (Some (Message_Sync s)))).
Qed.

#[global] Program Instance Message_laws : ProtoLaws Message := {
  fields := Message_fields; wf := Message_wf; canon := Message_canon
}.
Next Obligation.
  intros [[t|]] Hw Hf; [|done]. unfold Message_fields. simpl. rewrite enc_fields_one.
  apply Message_Type_size_ok; [by apply Hw|done].
Qed.
Next Obligation.
  intros [[t|]] Hw Hf; [|apply run_writer_marshals, writes_nil].
  unfold Message_fields in *. simpl in *. rewrite enc_fields_one. specialize (Hw t eq_refl).
  apply run_writer_marshals. intros pre mid suf Hl. simpl.
  rewrite (Message_Type_size_ok t Hw Hf). unfold len. rewrite Nat2Z.id, <- Hl, buf_sub_app.
  cbn [mbind res_bind]. rewrite drop_app_length, take_app_length.
  unfold Message_Type_MarshalTo. rewrite (Message_Type_size_ok t Hw Hf).
  unfold len. rewrite Nat2Z.id, <- Hl, (proj2 (Nat.leb_le _ _)) by (rewrite length_app; lia).
  rewrite take_app_length, drop_app_length.
  pose proof (Message_Type_marshals t Hw Hf [] mid Hl) as Hm. simpl in Hm. by rewrite Hm.
Qed.
Next Obligation.
  intros m Hw Hf. simpl in *. apply unmarshal_steps; [by apply Message_steps|done].
Qed.
Next Obligation.
  intros [[[]|]]; [..|done]; unfold Message_fields; simpl; by rewrite encoding_canon.
Qed.
Next Obligation. done. Qed.
Next Obligation.
  intros m d Hd Hm. apply unmarshal_safe; [|done|done].
  intros ? num wt i m' Hi Hd' Hw. unfold Message_wf, Message_cases. simpl.
  repeat (case_match; simplify_eq; try done);
    (refine (msg_case_safe _ _ _ _ _ _ _ _ _ _); [lia|lia|done|]; intros; simpl in *; naive_solver).
Qed.
