(* ===== verification/Encoding.v ===== *)
(** * encoding.go and the hashes

    [EncodeUint64]/[DecodeUint64] (encoding/binary, big endian), the blake2s
    digest as a parameter, [HashSum] of utils.go and [Header.Hash] of
    types/hash.go. *)

From Stdlib Require Import ZArith Lia.
From S2P Require Import Prelude Wire Types Proto Codec.

(** [binary.BigEndian.PutUintN]: the [n] low bytes of [u], most significant
    first. *)
Fixpoint be_bytes (n : nat) (u : Z) : bytes :=
  match n with
  | O => []
  | S n => byte_of_Z (Z.shiftr u (8 * Z.of_nat n)) :: be_bytes n u
  end.

(** [binary.BigEndian.UintN] of a list of bytes. *)
Definition be_value (b : bytes) : Z :=
  foldl (fun acc x => Z.lor (Z.shiftl acc 8) (Z_of_byte x)) 0 b.

Definition EncodeUint64 (u : Z) : bytes := be_bytes 8 u.

(** [binary.BigEndian.Uint64] panics on fewer than eight bytes and ignores what
    follows them. *)
Definition DecodeUint64 (b : bytes) : res Z :=
  if len b <? 8 then Panic OutOfRange else Ok (be_value (take 8 b)).

Lemma length_be_bytes n u : length (be_bytes n u) = n.
Proof. induction n; simpl; congruence. Qed.

Lemma be_fold acc b : foldl (fun acc x => Z.lor (Z.shiftl acc 8) (Z_of_byte x)) acc b
  = acc * 2 ^ (8 * len b) + be_value b.
Proof.
  assert (Hstep : forall a x, Z.lor (Z.shiftl a 8) (Z_of_byte x) = a * 256 + Z_of_byte x).
  { intros a x. rewrite Z.lor_comm, lor_shifted; [change (2 ^ 8) with 256; lia|lia|].
    apply Z_of_byte_range. }
  unfold be_value. revert acc. induction b as [|x b IH]; intros acc.
  - simpl. change (2 ^ (8 * len (@nil byte))) with 1. lia.
  - simpl. rewrite IH, (IH (Z.lor (Z.shiftl 0 8) (Z_of_byte x))), !Hstep, len_cons.
    pose proof (len_nonneg b). rewrite Z.mul_add_distr_l, Z.pow_add_r by lia.
    change (2 ^ (8 * 1)) with 256. lia.
Qed.

Lemma be_value_bytes n u : 0 <= u -> be_value (be_bytes n u) = u mod 2 ^ (8 * Z.of_nat n).
Proof.
  intros Hu. induction n as [|n IH].
  - simpl. by rewrite Z.mod_1_r.
  - simpl be_bytes. unfold be_value. simpl. rewrite be_fold, IH.
    rewrite Z.shiftl_0_l, Z.lor_0_l, Z_of_byte_of_Z. unfold len. rewrite length_be_bytes.
    rewrite Z.shiftr_div_pow2 by lia.
    replace (8 * Z.of_nat (S n)) with (8 * Z.of_nat n + 8) by lia.
    rewrite Z.pow_add_r by lia. change (2 ^ 8) with 256.
    assert (0 < 2 ^ (8 * Z.of_nat n)) by (apply Z.pow_pos_nonneg; lia).
    rewrite Z.rem_mul_r by lia. lia.
Qed.

Lemma be_value_range b : 0 <= be_value b < 2 ^ (8 * len b).
Proof.
  induction b as [|x b IH] using rev_ind; [done|]. unfold be_value in *. rewrite foldl_app. simpl.
  set (v := foldl _ 0 b) in *. pose proof (Z_of_byte_range x).
  rewrite Z.lor_comm, lor_shifted by (change (2 ^ 8) with 256; lia). rewrite len_app.
  change (len [x]) with 1. rewrite Z.mul_add_distr_l, Z.pow_add_r by (pose proof (len_nonneg b); lia).
  change (2 ^ (8 * 1)) with 256. change (2 ^ 8) with 256. lia.
Qed.

Lemma Encode_Decode u : is_u64 u -> DecodeUint64 (EncodeUint64 u) = Ok u.
Proof.
  intros Hu. unfold DecodeUint64, EncodeUint64, len. rewrite length_be_bytes.
  change (Z.of_nat 8 <? 8) with false. cbv iota.
  rewrite take_ge by (by rewrite length_be_bytes). f_equal. rewrite be_value_bytes by (unfold is_u64 in Hu; lia). by apply Z.mod_small.
Qed.

(** ** Digests *)

(** golang.org/x/crypto/blake2s: an unkeyed 256-bit digest. *)
Class Hasher : Type := { blake2s256 : bytes -> bytes }.

(** The digest has the documented length. *)
Class HasherLaws `{Hasher} : Prop := {
  blake2s256_length b : length (blake2s256 b) = 32%nat
}.

Section Hash.
Context `{Hasher}.

Definition HashSum (buf : bytes) : bytes := blake2s256 buf.

(** The bytes of a message.  [Marshal] cannot fail on a Go value
    ([marshal_bytes_ok]), so the [panic(err.Error())] branches of
    types/hash.go are dead. *)
Definition marshal_bytes {A} `{ProtoMessage A} (m : A) : bytes :=
  match Marshal m with Ok b => b | _ => [] end.

Lemma marshal_bytes_ok {A} `{ProtoLaws A} (m : A) : good m ->
  Marshal m = Ok (marshal_bytes m) /\ marshal_bytes m = encoding m.
Proof. intros Hg. unfold marshal_bytes. by rewrite marshal_encoding. Qed.

Definition Header_Hash (h : Header) : bytes := blake2s256 (marshal_bytes h).

Lemma Header_Hash_encoding h : good h -> Header_Hash h = blake2s256 (encoding h).
Proof. intros [_ E]%marshal_bytes_ok. unfold Header_Hash. by rewrite E. Qed.

Lemma good_canon h : good h -> good (canon h : Header).
Proof. intros [Hw Hf]. split; [done|]. by rewrite law_canon. Qed.

(** Reading a header back from the wire or from disk does not change its
    hash. *)
Lemma Header_Hash_canon h : good h -> Header_Hash (canon h) = Header_Hash h.
Proof.
  intros Hg. rewrite !Header_Hash_encoding by (done || by apply good_canon).
  by rewrite encoding_canon.
Qed.

Lemma Header_good view parent pview root state : is_u64 view -> is_u64 pview ->
  len (sbytes parent) + len (sbytes root) + len (sbytes state) < 2 ^ 62 ->
  good (mkHeader view parent pview root state).
Proof.
  intros Hv Hp Hl. split; [done|]. unfold fits. simpl. unfold Header_fields. simpl.
  rewrite !enc_fields_app, !len_app.
  pose proof (len_opt_varint_le 1 view). pose proof (len_opt_varint_le 3 pview).
  pose proof (len_opt_bytes_le 2 (sbytes parent)). pose proof (len_opt_bytes_le 4 (sbytes root)).
  pose proof (len_opt_bytes_le 5 (sbytes state)). assert (two63 = 2 * 2 ^ 62) by done.
  assert (100 < 2 ^ 62) by done. lia.
Qed.
End Hash.
