(* ===== verification/Store.v ===== *)
(** * store.go: the block store and the chain iterator

    The database is goleveldb, a parameter: [KVStore] is its [Get] and [Put],
    [KVLaws] the documented contract (a successful [Put] is what [Get] returns,
    and only at that key).  The key layout of store.go is verified against a
    type of logical keys, so that every operation is known to touch one logical
    entry and no other; what was saved is read back up to nil/empty byte
    fields. *)

From Stdlib Require Import ZArith Lia.
From S2P Require Import Prelude Wire Types Proto Codec Encoding.

Class KVStore (DB : Type) : Type := {
  db_get : DB -> bytes -> option bytes;      (* None: any error *)
  db_put : DB -> bytes -> bytes -> option DB; (* None: any error *)
}.

Class KVLaws (DB : Type) `{KVStore DB} : Prop := {
  get_put_eq db k v db' : db_put db k v = Some db' -> db_get db' k = Some v;
  get_put_ne db k v db' k' : db_put db k v = Some db' -> k <> k' -> db_get db' k' = db_get db k';
}.

(** ** Keys *)

Definition headerBucket : byte := x01.
Definition dataBucket : byte := x02.
Definition certBucket : byte := x03.
Definition viewBucket : byte := x04.
Definition votedBucket : byte := x05.

Definition Tag : Type := bytes.
Definition PrepareTag : Tag := [x70].
Definition LockedTag : Tag := [x6c].
Definition DecideTag : Tag := [x64].
Definition ExecTag : Tag := [x65].

Definition partsKey (part : byte) (hash : bytes) : bytes := part :: hash.
Definition headerKey (hash : bytes) : bytes := partsKey headerBucket hash.
Definition dataKey (hash : bytes) : bytes := partsKey dataBucket hash.
Definition certKey (hash : bytes) : bytes := partsKey certBucket hash.

(** What the store holds, by name. *)
Inductive skey : Type :=
| KHeader (hash : bytes) | KData (hash : bytes) | KCert (hash : bytes)
| KView | KVoted | KPrepare | KLocked | KDecide.

#[global] Instance skey_eq_dec : EqDecision skey.
Proof. solve_decision. Defined.

Definition skey_bytes (k : skey) : bytes :=
  match k with
  | KHeader h => headerKey h | KData h => dataKey h | KCert h => certKey h
  | KView => [viewBucket] | KVoted => [votedBucket]
  | KPrepare => PrepareTag | KLocked => LockedTag | KDecide => DecideTag
  end.

Lemma skey_bytes_inj k1 k2 : skey_bytes k1 = skey_bytes k2 -> k1 = k2.
Proof. destruct k1, k2; intros E; by inversion E. Qed.

Section Store.
Context {DB : Type} `{KVStore DB} `{Hasher}.
Implicit Types db : DB.

(** ** BlockStore *)

Definition Get db (key : bytes) : res bytes :=
  match db_get db key with Some v => Ok v | None => Err ErrDB end.
Definition Put db (key value : bytes) : res DB :=
  match db_put db key value with Some db' => Ok db' | None => Err ErrDB end.

Definition GetHeader db (hash : bytes) : res Header := Get db (headerKey hash) ≫= decode.
Definition SaveHeader db (h : Header) : res DB :=
  buf ← Marshal h; Put db (headerKey (Header_Hash h)) buf.

Definition GetCertificate db (hash : bytes) : res Certificate := Get db (certKey hash) ≫= decode.
Definition SaveCertificate db (c : Certificate) : res DB :=
  buf ← Marshal c; Put db (certKey (sbytes c.(Certificate_Block))) buf.

(** A nil [data] has size 0, and [MarshalToSizedBuffer] dereferences it. *)
Definition SaveData db (hash : bytes) (data : option Data) : res DB :=
  d ← deref data; buf ← Marshal d; Put db (dataKey hash) buf.
Definition GetData db (hash : bytes) : res Data := Get db (dataKey hash) ≫= decode.

Definition SetTag db (tag : Tag) (hash : bytes) : res DB := Put db tag hash.
Definition GetTag db (tag : Tag) : res bytes := Get db tag.
Definition GetTagHeader db (tag : Tag) : res Header := GetTag db tag ≫= GetHeader db.
Definition GetTagCert db (tag : Tag) : res Certificate := GetTag db tag ≫= GetCertificate db.

Definition SaveView db (view : Z) : res DB := Put db [viewBucket] (EncodeUint64 view).
Definition GetView db : res Z := Get db [viewBucket] ≫= DecodeUint64.
Definition SaveVoted db (voted : Z) : res DB := Put db [votedBucket] (EncodeUint64 voted).
Definition GetVoted db : res Z := Get db [votedBucket] ≫= DecodeUint64.

(** A sequence of writes with early returns: the writes before the one that
    fails stay in the database. *)
Fixpoint run_writes (ws : list (DB -> res DB)) db : DB * res unit :=
  match ws with
  | [] => (db, Ok tt)
  | w :: ws =>
      match w db with
      | Ok db' => run_writes ws db'
      | Err e => (db, Err e)
      | Panic c => (db, Panic c)
      end
  end.

Lemma run_writes_step w ws db : run_writes (w :: ws) db
  = match w db with Ok db' => run_writes ws db' | Err e => (db, Err e) | Panic c => (db, Panic c) end.
Proof. done. Qed.

Lemma run_writes_cons w ws db db' : run_writes (w :: ws) db = (db', Ok tt) <->
  exists db1, w db = Ok db1 /\ run_writes ws db1 = (db', Ok tt).
Proof.
  simpl. destruct (w db); split; try (by intros (? & ? & ?)); try done; [by eauto|].
  by intros (? & [= <-] & ?).
Qed.

Definition SaveBlock db (b : Block) : DB * res unit :=
  run_writes [
    fun db => h ← deref b.(Block_Header); SaveHeader db h;
    fun db => c ← deref b.(Block_Cert); SaveCertificate db c;
    fun db => h ← deref b.(Block_Header); SaveData db (Header_Hash h) b.(Block_Data)
  ] db.

Definition GetBlock db (hash : bytes) : res Block :=
  h ← GetHeader db hash;
  c ← GetCertificate db hash;
  d ← GetData db hash;
  mret (mkBlock (Some h) (Some d) (Some c)).

(** ** ChainIterator *)

Record ChainIterator : Type := mkChainIterator {
  ci_store : DB;
  ci_err : option err;
  ci_header : option Header;
  ci_certificate : option Certificate;
  ci_data : option Data;
}.

Definition NewChainIterator db : ChainIterator := mkChainIterator db None None None None.
Definition NewChainIteratorFrom db (from : Header) : ChainIterator :=
  mkChainIterator db None (Some from) None None.
Definition NewChainIteratorFromLatest db : res ChainIterator :=
  h ← GetTagHeader db PrepareTag; mret (NewChainIteratorFrom db h).

Definition Valid (ci : ChainIterator) : bool :=
  match ci.(ci_err) with None => true | Some _ => false end.

(** [ci.header, ci.err = ...]: on an error the header becomes nil. *)
Definition Next (ci : ChainIterator) : res ChainIterator :=
  let r := match ci.(ci_header) with
           | None => GetTagHeader ci.(ci_store) DecideTag
           | Some h => GetHeader ci.(ci_store) (sbytes h.(Header_Parent))
           end in
  match r with
  | Ok h => Ok (mkChainIterator ci.(ci_store) None (Some h) None None)
  | Err e => Ok (mkChainIterator ci.(ci_store) (Some e) None None None)
  | Panic c => Panic c
  end.

Definition Ceritificate (ci : ChainIterator) : res (option Certificate * ChainIterator) :=
  match ci.(ci_certificate) with
  | Some c => Ok (Some c, ci)
  | None =>
      h ← deref ci.(ci_header);
      match GetCertificate ci.(ci_store) (Header_Hash h) with
      | Ok c => Ok (Some c, mkChainIterator ci.(ci_store) None ci.(ci_header) (Some c) ci.(ci_data))
      | Err e => Ok (None, mkChainIterator ci.(ci_store) (Some e) ci.(ci_header) None ci.(ci_data))
      | Panic c => Panic c
      end
  end.

Definition ci_Data (ci : ChainIterator) : res (option Data * ChainIterator) :=
  match ci.(ci_data) with
  | Some d => Ok (Some d, ci)
  | None =>
      h ← deref ci.(ci_header);
      match GetData ci.(ci_store) (Header_Hash h) with
      | Ok d => Ok (Some d, mkChainIterator ci.(ci_store) None ci.(ci_header) ci.(ci_certificate) (Some d))
      | Err e => Ok (None, mkChainIterator ci.(ci_store) (Some e) ci.(ci_header) ci.(ci_certificate) None)
      | Panic c => Panic c
      end
  end.

(** The loop of the chain-consistency test,
    [for iter.Next(); iter.Valid(); iter.Next()], collecting headers. *)
Fixpoint walk (n : nat) (ci : ChainIterator) : res (list Header) :=
  match n with
  | O => Ok []
  | S n =>
      ci' ← Next ci;
      match ci'.(ci_header) with
      | Some h => if Valid ci' then hs ← walk n ci'; mret (h :: hs) else Ok []
      | None => Ok []
      end
  end.

(** ** Properties *)

(** The value at a logical key. *)
Definition entry db (k : skey) : option bytes := db_get db (skey_bytes k).

(** Which entry an operation writes, and what. *)
Definition writes_entry (db db' : DB) (k : skey) (v : bytes) : Prop :=
  forall k', entry db' k' = if decide (k = k') then Some v else entry db k'.

Context `{!KVLaws DB}.

Lemma Put_entry db k v db' : Put db (skey_bytes k) v = Ok db' -> writes_entry db db' k v.
Proof.
  unfold Put, writes_entry, entry. destruct (db_put db (skey_bytes k) v) eqn:E; intros [= ->] k'.
  case_decide as D; [subst; by eapply get_put_eq|].
  eapply get_put_ne; [done|]. intros X. by apply D, skey_bytes_inj.
Qed.

Lemma SaveHeader_entry db h db' : SaveHeader db h = Ok db' ->
  exists buf, Marshal h = Ok buf /\ writes_entry db db' (KHeader (Header_Hash h)) buf.
Proof. intros (buf & ? & ?)%res_bind_Ok. exists buf. split; [done|]. by apply (Put_entry db (KHeader _)). Qed.

Lemma SaveCertificate_entry db c db' : SaveCertificate db c = Ok db' ->
  exists buf, Marshal c = Ok buf /\ writes_entry db db' (KCert (sbytes c.(Certificate_Block))) buf.
Proof. intros (buf & ? & ?)%res_bind_Ok. exists buf. split; [done|]. by apply (Put_entry db (KCert _)). Qed.

Lemma SaveData_entry db hash data db' : SaveData db hash data = Ok db' ->
  exists d buf, data = Some d /\ Marshal d = Ok buf /\ writes_entry db db' (KData hash) buf.
Proof.
  intros (d & Hd & (buf & ? & ?)%res_bind_Ok)%res_bind_Ok. destruct data; [|done].
  injection Hd as ->. exists d, buf. split_and!; [done..|]. by apply (Put_entry db (KData _)).
Qed.

Lemma SetTag_entry db k hash db' : k ∈ [KPrepare; KLocked; KDecide] ->
  SetTag db (skey_bytes k) hash = Ok db' -> writes_entry db db' k hash.
Proof. intros _. apply Put_entry. Qed.

Lemma SaveView_entry db v db' : SaveView db v = Ok db' -> writes_entry db db' KView (EncodeUint64 v).
Proof. apply (Put_entry db KView). Qed.

Lemma SaveVoted_entry db v db' : SaveVoted db v = Ok db' -> writes_entry db db' KVoted (EncodeUint64 v).
Proof. apply (Put_entry db KVoted). Qed.

(** Reads depend on their entry only. *)
Lemma GetHeader_entry db hash :
  GetHeader db hash = match entry db (KHeader hash) with Some b => decode b | None => Err ErrDB end.
Proof. unfold GetHeader, Get, entry. simpl. by destruct (db_get db _). Qed.
Lemma GetCertificate_entry db hash :
  GetCertificate db hash = match entry db (KCert hash) with Some b => decode b | None => Err ErrDB end.
Proof. unfold GetCertificate, Get, entry. simpl. by destruct (db_get db _). Qed.
Lemma GetData_entry db hash :
  GetData db hash = match entry db (KData hash) with Some b => decode b | None => Err ErrDB end.
Proof. unfold GetData, Get, entry. simpl. by destruct (db_get db _). Qed.
Lemma GetTag_entry db k : k ∈ [KPrepare; KLocked; KDecide] ->
  GetTag db (skey_bytes k) = match entry db k with Some b => Ok b | None => Err ErrDB end.
Proof. done. Qed.
Lemma GetView_entry db :
  GetView db = match entry db KView with Some b => DecodeUint64 b | None => Err ErrDB end.
Proof. unfold GetView, Get, entry. simpl. by destruct (db_get db _). Qed.
Lemma GetVoted_entry db :
  GetVoted db = match entry db KVoted with Some b => DecodeUint64 b | None => Err ErrDB end.
Proof. unfold GetVoted, Get, entry. simpl. by destruct (db_get db _). Qed.

Lemma writes_entry_same db db' k v : writes_entry db db' k v -> entry db' k = Some v.
Proof. intros W. rewrite W. by rewrite decide_True. Qed.
Lemma writes_entry_other db db' k v k' : writes_entry db db' k v -> k <> k' -> entry db' k' = entry db k'.
Proof. intros W N. rewrite W. by rewrite decide_False. Qed.

Lemma SaveHeader_GetHeader db h db' : good h -> SaveHeader db h = Ok db' ->
  GetHeader db' (Header_Hash h) = Ok (canon h).
Proof.
  intros Hg (buf & Hb & W)%SaveHeader_entry. rewrite GetHeader_entry, (writes_entry_same _ _ _ _ W).
  rewrite marshal_encoding in Hb by done. injection Hb as <-. by apply decode_encoding.
Qed.

Lemma SaveCertificate_GetCertificate db c db' : good c -> SaveCertificate db c = Ok db' ->
  GetCertificate db' (sbytes c.(Certificate_Block)) = Ok (canon c).
Proof.
  intros Hg (buf & Hb & W)%SaveCertificate_entry.
  rewrite GetCertificate_entry, (writes_entry_same _ _ _ _ W).
  rewrite marshal_encoding in Hb by done. injection Hb as <-. by apply decode_encoding.
Qed.

Lemma SaveData_GetData db hash d db' : good d -> SaveData db hash (Some d) = Ok db' ->
  GetData db' hash = Ok (canon d).
Proof.
  intros Hg (d' & buf & [= <-] & Hb & W)%SaveData_entry.
  rewrite GetData_entry, (writes_entry_same _ _ _ _ W).
  rewrite marshal_encoding in Hb by done. injection Hb as <-. by apply decode_encoding.
Qed.

Lemma SaveView_GetView db v db' : is_u64 v -> SaveView db v = Ok db' -> GetView db' = Ok v.
Proof.
  intros Hv W%SaveView_entry. rewrite GetView_entry, (writes_entry_same _ _ _ _ W).
  by apply Encode_Decode.
Qed.

Lemma SaveVoted_GetVoted db v db' : is_u64 v -> SaveVoted db v = Ok db' -> GetVoted db' = Ok v.
Proof.
  intros Hv W%SaveVoted_entry. rewrite GetVoted_entry, (writes_entry_same _ _ _ _ W).
  by apply Encode_Decode.
Qed.
End Store.
Arguments ChainIterator DB : clear implicits.

(** ** An in-memory database

    A finite map satisfies the contract, so the hypotheses of the theorems that
    use it can be met. *)
#[global] Instance mem_kv : KVStore (gmap bytes bytes) := {
  db_get db k := db !! k;
  db_put db k v := Some (<[k := v]> db);
}.
#[global] Instance mem_kv_laws : KVLaws (gmap bytes bytes).
Proof.
  split; simpl.
  - intros db k v db' [= <-]. apply lookup_insert_eq.
  - intros db k v db' k' [= <-] N. by apply lookup_insert_ne.
Qed.
