(* ===== verification/Crypto.v ===== *)
(** * crypto/: the BLS signer and verifier

    [Signer] and [Verifier] are the interfaces of consensus.go.  The pairing
    library (kilic/bls12-381/blssig) is a parameter, [BLS], with its documented
    laws: compression round-trips, honest signatures verify, and verification
    of an aggregate is compositional.  [VerifierLaws] is what the collectors of
    utils.go rely on; [BLS12381Verifier] discharges it. *)

From Stdlib Require Import ZArith Lia.
From S2P Require Import Prelude Wire Types Proto Codec Encoding.

(** ** Interfaces of consensus.go *)

Class Signer : Type := { Sign : bytes -> bytes -> res bytes }.

Class Verifier : Type := {
  VerifyAggregated : bytes -> option AggregatedSignature -> res bool;
  Verify : Z -> bytes -> bytes -> bool;
  (** [Merge] mutates its first argument; the result is its new contents. *)
  Merge : option AggregatedSignature -> Z -> slice -> res (option AggregatedSignature);
}.

Definition empty_agg : AggregatedSignature := mkAggregatedSignature [] None.

(** What the collectors need: [collected msg a] says that [a] aggregates valid
    signatures of its voters over [msg]. *)
Class VerifierLaws `{Verifier} (threshold : Z) : Type := {
  collected : bytes -> AggregatedSignature -> Prop;
  collected_empty msg : collected msg empty_agg;
  collected_merge msg a voter sig :
    collected msg a -> is_u64 voter -> Verify voter msg (sbytes sig) = true ->
    voter ∉ a.(AggregatedSignature_Voters) ->
    exists a', Merge (Some a) voter sig = Ok (Some a')
      /\ a'.(AggregatedSignature_Voters) = a.(AggregatedSignature_Voters) ++ [voter]
      /\ collected msg a';
  collected_verify msg a :
    collected msg a -> a.(AggregatedSignature_Voters) <> [] ->
    threshold <= len a.(AggregatedSignature_Voters) ->
    VerifyAggregated msg (Some a) = Ok true;
}.

(** ** The pairing library *)

Class BLS : Type := {
  PublicKey : Type;
  SecretKey : Type;
  Signature : Type;
  PublicKeyFromSecretKey : SecretKey -> PublicKey;
  blssig_Sign : bytes -> bytes -> SecretKey -> Signature;
  blssig_Verify : bytes -> bytes -> Signature -> PublicKey -> bool;
  VerifyAggregateCommon : bytes -> bytes -> list PublicKey -> Signature -> bool;
  AggregateSignature : Signature -> Signature -> Signature;
  SignatureToCompressed : Signature -> bytes;
  NewSignatureFromCompresssed : bytes -> option Signature;
}.

Class BLSLaws `{BLS} : Prop := {
  compressed_roundtrip s : NewSignatureFromCompresssed (SignatureToCompressed s) = Some s;
  compressed_empty : NewSignatureFromCompresssed [] = None;
  verify_sign m d sk : blssig_Verify m d (blssig_Sign m d sk) (PublicKeyFromSecretKey sk) = true;
  common_one m d s pk : blssig_Verify m d s pk = true -> VerifyAggregateCommon m d [pk] s = true;
  common_snoc m d pks s1 pk s2 :
    VerifyAggregateCommon m d pks s1 = true -> blssig_Verify m d s2 pk = true ->
    VerifyAggregateCommon m d (pks ++ [pk]) (AggregateSignature s1 s2) = true;
}.

Section Crypto.
Context `{BLS}.

(** [domain = [8]byte{1, 1, 1}] *)
Definition domain : bytes := [x01; x01; x01; x00; x00; x00; x00; x00].

(** [m := [32]byte{}; copy(m[:], msg)] *)
Definition to32 (msg : bytes) : bytes := take 32 (msg ++ replicate 32 x00).

(** ** signer.go *)

Definition BLS12381Signer_Sign (priv : SecretKey) (dst msg : bytes) : res bytes :=
  if len msg =? 32
  then Ok (dst ++ SignatureToCompressed (blssig_Sign (to32 msg) domain priv))
  else Panic PanicCall.

(** ** verifier.go *)

Record BLS12381Verifier : Type := NewBLS12381Verifier {
  threshold : Z;
  pubkeys : list PublicKey;
}.
Implicit Types v : BLS12381Verifier.

Definition BLS12381Verifier_Verify v (idx : Z) (msg sig : bytes) : bool :=
  if len v.(pubkeys) <=? idx then false
  else
    match v.(pubkeys) !! Z.to_nat idx with
    | None => false
    | Some key =>
        match NewSignatureFromCompresssed sig with
        | None => false
        | Some signature => blssig_Verify (to32 msg) domain signature key
        end
    end.

(** [for _, voter := range asig.Voters]: [None] is the early [return false]. *)
Fixpoint voter_keys v (voters : list Z) : option (list PublicKey) :=
  match voters with
  | [] => Some []
  | voter :: rest =>
      if len v.(pubkeys) <=? voter then None
      else
        match v.(pubkeys) !! Z.to_nat voter with
        | None => None
        | Some key => keys ← voter_keys v rest; Some (key :: keys)
        end
  end.

Definition BLS12381Verifier_VerifyAggregated v (msg : bytes)
    (asig : option AggregatedSignature) : res bool :=
  a ← deref asig;
  mret
    (if len a.(AggregatedSignature_Voters) <? v.(threshold) then false
     else
       match voter_keys v a.(AggregatedSignature_Voters) with
       | None => false
       | Some pubs =>
           match NewSignatureFromCompresssed (sbytes a.(AggregatedSignature_Sig)) with
           | None => false
           | Some sig => VerifyAggregateCommon (to32 msg) domain pubs sig
           end
       end).

Definition BLS12381Verifier_Merge v (asig : option AggregatedSignature) (voter : Z) (sig : slice)
    : res (option AggregatedSignature) :=
  if len v.(pubkeys) <=? voter then Ok asig
  else
    a ← deref asig;
    let voters := a.(AggregatedSignature_Voters) in
    if bool_decide (voter ∈ voters) then Ok (Some a)
    else
      match a.(AggregatedSignature_Sig) with
      | Some cur =>
          match NewSignatureFromCompresssed cur with
          | None => Ok (Some a)
          | Some sig1 =>
              match NewSignatureFromCompresssed (sbytes sig) with
              | None => Ok (Some a)
              | Some sig2 =>
                  Ok (Some (mkAggregatedSignature (voters ++ [voter])
                        (Some (SignatureToCompressed (AggregateSignature sig1 sig2)))))
              end
          end
      | None => Ok (Some (mkAggregatedSignature (voters ++ [voter]) sig))
      end.

Definition bls_signer (priv : SecretKey) : Signer := {| Sign := BLS12381Signer_Sign priv |}.
Definition bls_verifier v : Verifier := {|
  VerifyAggregated := BLS12381Verifier_VerifyAggregated v;
  Verify := BLS12381Verifier_Verify v;
  Merge := BLS12381Verifier_Merge v;
|}.

(** ** The verifier keeps its promise *)

Context `{!BLSLaws}.

Definition bls_collected v (msg : bytes) (a : AggregatedSignature) : Prop :=
  (a.(AggregatedSignature_Voters) = [] /\ a.(AggregatedSignature_Sig) = None) \/
  exists b s keys, a.(AggregatedSignature_Sig) = Some b
    /\ NewSignatureFromCompresssed b = Some s
    /\ voter_keys v a.(AggregatedSignature_Voters) = Some keys
    /\ VerifyAggregateCommon (to32 msg) domain keys s = true.

Lemma voter_keys_snoc v voters voter keys key :
  voter_keys v voters = Some keys -> voter < len v.(pubkeys) ->
  v.(pubkeys) !! Z.to_nat voter = Some key ->
  voter_keys v (voters ++ [voter]) = Some (keys ++ [key]).
Proof.
  intros Hk Hlt Hl. revert keys Hk. induction voters as [|x voters IH]; simpl; intros keys Hk.
  - injection Hk as <-. by rewrite (proj2 (Z.leb_gt _ _)), Hl by lia.
  - case_match; [done|]. case_match; [|done]. destruct (voter_keys v voters); [|done].
    simpl in Hk. injection Hk as <-. by rewrite (IH _ eq_refl).
Qed.

Lemma Verify_inv v idx msg sig : BLS12381Verifier_Verify v idx msg sig = true ->
  idx < len v.(pubkeys) /\ exists key s, v.(pubkeys) !! Z.to_nat idx = Some key
    /\ NewSignatureFromCompresssed sig = Some s /\ blssig_Verify (to32 msg) domain s key = true.
Proof.
  unfold BLS12381Verifier_Verify. case_match eqn:E; [done|]. zbool.
  case_match; [|done]. case_match; [|done]. eauto 6.
Qed.

Lemma Verify_nonnil v idx msg sig : BLS12381Verifier_Verify v idx msg (sbytes sig) = true ->
  exists b, sig = Some b.
Proof.
  intros (_ & key & s & _ & Hs & _)%Verify_inv. destruct sig as [b|]; [eauto|].
  simpl in Hs. by rewrite compressed_empty in Hs.
Qed.

Lemma bls_collected_merge v msg a voter sig :
  bls_collected v msg a -> BLS12381Verifier_Verify v voter msg (sbytes sig) = true ->
  voter ∉ a.(AggregatedSignature_Voters) ->
  exists a', BLS12381Verifier_Merge v (Some a) voter sig = Ok (Some a')
    /\ a'.(AggregatedSignature_Voters) = a.(AggregatedSignature_Voters) ++ [voter]
    /\ bls_collected v msg a'.
Proof.
  intros Hc Hv Hn. destruct (Verify_nonnil _ _ _ _ Hv) as [b ->].
  apply Verify_inv in Hv as (Hlt & key & s & Hkey & Hs & Hok). simpl in Hs.
  unfold BLS12381Verifier_Merge. rewrite (proj2 (Z.leb_gt _ _)) by lia. simpl.
  rewrite bool_decide_eq_false_2 by done.
  destruct Hc as [[Hvs ->]|(b0 & s0 & keys & -> & Hs0 & Hks & Hok0)].
  - eexists. split_and!; [done..|]. right. exists b, s, [key]. simpl. split_and!; [done..| |].
    + rewrite Hvs. by apply (voter_keys_snoc v [] voter [] key).
    + by apply common_one.
  - simpl. rewrite Hs0, Hs. eexists. split_and!; [done..|]. right.
    eexists _, _, (keys ++ [key]). split_and!; [done|apply compressed_roundtrip| |].
    + by apply voter_keys_snoc.
    + by apply common_snoc.
Qed.

Definition bls_verifier_laws v : @VerifierLaws (bls_verifier v) v.(threshold).
Proof.
  refine (@Build_VerifierLaws (bls_verifier v) v.(threshold) (bls_collected v) _ _ _).
  - by left.
  - intros msg a voter sig Hc _ Hv Hn. by apply bls_collected_merge.
  - intros msg a [[Hvs _]|(b & s & keys & Hb & Hs & Hks & Hok)] Hne Ht; [done|].
    simpl. unfold BLS12381Verifier_VerifyAggregated. simpl.
    rewrite (proj2 (Z.ltb_ge _ _)), Hks, Hb by done. simpl. by rewrite Hs, Hok.
Defined.

(** The signature of [n] copies of one signer. *)
Fixpoint agg_pow (s : Signature) (n : nat) : Signature :=
  match n with O => s | S n => AggregateSignature (agg_pow s n) s end.

Lemma voter_keys_replicate v idx key n :
  idx < len v.(pubkeys) -> v.(pubkeys) !! Z.to_nat idx = Some key ->
  voter_keys v (replicate n idx) = Some (replicate n key).
Proof.
  intros Hlt Hk. induction n as [|n IH]; [done|]. simpl.
  by rewrite (proj2 (Z.leb_gt _ _)), Hk, IH by lia.
Qed.

Lemma agg_pow_verifies m d s pk n : blssig_Verify m d s pk = true ->
  VerifyAggregateCommon m d (replicate (S n) pk) (agg_pow s n) = true.
Proof.
  intros Hv. induction n as [|n IH]; [by apply common_one|].
  rewrite replicate_S_end. by apply common_snoc.
Qed.
End Crypto.
