(* ===== verification/Progress.v ===== *)
(** * progress.go: what the consensus module hands to its environment *)

From Stdlib Require Import ZArith.
From S2P Require Import Prelude Types.

(** [Recipients = None] is the nil list: a broadcast. *)
Record MsgTo : Type := mkMsgTo {
  Recipients : option (list Z);
  MsgTo_Message : Message;
}.

Definition Broadcast (m : MsgTo) : bool :=
  match m.(Recipients) with None => true | Some _ => false end.

Record BlockRef : Type := mkBlockRef { BlockRef_Hash : slice; BlockRef_View : Z }.
Record BlockEvent : Type := mkBlockEvent { BlockEvent_Header : Header; Finalized : bool }.

Record Progress : Type := mkProgress {
  Messages : list MsgTo;
  Events : list BlockEvent;
  NotFound : list BlockRef;
  WaitingData : bool;
}.

Definition empty_progress : Progress := mkProgress [] [] [] false.

Definition Empty (p : Progress) : bool :=
  match p.(Messages), p.(Events) with [], [] => negb p.(WaitingData) | _, _ => false end.

Definition AddMessage (msg : Message) (recipients : option (list Z)) (p : Progress) : Progress :=
  mkProgress (p.(Messages) ++ [mkMsgTo recipients msg]) p.(Events) p.(NotFound) p.(WaitingData).
Definition AddHeader (header : Header) (finalized : bool) (p : Progress) : Progress :=
  mkProgress p.(Messages) (p.(Events) ++ [mkBlockEvent header finalized]) p.(NotFound) p.(WaitingData).
Definition AddNotFound (view : Z) (hash : slice) (p : Progress) : Progress :=
  mkProgress p.(Messages) p.(Events) (p.(NotFound) ++ [mkBlockRef hash view]) p.(WaitingData).
Definition SetWaitingData (p : Progress) : Progress :=
  mkProgress p.(Messages) p.(Events) p.(NotFound) true.

(** [Reset] leaves [NotFound] as it is. *)
Definition Progress_Reset (p : Progress) : Progress := mkProgress [] [] p.(NotFound) false.

Definition NewVoteMsg (v : Vote) : Message := mkMessage (Some (Message_Vote v)).
Definition NewProposalMsg (p : Proposal) : Message := mkMessage (Some (Message_Proposal p)).
Definition NewViewMsg (n : NewView) : Message := mkMessage (Some (Message_Newview n)).
Definition NewSyncMsg (blocks : list Block) : Message := mkMessage (Some (Message_Sync (mkSync blocks))).
