(* ===== verification/Quorum.v ===== *)
(** * utils.go: collecting votes and timeouts, importing genesis

    [Votes] and [Timeouts] aggregate signatures through the [Verifier]
    interface; their invariants say that the certificate under construction
    holds exactly the voters recorded in the set, each once, with valid
    signatures, so that a quorum is a certificate every replica accepts. *)

From Stdlib Require Import ZArith Lia.
From S2P Require Import Prelude Wire Types Proto Codec Encoding Crypto Store.

(** [2*len(replicas)/3 + 1] *)
Definition quorum_size (n : Z) : Z := 2 * n / 3 + 1.

Record Timeouts : Type := mkTimeouts {
  Timeouts_view : Z;
  Timeouts_majority : Z;
  Timeouts_received : gset Z;
  Timeouts_Cert : option TimeoutCertificate;
}.

Record Votes : Type := mkVotes {
  Votes_majority : Z;
  Votes_votes : gset Z;
  Votes_Cert : option Certificate;
  Votes_Header : option Header;
}.

Definition NewTimeouts (majority : Z) : Timeouts := mkTimeouts 0 majority ∅ None.
Definition NewVotes (majority : Z) : Votes := mkVotes majority ∅ None None.

Definition Timeouts_Start (t : Timeouts) (view : Z) : res Timeouts :=
  if t.(Timeouts_view) =? 0 then
    Ok (mkTimeouts view t.(Timeouts_majority) t.(Timeouts_received)
          (Some (mkTimeoutCertificate view (Some empty_agg))))
  else Panic PanicCall.

Definition Timeouts_Reset (t : Timeouts) : Timeouts :=
  mkTimeouts 0 t.(Timeouts_majority) ∅ None.

Definition Votes_Reset (v : Votes) : Votes := mkVotes v.(Votes_majority) ∅ None None.

Section Quorum.
Context `{Hasher} `{Verifier}.

Definition timeout_digest (view : Z) : bytes := HashSum (EncodeUint64 view).

Definition Timeouts_Collect (t : Timeouts) (nview : NewView) : res (Timeouts * bool) :=
  if t.(Timeouts_view) =? 0 then Ok (t, false)
  else if negb (t.(Timeouts_view) =? nview.(NewView_View)) then Ok (t, false)
  else if bool_decide (nview.(NewView_Voter) ∈ t.(Timeouts_received)) then Ok (t, false)
  else if negb (Verify nview.(NewView_Voter) (timeout_digest nview.(NewView_View))
                  (sbytes nview.(NewView_Sig))) then Ok (t, false)
  else
    let received := {[ nview.(NewView_Voter) ]} ∪ t.(Timeouts_received) in
    cert ← deref t.(Timeouts_Cert);
    sig ← Merge cert.(TimeoutCertificate_Sig) nview.(NewView_Voter) nview.(NewView_Sig);
    mret (mkTimeouts t.(Timeouts_view) t.(Timeouts_majority) received
            (Some (mkTimeoutCertificate cert.(TimeoutCertificate_View) sig)),
          t.(Timeouts_majority) <=? Z.of_nat (size received)).

Definition Votes_Start (v : Votes) (header : Header) : Votes :=
  mkVotes v.(Votes_majority) v.(Votes_votes)
    (Some (mkCertificate (Some (Header_Hash header)) (Some empty_agg))) (Some header).

Definition Votes_Collect (v : Votes) (vote : Vote) : res (Votes * bool) :=
  match v.(Votes_Cert) with
  | None => Ok (v, false)
  | Some cert =>
      if negb (bytes_eqb (sbytes cert.(Certificate_Block)) (sbytes vote.(Vote_Block)))
      then Ok (v, false)
      else if bool_decide (vote.(Vote_Voter) ∈ v.(Votes_votes)) then Ok (v, false)
      else if negb (Verify vote.(Vote_Voter) (sbytes cert.(Certificate_Block)) (sbytes vote.(Vote_Sig)))
      then Ok (v, false)
      else
        let votes := {[ vote.(Vote_Voter) ]} ∪ v.(Votes_votes) in
        sig ← Merge cert.(Certificate_Sig) vote.(Vote_Voter) vote.(Vote_Sig);
        mret (mkVotes v.(Votes_majority) votes
                (Some (mkCertificate cert.(Certificate_Block) sig)) v.(Votes_Header),
              v.(Votes_majority) <=? Z.of_nat (size votes))
  end.

(** ** ImportGenesis *)

Definition genesis_writes {DB} `{KVStore DB} (genesis : Block) (header : Header) : list (DB -> res DB) :=
  let hash := Header_Hash header in [
    fun db => SaveHeader db header;
    fun db => cert ← deref genesis.(Block_Cert); SaveCertificate db cert;
    fun db => SaveData db hash genesis.(Block_Data);
    fun db => SaveView db (wrap64 (header.(Header_View) + 1));
    fun db => SaveVoted db header.(Header_View);
    fun db => SetTag db PrepareTag hash;
    fun db => SetTag db LockedTag hash;
    fun db => SetTag db DecideTag hash
  ].

Definition ImportGenesis {DB} `{KVStore DB} (db : DB) (genesis : Block) : DB * res unit :=
  match genesis.(Block_Header) with
  | None => (db, Panic NilDeref)
  | Some header =>
      match GetHeader db (Header_Hash header) with
      | Ok _ => (db, Ok tt)
      | Panic c => (db, Panic c)
      | Err _ => run_writes (genesis_writes genesis header) db
      end
  end.

(** ** The collectors' invariants *)

Context (th : Z) `{!VerifierLaws th}.

(** The set of recorded voters is the list of the certificate, without
    repetition, and its signatures are over [msg]. *)
Definition tally (msg : bytes) (seen : gset Z) (sig : option AggregatedSignature) : Prop :=
  exists a, sig = Some a /\ seen = list_to_set a.(AggregatedSignature_Voters)
    /\ NoDup a.(AggregatedSignature_Voters) /\ collected msg a.

Definition votes_inv (v : Votes) : Prop :=
  match v.(Votes_Cert) with
  | None => v.(Votes_votes) = ∅ /\ v.(Votes_Header) = None
  | Some c => exists h, v.(Votes_Header) = Some h
      /\ sbytes c.(Certificate_Block) = Header_Hash h
      /\ tally (Header_Hash h) v.(Votes_votes) c.(Certificate_Sig)
  end.

Definition timeouts_inv (t : Timeouts) : Prop :=
  match t.(Timeouts_Cert) with
  | None => t.(Timeouts_view) = 0 /\ t.(Timeouts_received) = ∅
  | Some c => c.(TimeoutCertificate_View) = t.(Timeouts_view)
      /\ tally (timeout_digest t.(Timeouts_view)) t.(Timeouts_received) c.(TimeoutCertificate_Sig)
  end.

Lemma tally_empty msg : tally msg ∅ (Some empty_agg).
Proof. exists empty_agg. split_and!; [done..|constructor|apply collected_empty]. Qed.

Lemma tally_size msg seen a : tally msg seen (Some a) ->
  Z.of_nat (size seen) = len a.(AggregatedSignature_Voters).
Proof.
  intros (a' & [= <-] & -> & Hn & _). unfold len. by rewrite size_list_to_set.
Qed.

(** Adding a verified voter keeps the tally. *)
Lemma tally_merge msg seen sig voter vsig :
  tally msg seen sig -> is_u64 voter -> voter ∉ seen ->
  Verify voter msg (sbytes vsig) = true ->
  exists a', Merge sig voter vsig = Ok (Some a') /\ tally msg ({[ voter ]} ∪ seen) (Some a').
Proof.
  intros (a & -> & -> & Hn & Hc) Hu Hnin Hv. rewrite elem_of_list_to_set in Hnin.
  destruct (collected_merge msg a voter vsig) as (a' & Hm & Hvs & Hc'); [done..|].
  exists a'. split; [done|]. exists a'. rewrite Hvs. split_and!; [done| | |done].
  - rewrite list_to_set_app_L. simpl. set_solver.
  - apply list.NoDup_app. split_and!; [done|set_solver|apply NoDup_singleton].
Qed.

(** A tally of [th] voters is a certificate that verifies. *)
Lemma tally_verifies msg seen sig : tally msg seen sig -> 1 <= th -> th <= Z.of_nat (size seen) ->
  VerifyAggregated msg sig = Ok true.
Proof.
  intros Ht H1 Hs. destruct Ht as (a & -> & Ht). pose proof (tally_size msg seen a) as Hsz.
  rewrite Hsz in Hs by (by exists a). destruct Ht as (-> & Hn & Hc).
  apply collected_verify; [done| |done].
  intros E. rewrite E in Hs. unfold len in Hs. simpl in Hs. lia.
Qed.

Lemma Votes_Reset_inv v : votes_inv (Votes_Reset v).
Proof. done. Qed.

Lemma Votes_Start_inv v h : v.(Votes_votes) = ∅ -> votes_inv (Votes_Start v h).
Proof.
  intros He. exists h. split_and!; [done..|]. simpl. rewrite He. apply tally_empty.
Qed.

Lemma Timeouts_Reset_inv t : timeouts_inv (Timeouts_Reset t).
Proof. done. Qed.

Lemma Timeouts_Start_inv t v t' : timeouts_inv t -> Timeouts_Start t v = Ok t' ->
  t.(Timeouts_received) = ∅ -> timeouts_inv t'.
Proof.
  unfold Timeouts_Start. intros Ht Hs He. case_match; [|done]. injection Hs as <-.
  split; [done|]. simpl. rewrite He. apply tally_empty.
Qed.

(** The outcomes of [Votes.Collect] under the invariant: it never panics, it
    either ignores the vote or records it. *)
Lemma Votes_Collect_cases v vote : votes_inv v -> is_u64 vote.(Vote_Voter) ->
  Votes_Collect v vote = Ok (v, false) \/
  exists c h a, v.(Votes_Cert) = Some c /\ v.(Votes_Header) = Some h
    /\ sbytes c.(Certificate_Block) = Header_Hash h
    /\ sbytes vote.(Vote_Block) = Header_Hash h
    /\ (vote.(Vote_Voter) ∉ v.(Votes_votes))
    /\ Verify vote.(Vote_Voter) (Header_Hash h) (sbytes vote.(Vote_Sig)) = true
    /\ tally (Header_Hash h) ({[ vote.(Vote_Voter) ]} ∪ v.(Votes_votes)) (Some a)
    /\ Votes_Collect v vote = Ok
         (mkVotes v.(Votes_majority) ({[ vote.(Vote_Voter) ]} ∪ v.(Votes_votes))
            (Some (mkCertificate c.(Certificate_Block) (Some a))) (Some h),
          v.(Votes_majority) <=? Z.of_nat (size ({[ vote.(Vote_Voter) ]} ∪ v.(Votes_votes)))).
Proof.
  unfold votes_inv, Votes_Collect. intros Hinv Hu. destruct (Votes_Cert v) as [c|]; [|by left].
  destruct Hinv as (h & Hh & Hb & Ht). rewrite Hb.
  case_match eqn:E1; [by left|]. case_match eqn:E2; [by left|]. case_match eqn:E3; [by left|].
  zbool. apply bytes_eqb_eq in E1. apply bool_decide_eq_false in E2.
  destruct (tally_merge _ _ _ _ _ Ht Hu E2 E3) as (a & Hm & Ht').
  right. exists c, h, a. rewrite Hm, Hh. split_and!; done.
Qed.

Lemma Votes_Collect_inv v vote v' b : votes_inv v -> is_u64 vote.(Vote_Voter) ->
  Votes_Collect v vote = Ok (v', b) -> votes_inv v'.
Proof.
  intros Hinv Hu. destruct (Votes_Collect_cases v vote Hinv Hu)
    as [->|(c & h & a & Hc & Hh & Hb & Hvb & Hn & Hv & Ht & ->)]; [by intros [= <- _]|].
  intros [= <- _]. exists h. by split_and!.
Qed.

Lemma Timeouts_Collect_cases t nv : timeouts_inv t -> is_u64 nv.(NewView_Voter) ->
  Timeouts_Collect t nv = Ok (t, false) \/
  exists c a, t.(Timeouts_Cert) = Some c
    /\ t.(Timeouts_view) <> 0 /\ t.(Timeouts_view) = nv.(NewView_View)
    /\ (nv.(NewView_Voter) ∉ t.(Timeouts_received))
    /\ Verify nv.(NewView_Voter) (timeout_digest t.(Timeouts_view)) (sbytes nv.(NewView_Sig)) = true
    /\ tally (timeout_digest t.(Timeouts_view)) ({[ nv.(NewView_Voter) ]} ∪ t.(Timeouts_received)) (Some a)
    /\ Timeouts_Collect t nv = Ok
         (mkTimeouts t.(Timeouts_view) t.(Timeouts_majority)
            ({[ nv.(NewView_Voter) ]} ∪ t.(Timeouts_received))
            (Some (mkTimeoutCertificate t.(Timeouts_view) (Some a))),
          t.(Timeouts_majority) <=? Z.of_nat (size ({[ nv.(NewView_Voter) ]} ∪ t.(Timeouts_received)))).
Proof.
  unfold Timeouts_Collect. intros Hinv Hu.
  destruct (Timeouts_view t =? 0) eqn:E0; [by left|]. zbool.
  case_match eqn:E1; [by left|]. case_match eqn:E2; [by left|]. case_match eqn:E3; [by left|].
  zbool. apply bool_decide_eq_false in E2. unfold timeouts_inv in Hinv.
  destruct (Timeouts_Cert t) as [c|].
  2:{ destruct Hinv. lia. }
  destruct Hinv as [Hview Ht]. rewrite <- E1 in *.
  destruct (tally_merge _ _ _ _ _ Ht Hu E2 E3) as (a & Hm & Ht').
  right. exists c, a. cbn [deref mbind res_bind]. rewrite Hm, Hview. split_and!; done.
Qed.

Lemma Timeouts_Collect_inv t nv t' b : timeouts_inv t -> is_u64 nv.(NewView_Voter) ->
  Timeouts_Collect t nv = Ok (t', b) -> timeouts_inv t'.
Proof.
  intros Hinv Hu. destruct (Timeouts_Collect_cases t nv Hinv Hu)
    as [->|(c & a & Hc & Hne & Hv & Hn & Hok & Ht & ->)]; [by intros [= <- _]|].
  intros [= <- _]. by split.
Qed.
End Quorum.
