(* ===== verification/Consensus.v ===== *)
(** * consensus.go: the replica's state machine

    [consensus] is the struct, one definition per method.  A handler is a
    computation of [M (consensus DB)]: it returns or it kills the process
    (a nil dereference, an explicit panic, [logger.Fatal]) and in both cases the
    state it leaves is kept.  The database, the hash, the signer and the
    verifier are the interfaces of Store.v, Encoding.v and Crypto.v.

    Logging has no effect on the state; its arguments are evaluated, so a nil
    pointer they go through is dereferenced.

    [sendMsg] calls [Step] again for messages to oneself: the handlers take the
    recursive call as the argument [step], and [Step] ties the knot with a depth
    (Depth.v shows that two levels are always enough).

    A pointer to a message is its value; the one object that is shared and
    updated in place, the timeout certificate under construction, is [tcptr].
    Messages in [Progress] are snapshots. *)

From Stdlib Require Import ZArith Lia.
From S2P Require Import Prelude Wire Types Proto Codec Encoding Crypto Store Quorum Progress.

(** [c.timeoutCert] may be the same object as [c.timeouts.Cert], which [Merge]
    keeps updating; [TcTimeouts] is that shared pointer. *)
Inductive tcptr : Type := TcNil | TcTimeouts | TcVal (t : TimeoutCertificate).

Record consensus (DB : Type) : Type := mkConsensus {
  c_store : DB;
  c_ticks : Z;
  c_timeout : Z;
  c_id : Z;
  c_replicas : list Z;
  c_votes : Votes;
  c_timeouts : Timeouts;
  c_view : Z;
  c_voted : Z;
  c_prepare : Header;
  c_locked : Header;
  c_commit : Header;
  c_prepareCert : Certificate;
  c_timeoutCert : tcptr;
  c_Progress : Progress;
  c_waitingData : bool;
}.
Arguments mkConsensus {DB}.
Arguments c_store {DB} c.
Arguments c_ticks {DB} c.
Arguments c_timeout {DB} c.
Arguments c_id {DB} c.
Arguments c_replicas {DB} c.
Arguments c_votes {DB} c.
Arguments c_timeouts {DB} c.
Arguments c_view {DB} c.
Arguments c_voted {DB} c.
Arguments c_prepare {DB} c.
Arguments c_locked {DB} c.
Arguments c_commit {DB} c.
Arguments c_prepareCert {DB} c.
Arguments c_timeoutCert {DB} c.
Arguments c_Progress {DB} c.
Arguments c_waitingData {DB} c.

Section Setters.
Context {DB : Type}.
Implicit Types c : consensus DB.
Definition set_store (x : DB) c : consensus DB :=
  mkConsensus x c.(c_ticks) c.(c_timeout) c.(c_id) c.(c_replicas) c.(c_votes) c.(c_timeouts) c.(c_view) c.(c_voted) c.(c_prepare) c.(c_locked) c.(c_commit) c.(c_prepareCert) c.(c_timeoutCert) c.(c_Progress) c.(c_waitingData).
Definition set_ticks (x : Z) c : consensus DB :=
  mkConsensus c.(c_store) x c.(c_timeout) c.(c_id) c.(c_replicas) c.(c_votes) c.(c_timeouts) c.(c_view) c.(c_voted) c.(c_prepare) c.(c_locked) c.(c_commit) c.(c_prepareCert) c.(c_timeoutCert) c.(c_Progress) c.(c_waitingData).
Definition set_timeout (x : Z) c : consensus DB :=
  mkConsensus c.(c_store) c.(c_ticks) x c.(c_id) c.(c_replicas) c.(c_votes) c.(c_timeouts) c.(c_view) c.(c_voted) c.(c_prepare) c.(c_locked) c.(c_commit) c.(c_prepareCert) c.(c_timeoutCert) c.(c_Progress) c.(c_waitingData).
Definition set_votes (x : Votes) c : consensus DB :=
  mkConsensus c.(c_store) c.(c_ticks) c.(c_timeout) c.(c_id) c.(c_replicas) x c.(c_timeouts) c.(c_view) c.(c_voted) c.(c_prepare) c.(c_locked) c.(c_commit) c.(c_prepareCert) c.(c_timeoutCert) c.(c_Progress) c.(c_waitingData).
Definition set_timeouts (x : Timeouts) c : consensus DB :=
  mkConsensus c.(c_store) c.(c_ticks) c.(c_timeout) c.(c_id) c.(c_replicas) c.(c_votes) x c.(c_view) c.(c_voted) c.(c_prepare) c.(c_locked) c.(c_commit) c.(c_prepareCert) c.(c_timeoutCert) c.(c_Progress) c.(c_waitingData).
Definition set_view (x : Z) c : consensus DB :=
  mkConsensus c.(c_store) c.(c_ticks) c.(c_timeout) c.(c_id) c.(c_replicas) c.(c_votes) c.(c_timeouts) x c.(c_voted) c.(c_prepare) c.(c_locked) c.(c_commit) c.(c_prepareCert) c.(c_timeoutCert) c.(c_Progress) c.(c_waitingData).
Definition set_voted (x : Z) c : consensus DB :=
  mkConsensus c.(c_store) c.(c_ticks) c.(c_timeout) c.(c_id) c.(c_replicas) c.(c_votes) c.(c_timeouts) c.(c_view) x c.(c_prepare) c.(c_locked) c.(c_commit) c.(c_prepareCert) c.(c_timeoutCert) c.(c_Progress) c.(c_waitingData).
Definition set_prepare (x : Header) c : consensus DB :=
  mkConsensus c.(c_store) c.(c_ticks) c.(c_timeout) c.(c_id) c.(c_replicas) c.(c_votes) c.(c_timeouts) c.(c_view) c.(c_voted) x c.(c_locked) c.(c_commit) c.(c_prepareCert) c.(c_timeoutCert) c.(c_Progress) c.(c_waitingData).
Definition set_locked (x : Header) c : consensus DB :=
  mkConsensus c.(c_store) c.(c_ticks) c.(c_timeout) c.(c_id) c.(c_replicas) c.(c_votes) c.(c_timeouts) c.(c_view) c.(c_voted) c.(c_prepare) x c.(c_commit) c.(c_prepareCert) c.(c_timeoutCert) c.(c_Progress) c.(c_waitingData).
Definition set_commit (x : Header) c : consensus DB :=
  mkConsensus c.(c_store) c.(c_ticks) c.(c_timeout) c.(c_id) c.(c_replicas) c.(c_votes) c.(c_timeouts) c.(c_view) c.(c_voted) c.(c_prepare) c.(c_locked) x c.(c_prepareCert) c.(c_timeoutCert) c.(c_Progress) c.(c_waitingData).
Definition set_prepareCert (x : Certificate) c : consensus DB :=
  mkConsensus c.(c_store) c.(c_ticks) c.(c_timeout) c.(c_id) c.(c_replicas) c.(c_votes) c.(c_timeouts) c.(c_view) c.(c_voted) c.(c_prepare) c.(c_locked) c.(c_commit) x c.(c_timeoutCert) c.(c_Progress) c.(c_waitingData).
Definition set_timeoutCert (x : tcptr) c : consensus DB :=
  mkConsensus c.(c_store) c.(c_ticks) c.(c_timeout) c.(c_id) c.(c_replicas) c.(c_votes) c.(c_timeouts) c.(c_view) c.(c_voted) c.(c_prepare) c.(c_locked) c.(c_commit) c.(c_prepareCert) x c.(c_Progress) c.(c_waitingData).
Definition set_Progress (x : Progress) c : consensus DB :=
  mkConsensus c.(c_store) c.(c_ticks) c.(c_timeout) c.(c_id) c.(c_replicas) c.(c_votes) c.(c_timeouts) c.(c_view) c.(c_voted) c.(c_prepare) c.(c_locked) c.(c_commit) c.(c_prepareCert) c.(c_timeoutCert) x c.(c_waitingData).
Definition set_waitingData (x : bool) c : consensus DB :=
  mkConsensus c.(c_store) c.(c_ticks) c.(c_timeout) c.(c_id) c.(c_replicas) c.(c_votes) c.(c_timeouts) c.(c_view) c.(c_voted) c.(c_prepare) c.(c_locked) c.(c_commit) c.(c_prepareCert) c.(c_timeoutCert) c.(c_Progress) x.
End Setters.

Section Consensus.
Context {DB : Type} `{KVStore DB} `{Hasher} `{Signer} `{Verifier}.
Implicit Types c : consensus DB.

Abbreviation CM := (M (consensus DB)).

(** [if err := c.store.SaveX(...); err != nil { log.Fatal(...) }] *)
Definition save (f : DB -> res DB) : CM unit := fun c =>
  match f c.(c_store) with
  | Ok db => (set_store db c, inl tt)
  | Err _ => (c, inr LogFatal)
  | Panic p => (c, inr p)
  end.

(** The same for an operation that writes several entries. *)
Definition save_all (f : DB -> DB * res unit) : CM unit := fun c =>
  match f c.(c_store) with
  | (db, Ok _) => (set_store db c, inl tt)
  | (db, Err _) => (set_store db c, inr LogFatal)
  | (db, Panic p) => (set_store db c, inr p)
  end.

(** [c.store.GetHeader(hash)]: [None] when it returns an error. *)
Definition getHeader (hash : slice) : CM (option Header) := fun c =>
  match GetHeader c.(c_store) (sbytes hash) with
  | Ok h => (c, inl (Some h))
  | Err _ => (c, inl None)
  | Panic p => (c, inr p)
  end.

Definition modify_progress (f : Progress -> Progress) : CM unit :=
  modify (fun c => set_Progress (f c.(c_Progress)) c).

Definition load_timeoutCert c : option TimeoutCertificate :=
  match c.(c_timeoutCert) with
  | TcNil => None
  | TcTimeouts => c.(c_timeouts).(Timeouts_Cert)
  | TcVal t => Some t
  end.

(** [c.timeouts.Reset()] drops the collector's pointer; a shared object stays
    reachable from [c.timeoutCert]. *)
Definition resetTimeouts c : consensus DB :=
  let c1 := match c.(c_timeoutCert), c.(c_timeouts).(Timeouts_Cert) with
            | TcTimeouts, Some t => set_timeoutCert (TcVal t) c
            | TcTimeouts, None => set_timeoutCert TcNil c
            | _, _ => c
            end in
  set_timeouts (Timeouts_Reset c.(c_timeouts)) c1.

(** [c.replicas[view%uint64(len(c.replicas))]] *)
Definition leader_of (replicas : list Z) (view : Z) : res Z :=
  if len replicas =? 0 then Panic DivByZero
  else
    match replicas !! Z.to_nat (view mod len replicas) with
    | Some r => Ok r
    | None => Panic OutOfRange
    end.

Definition getLeader (view : Z) : CM Z := fun c => liftr (leader_of c.(c_replicas) view) c.

(** [int(1 << (c.view - c.prepare.View))] *)
Definition newTimeout c : Z :=
  let gap := wrap64 (c.(c_view) - c.(c_prepare).(Header_View)) in
  if gap <? 64 then swrap64 (Z.shiftl 1 gap) else 0.

Definition resetTimeout : CM unit :=
  modify (fun c => set_timeout (newTimeout c) (set_ticks 0 c)).

Definition waitForData : CM unit :=
  modify (set_waitingData true) ;; modify_progress SetWaitingData.

(** The handlers that may send, hence re-enter [Step]. *)
Section Handlers.
Context (step : Message -> CM unit).

Fixpoint deliver_self (msg : Message) (ids : list Z) : CM unit :=
  match ids with
  | [] => skip
  | i :: rest =>
      self ← gets c_id;
      when (self =? i) (step msg) ;;
      deliver_self msg rest
  end.

Definition sendMsg (msg : Message) (ids : option (list Z)) : CM unit :=
  modify_progress (AddMessage msg ids) ;;
  match ids with
  | None => step msg
  | Some l => deliver_self msg l
  end.

Definition sendNewView : CM unit :=
  view ← gets c_view;
  leader ← getLeader view;
  self ← gets c_id;
  cert ← gets c_prepareCert;
  sig ← liftr (Sign [] (timeout_digest (wrap64 (view - 1))));
  let nview := mkNewView (wrap64 (view - 1)) self (Some sig) (Some cert) in
  modify (set_voted (wrap64 (view - 1))) ;;
  save (fun db => SaveVoted db (wrap64 (view - 1))) ;;
  sendMsg (NewViewMsg nview) (Some [leader]).

Definition releaseTimeoutCert : CM unit := modify (fun c =>
  match load_timeoutCert c with
  | Some t =>
      if t.(TimeoutCertificate_View) <? wrap64 (c.(c_view) - 1)
      then set_timeoutCert TcNil c else c
  | None => c
  end).

Definition startTimeouts : CM unit := fun c =>
  match Timeouts_Start c.(c_timeouts) c.(c_view) with
  | Ok t => (set_timeouts t c, inl tt)
  | Err _ => (c, inr PanicCall)
  | Panic p => (c, inr p)
  end.

Definition nextRound (timedout : bool) : CM unit :=
  resetTimeout ;;
  modify (set_waitingData false) ;;
  modify (fun c => set_votes (Votes_Reset c.(c_votes)) c) ;;
  releaseTimeoutCert ;;
  self ← gets c_id;
  view ← gets c_view;
  prev ← getLeader (wrap64 (view - 1));
  when (self =? prev) (modify resetTimeouts) ;;
  next ← getLeader (wrap64 (view + 1));
  when (self =? next) (modify resetTimeouts ;; startTimeouts) ;;
  voted ← gets c_voted;
  if timedout && (voted <? wrap64 (view - 1)) then sendNewView
  else
    leader ← getLeader view;
    when (self =? leader) waitForData.

Definition setView (v : Z) : CM unit :=
  modify (set_view v) ;; save (fun db => SaveView db v).

Definition onTimeout : CM unit :=
  view ← gets c_view;
  setView (wrap64 (view + 1)) ;;
  nextRound true.

Definition Tick : CM unit :=
  modify (fun c => set_ticks (swrap64 (c.(c_ticks) + 1)) c) ;;
  fire ← gets (fun c => c.(c_ticks) =? c.(c_timeout));
  when fire onTimeout.

Definition Start : CM unit := nextRound false.

Definition Send (state root : slice) (data : option Data) : CM unit :=
  waiting ← gets c_waitingData;
  when waiting
    (modify (set_waitingData false) ;;
     c ← gets id;
     let header := mkHeader c.(c_view) (Some (Header_Hash c.(c_prepare)))
                     c.(c_prepare).(Header_View) root state in
     sig ← liftr (Sign [] (Header_Hash header));
     let proposal := mkProposal (Some header) data (Some sig) (Some c.(c_prepareCert))
                       (load_timeoutCert c) in
     sendMsg (NewProposalMsg proposal) None).

Definition sendVote (header : Header) : CM unit :=
  let hash := Header_Hash header in
  modify (set_voted header.(Header_View)) ;;
  save (fun db => SaveVoted db header.(Header_View)) ;;
  modify (fun c => set_votes (Votes_Start c.(c_votes) header) c) ;;
  self ← gets c_id;
  sig ← liftr (Sign [] hash);
  let vote := mkVote (Some hash) header.(Header_View) self (Some sig) in
  leader ← getLeader (wrap64 (header.(Header_View) + 1));
  sendMsg (NewVoteMsg vote) (Some [leader]).

Definition update (parent : Header) : CM unit :=
  gp ← getHeader parent.(Header_Parent);
  match gp with
  | None => skip
  | Some gparent =>
      ggp ← getHeader gparent.(Header_Parent);
      match ggp with
      | None => skip
      | Some ggparent =>
          locked ← gets c_locked;
          when (locked.(Header_View) <? gparent.(Header_View))
            (modify (set_locked gparent) ;;
             save (fun db => SetTag db LockedTag (Header_Hash gparent))) ;;
          commit ← gets c_commit;
          when ((wrap64 (parent.(Header_View) - gparent.(Header_View)) =? 1)
                && (wrap64 (gparent.(Header_View) - ggparent.(Header_View)) =? 1)
                && (commit.(Header_View) <? ggparent.(Header_View)))
            (modify (set_commit ggparent) ;;
             save (fun db => SetTag db DecideTag (Header_Hash ggparent)) ;;
             modify_progress (AddHeader ggparent true))
      end
  end.

Definition updatePrepare (header : Header) (cert : Certificate) : CM unit :=
  prepare ← gets c_prepare;
  when (prepare.(Header_View) <? header.(Header_View))
    (modify (set_prepare header) ;;
     modify (set_prepareCert cert) ;;
     save (fun db => SetTag db PrepareTag (Header_Hash header)) ;;
     modify_progress (AddHeader header false)).

Definition syncView (header : Header) (tcert : option TimeoutCertificate) : CM unit :=
  view ← gets c_view;
  match tcert with
  | None =>
      when (view <=? header.(Header_View))
        (setView (wrap64 (header.(Header_View) + 1)) ;; nextRound false)
  | Some t =>
      when (view <=? t.(TimeoutCertificate_View))
        (setView (wrap64 (t.(TimeoutCertificate_View) + 1)) ;; nextRound false)
  end.

Definition persistProposal (header : Header) (data : option Data) (cert : Certificate) : CM unit :=
  save (fun db => SaveHeader db header) ;;
  save (fun db => SaveData db (Header_Hash header) data) ;;
  save (fun db => SaveCertificate db cert).

Definition safeNode (header : Header) : CM bool :=
  p ← getHeader header.(Header_Parent);
  match p with
  | None => mret false
  | Some parent =>
      c ← gets id;
      mret (bytes_eqb (sbytes header.(Header_Parent)) (Header_Hash c.(c_locked))
            || bytes_eqb (sbytes header.(Header_Parent)) (Header_Hash c.(c_prepare))
            || (c.(c_locked).(Header_View) <? parent.(Header_View)))
  end.

(** The signature checks of [onProposal] up to the state changes: [None] is
    an early return. *)
Definition checkTimeout (header : Header) (timeout : option TimeoutCertificate) : CM bool :=
  match timeout with
  | None => mret true
  | Some t => liftr (VerifyAggregated (timeout_digest (wrap64 (header.(Header_View) - 1)))
                       t.(TimeoutCertificate_Sig))
  end.

(** The part of [onProposal] after the checks. *)
Definition acceptProposal (msg : Proposal) (header parent : Header) (cert : Certificate) : CM unit :=
  updatePrepare parent cert ;;
  syncView parent msg.(Proposal_Timeout) ;;
  update parent ;;
  view ← gets c_view;
  when (header.(Header_View) =? view)
    (persistProposal header msg.(Proposal_Data) cert ;;
     voted ← gets c_voted;
     when (voted <? header.(Header_View))
       (ok ← safeNode header;
        when ok (sendVote header))).

Definition onProposal (msg : Proposal) : CM unit :=
  header ← liftr (deref msg.(Proposal_Header));
  match msg.(Proposal_ParentCert) with
  | None => skip
  | Some cert =>
      when (bytes_eqb (sbytes header.(Header_Parent)) (sbytes cert.(Certificate_Block)))
        (valid ← liftr (VerifyAggregated (sbytes header.(Header_Parent)) cert.(Certificate_Sig));
         when valid
           (p ← getHeader header.(Header_Parent);
            match p with
            | None => modify_progress (AddNotFound header.(Header_ParentView) header.(Header_Parent))
            | Some parent =>
                tok ← checkTimeout header msg.(Proposal_Timeout);
                when tok
                  (leader ← getLeader header.(Header_View);
                   when (Verify leader (Header_Hash header) (sbytes msg.(Proposal_Sig)))
                     (acceptProposal msg header parent cert))
            end))
  end.

Definition onVote (vote : Vote) : CM unit :=
  self ← gets c_id;
  leader ← getLeader (wrap64 (vote.(Vote_View) + 1));
  when (self =? leader)
    (votes ← gets c_votes;
     '(votes', majority) ← liftr (Votes_Collect votes vote);
     modify (set_votes votes') ;;
     when majority
       (cert ← liftr (deref votes'.(Votes_Cert));
        save (fun db => SaveCertificate db cert) ;;
        header ← liftr (deref votes'.(Votes_Header));
        updatePrepare header cert ;;
        syncView header None ;;
        nextRound false)).

Definition onNewView (msg : NewView) : CM unit :=
  self ← gets c_id;
  leader ← getLeader (wrap64 (msg.(NewView_View) + 1));
  when (self =? leader)
    (cert ← liftr (deref msg.(NewView_Cert));
     h ← getHeader cert.(Certificate_Block);
     match h with
     | None => skip
     | Some header =>
         updatePrepare header cert ;;
         timeouts ← gets c_timeouts;
         '(timeouts', majority) ← liftr (Timeouts_Collect timeouts msg);
         modify (set_timeouts timeouts') ;;
         when majority
           (view ← gets c_view;
            modify (set_timeoutCert TcTimeouts) ;;
            prepare ← gets c_prepare;
            syncView prepare timeouts'.(Timeouts_Cert) ;;
            if view =? msg.(NewView_View) then nextRound false else waitForData)
     end).

Definition syncBlock (block : Block) : CM bool :=
  match block.(Block_Header), block.(Block_Cert), block.(Block_Data) with
  | Some header, Some cert, Some _ =>
      commit ← gets c_commit;
      if header.(Header_View) <=? commit.(Header_View) then mret true
      else
        valid ← liftr (VerifyAggregated (Header_Hash header) cert.(Certificate_Sig));
        if (valid : bool) then
          save_all (fun db => SaveBlock db block) ;;
          updatePrepare header cert ;;
          update header ;;
          mret true
        else mret false
  | _, _, _ => mret false
  end.

Fixpoint onSyncBlocks (blocks : list Block) : CM unit :=
  match blocks with
  | [] => skip
  | b :: rest => ok ← syncBlock b; when ok (onSyncBlocks rest)
  end.
Definition onSync (sync : Sync) : CM unit := onSyncBlocks sync.(Sync_Blocks).

Definition dispatch (msg : Message) : CM unit :=
  match msg.(Message_GetType) with
  | Some (Message_Proposal p) => onProposal p
  | Some (Message_Vote v) => onVote v
  | Some (Message_Newview n) => onNewView n
  | Some (Message_Sync s) => onSync s
  | None => skip
  end.
End Handlers.

(** [Step], at most [depth] levels of re-entrance deep. *)
Fixpoint Step (depth : nat) (msg : Message) : CM unit :=
  match depth with
  | O => die OutOfFuel
  | S depth => dispatch (Step depth) msg
  end.

(** The four entry points the node calls. *)
Inductive input : Type :=
| IStart
| IStep (msg : Message)
| ISend (state root : slice) (data : option Data)
| ITick.

Definition handle (i : input) : CM unit :=
  match i with
  | IStart => Start (Step 2)
  | IStep msg => Step 2 msg
  | ISend state root data => Send (Step 2) state root data
  | ITick => Tick (Step 2)
  end.

(** ** newConsensus *)

Definition fatal {A} (r : res A) : res A :=
  match r with Err _ => Panic LogFatal | r => r end.

Definition newConsensus (store : DB) (id : Z) (replicas : list Z) : res (consensus DB) :=
  view ← fatal (GetView store);
  voted ← fatal (GetVoted store);
  prepare ← fatal (GetTagHeader store PrepareTag);
  locked ← fatal (GetTagHeader store LockedTag);
  commit ← fatal (GetTagHeader store DecideTag);
  prepareCert ← fatal (GetTagCert store PrepareTag);
  let q := quorum_size (len replicas) in
  mret (mkConsensus store 0 0 id replicas (NewVotes q) (NewTimeouts q) view voted
          prepare locked commit prepareCert TcNil empty_progress false).
End Consensus.
