(* ===== verification/Instances.v ===== *)
(** * Concrete parameters

    A hash, an ideal signature scheme and an in-memory database with which the
    whole replica runs inside the kernel.  They satisfy the laws assumed of the
    real libraries, so no theorem that uses those laws is vacuous, and the
    executions of Scenarios.v are computed with them. *)

From Stdlib Require Import ZArith Lia.
From S2P Require Import Prelude Wire Types Proto Codec Encoding Crypto Store Quorum Progress Consensus.

(** ** A 32-byte polynomial digest *)

(** 2^256 - 1. *)
Definition poly_mask : Z := Eval vm_compute in Z.ones 256.
Definition poly_hash (b : bytes) : bytes :=
  be_bytes 32 (foldl (fun acc x => Z.land (Z.shiftl acc 8 + acc + Z_of_byte x + 1) poly_mask) 7 b).

#[global] Instance poly_hasher : Hasher := {| blake2s256 := poly_hash |}.
#[global] Instance poly_hasher_laws : HasherLaws.
Proof. split. intros b. apply length_be_bytes. Qed.

(** ** Ideal signatures

    A signature is the list of the (key, message) pairs it aggregates. *)

Fixpoint pos_bytes (p : positive) : bytes :=
  match p with xH => [] | xO p => x00 :: pos_bytes p | xI p => x01 :: pos_bytes p end.
Fixpoint bytes_pos (b : bytes) : positive :=
  match b with [] => xH | x :: b => if bool_decide (x = x00) then xO (bytes_pos b) else xI (bytes_pos b) end.

Lemma bytes_pos_bytes p : bytes_pos (pos_bytes p) = p.
Proof. induction p; simpl; congruence. Qed.

Definition ideal_sig : Type := list (nat * bytes).

#[global] Instance ideal_bls : BLS := {|
  PublicKey := nat;
  SecretKey := nat;
  Signature := ideal_sig;
  PublicKeyFromSecretKey sk := sk;
  blssig_Sign m _ sk := [(sk, m)];
  blssig_Verify m _ s pk := bool_decide (s = [(pk, m)]);
  VerifyAggregateCommon m _ pks s := bool_decide (s = (fun pk => (pk, m)) <$> pks);
  AggregateSignature s1 s2 := s1 ++ s2;
  SignatureToCompressed s := x02 :: pos_bytes (encode s);
  NewSignatureFromCompresssed b :=
    match b with [] => None | _ :: b => countable.decode (bytes_pos b) end;
|}.

#[global] Instance ideal_bls_laws : BLSLaws.
Proof.
  split; simpl.
  - intros s. by rewrite bytes_pos_bytes, decode_encode.
  - done.
  - intros m _ sk. by apply bool_decide_eq_true.
  - done.
  - intros m _ pks s1 pk s2 ->%bool_decide_eq_true ->%bool_decide_eq_true.
    apply bool_decide_eq_true. by rewrite fmap_app.
Qed.

(** ** Four replicas

    Replica [i] holds the secret key [i]; the genesis block carries a
    certificate signed by everyone, as the tests build it. *)

Definition demo_replicas : list Z := [0; 1; 2; 3].
Definition demo_verifier : BLS12381Verifier := NewBLS12381Verifier 3 [0%nat; 1%nat; 2%nat; 3%nat].
#[global] Instance demo_verifier_inst : Verifier := bls_verifier demo_verifier.
#[global] Instance demo_verifier_laws : VerifierLaws 3 := bls_verifier_laws demo_verifier.

Definition demo_signer (i : nat) : Signer := bls_signer (i : SecretKey).

Definition mem_db : Type := gmap bytes bytes.

Definition genesis_header : Header := mkHeader 0 None 0 (Some [x2a]) None.

(** [verifier.Merge(genesis.Cert.Sig, id, signer.Sign(nil, hash))] for every id. *)
Definition sign_by (i : nat) (msg : bytes) : bytes :=
  match @Sign (demo_signer i) [] msg with Ok s => s | _ => [] end.
Definition merge_by (msg : bytes) (a : option AggregatedSignature) (i : nat) : option AggregatedSignature :=
  match Merge a (Z.of_nat i) (Some (sign_by i msg)) with Ok a => a | _ => None end.
Definition certify (msg : bytes) (who : list nat) : option AggregatedSignature :=
  foldl (merge_by msg) (Some empty_agg) who.

Definition genesis_cert : Certificate :=
  mkCertificate (Some (Header_Hash genesis_header)) (certify (Header_Hash genesis_header) [0; 1; 2; 3]%nat).
Definition genesis : Block := mkBlock (Some genesis_header) (Some (mkData [])) (Some genesis_cert).

Definition demo_store : mem_db := fst (ImportGenesis (∅ : mem_db) genesis).

(** A replica as [newConsensus] leaves it. *)
Definition demo_replica (i : Z) : option (consensus mem_db) :=
  match newConsensus demo_store i demo_replicas with Ok c => Some c | _ => None end.

(** A started process on the genesis database. *)
Definition demo (i : Z) : consensus mem_db :=
  match demo_replica i with
  | Some c => c
  | None => mkConsensus demo_store 0 0 i demo_replicas (NewVotes 3) (NewTimeouts 3) 0 0 genesis_header
              genesis_header genesis_header genesis_cert TcNil empty_progress false
  end.

(** A block built by its leader on the block [parent], with the data root [x]. *)
Definition next_header (parent : Header) (x : byte) : Header :=
  mkHeader (Header_View parent + 1) (Some (Header_Hash parent)) (Header_View parent) (Some [x]) None.
Definition demo_headers : list Header := Eval vm_compute in
  let h1 := next_header genesis_header x01 in let h2 := next_header h1 x02 in let h3 := next_header h2 x03 in
  let h4 := next_header h3 x04 in [genesis_header; h1; h2; h3; h4; next_header h4 x05].
Definition demo_header (v : nat) : Header := nth v demo_headers genesis_header.
(** A block with a certificate of replicas 1, 2 and 3. *)
Definition certified_block (v : nat) : Block := mkBlock (Some (demo_header v)) (Some (mkData []))
  (Some (mkCertificate (Some (Header_Hash (demo_header v))) (certify (Header_Hash (demo_header v)) [1; 2; 3]%nat))).
