(* ===== verification/ConsensusFacts.v ===== *)
(** * What every handler of the replica preserves

    [Inv] is the invariant of a running replica: what it holds in memory is what
    it would load after a restart, the store maps every hash to a header with
    that hash, and the collectors hold valid tallies.  [evolves] relates the
    states before and after a handler, also when the handler kills the process:
    the ballots it emits (votes and new-views) have strictly increasing views,
    all recorded on disk before they are sent, the prepared, locked and
    committed views never go down, and a finalized block is backed by a
    certified three-chain.  Every handler keeps both. *)

From Stdlib Require Import ZArith Lia.
From Stdlib Require Sorted.
From S2P Require Import Prelude Wire Types Proto Codec Encoding Crypto Store Quorum Progress Consensus.

(** ** Increasing sequences between two bounds *)

Fixpoint chain (lo : Z) (l : list Z) (hi : Z) : Prop :=
  match l with [] => lo <= hi | x :: l => lo < x /\ chain x l hi end.

Lemma chain_app a l b k c : chain a l b -> chain b k c -> chain a (l ++ k) c.
Proof.
  revert a. induction l as [|x l IH]; simpl; intros a Hl Hk.
  - destruct k; simpl in *; [lia|]. split; [lia|]. by destruct Hk.
  - destruct Hl. split; [done|]. by apply IH.
Qed.

Lemma chain_le a l b : chain a l b -> a <= b.
Proof. revert a. induction l as [|x l IH]; simpl; intros a; [done|]. intros [? ?%IH]. lia. Qed.

Lemma chain_sorted a l b : chain a l b -> Sorted.StronglySorted Z.lt l /\ Forall (fun x => a < x <= b) l.
Proof.
  revert a. induction l as [|x l IH]; simpl; intros a.
  - split; constructor.
  - intros [? Hc]. destruct (IH x Hc) as [Hs Hf]. pose proof (chain_le _ _ _ Hc). split.
    + constructor; [done|]. eapply Forall_impl; [|exact Hf]. simpl. intros; lia.
    + constructor; [lia|]. eapply Forall_impl; [|exact Hf]. simpl. intros; lia.
Qed.

(** ** Ballots *)

(** A vote or a new-view commits its sender not to vote in that view again. *)
Definition ballot_view (m : MsgTo) : option Z :=
  match m.(MsgTo_Message).(Message_GetType) with
  | Some (Message_Vote v) => Some v.(Vote_View)
  | Some (Message_Newview n) => Some n.(NewView_View)
  | _ => None
  end.
Definition ballots (l : list MsgTo) : list Z := omap ballot_view l.

Definition final_view (e : BlockEvent) : option Z :=
  if e.(Finalized) then Some e.(BlockEvent_Header).(Header_View) else None.
Definition finals (l : list BlockEvent) : list Z := omap final_view l.

Section Facts.
Context {DB : Type} `{KVStore DB} `{!KVLaws DB} `{Hasher} `{Signer} `{Verifier} (th : Z) `{!VerifierLaws th}.
Implicit Types c : consensus DB.

(** ** The store *)

Definition store_ok (db : DB) : Prop := forall k b, entry db (KHeader k) = Some b ->
  exists h, good h /\ b = encoding h /\ Header_Hash h = k.

Definition has_header (db : DB) (h : Header) : Prop := is_Some (entry db (KHeader (Header_Hash h))).

(** The tag [k] names [h], and a header with that hash can be loaded. *)
Definition tag_at (db : DB) (k : skey) (h : Header) : Prop :=
  entry db k = Some (Header_Hash h) /\ has_header db h /\ good h.

Lemma store_ok_get db k h : store_ok db -> GetHeader db k = Ok h -> good h /\ Header_Hash h = k.
Proof.
  intros Hs Hg. rewrite GetHeader_entry in Hg. destruct (entry db (KHeader k)) as [b|] eqn:E; [|done].
  destruct (Hs k b E) as (h' & Hgood & -> & Hh). rewrite decode_encoding in Hg by done.
  injection Hg as <-. split; [by apply good_canon|]. by rewrite Header_Hash_canon.
Qed.

Lemma get_has_header db k h : store_ok db -> GetHeader db k = Ok h -> has_header db h.
Proof.
  intros Hs Hg. destruct (store_ok_get db k h Hs Hg) as [_ Hh]. unfold has_header. rewrite Hh.
  rewrite GetHeader_entry in Hg. by destruct (entry db (KHeader k)).
Qed.

Lemma has_header_get db h : store_ok db -> has_header db h ->
  exists h', GetHeader db (Header_Hash h) = Ok h' /\ Header_Hash h' = Header_Hash h.
Proof.
  intros Hs [b Hb]. destruct (Hs _ _ Hb) as (h' & Hg & -> & Hh). exists (canon h').
  rewrite GetHeader_entry, Hb, decode_encoding by done. by rewrite Header_Hash_canon.
Qed.

Lemma has_header_mono db db' k v h : writes_entry db db' k v -> has_header db h -> has_header db' h.
Proof. intros W Hh. unfold has_header. rewrite W. case_decide; [done|]. exact Hh. Qed.

Lemma tag_at_other db db' k v k' h :
  writes_entry db db' k v -> k <> k' -> tag_at db k' h -> tag_at db' k' h.
Proof.
  intros W N (Ht & Hh & Hg). split_and!; [|by eapply has_header_mono|done].
  by rewrite (writes_entry_other _ _ _ _ _ W N).
Qed.

Lemma tag_at_set db db' k h : writes_entry db db' k (Header_Hash h) -> has_header db h -> good h ->
  tag_at db' k h.
Proof. intros W Hh Hg. split_and!; [by eapply writes_entry_same|by eapply has_header_mono|done]. Qed.

Lemma store_ok_other db db' k v : writes_entry db db' k v -> (forall h, k <> KHeader h) ->
  store_ok db -> store_ok db'.
Proof. intros W N Hs k' b Hb. apply (Hs k' b). rewrite W, decide_False in Hb; naive_solver. Qed.

Lemma store_ok_save db db' h : good h -> SaveHeader db h = Ok db' -> store_ok db ->
  store_ok db' /\ has_header db' h.
Proof.
  intros Hg (buf & Hb & W)%SaveHeader_entry Hs. rewrite marshal_encoding in Hb by done.
  injection Hb as <-. split.
  - intros k b Hk. rewrite W in Hk. case_decide; [|by apply Hs]. simplify_eq. by exists h.
  - unfold has_header. by rewrite (writes_entry_same _ _ _ _ W).
Qed.

(** ** The disk

    What a replica keeps on disk is its view, its last vote, and three tagged
    headers. *)
Record disk_ok (db : DB) (view voted : Z) (prepare locked commit : Header) : Prop := {
  disk_store : store_ok db;
  disk_view : entry db KView = Some (EncodeUint64 view);
  disk_view_u64 : is_u64 view;
  disk_vote : entry db KVoted = Some (EncodeUint64 voted);
  disk_vote_u64 : is_u64 voted;
  disk_prepare : tag_at db KPrepare prepare;
  disk_locked : tag_at db KLocked locked;
  disk_commit : tag_at db KDecide commit;
}.

Ltac disk W := intros [] W; constructor;
  try eassumption;
  try (by eapply store_ok_other; [exact W|done|]);
  try (by eapply writes_entry_same; exact W);
  try (by rewrite (writes_entry_other _ _ _ _ _ W));
  try (by eapply tag_at_other; [exact W|done|]);
  try (by eapply tag_at_set; [exact W| |]).

(** The entries of blocks, which the saves of blocks write. *)
Definition block_key (k : skey) : Prop :=
  match k with KHeader _ | KData _ | KCert _ => True | _ => False end.

Section Disk.
Context (db db' : DB) (view voted : Z) (prepare locked commit : Header).
Lemma disk_set_view v : is_u64 v -> disk_ok db view voted prepare locked commit ->
  writes_entry db db' KView (EncodeUint64 v) -> disk_ok db' v voted prepare locked commit.
Proof. intros Hv. disk W. Qed.
Lemma disk_set_voted v : is_u64 v -> disk_ok db view voted prepare locked commit ->
  writes_entry db db' KVoted (EncodeUint64 v) -> disk_ok db' view v prepare locked commit.
Proof. intros Hv. disk W. Qed.
Lemma disk_set_prepare h : has_header db h -> good h -> disk_ok db view voted prepare locked commit ->
  writes_entry db db' KPrepare (Header_Hash h) -> disk_ok db' view voted h locked commit.
Proof. intros Hh Hg. disk W. Qed.
Lemma disk_set_locked h : has_header db h -> good h -> disk_ok db view voted prepare locked commit ->
  writes_entry db db' KLocked (Header_Hash h) -> disk_ok db' view voted prepare h commit.
Proof. intros Hh Hg. disk W. Qed.
Lemma disk_set_commit h : has_header db h -> good h -> disk_ok db view voted prepare locked commit ->
  writes_entry db db' KDecide (Header_Hash h) -> disk_ok db' view voted prepare locked h.
Proof. intros Hh Hg. disk W. Qed.
Lemma disk_block k v : block_key k -> store_ok db' -> disk_ok db view voted prepare locked commit ->
  writes_entry db db' k v -> disk_ok db' view voted prepare locked commit.
Proof. intros Hk Hs. destruct k; try done; disk W. Qed.
End Disk.

(** ** The invariant *)

(** The timeout certificate a leader puts in its proposal verifies for the
    view it names. *)
Definition tcert_valid (t : TimeoutCertificate) : Prop :=
  VerifyAggregated (timeout_digest t.(TimeoutCertificate_View)) t.(TimeoutCertificate_Sig) = Ok true.
Definition timeoutCert_ok c : Prop :=
  match c.(c_timeoutCert) with
  | TcNil => True
  | TcTimeouts => is_Some c.(c_timeouts).(Timeouts_Cert)
      /\ c.(c_timeouts).(Timeouts_majority) <= Z.of_nat (size c.(c_timeouts).(Timeouts_received))
  | TcVal t => tcert_valid t
  end.

Definition votes_ok (db : DB) (v : Votes) : Prop :=
  votes_inv th v /\ forall h, v.(Votes_Header) = Some h -> has_header db h /\ good h.

Record Inv0 c : Prop := {
  inv_disk : disk_ok c.(c_store) c.(c_view) c.(c_voted) c.(c_prepare) c.(c_locked) c.(c_commit);
  inv_votes : votes_ok c.(c_store) c.(c_votes);
  inv_timeouts : timeouts_inv th c.(c_timeouts);
  inv_votes_majority : c.(c_votes).(Votes_majority) = quorum_size (len c.(c_replicas));
  inv_timeouts_majority : c.(c_timeouts).(Timeouts_majority) = quorum_size (len c.(c_replicas));
  inv_threshold : 1 <= th <= quorum_size (len c.(c_replicas));
  inv_timeoutCert : timeoutCert_ok c;
  inv_id : is_u64 c.(c_id);
}.

(** Collection is under way only in a view the replica has voted in. *)
Definition started c : Prop := is_Some c.(c_votes).(Votes_Cert) -> c.(c_view) <= c.(c_voted).

Definition Inv c : Prop := Inv0 c /\ started c.

(** ** The evolution of a replica *)

(** The last voted view on disk. *)
Definition disk_voted (db : DB) : Z := match GetVoted db with Ok v => v | _ => 0 end.

(** A certificate for [h] that the verifier accepts. *)
Definition certified (h : Header) : Prop :=
  exists cert, VerifyAggregated (Header_Hash h) cert.(Certificate_Sig) = Ok true.

(** A finalized block has a certified grandchild, in consecutive views. *)
Definition final_ok (e : BlockEvent) : Prop := e.(Finalized) = true ->
  exists parent gparent, certified parent
    /\ sbytes parent.(Header_Parent) = Header_Hash gparent
    /\ sbytes gparent.(Header_Parent) = Header_Hash e.(BlockEvent_Header)
    /\ wrap64 (parent.(Header_View) - gparent.(Header_View)) = 1
    /\ wrap64 (gparent.(Header_View) - e.(BlockEvent_Header).(Header_View)) = 1.

(** What is assumed of a message that arrives: the voter of a ballot is a 64-bit number
    and the headers in it have an encoding that fits in memory.  Nothing is assumed of
    its other fields. *)
Definition msg_ok (m : Message) : Prop :=
  match m.(Message_GetType) with
  | Some (Message_Proposal p) => forall h, p.(Proposal_Header) = Some h -> good h
  | Some (Message_Vote v) => is_u64 v.(Vote_Voter)
  | Some (Message_Newview n) => is_u64 n.(NewView_Voter)
  | Some (Message_Sync s) =>
      Forall (fun b => forall h, b.(Block_Header) = Some h -> good h) s.(Sync_Blocks)
  | None => True
  end.

(** And what holds of the messages a replica writes. *)
Definition sent_ok (m : MsgTo) : Prop := msg_ok m.(MsgTo_Message).

(** The database holds the state of some replica. *)
Definition on_disk (db : DB) : Prop :=
  exists view voted prepare locked commit, disk_ok db view voted prepare locked commit.

Record evolves c c' : Prop := {
  ev_disk : on_disk c.(c_store) -> on_disk c'.(c_store);
  ev_id : c'.(c_id) = c.(c_id);
  ev_replicas : c'.(c_replicas) = c.(c_replicas);
  ev_prepare : c.(c_prepare).(Header_View) <= c'.(c_prepare).(Header_View);
  ev_locked : c.(c_locked).(Header_View) <= c'.(c_locked).(Header_View);
  ev_msgs : exists new, c'.(c_Progress).(Messages) = c.(c_Progress).(Messages) ++ new
    /\ chain (disk_voted c.(c_store)) (ballots new) (disk_voted c'.(c_store))
    /\ Forall sent_ok new;
  ev_events : exists new, c'.(c_Progress).(Events) = c.(c_Progress).(Events) ++ new
    /\ chain c.(c_commit).(Header_View) (finals new) c'.(c_commit).(Header_View)
    /\ Forall final_ok new;
}.

Lemma evolves_refl c : evolves c c.
Proof.
  split; try done; exists []; rewrite app_nil_r; split_and!; done || apply Z.le_refl || constructor.
Qed.

Lemma evolves_trans c1 c2 c3 : evolves c1 c2 -> evolves c2 c3 -> evolves c1 c3.
Proof.
  intros [? ? ? ? ? (m1 & M1 & C1 & W1) (e1 & E1 & D1 & G1)] [? ? ? ? ? (m2 & M2 & C2 & W2) (e2 & E2 & D2 & G2)].
  split; [auto|congruence..|lia|lia| |].
  - exists (m1 ++ m2). rewrite M2, M1, app_assoc. split_and!; [done| |by apply Forall_app_2].
    unfold ballots in *. rewrite omap_app. by eapply chain_app.
  - exists (e1 ++ e2). rewrite E2, E1, app_assoc. split_and!; [done| |by apply Forall_app_2].
    unfold finals in *. rewrite omap_app. by eapply chain_app.
Qed.

#[local] Instance evolves_preorder : PreOrder evolves.
Proof. split; [intros c; apply evolves_refl|intros c1 c2 c3; apply evolves_trans]. Qed.

(** The vote is recorded and nothing is sent. *)
Lemma evolves_voted c c' :
  (on_disk c.(c_store) -> on_disk c'.(c_store)) ->
  c'.(c_id) = c.(c_id) -> c'.(c_replicas) = c.(c_replicas) ->
  c'.(c_prepare) = c.(c_prepare) -> c'.(c_locked) = c.(c_locked) -> c'.(c_commit) = c.(c_commit) ->
  c'.(c_Progress).(Messages) = c.(c_Progress).(Messages) ->
  c'.(c_Progress).(Events) = c.(c_Progress).(Events) ->
  disk_voted c.(c_store) <= disk_voted c'.(c_store) -> evolves c c'.
Proof.
  intros Hd Hi Hr Hp Hl Hc Hm Hv He. split; [done..|by rewrite Hp|by rewrite Hl| |].
  - exists []. rewrite Hm, app_nil_r. split_and!; [done|done|constructor..].
  - exists []. rewrite Hv, app_nil_r, Hc. split_and!; [done|apply Z.le_refl|constructor].
Qed.

(** A change that touches none of what [evolves] speaks of. *)
Lemma evolves_frame c c' :
  (on_disk c.(c_store) -> on_disk c'.(c_store)) ->
  c'.(c_id) = c.(c_id) -> c'.(c_replicas) = c.(c_replicas) ->
  c'.(c_prepare) = c.(c_prepare) -> c'.(c_locked) = c.(c_locked) -> c'.(c_commit) = c.(c_commit) ->
  entry c'.(c_store) KVoted = entry c.(c_store) KVoted ->
  c'.(c_Progress).(Messages) = c.(c_Progress).(Messages) ->
  c'.(c_Progress).(Events) = c.(c_Progress).(Events) ->
  evolves c c'.
Proof.
  intros Hd Hi Hr Hp Hl Hc He Hm Hv. apply evolves_voted; [done..|].
  unfold disk_voted. rewrite !GetVoted_entry, He. apply Z.le_refl.
Qed.

(** A message is emitted: a ballot above the view on disk, or no ballot. *)
Lemma evolves_message c c' m :
  (on_disk c.(c_store) -> on_disk c'.(c_store)) ->
  c'.(c_id) = c.(c_id) -> c'.(c_replicas) = c.(c_replicas) ->
  c'.(c_prepare) = c.(c_prepare) -> c'.(c_locked) = c.(c_locked) -> c'.(c_commit) = c.(c_commit) ->
  c'.(c_Progress).(Events) = c.(c_Progress).(Events) ->
  c'.(c_Progress).(Messages) = c.(c_Progress).(Messages) ++ [m] ->
  sent_ok m ->
  match ballot_view m with
  | Some v => disk_voted c.(c_store) < v /\ disk_voted c'.(c_store) = v
  | None => disk_voted c'.(c_store) = disk_voted c.(c_store)
  end -> evolves c c'.
Proof.
  intros Hd Hi Hr Hp Hl Hc Hv Hm Hw Hb. split; [done..|by rewrite Hp|by rewrite Hl| |].
  - exists [m]. split_and!; [done| |by constructor..]. unfold ballots. simpl.
    destruct (ballot_view m); simpl; lia.
  - exists []. rewrite Hv, app_nil_r, Hc. split_and!; [done|apply Z.le_refl|constructor].
Qed.

(** A header takes over as prepared, locked or committed. *)
Lemma evolves_header c c' new :
  (on_disk c.(c_store) -> on_disk c'.(c_store)) ->
  c'.(c_id) = c.(c_id) -> c'.(c_replicas) = c.(c_replicas) ->
  c.(c_prepare).(Header_View) <= c'.(c_prepare).(Header_View) ->
  c.(c_locked).(Header_View) <= c'.(c_locked).(Header_View) ->
  entry c'.(c_store) KVoted = entry c.(c_store) KVoted ->
  c'.(c_Progress).(Messages) = c.(c_Progress).(Messages) ->
  c'.(c_Progress).(Events) = c.(c_Progress).(Events) ++ new ->
  chain c.(c_commit).(Header_View) (finals new) c'.(c_commit).(Header_View) -> Forall final_ok new ->
  evolves c c'.
Proof.
  intros Hd Hi Hr Hp Hl He Hm Hv Hc Hf. split; [done..| |by exists new].
  exists []. rewrite Hm, app_nil_r. split_and!; [done| |constructor..].
  unfold disk_voted. rewrite !GetVoted_entry, He. apply Z.le_refl.
Qed.

Lemma disk_voted_write db db' v : is_u64 v -> writes_entry db db' KVoted (EncodeUint64 v) ->
  disk_voted db' = v.
Proof.
  intros Hv W. unfold disk_voted. rewrite GetVoted_entry, (writes_entry_same _ _ _ _ W).
  by rewrite Encode_Decode.
Qed.

Lemma disk_voted_inv c : Inv0 c -> disk_voted c.(c_store) = c.(c_voted).
Proof.
  intros HI. destruct (inv_disk c HI). unfold disk_voted. rewrite GetVoted_entry, disk_vote0.
  by rewrite Encode_Decode.
Qed.

Lemma Inv0_on_disk c : Inv0 c -> on_disk c.(c_store).
Proof. intros HI. do 5 eexists. apply (inv_disk c HI). Qed.

Lemma votes_ok_write db db' k v w : writes_entry db db' k v -> votes_ok db w -> votes_ok db' w.
Proof. intros W [Hi Hh]. split; [done|]. intros h [? ?]%Hh. split; [by eapply has_header_mono|done]. Qed.
End Facts.
#[export] Existing Instance evolves_preorder.
