(* ===== verification/Handlers.v ===== *)
(** * Every handler keeps the invariant

    One lemma per method of consensus.go: from a state that satisfies [Inv], the
    method stops (returning, or killing the process) in a state related by
    [evolves], and in [Inv] when it returns. *)

From Stdlib Require Import ZArith Lia.
From S2P Require Import Prelude Wire Types Proto Codec Encoding Crypto Store Quorum Progress Consensus.
From S2P Require Import ConsensusFacts.

Section Handlers.
Context {DB : Type} `{KVStore DB} `{!KVLaws DB} `{Hasher} `{!HasherLaws} `{Signer} `{Verifier}
        (th : Z) `{!VerifierLaws th}.
Implicit Types c : consensus DB.

Abbreviation Inv0 := (Inv0 th).
Abbreviation Inv := (Inv th).

(** ** Rules for the primitives *)

Lemma wp_save f (Q : unit -> consensus DB -> Prop) (E : consensus DB -> Prop) c :
  E c -> (forall db, f c.(c_store) = Ok db -> Q tt (set_store db c)) -> wp (save f) Q E c.
Proof. unfold wp, save. destruct (f (c_store c)); auto. Qed.

Lemma wp_getHeader hash (Q : option Header -> consensus DB -> Prop) (E : consensus DB -> Prop) c :
  store_ok c.(c_store) -> E c -> Q None c ->
  (forall h, good h -> Header_Hash h = sbytes hash -> has_header c.(c_store) h -> Q (Some h) c) ->
  wp (getHeader hash) Q E c.
Proof.
  intros Hs HE HN HS. unfold wp, getHeader. destruct (GetHeader (c_store c) (sbytes hash)) eqn:G; auto.
  destruct (store_ok_get _ _ _ Hs G). apply HS; [done..|by eapply get_has_header].
Qed.

Lemma wp_getLeader view (Q : Z -> consensus DB -> Prop) (E : consensus DB -> Prop) c :
  E c -> (forall r, leader_of c.(c_replicas) view = Ok r -> Q r c) -> wp (getLeader view) Q E c.
Proof. intros HE HQ. unfold getLeader, wp, liftr. destruct (leader_of _ view); auto. Qed.

Lemma keeps_getLeader (I : consensus DB -> Prop) view : keeps I evolves (getLeader view).
Proof. intros c Hc. apply wp_getLeader; [done|]. by split. Qed.

(** One step of a straight-line program. *)
Ltac wstep := lazymatch goal with
  | |- wp (mbind _ _) _ _ _ => apply wp_bind
  | |- wp (gets _) _ _ _ => apply wp_gets
  | |- wp (modify _) _ _ _ => apply wp_modify
  | |- wp skip _ _ _ => apply wp_skip
  | |- wp (mret _) _ _ _ => apply wp_ret
  | |- wp (modify_progress _) _ _ _ => apply wp_modify
  | |- wp (save _) _ _ _ => apply wp_save
  | |- wp (getLeader _) _ _ _ => apply wp_getLeader; [|intros ? _]
  | |- wp (liftr _) _ _ _ => apply wp_liftr; [|intros ? ?]
  | |- wp (when _ _) _ _ _ => apply wp_when; intros ?
  end.

(** A header takes over. *)
Ltac evh new := apply (evolves_header _ _ new); simpl; rewrite ?app_nil_r;
  try done; try lia; repeat constructor; done.

(** A change of fields the invariant does not speak of. *)
Ltac inv_frame HI := destruct HI; constructor; assumption.

Lemma keeps_frame (g : consensus DB -> consensus DB) :
  (forall c, evolves c (g c)) -> (forall c, Inv c -> Inv (g c)) -> keeps Inv evolves (modify g).
Proof. intros HR HI c Hc. apply wp_modify. split; auto. Qed.

(** After a write it is enough to show the invariant; [evolves] may assume that
    the disk is in order. *)
Lemma after_write (J : consensus DB -> Prop) c0 c : (J c -> Inv0 c) -> J c -> (on_disk c.(c_store) -> evolves c0 c) ->
  evolves c0 c /\ J c.
Proof. intros HJ HI HR. split; [|done]. apply HR. by apply (Inv0_on_disk th), HJ. Qed.

Lemma moves_setView v : is_u64 v -> moves Inv0 Inv0 evolves (setView v).
Proof.
  intros Hv c HI. unfold setView. repeat wstep; [by apply evolves_frame|].
  intros db W%SaveView_entry. apply after_write; [done| |intros ?; by apply evolves_frame].
  destruct HI. constructor; try assumption; simpl.
  - by eapply disk_set_view.
  - by eapply votes_ok_write.
Qed.

(** ** Saving blocks *)

(** [f] writes one entry of a block, and only well-formed headers. *)
Definition saves_block (f : DB -> res DB) : Prop := forall db db', f db = Ok db' -> store_ok db ->
  store_ok db' /\ exists k v, block_key k /\ writes_entry db db' k v.

Lemma saves_SaveHeader h : good h -> saves_block (fun db => SaveHeader db h).
Proof.
  intros Hg db db' S Hs. split; [by eapply store_ok_save|].
  apply SaveHeader_entry in S as (buf & _ & W). by exists (KHeader (Header_Hash h)), buf.
Qed.
Lemma saves_SaveCertificate cert : saves_block (fun db => SaveCertificate db cert).
Proof.
  intros db db' (buf & _ & W)%SaveCertificate_entry Hs. split; [by eapply store_ok_other|]. eexists _, _; by split; [|exact W].
Qed.
Lemma saves_SaveData hash d : saves_block (fun db => SaveData db hash d).
Proof.
  intros db db' (dd & buf & _ & _ & W)%SaveData_entry Hs. split; [by eapply store_ok_other|]. eexists _, _; by split; [|exact W].
Qed.

(** Nothing but the store changes, and it loses no header. *)
Definition saved c c' : Prop :=
  Inv c' /\ c'.(c_view) = c.(c_view) /\ forall h, has_header c.(c_store) h -> has_header c'.(c_store) h.

Lemma wp_saves_block f c0 c : saves_block f -> evolves c0 c -> Inv c ->
  wp (save f) (fun _ s' => evolves c0 s' /\ saved c s' /\ f c.(c_store) = Ok s'.(c_store)) (evolves c0) c.
Proof.
  intros Hf HR [HI Hs]. wstep; [done|]. intros db E. pose proof (inv_disk _ _ HI) as D.
  destruct (Hf _ _ E (disk_store _ _ _ _ _ _ D)) as (Hs' & k & v & Hk & W). 
  assert (HI' : Inv0 (set_store db c)).
  { destruct HI. constructor; try assumption; simpl; [by eapply disk_block|by eapply votes_ok_write]. }
  split_and!; [|split_and!; [by split|done|]|done].
  - etrans; [exact HR|]. apply evolves_frame; try done; [intros _; by apply (Inv0_on_disk th)|].
    simpl. apply (writes_entry_other _ _ _ _ _ W). by destruct k.
  - intros h. by eapply has_header_mono.
Qed.

(** ** The round *)

(** What is left of the collectors' obligations once a round starts. *)
Lemma resetTimeouts_tcert c : Inv0 c -> timeoutCert_ok (resetTimeouts c).
Proof.
  intros HI. pose proof (inv_timeoutCert _ _ HI) as Ht. pose proof (inv_timeouts _ _ HI) as Hi.
  pose proof (inv_threshold _ _ HI). pose proof (inv_timeouts_majority _ _ HI).
  unfold timeoutCert_ok, timeouts_inv, resetTimeouts in *.
  destruct (c_timeoutCert c) eqn:E1, (Timeouts_Cert (c_timeouts c)) as [tc|] eqn:E2; simpl; rewrite ?E1; try done.
  destruct Ht as [_ Hm], Hi as [Hv Hi]. unfold tcert_valid. rewrite Hv.
  eapply tally_verifies; [done|lia..].
Qed.

Lemma Inv0_resetTimeouts c : Inv0 c -> Inv0 (resetTimeouts c).
Proof.
  intros HI. pose proof (resetTimeouts_tcert c HI). destruct HI.
  unfold resetTimeouts in *. destruct (c_timeoutCert c), (Timeouts_Cert (c_timeouts c)); by constructor.
Qed.

Lemma evolves_resetTimeouts c : evolves c (resetTimeouts c).
Proof.
  unfold resetTimeouts. destruct (c_timeoutCert c), (Timeouts_Cert (c_timeouts c)); by apply evolves_frame.
Qed.

(** The start of a round in view [v]: no vote has been collected. *)
Definition fresh v c : Prop := Inv0 c /\ c.(c_votes).(Votes_Cert) = None /\ c.(c_view) = v.

Lemma fresh_Inv v c : fresh v c -> Inv c.
Proof. intros (HI & Hn & _). split; [done|]. intros [? E]. by rewrite Hn in E. Qed.

Lemma keeps_releaseTimeoutCert v : keeps (fresh v) evolves releaseTimeoutCert.
Proof.
  intros c (HI & Hn & Hv). apply wp_modify.
  destruct (load_timeoutCert c); [case_match|]; (split; [by apply evolves_frame|]);
    try (by split_and!). split_and!; [|done..]. destruct HI; by constructor.
Qed.

Lemma fresh_resetTimeouts v c : fresh v c -> fresh v (resetTimeouts c).
Proof.
  intros (HI & Hn & Hv). split_and!; [by apply Inv0_resetTimeouts|..];
    unfold resetTimeouts; by destruct (c_timeoutCert c), (Timeouts_Cert (c_timeouts c)).
Qed.

Lemma keeps_resetTimeouts v : keeps (fresh v) evolves (modify resetTimeouts).
Proof. intros c HI. split; [apply evolves_resetTimeouts|by apply fresh_resetTimeouts]. Qed.

(** [timeouts.Start] cannot panic right after [Reset]. *)
Lemma keeps_restartTimeouts v : keeps (fresh v) evolves (modify resetTimeouts ;; startTimeouts).
Proof.
  intros c HI. do 2 wstep. pose proof (fresh_resetTimeouts v c HI) as (HI' & Hn' & Hv').
  pose proof (evolves_resetTimeouts c) as HR.
  assert (E : (resetTimeouts c).(c_timeouts) = Timeouts_Reset c.(c_timeouts)) by done.
  unfold wp, startTimeouts. rewrite E. cbn -[resetTimeouts]. split.
  - etrans; [exact HR|]. by apply evolves_frame.
  - split_and!; [|done..]. destruct HI' as [D V T VM TM TH TC ID]. constructor; try assumption.
    + split; [done|]. apply tally_empty.
    + unfold timeoutCert_ok in *. cbn -[resetTimeouts].
      destruct (c_timeoutCert (resetTimeouts c)) eqn:E'; [done| |done].
      exfalso. rewrite E in TC. by destruct TC as [[? [=]] _].
Qed.

(** ** Sending *)

Section Reentrant.
Context (step : Message -> M (consensus DB) unit)
        (step_keeps : forall m, msg_ok m -> keeps Inv evolves (step m)).

Lemma keeps_deliver_self m ids : msg_ok m -> keeps Inv evolves (deliver_self step m ids).
Proof.
  intros Hm. induction ids as [|i ids IH]; simpl; [apply keeps_skip, _|].
  apply keeps_bind; [apply _|apply keeps_gets, _|intros self].
  apply keeps_bind; [apply _| |by intros _]. apply keeps_when; [apply _|auto].
Qed.

(** A ballot is recorded, then emitted, then delivered. *)
Lemma wp_send_ballot m v ids c c1 :
  msg_ok m -> Inv c1 -> Inv0 c ->
  c1.(c_id) = c.(c_id) -> c1.(c_replicas) = c.(c_replicas) ->
  c1.(c_prepare) = c.(c_prepare) -> c1.(c_locked) = c.(c_locked) -> c1.(c_commit) = c.(c_commit) ->
  c1.(c_Progress) = c.(c_Progress) ->
  ballot_view (mkMsgTo (Some ids) m) = Some v ->
  c.(c_voted) < v -> c1.(c_voted) = v ->
  wp (sendMsg step m (Some ids)) (fun _ s' => evolves c s' /\ Inv s') (evolves c) c1.
Proof.
  intros Hm HI1 HI Hi Hr Hp Hl Hc HP Hb Hlt Hv. unfold sendMsg. do 2 wstep.
  eapply wp_moves; [apply _|by apply keeps_deliver_self| | |done].
  - eapply evolves_message with (m := mkMsgTo (Some ids) m); simpl; rewrite ?HP; try done.
    { intros _. apply (Inv0_on_disk th c1), HI1. }
    rewrite Hb. rewrite (disk_voted_inv th c HI). split; [done|].
    rewrite (disk_voted_inv th c1) by apply HI1. done.
  - destruct HI1 as [HI1 Hs]. split; [|done]. inv_frame HI1.
Qed.

Lemma moves_sendNewView v :
  moves (fun c => fresh v c /\ c.(c_voted) < wrap64 (v - 1)) Inv evolves (sendNewView step).
Proof.
  intros c ((HI & Hn & <-) & Hlt). unfold sendNewView. repeat (wstep; try done); [by apply evolves_frame|].
  intros db W%SaveVoted_entry. pose proof (wrap64_u64 (c_view c - 1)) as Hu.
  eapply wp_send_ballot; try done; [apply (inv_id _ _ HI)|]. split.
  - destruct HI. constructor; try done; [by eapply disk_set_voted|by eapply votes_ok_write].
  - intros [? E]. simpl in E. by rewrite Hn in E.
Qed.

Lemma moves_waitForData I : (forall c, I c -> Inv c) -> moves I Inv evolves waitForData.
Proof.
  intros HII c [HI Hs]%HII. unfold waitForData. repeat wstep. split; [by apply evolves_frame|].
  split; [|done]. inv_frame HI.
Qed.

Lemma moves_nextRound timedout : moves Inv0 Inv evolves (nextRound step timedout).
Proof.
  intros c HI. unfold nextRound, resetTimeout. do 6 wstep.
  set (c1 := set_votes _ _).
  assert (HF : fresh c1.(c_view) c1) by (split_and!; [destruct HI; by constructor|done..]).
  assert (HR : evolves c c1) by by apply evolves_frame.
  clearbody c1. clear HI. revert HF. generalize (c_view c1). intros v HF.
  eapply wp_moves_then; [apply _|apply (keeps_releaseTimeoutCert v)|done..|].
  intros _ c2 _ HR2 HF2. do 4 wstep.
  replace (c_view c2) with v by (symmetry; apply HF2).
  do 2 (wstep; try done).
  eapply wp_moves_then; [apply _|apply keeps_when; [apply _|intros _; apply (keeps_resetTimeouts v)]|done..|].
  intros _ c3 _ HR3 HF3. do 2 (wstep; try done).
  eapply wp_moves_then; [apply _|apply keeps_when; [apply _|intros _; apply (keeps_restartTimeouts v)]|done..|].
  intros _ c4 _ HR4 HF4. do 2 wstep.
  case_match eqn:E.
  - apply andb_prop in E as [_ E]. zbool.
    by eapply wp_moves; [apply _|apply (moves_sendNewView v)| | |].
  - do 2 (wstep; try done). apply fresh_Inv in HF4. wstep; [|done].
    by eapply wp_moves; [apply _|apply (moves_waitForData Inv)|..].
Qed.

(** Entering a view. *)
Lemma keeps_enter v timedout : is_u64 v ->
  keeps Inv evolves (setView v ;; nextRound step timedout).
Proof.
  intros Hv. apply (moves_bind _ _ Inv0); [|intros _; apply moves_nextRound].
  intros c [HI _]. by apply moves_setView.
Qed.

Lemma keeps_nextRound timedout : keeps Inv evolves (nextRound step timedout).
Proof. intros c [HI _]. by apply moves_nextRound. Qed.

Lemma keeps_syncView header tcert : keeps Inv evolves (syncView step header tcert).
Proof.
  apply keeps_bind; [apply _|apply keeps_gets, _|intros v].
  destruct tcert; (apply keeps_when; [apply _|intros _; apply keeps_enter, wrap64_u64]).
Qed.

Lemma keeps_onTimeout : keeps Inv evolves (onTimeout step).
Proof.
  apply keeps_bind; [apply _|apply keeps_gets, _|intros v]. apply keeps_enter, wrap64_u64.
Qed.

Lemma keeps_Tick : keeps Inv evolves (Tick step).
Proof.
  apply keeps_bind; [apply _| |intros _].
  - apply keeps_frame; intros c; [by apply evolves_frame|]. intros [HI ?]. split; [inv_frame HI|done].
  - apply keeps_bind; [apply _|apply keeps_gets, _|intros b].
    apply keeps_when; [apply _|intros _; apply keeps_onTimeout].
Qed.

(** ** Headers *)

Lemma keeps_updatePrepare header cert c0 c : evolves c0 c -> Inv c ->
  has_header c.(c_store) header -> good header ->
  wp (updatePrepare header cert) (fun _ s' => evolves c0 s' /\ Inv s') (evolves c0) c.
Proof.
  intros HR [HI Hs] Hh Hg. unfold updatePrepare. do 3 wstep; [|done]. zbool.
  repeat wstep; [etrans; [exact HR|]; evh (@nil BlockEvent)|].
  intros db W%(SetTag_entry _ KPrepare); [|set_solver]. repeat wstep.
  apply after_write; [by intros [? _]| |intros ?; etrans; [exact HR|]; evh [mkBlockEvent header false]].
  split; [|done]. destruct HI. constructor; try assumption; simpl.
  - by eapply disk_set_prepare.
  - by eapply votes_ok_write.
Qed.

Lemma keeps_lock h c0 c : evolves c0 c -> Inv c -> has_header c.(c_store) h -> good h ->
  c.(c_locked).(Header_View) < h.(Header_View) ->
  wp (modify (set_locked h) ;; save (fun db => SetTag db LockedTag (Header_Hash h)))
    (fun _ s' => (evolves c0 s' /\ Inv s') /\ forall h', has_header c.(c_store) h' -> has_header s'.(c_store) h')
    (evolves c0) c.
Proof.
  intros HR [HI Hs] Hh Hg Hlt. repeat wstep; [etrans; [exact HR|]; evh (@nil BlockEvent)|].
  intros db W%(SetTag_entry _ KLocked); [|set_solver]. split; [|intros h'; by eapply has_header_mono].
  apply after_write; [by intros [? _]| |intros ?; etrans; [exact HR|]; evh (@nil BlockEvent)].
  split; [|done]. destruct HI. constructor; try assumption; simpl.
  - by eapply disk_set_locked.
  - by eapply votes_ok_write.
Qed.

Lemma keeps_commit h c0 c : evolves c0 c -> Inv c -> has_header c.(c_store) h -> good h ->
  c.(c_commit).(Header_View) < h.(Header_View) -> final_ok (mkBlockEvent h true) ->
  wp (modify (set_commit h) ;; save (fun db => SetTag db DecideTag (Header_Hash h)) ;;
      modify_progress (AddHeader h true))
    (fun _ s' => evolves c0 s' /\ Inv s') (evolves c0) c.
Proof.
  intros HR [HI Hs] Hh Hg Hlt Hf.
  repeat wstep; [etrans; [exact HR|]; evh (@nil BlockEvent)|].
  intros db W%(SetTag_entry _ KDecide); [|set_solver]. repeat wstep.
  apply after_write; [by intros [? _]| |intros ?; etrans; [exact HR|]; evh [mkBlockEvent h true]].
  split; [|done]. destruct HI. constructor; try assumption; simpl.
  - by eapply disk_set_commit.
  - by eapply votes_ok_write.
Qed.

Lemma keeps_update parent : certified parent -> keeps Inv evolves (update parent).
Proof.
  intros Hcert c HI. pose proof (disk_store _ _ _ _ _ _ (inv_disk _ _ (proj1 HI))) as Hst.
  unfold update. wstep. apply wp_getHeader; [done..|].
  intros gp Hg1 He1 Hh1. wstep. apply wp_getHeader; [done..|]. intros ggp Hg2 He2 Hh2.
  do 3 wstep. eapply wp_mono with
    (Q := fun _ s' => (evolves c s' /\ Inv s') /\ forall h', has_header c.(c_store) h' -> has_header s'.(c_store) h')
    (E := evolves c); [|intros _ c1 [[HR1 HI1] Hm]|done].
  - wstep; [|done]. zbool. by apply keeps_lock.
  - do 2 wstep. wstep; [|done]. zbool. apply keeps_commit; [done..|by apply Hm|done|lia|].
    intros _. exists parent, gp. by split_and!.
Qed.

(** ** Votes *)

Lemma moves_sendVote header :
  moves (fun c => Inv c /\ has_header c.(c_store) header /\ good header
           /\ c.(c_voted) < header.(Header_View) /\ header.(Header_View) = c.(c_view))
        Inv evolves (sendVote step header).
Proof.
  intros c ([HI Hs] & Hh & Hg & Hlt & Hv). unfold sendVote.
  repeat (wstep; try done); [by apply evolves_frame|]. intros db W%SaveVoted_entry.
  pose proof (proj1 (proj1 Hg)) as Hu. pose proof (disk_voted_write _ _ _ Hu W) as Hdv.
  pose proof (disk_voted_inv th c HI) as Hd0.
  assert (Hod : on_disk db).
  { do 5 eexists. eapply disk_set_voted; [exact Hu|apply (inv_disk _ _ HI)|exact W]. }
  repeat (wstep; try done); [by apply evolves_voted; simpl; try lia..|].
  assert (Hn : c.(c_votes).(Votes_votes) = ∅).
  { destruct (inv_votes _ _ HI) as [Hvi _]. unfold votes_inv in Hvi.
    destruct (Votes_Cert (c_votes c)) eqn:E; [|by destruct Hvi].
    exfalso. unfold started in Hs. rewrite E in Hs. specialize (Hs (mk_is_Some _ _ eq_refl)). lia. }
  eapply wp_send_ballot; try done; [apply (inv_id _ _ HI)|]. split.
  - destruct HI. constructor; try done; simpl.
    + by eapply disk_set_voted.
    + split; [by apply Votes_Start_inv|]. intros h [= <-]. split; [by eapply has_header_mono|done].
  - intros _. simpl. lia.
Qed.

(** ** Proposals *)

Lemma wp_persistProposal header data cert c0 c : good header -> evolves c0 c -> Inv c ->
  wp (persistProposal header data cert)
    (fun _ s' => evolves c0 s' /\ Inv s' /\ c_view s' = c_view c /\ has_header s'.(c_store) header)
    (evolves c0) c.
Proof.
  intros Hg HR HI. unfold persistProposal.
  wstep. eapply wp_mono; [by apply wp_saves_block; [by apply saves_SaveHeader|..]| |done].
  intros _ c1 (HR1 & (HI1 & Hv1 & _) & S1). simpl.
  apply (store_ok_save _ _ _ Hg) in S1 as [_ Hh]; [|apply (disk_store _ _ _ _ _ _ (inv_disk _ _ (proj1 HI)))].
  wstep. eapply wp_mono; [by apply wp_saves_block; [apply saves_SaveData|..]| |done].
  intros _ c2 (HR2 & (HI2 & Hv2 & Hm2) & _). simpl.
  eapply wp_mono; [by apply wp_saves_block; [apply saves_SaveCertificate|..]| |done].
  intros _ c3 (HR3 & (HI3 & Hv3 & Hm3) & _). split_and!; [done..|congruence|auto].
Qed.

Lemma wp_safeNode header (Q : bool -> consensus DB -> Prop) (E : consensus DB -> Prop) c :
  store_ok c.(c_store) -> E c -> (forall b, Q b c) -> wp (safeNode header) Q E c.
Proof.
  intros Hs HE HQ. unfold safeNode. wstep. apply wp_getHeader; [done|done|by apply wp_ret, HQ|].
  intros p _ _ _. repeat wstep. apply HQ.
Qed.

Lemma Inv_store c : Inv c -> store_ok c.(c_store).
Proof. intros [HI _]. apply (disk_store _ _ _ _ _ _ (inv_disk _ _ HI)). Qed.

Lemma keeps_acceptProposal msg header parent cert : good header -> good parent -> certified parent ->
  moves (fun c => Inv c /\ has_header c.(c_store) parent) Inv evolves
    (acceptProposal step msg header parent cert).
Proof.
  intros Hg Hgp Hcert c (HI & Hh). unfold acceptProposal. wstep.
  eapply wp_mono; [by apply keeps_updatePrepare|intros _ c1 [HR1 HI1]; simpl|done].
  eapply wp_moves_then; [apply _|apply keeps_syncView|done..|]. intros _ c2 _ HR2 HI2.
  eapply wp_moves_then; [apply _|by apply keeps_update|done..|]. intros _ c3 _ HR3 HI3.
  do 3 wstep; [|done]. zbool. wstep.
  eapply wp_mono; [by apply wp_persistProposal|intros _ c4 (HR4 & HI4 & Hv4 & Hh4); simpl|done].
  do 3 wstep; [|done]. zbool. wstep. apply wp_safeNode; [by apply Inv_store|done|]. intros ok.
  wstep; [|done]. eapply wp_moves; [apply _|apply moves_sendVote|done| |done].
  split_and!; [done..|congruence].
Qed.

Lemma wp_checkTimeout header t (Q : bool -> consensus DB -> Prop) (E : consensus DB -> Prop) c :
  E c -> (forall b, Q b c) -> wp (checkTimeout header t) Q E c.
Proof. intros HE HQ. unfold checkTimeout. destruct t; [by wstep|by wstep]. Qed.

Lemma keeps_onProposal msg : msg_ok (NewProposalMsg msg) -> keeps Inv evolves (onProposal step msg).
Proof.
  intros Hm c HI. unfold onProposal. repeat (wstep; try done).
  assert (Hg : good a). { apply Hm. by destruct (Proposal_Header msg); simplify_eq/=. }
  case_match; [|done]. wstep; [|done]. repeat (wstep; try done). subst. zbool.
  apply wp_getHeader; [by apply Inv_store|done|
    by split; [apply evolves_frame|destruct HI as [HI ?]; split; [inv_frame HI|]]|].
  intros parent Hgp He Hh. wstep. apply wp_checkTimeout; [done|]. intros tok.
  wstep; [|done]. wstep. apply wp_getLeader; [done|]. intros leader Hl. wstep; [|done].
  eapply wp_moves; [apply _|apply keeps_acceptProposal| |split_and!|]; try done.
  eexists. by rewrite He.
Qed.

(** ** Collecting *)

Lemma Inv_votes_collect c vote v' b : Inv c -> is_u64 vote.(Vote_Voter) ->
  Votes_Collect c.(c_votes) vote = Ok (v', b) ->
  Inv (set_votes v' c) /\ (b = true -> exists h, v'.(Votes_Header) = Some h /\ has_header c.(c_store) h /\ good h).
Proof.
  intros [HI Hs] Hu. pose proof (inv_votes _ _ HI) as [Hvi Hvh].
  destruct (Votes_Collect_cases th _ _ Hvi Hu) as [->|(crt & h & a & Hc & Hh & Hb & Hvb & Hn & Hv & Ht & ->)].
  - intros [= <- <-]. split; [|done]. split; [|done]. inv_frame HI.
  - intros [= <- <-]. split; [|intros _; exists h; split; [done|by apply Hvh]]. split.
    + destruct HI; constructor; try assumption. split; simpl; [|by intros ? [= <-]; apply Hvh].
      exists h. by split_and!.
    + intros _. apply Hs. by rewrite Hc.
Qed.

Lemma keeps_onVote vote : is_u64 vote.(Vote_Voter) -> keeps Inv evolves (onVote step vote).
Proof.
  intros Hu c HI. unfold onVote. do 2 wstep. do 2 (wstep; try done). wstep; [|done].
  do 4 (wstep; try done). destruct a as [v' majority]. rename select (Votes_Collect _ _ = _) into Hc.
  destruct (Inv_votes_collect _ _ _ _ HI Hu Hc) as [HI1 Hh].
  assert (HR1 : evolves c (set_votes v' c)) by by apply evolves_frame.
  do 3 wstep; [|done]. subst. destruct (Hh eq_refl) as (h & Eh & Hh' & Hg). rewrite Eh.
  do 2 (wstep; try done). wstep.
  eapply wp_mono; [apply wp_saves_block; [apply saves_SaveCertificate|done..]| |done].
  intros _ c1 (HR2 & (HI2 & _ & Hm2) & _). simpl. do 2 (wstep; try done).
  rename select (Ok h = _) into E. injection E as <-. wstep.
  eapply wp_mono; [apply keeps_updatePrepare; [done..|by apply Hm2|done]|intros _ c3 [HR3 HI3]; simpl|done].
  eapply wp_moves_then; [apply _|apply keeps_syncView|done..|]. intros _ c4 _ HR4 HI4.
  by eapply wp_moves; [apply _|apply keeps_nextRound|..].
Qed.

Lemma Inv_timeouts_collect c nv t' b : Inv c -> is_u64 nv.(NewView_Voter) ->
  Timeouts_Collect c.(c_timeouts) nv = Ok (t', b) ->
  Inv (set_timeouts t' c) /\ (b = true -> Inv (set_timeoutCert TcTimeouts (set_timeouts t' c))).
Proof.
  intros [HI Hs] Hu. pose proof (inv_timeouts _ _ HI) as Hti.
  destruct (Timeouts_Collect_cases th _ _ Hti Hu) as [->|(crt & a & Hc & Hne & Hv & Hn & Hok & Ht & ->)].
  - intros [= <- <-]. split; [|done]. split; [|done]. inv_frame HI.
  - intros [= <- <-]. split.
    + split; [|done]. destruct HI as [? ? ? ? ? ? HT ?]; constructor; try assumption; [by split|].
      unfold timeoutCert_ok in *. simpl. destruct (c_timeoutCert c); [done| |done].
      destruct HT as [_ Hm]. split; [done|]. rewrite size_union, size_singleton by set_solver. lia.
    + intros Hm. zbool. split; [|done]. destruct HI; constructor; try assumption; [by split|]. by split.
Qed.

Lemma keeps_onNewView nv : is_u64 nv.(NewView_Voter) -> keeps Inv evolves (onNewView step nv).
Proof.
  intros Hu c HI. unfold onNewView. do 2 wstep. do 2 (wstep; try done). wstep; [|done].
  do 2 (wstep; try done). wstep. apply wp_getHeader; [by apply Inv_store|done..|].
  intros h Hg _ Hh. wstep.
  eapply wp_mono; [by apply keeps_updatePrepare|intros _ c1 [HR1 HI1]; simpl|done].
  do 4 (wstep; try done). destruct a0 as [t' majority]. rename select (Timeouts_Collect _ _ = _) into Hc.
  destruct (Inv_timeouts_collect _ _ _ _ HI1 Hu Hc) as [HI2 HI3].
  do 2 wstep. wstep; [subst|split; [by etrans; [exact HR1|by apply evolves_frame]|done]].
  do 6 wstep. specialize (HI3 eq_refl).
  eapply wp_moves_then; [apply _|apply keeps_syncView|by etrans; [exact HR1|by apply evolves_frame]|done|].
  intros _ c2 _ HR2 HI4. case_match.
  - by eapply wp_moves; [apply _|apply keeps_nextRound|..].
  - by eapply wp_moves; [apply _|apply (moves_waitForData Inv)|..].
Qed.

(** ** Synchronization *)

(** A sequence of block writes, as far as it gets. *)
Lemma keeps_run_writes ws : Forall saves_block ws -> keeps Inv evolves (save_all (run_writes ws)).
Proof.
  intros Hws. induction Hws as [|w ws Hw Hws IH]; intros c HI; unfold wp, save_all; simpl.
  - by destruct c.
  - pose proof (wp_saves_block w c c Hw (evolves_refl c) HI) as Hp. unfold wp, save in Hp.
    destruct (w (c_store c)) as [db|e|p]; [|by destruct c..].
    destruct Hp as (HR & (HI' & _) & _). specialize (IH _ HI'). unfold wp, save_all in IH. simpl in IH.
    destruct (run_writes ws db) as [db' [ | | ]]; simpl in *; [destruct IH; split|..]; try (by etrans); done.
Qed.

Lemma run_writes_headers ws db db' h : Forall saves_block ws -> store_ok db -> has_header db h ->
  run_writes ws db = (db', Ok tt) -> has_header db' h.
Proof.
  intros Hws. revert db. induction Hws as [|w ws Hw Hws IH]; simpl; intros db Hs Hh; [congruence|].
  destruct (w db) as [db1| |] eqn:E; try done. destruct (Hw _ _ E Hs) as (Hs1 & k & v & _ & W).
  apply IH; [done|by eapply has_header_mono].
Qed.

Lemma saves_block_deref {A} (o : option A) f : (forall a, o = Some a -> saves_block (f a)) ->
  saves_block (fun db => a ← deref o; f a db).
Proof. intros Hf db db' E. destruct o as [a|]; [by apply (Hf a)|done]. Qed.

Lemma SaveBlock_saves b header : b.(Block_Header) = Some header -> good header ->
  keeps Inv evolves (save_all (fun db => SaveBlock db b)) /\
  (forall db db', store_ok db -> SaveBlock db b = (db', Ok tt) -> has_header db' header).
Proof.
  intros Eh Hg.
  assert (Forall saves_block [
    fun db => c ← deref b.(Block_Cert); SaveCertificate db c;
    fun db => h ← deref b.(Block_Header); SaveData db (Header_Hash h) b.(Block_Data)]) as Hws.
  { constructor; [|constructor; [|constructor]]; apply saves_block_deref; intros a _;
      [apply saves_SaveCertificate|apply saves_SaveData]. }
  pose proof (saves_SaveHeader header Hg) as Hw. split.
  - apply keeps_run_writes. constructor; [|done]. by rewrite Eh.
  - unfold SaveBlock. intros db db' Hs (db1 & E & Hr)%run_writes_cons. rewrite Eh in E.
    destruct (store_ok_save _ _ _ Hg E Hs) as [Hs1 Hh]. by eapply run_writes_headers.
Qed.

Lemma keeps_syncBlock b : (forall h, b.(Block_Header) = Some h -> good h) ->
  keeps Inv evolves (syncBlock b).
Proof.
  intros Hg c HI. unfold syncBlock.
  destruct (Block_Header b) as [header|] eqn:Eh; [|done].
  destruct (Block_Cert b) as [cert|] eqn:Ec; [|done].
  destruct (Block_Data b) as [data|] eqn:Ed; [|done]. do 2 wstep. case_match; [done|].
  specialize (Hg header eq_refl). destruct (SaveBlock_saves b header Eh Hg) as [Hk Hsv].
  do 2 (wstep; try done). case_match; [|done]. subst.
  eapply wp_moves_then; [apply _|exact Hk|done..|]. intros u c1 Hrun HR1 HI1. wstep.
  assert (has_header c1.(c_store) header) as Hh.
  { unfold save_all in Hrun. destruct (SaveBlock (c_store c) b) as [db r] eqn:Es.
    destruct r as [[]| |]; simplify_eq. eapply Hsv; [|exact Es]. by apply Inv_store. }
  eapply wp_mono; [by apply keeps_updatePrepare|intros _ c2 [HR2 HI2]; simpl|done].
  eapply wp_moves_then; [apply _|apply keeps_update; by exists cert|done..|]. done.
Qed.

Lemma keeps_onSync sync : msg_ok (mkMessage (Some (Message_Sync sync))) -> keeps Inv evolves (onSync sync).
Proof.
  unfold onSync, msg_ok. simpl. induction 1 as [|b bs Hb Hbs IH]; simpl; [apply keeps_skip, _|].
  apply keeps_bind; [apply _|by apply keeps_syncBlock|intros ok]. by apply keeps_when; [apply _|].
Qed.

Lemma keeps_dispatch m : msg_ok m -> keeps Inv evolves (dispatch step m).
Proof.
  intros Hm. unfold dispatch. pose proof Hm as Hm'. unfold msg_ok in Hm'.
  destruct m as [[[]|]]; simpl in *; [by apply keeps_onProposal|by apply keeps_onNewView|
    by apply keeps_onVote|by apply keeps_onSync|apply keeps_skip, _].
Qed.

Lemma keeps_Start : keeps Inv evolves (Start step).
Proof. apply keeps_nextRound. Qed.

Lemma keeps_Send state root data : len (sbytes root) + len (sbytes state) < 2 ^ 61 ->
  keeps Inv evolves (Send step state root data).
Proof.
  intros Hl c [HI Hs]. unfold Send. do 2 wstep. wstep; [|done]. repeat (wstep; try done); [by apply evolves_frame|].
  unfold sendMsg. do 2 wstep. destruct (inv_disk _ _ HI) as [? ? Hvu ? ? (_ & _ & [[Hpu _] _]) ? ?].
  match goal with |- wp (step ?m) _ _ _ => assert (Hm : msg_ok m) end.
  { intros h [= <-]. apply Header_good; [done..|]. simpl.
    unfold Header_Hash. unfold len at 1. rewrite blake2s256_length.
    assert (2 ^ 62 = 2 * 2 ^ 61) by done. assert (32 < 2 ^ 61) by done. lia. }
  eapply wp_moves; [apply _|apply step_keeps| | |done].
  - done.
  - by eapply evolves_message.
  - split; [|done]. inv_frame HI.
Qed.
End Reentrant.

Lemma keeps_Step depth m : msg_ok m -> keeps Inv evolves (Step depth m).
Proof.
  revert m. induction depth as [|d IH]; intros m Hm; [apply keeps_die, _|by apply keeps_dispatch].
Qed.

Definition input_ok (i : input) : Prop :=
  match i with
  | IStep m => msg_ok m
  | ISend state root _ => len (sbytes root) + len (sbytes state) < 2 ^ 61
  | IStart | ITick => True
  end.

Lemma keeps_handle i : input_ok i -> keeps Inv evolves (handle i).
Proof.
  destruct i; cbn [input_ok handle]; intros Hi;
    [apply keeps_Start|by apply keeps_Step|apply keeps_Send|apply keeps_Tick];
    try done; intros; by apply (keeps_Step 2).
Qed.
End Handlers.
