(* ===== verification/Replica.v ===== *)
(** * A replica over time: inputs, hand-over, crashes and restarts

    [world] is a replica together with what it has handed to its environment.
    It evolves by inputs, by the event loop taking [Progress] over, and by
    deaths of the process followed by [newConsensus] on the same database.  A
    process that dies inside a handler leaves the database as the handler left
    it at that point.  The theorems of this file are about every world that can
    be reached from a replica that satisfies the invariant. *)

From Stdlib Require Import ZArith Lia.
From stdpp Require Import relations.
From S2P Require Import Prelude Wire Types Proto Codec Encoding Crypto Store Quorum Progress Consensus.
From S2P Require Import ConsensusFacts Handlers.

Lemma chain_prefix a l k b : chain a (l ++ k) b -> chain a l b.
Proof.
  revert a. induction l as [|x l IH]; simpl; intros a.
  - intros Hk%chain_le. done.
  - intros [? ?]. split; [done|]. by apply IH.
Qed.

Lemma chain_weaken a a' l b : a' <= a -> chain a l b -> chain a' l b.
Proof. destruct l; simpl; [lia|]. intros ? [? ?]. split; [lia|done]. Qed.

Section Replica.
Context {DB : Type} `{KVStore DB} `{!KVLaws DB} `{Hasher} `{!HasherLaws} `{Signer} `{Verifier}
        (th : Z) `{!VerifierLaws th}.
Implicit Types c : consensus DB.

(** ** Restart *)

Lemma GetTagHeader_tag db k h : k ∈ [KPrepare; KLocked; KDecide] -> store_ok db -> tag_at db k h ->
  exists h', GetTagHeader db (skey_bytes k) = Ok h' /\ Header_Hash h' = Header_Hash h /\ tag_at db k h'.
Proof.
  intros Hk Hs (Ht & Hh & Hg). destruct (has_header_get db h Hs Hh) as (h' & Hget & He).
  exists h'. unfold GetTagHeader. rewrite GetTag_entry, Ht by done. simpl. rewrite Hget.
  destruct (store_ok_get _ _ _ Hs Hget) as [Hg' _]. split_and!; [done|done|].
  unfold tag_at, has_header. by rewrite He.
Qed.

(** Two headers that only a hash collision could tell apart. *)
Definition same_block (h1 h2 : Header) : Prop := Header_Hash h1 = Header_Hash h2.

(** What a restarted replica has in common with the one that wrote the disk. *)
Record recovered (db : DB) (view voted : Z) (prepare locked commit : Header) c : Prop := {
  rec_store : c.(c_store) = db;
  rec_view : c.(c_view) = view;
  rec_voted : c.(c_voted) = voted;
  rec_prepare : same_block c.(c_prepare) prepare;
  rec_locked : same_block c.(c_locked) locked;
  rec_commit : same_block c.(c_commit) commit;
  rec_Progress : c.(c_Progress) = empty_progress;
}.

Lemma newConsensus_recovers db id replicas view voted prepare locked commit cert :
  disk_ok db view voted prepare locked commit ->
  GetCertificate db (Header_Hash prepare) = Ok cert ->
  exists c, newConsensus db id replicas = Ok c /\ recovered db view voted prepare locked commit c
    /\ c.(c_prepareCert) = cert /\ c.(c_id) = id /\ c.(c_replicas) = replicas
    /\ (is_u64 id -> 1 <= th <= quorum_size (len replicas) -> Inv th c).
Proof.
  intros D Hcert. pose proof (disk_store _ _ _ _ _ _ D) as Hs.
  destruct (GetTagHeader_tag db KPrepare prepare) as (p & Hp & Ep & Tp); [set_solver|done|apply D|].
  destruct (GetTagHeader_tag db KLocked locked) as (l & Hl & El & Tl); [set_solver|done|apply D|].
  destruct (GetTagHeader_tag db KDecide commit) as (d & Hd & Ed & Td); [set_solver|done|apply D|].
  simpl in Hp, Hl, Hd. unfold newConsensus, GetTagCert. destruct D as [_ Dv Dvu Dw Dwu [Dp _] _ _].
  rewrite GetView_entry, Dv, Encode_Decode by done. rewrite GetVoted_entry, Dw, Encode_Decode by done.
  rewrite Hp, Hl, Hd. change PrepareTag with (skey_bytes KPrepare). rewrite GetTag_entry, Dp by set_solver.
  simpl. rewrite Hcert. simpl. eexists. split_and!; [done|by split|done..|].
  intros Hid Hth. split; [|by intros [? [=]]]. by constructor.
Qed.

(** Without the certificate of the prepared block the replica does not start. *)
Lemma newConsensus_needs_cert db id replicas c : newConsensus db id replicas = Ok c ->
  GetTagCert db PrepareTag = Ok c.(c_prepareCert).
Proof.
  unfold newConsensus. repeat (intros (? & ? & Hx)%res_bind_Ok; revert Hx).
  intros [= <-]. by destruct (GetTagCert db PrepareTag); simplify_eq/=.
Qed.

Lemma newConsensus_fields db id replicas c : newConsensus db id replicas = Ok c ->
  c.(c_id) = id /\ c.(c_replicas) = replicas.
Proof.
  unfold newConsensus. repeat (intros (? & ? & Hx)%res_bind_Ok; revert Hx). by intros [= <-].
Qed.

Lemma newConsensus_progress db id replicas c : newConsensus db id replicas = Ok c ->
  c.(c_Progress) = empty_progress.
Proof.
  unfold newConsensus. repeat (intros (? & ? & Hx)%res_bind_Ok; revert Hx). by intros [= <-].
Qed.

Lemma loaded_header db tag h : GetTagHeader db tag = Ok h -> exists k, GetHeader db k = Ok h.
Proof. intros (k & _ & Hk)%res_bind_Ok. by exists k. Qed.

Lemma fatal_Ok {A} (r : res A) a : fatal r = Ok a -> r = Ok a.
Proof. by destruct r. Qed.

Lemma newConsensus_loads db id replicas c : newConsensus db id replicas = Ok c ->
  (exists k, GetHeader db k = Ok c.(c_prepare)) /\ (exists k, GetHeader db k = Ok c.(c_commit))
  /\ c.(c_votes) = NewVotes (quorum_size (len replicas))
  /\ c.(c_timeouts) = NewTimeouts (quorum_size (len replicas)) /\ c.(c_timeoutCert) = TcNil.
Proof.
  unfold newConsensus. intros (v & _ & (w & _ & (p & Hp & (l & _ & (d & Hd & (pc & _ & [= <-])%res_bind_Ok)%res_bind_Ok)%res_bind_Ok)%res_bind_Ok)%res_bind_Ok)%res_bind_Ok.
  apply fatal_Ok in Hp, Hd. split_and!; try done; by eapply loaded_header.
Qed.

(** ** The world *)

Record world : Type := mkWorld {
  w_c : consensus DB;
  w_sent : list MsgTo;
  w_events : list BlockEvent;
}.

Inductive wstep : world -> world -> Prop :=
| W_input c c' sent events i :
    input_ok i -> handle i c = (c', inl tt) ->
    wstep (mkWorld c sent events) (mkWorld c' sent events)
| W_handover c sent events :
    wstep (mkWorld c sent events)
          (mkWorld (set_Progress (Progress_Reset c.(c_Progress)) c)
             (sent ++ c.(c_Progress).(Messages)) (events ++ c.(c_Progress).(Events)))
| W_kill c c' sent events :
    newConsensus c.(c_store) c.(c_id) c.(c_replicas) = Ok c' ->
    wstep (mkWorld c sent events) (mkWorld c' sent events)
| W_crash c c1 c' sent events i k :
    input_ok i -> handle i c = (c1, inr k) ->
    newConsensus c1.(c_store) c1.(c_id) c1.(c_replicas) = Ok c' ->
    wstep (mkWorld c sent events) (mkWorld c' sent events).

Definition w_messages (w : world) : list MsgTo := w.(w_sent) ++ w.(w_c).(c_Progress).(Messages).
Definition w_blocks (w : world) : list BlockEvent := w.(w_events) ++ w.(w_c).(c_Progress).(Events).

(** The invariant of worlds, from a state whose last vote was [voted0]. *)
Record WInv (voted0 : Z) (id : Z) (replicas : list Z) (w : world) : Prop := {
  winv_inv : Inv th w.(w_c);
  winv_id : w.(w_c).(c_id) = id;
  winv_replicas : w.(w_c).(c_replicas) = replicas;
  winv_ballots : chain voted0 (ballots (w_messages w)) (disk_voted w.(w_c).(c_store));
  winv_sent : Forall sent_ok (w_messages w);
  winv_final : Forall final_ok (w_blocks w);
}.

(** A new process on a disk in order satisfies the invariant. *)
Lemma restart_Inv db id replicas c : on_disk db -> newConsensus db id replicas = Ok c ->
  is_u64 id -> 1 <= th <= quorum_size (len replicas) ->
  Inv th c /\ c.(c_store) = db /\ c.(c_Progress) = empty_progress.
Proof.
  intros (v & w & p & l & d & D) Hn Hid Hth.
  pose proof (newConsensus_needs_cert _ _ _ _ Hn) as Hcert. unfold GetTagCert in Hcert.
  change PrepareTag with (skey_bytes KPrepare) in Hcert.
  rewrite GetTag_entry, (proj1 (disk_prepare _ _ _ _ _ _ D)) in Hcert by set_solver.
  destruct (newConsensus_recovers _ id replicas _ _ _ _ _ _ D Hcert) as (c2 & Hn2 & R & _ & _ & _ & HI).
  rewrite Hn in Hn2. injection Hn2 as <-. split_and!; [by apply HI|apply R|apply R].
Qed.

(** A new process takes over from the disk of [c]. *)
Lemma WInv_restart voted0 id replicas c c' sent events :
  on_disk c.(c_store) -> c.(c_id) = id -> c.(c_replicas) = replicas ->
  is_u64 id -> 1 <= th <= quorum_size (len replicas) ->
  newConsensus c.(c_store) c.(c_id) c.(c_replicas) = Ok c' ->
  chain voted0 (ballots sent) (disk_voted c.(c_store)) ->
  Forall sent_ok sent -> Forall final_ok events ->
  WInv voted0 id replicas (mkWorld c' sent events).
Proof.
  intros HD Hi Hr Hid Hth Hn Hc Hs Hf. rewrite Hi, Hr in Hn.
  destruct (restart_Inv _ _ _ _ HD Hn Hid Hth) as (HI & Es & Ep). apply newConsensus_fields in Hn as [Ei Er].
  split; simpl; [done..| | |]; unfold w_messages, w_blocks; simpl; rewrite Ep, ?app_nil_r; [|done..]. by rewrite Es.
Qed.

(** Progress made by a handler. *)
Lemma WInv_evolves voted0 id replicas c c' sent events : evolves c c' ->
  WInv voted0 id replicas (mkWorld c sent events) ->
  c'.(c_id) = id /\ c'.(c_replicas) = replicas /\ on_disk c'.(c_store)
  /\ chain voted0 (ballots (sent ++ c'.(c_Progress).(Messages))) (disk_voted c'.(c_store))
  /\ Forall sent_ok (sent ++ c'.(c_Progress).(Messages))
  /\ Forall final_ok (events ++ c'.(c_Progress).(Events)).
Proof.
  intros [Ed Ei Er _ _ (m & M1 & C1 & S1) (e & E1 & _ & G1)] [WI Wi Wr Wb Ws Wf].
  unfold w_messages, w_blocks in *. simpl in *. rewrite M1, E1, !app_assoc. split_and!.
  - congruence.
  - congruence.
  - apply Ed, (Inv0_on_disk th), WI.
  - unfold ballots in *. rewrite omap_app. by eapply chain_app.
  - by apply Forall_app_2.
  - by apply Forall_app_2.
Qed.

Lemma wstep_inv voted0 id replicas w w' : WInv voted0 id replicas w -> wstep w w' -> WInv voted0 id replicas w'.
Proof.
  intros HW Hs. pose proof (winv_inv _ _ _ _ HW) as HI.
  pose proof (inv_id _ _ (proj1 HI)) as Hid. pose proof (inv_threshold _ _ (proj1 HI)) as Hth.
  rewrite (winv_id _ _ _ _ HW) in Hid. rewrite (winv_replicas _ _ _ _ HW) in Hth.
  destruct Hs as [c c' sent events i Hi Hh|c sent events|c c' sent events Hn|c c1 c' sent events i k Hi Hh Hn].
  - pose proof (keeps_handle th i Hi c HI) as Hk. unfold wp in Hk. rewrite Hh in Hk. destruct Hk as [HR HI'].
    destruct (WInv_evolves _ _ _ _ _ _ _ HR HW) as (? & ? & _ & ? & ? & ?). by split.
  - destruct HW as [WI Wi Wr Wb Ws Wf]. unfold w_messages, w_blocks in *. simpl in *.
    split; unfold w_messages, w_blocks; simpl; rewrite ?app_nil_r; try done.
    destruct WI as [[] ?]. split; [|done]. by constructor.
  - pose proof (WInv_evolves _ _ _ _ _ _ _ (evolves_refl c) HW) as (? & ? & ? & Hb & Hw & Hf).
    eapply WInv_restart; try done; [|by apply Forall_app in Hw as [? _]|by apply Forall_app in Hf as [? _]].
    unfold ballots in *. rewrite omap_app in Hb. by eapply chain_prefix.
  - pose proof (keeps_handle th i Hi c HI) as Hk. unfold wp in Hk. rewrite Hh in Hk.
    destruct (WInv_evolves _ _ _ _ _ _ _ Hk HW) as (? & ? & ? & Hb & Hw & Hf).
    eapply WInv_restart; try done; [|by apply Forall_app in Hw as [? _]|by apply Forall_app in Hf as [? _]].
    unfold ballots in *. rewrite omap_app in Hb. by eapply chain_prefix.
Qed.

Lemma worlds_inv voted0 id replicas w w' :
  WInv voted0 id replicas w -> rtc wstep w w' -> WInv voted0 id replicas w'.
Proof. intros HW Hs. induction Hs as [|w1 w2 w3 Hw _ IH]; [done|]. by eapply IH, wstep_inv. Qed.

Lemma WInv_start c : Inv th c -> c.(c_Progress) = empty_progress ->
  WInv c.(c_voted) c.(c_id) c.(c_replicas) (mkWorld c [] []).
Proof.
  intros HI HP. split; unfold w_messages, w_blocks; simpl; rewrite ?HP; try done; [|constructor..].
  simpl. rewrite (disk_voted_inv th c) by apply HI. apply Z.le_refl.
Qed.

(** ** Executions

    [act] runs one step; a run of [act]s is a path of [wstep]s. *)
Inductive action : Type := AInput (i : input) | AHandover | AKill.

Definition restart (c : consensus DB) (w : world) : option world :=
  match newConsensus c.(c_store) c.(c_id) c.(c_replicas) with
  | Ok c' => Some (mkWorld c' w.(w_sent) w.(w_events))
  | _ => None
  end.

Definition act (w : world) (a : action) : option world :=
  match a with
  | AInput i =>
      match handle i w.(w_c) with
      | (c', inl tt) => Some (mkWorld c' w.(w_sent) w.(w_events))
      | (c', inr _) => restart c' w
      end
  | AHandover => Some (mkWorld (set_Progress (Progress_Reset w.(w_c).(c_Progress)) w.(w_c))
                         (w_messages w) (w_blocks w))
  | AKill => restart w.(w_c) w
  end.

Fixpoint acts (w : world) (l : list action) : option world :=
  match l with [] => Some w | a :: l => match act w a with Some w' => acts w' l | None => None end end.

Definition action_ok (a : action) : Prop := match a with AInput i => input_ok i | _ => True end.

Lemma act_wstep w a w' : action_ok a -> act w a = Some w' -> wstep w w'.
Proof.
  destruct w as [c sent events], a as [i| |]; simpl; intros Ha.
  - destruct (handle i c) as [c' [[]|k]] eqn:E; [intros [= <-]; by eapply W_input|].
    unfold restart. destruct (newConsensus _ _ _) eqn:E'; try done. intros [= <-]. by eapply W_crash.
  - intros [= <-]. constructor.
  - unfold restart. destruct (newConsensus _ _ _) eqn:E'; try done. intros [= <-]. by eapply W_kill.
Qed.

Lemma acts_rtc w l w' : Forall action_ok l -> acts w l = Some w' -> rtc wstep w w'.
Proof.
  intros Hl. revert w. induction Hl as [|a l Ha Hl IH]; simpl; intros w; [by intros [= <-]|].
  destruct (act w a) as [w1|] eqn:E; [|done]. intros ?. eapply rtc_l; [by eapply act_wstep|auto].
Qed.

(** ** The first start *)

(** [ImportGenesis] on a database without headers, when every write
    succeeds. *)
Lemma ImportGenesis_disk db db' genesis header cert : genesis.(Block_Header) = Some header ->
  genesis.(Block_Cert) = Some cert -> good header -> good cert ->
  (forall k, entry db (KHeader k) = None) ->
  ImportGenesis db genesis = (db', Ok tt) ->
  disk_ok db' (wrap64 (header.(Header_View) + 1)) header.(Header_View) header header header
  /\ GetCertificate db' (sbytes cert.(Certificate_Block)) = Ok (canon cert)
  /\ forall k h, GetHeader db' k = Ok h -> k = Header_Hash header /\ h = canon header.
Proof.
  intros Eh Ec Hg Hgc Hno. unfold ImportGenesis. rewrite Eh, GetHeader_entry, Hno. unfold genesis_writes.
  intros (db1 & S1 & (db2 & S2 & (db3 & S3 & (db4 & S4 & (db5 & S5 & (db6 & S6 & (db7 & S7 & (db8 & S8 & E)
    %run_writes_cons)%run_writes_cons)%run_writes_cons)%run_writes_cons)%run_writes_cons)%run_writes_cons
    )%run_writes_cons)%run_writes_cons.
  injection E as <-. rewrite Ec in S2. simpl in S2.
  assert (Hs0 : store_ok db) by (intros k b Hb; by rewrite Hno in Hb).
  destruct (store_ok_save _ _ _ Hg S1 Hs0) as [Hs1 Hh1].
  assert (Hone : forall k, entry db1 (KHeader k) = if decide (k = Header_Hash header) then Some (encoding header) else None).
  { apply SaveHeader_entry in S1 as (hb & Hhb & W1). rewrite marshal_encoding in Hhb by done. injection Hhb as <-.
    intros k. rewrite W1, Hno. repeat case_decide; congruence. }
  clear Hno S1 Hs0.
  apply SaveCertificate_entry in S2 as (cb & Hcb & W2). rewrite marshal_encoding in Hcb by done. injection Hcb as <-.
  apply SaveData_entry in S3 as (d & bd & _ & _ & W3).
  apply SaveView_entry in S4 as W4. apply SaveVoted_entry in S5 as W5.
  apply (SetTag_entry _ KPrepare) in S6 as W6; [|set_solver].
  apply (SetTag_entry _ KLocked) in S7 as W7; [|set_solver].
  apply (SetTag_entry _ KDecide) in S8 as W8; [|set_solver]. clear S4 S5 S6 S7 S8.
  assert (He : forall k, entry db8 k =
    if decide (k = KDecide) then Some (Header_Hash header) else
    if decide (k = KLocked) then Some (Header_Hash header) else
    if decide (k = KPrepare) then Some (Header_Hash header) else
    if decide (k = KVoted) then Some (EncodeUint64 header.(Header_View)) else
    if decide (k = KView) then Some (EncodeUint64 (wrap64 (header.(Header_View) + 1))) else
    if decide (k = KData (Header_Hash header)) then Some bd else
    if decide (k = KCert (sbytes cert.(Certificate_Block))) then Some (encoding cert) else entry db1 k).
  { intros k. rewrite W8, W7, W6, W5, W4, W3, W2. repeat (case_decide; simplify_eq); done. }
  assert (Hh8 : has_header db8 header) by (unfold has_header; rewrite He; done).
  split_and!.
  - constructor; try (split_and!; [|done|done]); rewrite ?He; try done.
    + intros k b. rewrite He. simpl. apply Hs1.
    + apply wrap64_u64.
    + apply Hg.
  - rewrite GetCertificate_entry, He. repeat (case_decide; simplify_eq). by rewrite decode_encoding.
  - intros k h. rewrite GetHeader_entry, He. repeat (case_decide; simplify_eq).
    rewrite Hone. case_decide; [|done]. rewrite decode_encoding by done. by intros [= <-].
Qed.
End Replica.
Arguments world DB : clear implicits.
