(* ===== verification/Voting.v ===== *)
(** * The step that casts a ballot

    A vote is justified in the handler that casts it: [ballot_ok c c' m] speaks of the
    replica before the handler, [c], and after it, [c'], and [casts_handle] shows it
    of all the ballots that a handler emits.  On the way from the proposal to the
    vote nothing is emitted and the prepared block changes once, to the parent; from
    the vote to the end of the handler neither the lock nor a header changes
    ([still]).  So the locking rule can be stated on the blocks that the replica
    holds before and after the handler, without hypotheses on either. *)

From Stdlib Require Import ZArith Lia.
From S2P Require Import Prelude Wire Types Proto Codec Encoding Crypto Store Quorum Progress Consensus.
From S2P Require Import ConsensusFacts Handlers.

Section Voting.
Context {DB : Type} `{KVStore DB} `{!KVLaws DB} `{Hasher} `{Signer} `{Verifier}.
Implicit Types c : consensus DB.

(** ** Ballots *)

(** The block that is prepared once the parent of a proposal has had its turn. *)
Definition prepare_after (parent : Header) c : Header :=
  if c.(c_prepare).(Header_View) <? parent.(Header_View) then parent else c.(c_prepare).

(** The rule of [safeNode]: the block extends the locked block, or the prepared one,
    or its parent is above the lock. *)
Definition lock_rule c c' (header : Header) : Prop := exists parent parent',
  GetHeader c.(c_store) (sbytes header.(Header_Parent)) = Ok parent
  /\ GetHeader c'.(c_store) (sbytes header.(Header_Parent)) = Ok parent'
  /\ (sbytes header.(Header_Parent) = Header_Hash c'.(c_locked)
      \/ sbytes header.(Header_Parent) = Header_Hash (prepare_after parent c)
      \/ c'.(c_locked).(Header_View) < parent'.(Header_View)).

(** Why a vote may be cast: the block is signed by the leader of its view, its
    parent is certified, and it follows the locking rule. *)
Record justified c c' (header : Header) : Prop := {
  just_leader : exists leader sig, leader_of c.(c_replicas) header.(Header_View) = Ok leader
    /\ Verify leader (Header_Hash header) sig = true;
  just_cert : exists cert, VerifyAggregated (sbytes header.(Header_Parent)) cert.(Certificate_Sig) = Ok true;
  just_lock : lock_rule c c' header;
}.

(** A ballot is in the replica's own name and signed by it; a vote is justified. *)
Definition ballot_ok c c' (m : MsgTo) : Prop :=
  match m.(MsgTo_Message).(Message_GetType) with
  | Some (Message_Vote v) => v.(Vote_Voter) = c.(c_id) /\ exists header s,
      justified c c' header /\ v.(Vote_Block) = Some (Header_Hash header)
      /\ v.(Vote_View) = header.(Header_View)
      /\ Sign [] (Header_Hash header) = Ok s /\ v.(Vote_Sig) = Some s
  | Some (Message_Newview n) => n.(NewView_Voter) = c.(c_id) /\ exists s,
      Sign [] (timeout_digest n.(NewView_View)) = Ok s /\ n.(NewView_Sig) = Some s
  | _ => True
  end.

(** All that was emitted between two states. *)
Definition casts c c' : Prop := exists new,
  c'.(c_Progress).(Messages) = c.(c_Progress).(Messages) ++ new /\ Forall (ballot_ok c c') new.

(** [ballot_ok] reads a few fields of the first state. *)
Lemma ballot_ok_from c1 c2 c' m : c1.(c_id) = c2.(c_id) -> c1.(c_replicas) = c2.(c_replicas) ->
  c1.(c_store) = c2.(c_store) -> c1.(c_prepare) = c2.(c_prepare) -> ballot_ok c1 c' m -> ballot_ok c2 c' m.
Proof.
  intros Ei Er Es Ep. unfold ballot_ok. rewrite Ei. destruct (Message_GetType _) as [[p|n|v|s]|]; try done.
  intros (Hv & header & s & [Hl Hc Hr] & Hrest). split; [done|]. exists header, s. split; [|done].
  rewrite Er in Hl. split; [done..|]. unfold lock_rule, prepare_after in *. by rewrite <- Es, <- Ep.
Qed.

(** ** Methods that emit nothing

    [still P L]: nothing is emitted; with [P] the prepared block stays, with [L] the
    lock and all headers stay. *)
Record still (P L : bool) c c' : Prop := {
  st_messages : c'.(c_Progress).(Messages) = c.(c_Progress).(Messages);
  st_id : c'.(c_id) = c.(c_id);
  st_replicas : c'.(c_replicas) = c.(c_replicas);
  st_prepare : P = true -> c'.(c_prepare) = c.(c_prepare);
  st_locked : L = true -> c'.(c_locked) = c.(c_locked);
  st_headers : L = true -> forall k, entry c'.(c_store) (KHeader k) = entry c.(c_store) (KHeader k);
}.

#[local] Instance still_preorder P L : PreOrder (still P L).
Proof.
  split; [by intros c|]. intros c1 c2 c3 [M1 I1 R1 P1 L1 H1'] [M2 I2 R2 P2 L2 H2'].
  split; [congruence..|intros E; rewrite P2; auto|intros E; rewrite L2; auto|intros E k; rewrite H2'; auto].
Qed.

Abbreviation mute P L m := (moves (fun _ => True) (fun _ => True) (still P L) m).

Lemma mute_modify P L (g : consensus DB -> consensus DB) : (forall c, still P L c (g c)) -> mute P L (modify g).
Proof. intros Hg c _. apply wp_modify. by split. Qed.

(** [f] leaves the headers alone. *)
Definition spares (f : DB -> res DB) : Prop :=
  forall db db', f db = Ok db' -> forall k, entry db' (KHeader k) = entry db (KHeader k).

Lemma spares_write (f : DB -> res DB) key v : (forall h, key <> KHeader h) ->
  (forall db db', f db = Ok db' -> writes_entry db db' key v) -> spares f.
Proof. intros Hk Hf db db' E k. apply (writes_entry_other _ _ _ _ _ (Hf _ _ E)). apply Hk. Qed.

Lemma spares_tag t h : t ∈ [KPrepare; KLocked; KDecide] -> spares (fun db => SetTag db (skey_bytes t) h).
Proof.
  intros Ht. apply (spares_write _ t h); [intros k ->; set_solver|]. intros db db'. by apply SetTag_entry.
Qed.
Lemma spares_cert cert : spares (fun db => SaveCertificate db cert).
Proof. intros db db' (b & _ & W)%SaveCertificate_entry k. by apply (writes_entry_other _ _ _ _ _ W). Qed.
Lemma spares_view v : spares (fun db => SaveView db v).
Proof. apply (spares_write _ KView (EncodeUint64 v)); [done|]. intros db db'. apply SaveView_entry. Qed.
Lemma spares_voted v : spares (fun db => SaveVoted db v).
Proof. apply (spares_write _ KVoted (EncodeUint64 v)); [done|]. intros db db'. apply SaveVoted_entry. Qed.

Lemma mute_save P L f : (L = true -> spares f) -> mute P L (save f).
Proof.
  intros Hf c _. unfold wp, save. destruct (f (c_store c)) as [db|e|p] eqn:E; [|done..].
  split; [|done]. split; try done. intros EL k. by apply (Hf EL _ _ E).
Qed.

Lemma mute_save_all P f : mute P false (save_all f).
Proof. intros c _. unfold wp, save_all. destruct (f (c_store c)) as [db [u|e|p]]; by split. Qed.

Lemma mute_getHeader P L k : mute P L (getHeader k).
Proof. intros c _. unfold wp, getHeader. by destruct (GetHeader _ _). Qed.
Lemma mute_getLeader P L v : mute P L (getLeader v).
Proof. intros c _. unfold wp, getLeader, liftr. by destruct (leader_of _ _). Qed.
Lemma mute_startTimeouts P L : mute P L startTimeouts.
Proof. intros c _. unfold wp, startTimeouts. by destruct (Timeouts_Start _ _). Qed.

Lemma still_resetTimeouts P L c : still P L c (resetTimeouts c).
Proof. unfold resetTimeouts. destruct (c_timeoutCert c), (Timeouts_Cert (c_timeouts c)); by split. Qed.
Lemma still_releaseTimeoutCert P L c : still P L c
  match load_timeoutCert c with
  | Some t => if t.(TimeoutCertificate_View) <? wrap64 (c.(c_view) - 1) then set_timeoutCert TcNil c else c
  | None => c
  end.
Proof. destruct (load_timeoutCert c); [case_match|]; by split. Qed.

(** The rules of a straight-line program that emits nothing. *)
Ltac quiet := repeat first
  [ apply keeps_bind; [apply _| |intros ?]
  | apply keeps_when; [apply _|intros ?]
  | apply keeps_gets; apply _ | apply keeps_skip; apply _ | apply keeps_ret; apply _ | apply keeps_liftr; apply _
  | apply mute_getHeader | apply mute_getLeader | apply mute_startTimeouts
  | apply mute_modify; intros ?; first [apply still_resetTimeouts|apply still_releaseTimeoutCert|by split]
  | apply mute_save; intros ? ].

Section Reentrant.
Context (step : Message -> M (consensus DB) unit).

Lemma mute_nextRound P L : mute P L (nextRound step false).
Proof. unfold nextRound, resetTimeout, releaseTimeoutCert, waitForData, modify_progress. simpl andb. quiet. Qed.
#[local] Opaque nextRound.

Lemma mute_setView P L v : mute P L (setView v).
Proof. unfold setView. quiet. apply spares_view. Qed.
#[local] Opaque setView.

Lemma mute_syncView P L header t : mute P L (syncView step header t).
Proof. unfold syncView. quiet. destruct t; quiet; first [apply mute_setView|apply mute_nextRound]. Qed.
#[local] Opaque syncView.

Lemma mute_updatePrepare L header cert : mute false L (updatePrepare header cert).
Proof. unfold updatePrepare, modify_progress. quiet. apply (spares_tag KPrepare). set_solver. Qed.
#[local] Opaque updatePrepare.

Lemma mute_update P header : mute P false (update header).
Proof. unfold update, modify_progress. quiet. repeat (case_match; quiet; try done). Qed.
#[local] Opaque update.

Lemma mute_persist P header data cert : mute P false (persistProposal header data cert).
Proof. unfold persistProposal. quiet; done. Qed.

Lemma mute_onVote vote : mute false true (onVote step vote).
Proof.
  unfold onVote. quiet. case_match. quiet; [apply spares_cert|apply mute_updatePrepare|apply mute_syncView|apply mute_nextRound].
Qed.

Lemma mute_onNewView nv : mute false true (onNewView step nv).
Proof.
  unfold onNewView. quiet. case_match; quiet; [apply mute_updatePrepare|]. case_match. quiet; [apply mute_syncView|].
  case_match; [apply mute_nextRound|]. unfold waitForData, modify_progress. quiet.
Qed.

Lemma mute_onSync sync : mute false false (onSync sync).
Proof.
  unfold onSync. induction (Sync_Blocks sync) as [|b bs IH]; simpl; quiet; [|done]. unfold syncBlock.
  repeat (case_match; quiet); [apply mute_save_all|apply mute_updatePrepare|apply mute_update].
Qed.

Lemma mute_deliver P L m ids : mute P L (step m) -> mute P L (deliver_self step m ids).
Proof. intros Hm. induction ids as [|i ids IH]; simpl; quiet; done. Qed.
End Reentrant.

(** A ballot that a replica sends to itself is handled in silence. *)
Lemma mute_self d m : match m.(Message_GetType) with Some (Message_Vote _ | Message_Newview _) => True | _ => False end ->
  mute false true (Step d m).
Proof.
  intros Hm. destruct d as [|d]; [apply keeps_die, _|]. simpl. unfold dispatch.
  destruct (Message_GetType m) as [[p|n|v|s]|]; try done; [apply mute_onNewView|apply mute_onVote].
Qed.

(** ** Methods that emit ballots *)

(** The end of a handler that has emitted [m]. *)
Lemma casts_once P c c1 c' m : c1.(c_Progress).(Messages) = c.(c_Progress).(Messages) ++ [m] ->
  still P true c1 c' -> ballot_ok c c' m -> casts c c'.
Proof. intros Em Hs Hb. exists [m]. split; [by rewrite (st_messages _ _ _ _ Hs)|by constructor]. Qed.

Lemma casts_still P L c c' : still P L c c' -> casts c c'.
Proof. intros Hs. exists []. rewrite app_nil_r. split; [apply Hs|constructor]. Qed.

Lemma wp_mute P L (m : M (consensus DB) unit) c0 c : still P L c0 c -> mute P L m ->
  wp m (fun _ => casts c0) (fun _ => True) c.
Proof.
  intros Hs Hm. eapply wp_mono; [by apply Hm| |done]. intros u c' [Hs' _]. apply (casts_still P L). by etrans.
Qed.

Lemma wp_sendMsg d m ids c0 c : match m.(Message_GetType) with Some (Message_Vote _ | Message_Newview _) => True | _ => False end ->
  c.(c_Progress).(Messages) = c0.(c_Progress).(Messages) ->
  (forall c', c'.(c_locked) = c.(c_locked) -> (forall k, entry c'.(c_store) (KHeader k) = entry c.(c_store) (KHeader k)) ->
     ballot_ok c0 c' (mkMsgTo (Some ids) m)) ->
  wp (sendMsg (Step d) m (Some ids)) (fun _ => casts c0) (fun _ => True) c.
Proof.
  intros Hm Em Hb. unfold sendMsg, modify_progress. apply wp_bind, wp_modify.
  eapply wp_mono; [by apply (mute_deliver (Step d) false true m ids (mute_self d m Hm))| |done]. intros u c' [Hs _].
  eapply casts_once; [|exact Hs|]; [simpl; by rewrite Em|]. apply Hb; [by apply Hs|]. intros k. by apply Hs.
Qed.

(** A part that emits nothing, and the rest. *)
Lemma wp_then {A B} P L (m : M (consensus DB) A) (f : A -> M (consensus DB) B) (Q : B -> consensus DB -> Prop) c0 c :
  mute P L m -> still P L c0 c -> (forall a c1, still P L c0 c1 -> wp (f a) Q (fun _ => True) c1) ->
  wp (m ≫= f) Q (fun _ => True) c.
Proof.
  intros Hm Hs Hf. apply wp_bind. eapply wp_mono; [by apply Hm| |done]. intros a c1 [Hs1 _]. apply Hf. by etrans.
Qed.

Lemma casts_sendNewView P L d c0 c : still P L c0 c -> wp (sendNewView (Step d)) (fun _ => casts c0) (fun _ => True) c.
Proof.
  intros Hs. pose proof (st_messages _ _ _ _ Hs) as Em. pose proof (st_id _ _ _ _ Hs) as Ei.
  unfold sendNewView. apply wp_bind, wp_gets, wp_bind, wp_getLeader; [done|]. intros leader _.
  apply wp_bind, wp_gets, wp_bind, wp_gets, wp_bind, wp_liftr; [done|]. intros sig Hsig.
  apply wp_bind, wp_modify, wp_bind. unfold wp at 1, save. destruct (SaveVoted _ _) as [db|e|k]; [|done..].
  apply wp_sendMsg; [done..|]. intros c' _ _. simpl. split; [done|]. by exists sig.
Qed.

Lemma casts_nextRound P L d c0 c : still P L c0 c -> wp (nextRound (Step d) true) (fun _ => casts c0) (fun _ => True) c.
Proof.
  #[local] Transparent nextRound. intros Hs. unfold nextRound, resetTimeout, releaseTimeoutCert. #[local] Opaque nextRound.
  repeat (eapply wp_then; [|exact Hs|]; [clear; quiet|]; clear dependent c; intros ? c Hs). simpl andb.
  case_match; [by eapply casts_sendNewView|]. eapply wp_then; [|exact Hs|]; [apply mute_getLeader|]. intros leader c1 Hs1.
  eapply wp_mute; [exact Hs1|]. unfold waitForData, modify_progress. quiet.
Qed.

Lemma casts_Tick d c : wp (Tick (Step d)) (fun _ => casts c) (fun _ => True) c.
Proof.
  unfold Tick. assert (Hs : still false false c c) by done.
  eapply wp_then; [|exact Hs|]; [quiet|]. intros u c1 Hs1. eapply wp_then; [|exact Hs1|]; [quiet|]. intros fire c2 Hs2.
  apply wp_when; intros _; [|by eapply casts_still]. unfold onTimeout. eapply wp_then; [|exact Hs2|]; [quiet|]. intros v c3 Hs3.
  eapply wp_then; [|exact Hs3|]; [apply mute_setView|]. intros u' c4 Hs4. by eapply casts_nextRound.
Qed.

(** ** Votes *)

Lemma casts_sendVote d header c0 c : still false false c0 c -> justified c0 c header ->
  wp (sendVote (Step d) header) (fun _ => casts c0) (fun _ => True) c.
Proof.
  intros Hs [Hl Hc (p & p' & Hp & Hp' & Hr)]. unfold sendVote. apply wp_bind, wp_modify, wp_bind.
  unfold wp at 1, save. simpl c_store. destruct (SaveVoted _ _) as [db|e|k] eqn:E; [|done..].
  pose proof (spares_voted _ _ _ E) as Hk.
  apply wp_bind, wp_modify, wp_bind, wp_gets, wp_bind, wp_liftr; [done|]. intros sig Hsig.
  apply wp_bind, wp_getLeader; [done|]. intros leader _.
  apply wp_sendMsg; [done|apply Hs|]. intros c' El Eh. simpl. split; [apply Hs|]. exists header, sig.
  split; [|done]. split; [done..|]. exists p, p'. rewrite El. split_and!; [done| |exact Hr].
  rewrite GetHeader_entry in Hp' |- *. by rewrite Eh, Hk.
Qed.

Lemma wp_updatePrepare_after parent cert c :
  wp (updatePrepare parent cert) (fun _ c1 => still false false c c1 /\ c1.(c_prepare) = prepare_after parent c) (fun _ => True) c.
Proof.
  #[local] Transparent updatePrepare. unfold updatePrepare, prepare_after. #[local] Opaque updatePrepare.
  apply wp_bind, wp_gets. destruct (_ <? _); simpl; [|by apply wp_skip].
  apply wp_bind, wp_modify, wp_bind, wp_modify, wp_bind. unfold wp at 1, save. simpl c_store. by destruct (SetTag _ _ _).
Qed.

Lemma casts_acceptProposal d msg header parent cert leader psig c :
  GetHeader c.(c_store) (sbytes header.(Header_Parent)) = Ok parent ->
  VerifyAggregated (sbytes header.(Header_Parent)) cert.(Certificate_Sig) = Ok true ->
  leader_of c.(c_replicas) header.(Header_View) = Ok leader -> Verify leader (Header_Hash header) psig = true ->
  wp (acceptProposal (Step d) msg header parent cert) (fun _ => casts c) (fun _ => True) c.
Proof.
  intros Hp Hc Hl Hv. unfold acceptProposal. apply wp_bind.
  eapply wp_mono; [apply wp_updatePrepare_after| |done]. intros u c1 [Hs1 Ep1].
  assert (Hs : still true false c1 c1) by done.
  eapply wp_then; [|exact Hs|]; [apply mute_syncView|]. intros ? c2 Hs2.
  eapply wp_then; [|exact Hs2|]; [apply mute_update|]. intros ? c3 Hs3.
  assert (Hw : forall c', still true false c1 c' -> still false false c c' /\ c'.(c_prepare) = prepare_after parent c).
  { intros c' Hs'. rewrite <- Ep1. split; [|by apply Hs']. etrans; [exact Hs1|]. by destruct Hs'. }
  eapply wp_then; [|exact Hs3|]; [quiet|]. intros view c4 Hs4.
  apply wp_when; intros _; [|destruct (Hw _ Hs4); by eapply casts_still].
  eapply wp_then; [|exact Hs4|]; [apply mute_persist|]. intros ? c5 Hs5.
  eapply wp_then; [|exact Hs5|]; [quiet|]. intros voted c6 Hs6.
  apply wp_when; intros _; [|destruct (Hw _ Hs6); by eapply casts_still]. clear dependent c2 c3 c4 c5.
  destruct (Hw _ Hs6) as [Hq Ep]. unfold safeNode. apply wp_bind, wp_bind. unfold wp at 1, getHeader.
  destruct (GetHeader (c_store c6) _) as [p'|e|k] eqn:Ep'; [| |done].
  - apply wp_bind, wp_gets, wp_ret. apply wp_when; intros Hr; [|by eapply casts_still].
    apply casts_sendVote; [done|]. split; [by eexists _, _|by exists cert|]. exists parent, p'. split_and!; [done..|].
    rewrite <- Ep. apply orb_prop in Hr as [[Hr|Hr]%orb_prop|Hr]; zbool; [left|right; left|by right; right]; by apply bytes_eqb_eq.
  - apply wp_ret. apply wp_when; [done|]. intros _. by eapply casts_still.
Qed.

Lemma casts_onProposal d msg c : wp (onProposal (Step d) msg) (fun _ => casts c) (fun _ => True) c.
Proof.
  unfold onProposal. apply wp_bind, wp_liftr; [done|]. intros header _.
  assert (Hs : still false false c c) by done. pose proof (casts_still _ _ _ _ Hs) as Hc.
  destruct (Proposal_ParentCert msg) as [cert|]; [|done]. apply wp_when; intros _; [|done].
  apply wp_bind, wp_liftr; [done|]. intros valid Hvalid. apply wp_when; intros Ev; [|done]. subst valid.
  apply wp_bind. unfold wp at 1, getHeader. destruct (GetHeader _ _) as [parent|e|k] eqn:Ep; [| |done].
  - apply wp_bind. unfold checkTimeout, wp at 1.
    assert (Ht : forall b, wp (when b (leader ← getLeader header.(Header_View);
                   when (Verify leader (Header_Hash header) (sbytes msg.(Proposal_Sig)))
                     (acceptProposal (Step d) msg header parent cert))) (fun _ => casts c) (fun _ => True) c).
    { intros b. apply wp_when; intros _; [|done]. apply wp_bind, wp_getLeader; [done|].
      intros leader El. apply wp_when; intros Hsig; [|done].
      by eapply casts_acceptProposal. }
    destruct (Proposal_Timeout msg) as [t|]; [|apply Ht]. unfold liftr. destruct (VerifyAggregated (timeout_digest _) _); [apply Ht|done..].
  - apply wp_modify. exists []. rewrite app_nil_r. by split; [|constructor].
Qed.

Lemma casts_Step d m c : wp (Step d m) (fun _ => casts c) (fun _ => True) c.
Proof.
  destruct d as [|d]; [done|]. simpl. unfold dispatch.
  destruct (Message_GetType m) as [[p|n|v|s]|]; [apply casts_onProposal|..].
  - apply (wp_mute false true _ c); [done|apply mute_onNewView].
  - apply (wp_mute false true _ c); [done|apply mute_onVote].
  - apply (wp_mute false false _ c); [done|apply mute_onSync].
  - by apply (casts_still false false).
Qed.

Lemma casts_Send d state root data c : wp (Send (Step d) state root data) (fun _ => casts c) (fun _ => True) c.
Proof.
  unfold Send. apply wp_bind, wp_gets, wp_when; intros _; [|by apply (casts_still true true)].
  apply wp_bind, wp_modify, wp_bind, wp_gets, wp_bind, wp_liftr; [done|]. intros sig _.
  unfold sendMsg, modify_progress. apply wp_bind, wp_modify.
  eapply wp_mono; [apply casts_Step| |done]. intros u c' (new & Em & Hb). eexists (_ :: new).
  split; [rewrite Em; simpl; by rewrite <- app_assoc|]. constructor; [done|].
  eapply Forall_impl; [|exact Hb]. intros x. by apply ballot_ok_from.
Qed.

(** Every ballot that a handler emits is one that the replica may cast there. *)
Lemma casts_handle i c : wp (handle i) (fun _ => casts c) (fun _ => True) c.
Proof.
  destruct i as [|m|state root data|]; cbn [handle].
  - apply (wp_mute true true _ c); [done|apply mute_nextRound].
  - apply (casts_Step 2).
  - apply (casts_Send 2).
  - apply (casts_Tick 2).
Qed.
End Voting.
