(* ===== verification/Depth.v ===== *)
(** * Re-entrance of Step

    [sendMsg] delivers to itself by calling [Step] again.  Two levels are always
    enough: a proposal leads to a vote, a vote and a new-view only move to the
    next round, which sends nothing.  So [Step 2] is the unbounded recursion of
    the code.  The argument is by rewriting with pointwise equality of
    computations, for which the combinators are [Proper]. *)

From Stdlib Require Import ZArith Lia.
From S2P Require Import Prelude Wire Types Proto Codec Encoding Crypto Store Quorum Progress Consensus.

(** Equality of computations, pointwise. *)
Definition meq {S A : Type} : relation (M S A) := fun m1 m2 => forall s, m1 s = m2 s.
Infix "≡m" := meq (at level 70).

#[global] Instance meq_equiv S A : Equivalence (@meq S A).
Proof. split; [by intros m s|by intros m1 m2 E s|by intros m1 m2 m3 E1 E2 s; rewrite E1]. Qed.

#[global] Instance bind_proper S A B :
  Proper (pointwise_relation A meq ==> meq ==> meq) (@mbind (M S) _ A B).
Proof.
  intros f1 f2 Ef m1 m2 Em s. unfold mbind, M_bind. rewrite Em. destruct (m2 s) as [s' [a|c]]; [apply Ef|done].
Qed.

#[global] Instance when_proper S : Proper (eq ==> meq ==> meq) (@when S).
Proof. intros b b' <- m1 m2 Em. by destruct b. Qed.

Section Depth.
Context {DB : Type} `{KVStore DB} `{Hasher} `{Signer} `{Verifier}.

Implicit Type s : Message -> M (consensus DB) unit.

Definition agree_on (P : Message -> Prop) (s1 s2 : Message -> M (consensus DB) unit) : Prop :=
  forall m, P m -> s1 m ≡m s2 m.

Definition is_ballot (m : Message) : Prop :=
  match m.(Message_GetType) with
  | Some (Message_Vote _) | Some (Message_Newview _) => True
  | _ => False
  end.
Definition is_vote (m : Message) : Prop :=
  match m.(Message_GetType) with Some (Message_Vote _) => True | _ => False end.

Lemma deliver_self_agree s1 s2 m ids : s1 m ≡m s2 m -> deliver_self s1 m ids ≡m deliver_self s2 m ids.
Proof.
  intros E. induction ids as [|i ids IH]; simpl; [reflexivity|]. apply bind_proper; [intros self|reflexivity].
  apply bind_proper; [by intros _|by rewrite E].
Qed.

Lemma sendMsg_agree s1 s2 m ids : s1 m ≡m s2 m -> sendMsg s1 m ids ≡m sendMsg s2 m ids.
Proof.
  intros E. apply bind_proper; [intros _|reflexivity]. destruct ids; [by apply deliver_self_agree|done].
Qed.

(** Walk through a program whose only difference is what it sends. *)
Ltac walk := repeat lazymatch goal with
  | |- ?m ≡m ?m => reflexivity
  | |- sendMsg _ _ _ ≡m _ => apply sendMsg_agree
  | |- mbind _ _ ≡m _ => apply bind_proper; [intros ?|]
  | |- when _ _ ≡m _ => apply when_proper; [reflexivity|]
  | |- syncView _ _ _ ≡m _ => reflexivity
  | |- match ?x with _ => _ end ≡m _ => destruct x
  end.

(** Votes, new-views and blocks are handled without sending. *)
Lemma onVote_step s1 s2 v : onVote s1 v = onVote s2 v.
Proof. reflexivity. Qed.
Lemma onNewView_step s1 s2 n : onNewView s1 n = onNewView s2 n.
Proof. reflexivity. Qed.

Lemma dispatch_agree s1 s2 m : agree_on is_vote s1 s2 -> dispatch s1 m ≡m dispatch s2 m.
Proof.
  intros Ha. unfold dispatch. destruct (Message_GetType m) as [[]|];
    [|by rewrite (onNewView_step s1 s2)|by rewrite (onVote_step s1 s2)|reflexivity..].
  unfold onProposal, acceptProposal, sendVote. walk. by apply Ha.
Qed.

Lemma Step_agree d m : Step (S (S d)) m ≡m Step 2 m.
Proof.
  apply dispatch_agree. intros v Hv. unfold is_vote in Hv. cbn [Step].
  unfold dispatch. destruct (Message_GetType v) as [[]|]; destruct Hv.
  lazymatch goal with |- onVote ?s1 _ ≡m onVote ?s2 _ => by rewrite (onVote_step s1 s2) end.
Qed.

Lemma nextRound_agree s1 s2 b : agree_on is_ballot s1 s2 -> nextRound s1 b ≡m nextRound s2 b.
Proof. intros Ha. unfold nextRound, sendNewView. walk. by apply Ha. Qed.

Lemma Send_agree s1 s2 state root data : (forall m, s1 m ≡m s2 m) ->
  Send s1 state root data ≡m Send s2 state root data.
Proof. intros Ha. unfold Send. walk. apply Ha. Qed.

Lemma Tick_agree s1 s2 : agree_on is_ballot s1 s2 -> Tick s1 ≡m Tick s2.
Proof. intros Ha. unfold Tick, onTimeout. walk. by apply nextRound_agree. Qed.

(** The entry points, with re-entrance bounded by [d]. *)
Definition handle_depth (d : nat) (i : input) : M (consensus DB) unit :=
  match i with
  | IStart => Start (Step d)
  | IStep msg => Step d msg
  | ISend state root data => Send (Step d) state root data
  | ITick => Tick (Step d)
  end.

(** C18: the self-delivery recursion of [Step] is at most two levels deep: with
    any larger bound every entry point computes the same state and outcome. *)
Theorem depth_two_suffices d i c : handle_depth (S (S d)) i c = handle i c.
Proof.
  destruct i; cbn [handle_depth handle].
  - apply nextRound_agree. intros m _. apply Step_agree.
  - apply Step_agree.
  - apply Send_agree. intros m. apply Step_agree.
  - apply Tick_agree. intros m _. apply Step_agree.
Qed.
End Depth.
