(* ===== verification/Pacemaker.v ===== *)
(** * Timeouts and leaders

    [Tick] counts to the timeout that [resetTimeout] set, 2 to the number of
    views since the last certified block, and [getLeader] rotates through the
    replicas.  The exponent is not bounded: from 63 views on the timeout is not
    positive, and the counter never meets it. *)

From Stdlib Require Import ZArith Lia.
From S2P Require Import Prelude Wire Types Proto Codec Encoding Crypto Store Quorum Progress Consensus Instances.

(** ** Leaders *)

Lemma leader_of_lookup replicas v r : replicas <> [] ->
  leader_of replicas v = Ok r <-> replicas !! Z.to_nat (v mod len replicas) = Some r.
Proof.
  intros Hne. unfold leader_of. assert (Hl : 0 < len replicas) by (destruct replicas; [done|]; rewrite len_cons; pose proof (len_nonneg replicas); lia).
  rewrite (proj2 (Z.eqb_neq _ _)) by lia.
  destruct (replicas !! Z.to_nat (v mod len replicas)); split; intros E; by simplify_eq.
Qed.

(** C21: in any [n] consecutive views each of the [n] replicas is the leader exactly
    once. *)
Theorem leader_rotation replicas r v : NoDup replicas -> r ∈ replicas -> 0 <= v ->
  exists k, 0 <= k < len replicas /\ leader_of replicas (v + k) = Ok r
    /\ forall k', 0 <= k' < len replicas -> leader_of replicas (v + k') = Ok r -> k' = k.
Proof.
  intros Hnd Hr Hv. apply list_elem_of_lookup in Hr as [i Hi].
  assert (Hne : replicas <> []) by by destruct replicas.
  pose proof (lookup_lt_Some _ _ _ Hi) as Hlt. set (n := len replicas).
  assert (Hn : Z.of_nat i < n) by (unfold n, len; lia).
  exists ((Z.of_nat i - v) mod n). split; [apply Z.mod_pos_bound; lia|]. split.
  - apply leader_of_lookup; [done|]. fold n. rewrite Zplus_mod_idemp_r.
    replace (v + (Z.of_nat i - v)) with (Z.of_nat i) by lia. by rewrite Z.mod_small, Nat2Z.id by lia.
  - intros k' Hk Hl. apply leader_of_lookup in Hl; [|done]. fold n in Hl.
    pose proof (NoDup_lookup _ _ _ _ Hnd Hl Hi) as E.
    assert (E' : (v + k') mod n = Z.of_nat i) by (pose proof (Z.mod_pos_bound (v + k') n); lia).
    rewrite <- E', Zminus_mod_idemp_l. replace (v + k' - v) with k' by lia. by rewrite Z.mod_small.
Qed.

Lemma leader_rotation_witness : exists k, 0 <= k < 4 /\ leader_of [0; 1; 2; 3] (7 + k) = Ok 2.
Proof.
  destruct (leader_rotation [0; 1; 2; 3] 2 7) as (k & Hk & Hl & _).
  - repeat constructor; set_solver.
  - set_solver.
  - lia.
  - exists k. by split.
Defined.

Section Pacemaker.
Context {DB : Type} `{KVStore DB} `{Hasher} `{Signer} `{Verifier}.
Implicit Types c : consensus DB.

(** ** Timeouts *)

(** The timeout [gap] views after the last certified block. *)
Definition timeout_for (gap : Z) : Z := if gap <? 64 then swrap64 (Z.shiftl 1 gap) else 0.

Lemma timeout_for_pow gap : 0 <= gap < 63 -> timeout_for gap = 2 ^ gap.
Proof.
  intros Hg. unfold timeout_for. rewrite (proj2 (Z.ltb_lt gap 64)), Z.shiftl_1_l by lia. apply swrap64_small.
  split; [apply Z.pow_nonneg; lia|]. change two63 with (2 ^ 63). apply Z.pow_lt_mono_r; lia.
Qed.

Lemma newTimeout_for c : newTimeout c = timeout_for (wrap64 (c.(c_view) - c.(c_prepare).(Header_View))).
Proof. done. Qed.

(** C22: the timeout is 2 to the number of views since the last certified block,
    until the shift leaves the 63 bits of an int: it is then negative, and 0
    from 64 views on. *)
Theorem newTimeout_doubles c gap : is_u64 c.(c_view) -> is_u64 c.(c_prepare).(Header_View) ->
  c.(c_view) = c.(c_prepare).(Header_View) + gap -> 0 <= gap ->
  newTimeout c = if gap <? 63 then 2 ^ gap else if gap =? 63 then - two63 else 0.
Proof.
  intros Hv Hp E Hg. rewrite newTimeout_for. replace (c_view c - Header_View (c_prepare c)) with gap by lia.
  unfold is_u64 in *. rewrite wrap64_small by (unfold is_u64; lia).
  destruct (gap <? 63) eqn:E1; zbool; [by apply timeout_for_pow|]. destruct (gap =? 63) eqn:E2; zbool; [by subst|].
  unfold timeout_for. by rewrite (proj2 (Z.ltb_ge gap 64)) by lia.
Qed.

(** The number of ticks a replica waits: [k] calls of [Tick]. *)
Fixpoint Ticks (step : Message -> M (consensus DB) unit) (k : nat) : M (consensus DB) unit :=
  match k with O => skip | S k => Tick step ;; Ticks step k end.

Lemma set_ticks_twice a b c : set_ticks a (set_ticks b c) = set_ticks a c.
Proof. done. Qed.

Lemma Tick_quiet step t c : 0 <= t < two63 - 1 -> t + 1 <> c.(c_timeout) ->
  Tick step (set_ticks t c) = (set_ticks (t + 1) c, inl tt).
Proof.
  intros Ht Hne. unfold Tick, mbind, M_bind, modify, gets, when, skip. simpl.
  rewrite swrap64_small by lia. rewrite (proj2 (Z.eqb_neq _ _)) by done. by rewrite set_ticks_twice.
Qed.

Lemma Tick_fires step t c : 0 <= t < two63 - 1 -> t + 1 = c.(c_timeout) ->
  Tick step (set_ticks t c) = onTimeout step (set_ticks (t + 1) c).
Proof.
  intros Ht Hne. unfold Tick, mbind, M_bind, modify, gets, when, skip. simpl.
  rewrite swrap64_small by lia. rewrite (proj2 (Z.eqb_eq _ _)) by done. by rewrite set_ticks_twice.
Qed.

Lemma Ticks_quiet step k t c : 0 <= t -> t + Z.of_nat k < two63 ->
  (forall j, t < j <= t + Z.of_nat k -> j <> c.(c_timeout)) ->
  Ticks step k (set_ticks t c) = (set_ticks (t + Z.of_nat k) c, inl tt).
Proof.
  revert t. induction k as [|k IH]; intros t Ht Hlt Hne; cbn [Ticks].
  - by rewrite Z.add_0_r.
  - unfold mbind, M_bind. rewrite Tick_quiet by (lia || (apply Hne; lia)).
    rewrite IH by (try lia; intros; apply Hne; lia). do 2 f_equal. lia.
Qed.

(** After [resetTimeout] set a timeout of [n] ticks, the first [n - 1] calls
    of [Tick] only count, and the [n]-th one is the timeout. *)
Theorem tick_times_out step c n k : c.(c_ticks) = 0 -> c.(c_timeout) = Z.of_nat (S n) ->
  Z.of_nat (S n) < two63 ->
  ((k <= n)%nat -> Ticks step k c = (set_ticks (Z.of_nat k) c, inl tt))
  /\ (Ticks step n ;; Tick step) c = onTimeout step (set_ticks (Z.of_nat (S n)) c).
Proof.
  intros Ht0 Hto Hn. assert (E : c = set_ticks 0 c) by (destruct c; simpl in *; by subst).
  split.
  - intros Hk. rewrite E at 1. rewrite Ticks_quiet by lia. by rewrite Z.add_0_l.
  - unfold mbind, M_bind. rewrite E at 1. rewrite Ticks_quiet by lia. rewrite Z.add_0_l.
    rewrite Tick_fires by lia. do 2 f_equal. lia.
Qed.

(** A timeout that is not positive never fires, whatever the number of ticks
    an int can count; the replica stays in its view. *)
Theorem tick_never_fires step c k : c.(c_ticks) = 0 -> c.(c_timeout) <= 0 -> Z.of_nat k < two63 ->
  Ticks step k c = (set_ticks (Z.of_nat k) c, inl tt).
Proof.
  intros Ht0 Hto Hk. assert (E : c = set_ticks 0 c) by (destruct c; simpl in *; by subst).
  rewrite E at 1. rewrite Ticks_quiet by lia. by rewrite Z.add_0_l.
Qed.
End Pacemaker.

(** ** Witnesses *)

(** The concrete replica 70 views after the genesis block. *)
Definition late (view : Z) : consensus mem_db := set_view view (demo 1).

Lemma newTimeout_doubles_witness : newTimeout (late 5) = 32 /\ newTimeout (late 70) = 0.
Proof.
  split.
  - apply (newTimeout_doubles (late 5) 5); vm_compute; done.
  - apply (newTimeout_doubles (late 70) 70); vm_compute; done.
Defined.

#[local] Instance signer_1 : Signer := demo_signer 1.

Definition reset_at (view : Z) : consensus mem_db := fst (resetTimeout (late view)).

Lemma tick_times_out_witness :
  (Ticks (Step 2) 7 ;; Tick (Step 2)) (reset_at 3) = onTimeout (Step 2) (set_ticks 8 (reset_at 3)).
Proof. apply (tick_times_out (Step 2) (reset_at 3) 7 0); vm_compute; done. Defined.

Lemma tick_never_fires_witness :
  Ticks (Step 2) 1000 (reset_at 70) = (set_ticks 1000 (reset_at 70), inl tt).
Proof. apply (tick_never_fires (Step 2) (reset_at 70) 1000); vm_compute; done. Defined.
