(* ===== verification/Collectors.v ===== *)
(** * The collectors refine a set of voters

    What a client of [Votes] and [Timeouts] sees is a set of voters that grows
    by valid ballots and the moment it reaches the majority; [spec_collect] is
    that specification.  The theorems are simulations: a collector with its
    aggregated signature, fed any sequence of messages, behaves as the
    specification, and the certificate it holds at a majority is accepted by the
    verifier. *)

From Stdlib Require Import ZArith Lia.
From S2P Require Import Prelude Wire Types Proto Codec Encoding Crypto Store Quorum Consensus Instances.

(** ** The specification *)

(** [ok] says that the ballot is valid for the subject of the collection. *)
Definition spec_collect (majority : Z) (seen : gset Z) (voter : Z) (ok : bool) : gset Z * bool :=
  if ok && bool_decide (voter ∉ seen)
  then ({[ voter ]} ∪ seen, majority <=? Z.of_nat (size ({[ voter ]} ∪ seen)))
  else (seen, false).

Fixpoint spec_run (majority : Z) (seen : gset Z) (l : list (Z * bool)) : gset Z * list bool :=
  match l with
  | [] => (seen, [])
  | (voter, ok) :: l =>
      let '(seen', b) := spec_collect majority seen voter ok in
      let '(seen'', bs) := spec_run majority seen' l in (seen'', b :: bs)
  end.

(** The final set is the set of the valid voters. *)
Lemma spec_run_set majority seen l :
  fst (spec_run majority seen l) = seen ∪ list_to_set (fst <$> filter (fun p => snd p = true) l).
Proof.
  revert seen. induction l as [|[voter ok] l IH]; intros seen; simpl; [set_solver|].
  specialize (IH (fst (spec_collect majority seen voter ok))).
  destruct (spec_collect majority seen voter ok) as [seen' b] eqn:E. simpl in IH.
  destruct (spec_run majority seen' l) as [s bs]. simpl in *. rewrite IH.
  unfold spec_collect in E. rewrite filter_cons. destruct ok; simpl in E.
  - rewrite decide_True by done. simpl. destruct (bool_decide (voter ∉ seen)) eqn:Eb; simplify_eq.
    + set_solver.
    + apply bool_decide_eq_false, dec_stable in Eb. set_solver.
  - rewrite decide_False by done. by simplify_eq.
Qed.

Section Collectors.
Context `{Hasher} `{Verifier} (th : Z) `{!VerifierLaws th}.

(** ** Votes *)

Definition valid_vote (header : Header) (vote : Vote) : bool :=
  bytes_eqb (Header_Hash header) (sbytes vote.(Vote_Block))
  && Verify vote.(Vote_Voter) (Header_Hash header) (sbytes vote.(Vote_Sig)).

Fixpoint collect_votes (v : Votes) (l : list Vote) : res (Votes * list bool) :=
  match l with
  | [] => Ok (v, [])
  | vote :: l =>
      '(v', b) ← Votes_Collect v vote;
      '(v'', bs) ← collect_votes v' l;
      mret (v'', b :: bs)
  end.

(** [v] collects votes for [header]. *)
Definition collecting (header : Header) (v : Votes) : Prop :=
  votes_inv th v /\ v.(Votes_Header) = Some header.

Lemma Votes_Collect_sim header v vote : collecting header v -> is_u64 vote.(Vote_Voter) ->
  exists v', Votes_Collect v vote = Ok (v', snd (spec_collect v.(Votes_majority) v.(Votes_votes)
                                                   vote.(Vote_Voter) (valid_vote header vote)))
    /\ v'.(Votes_votes) = fst (spec_collect v.(Votes_majority) v.(Votes_votes)
                                 vote.(Vote_Voter) (valid_vote header vote))
    /\ v'.(Votes_majority) = v.(Votes_majority) /\ collecting header v'.
Proof.
  intros [Hinv Hh] Hu. unfold Votes_Collect. pose proof Hinv as Hinv'. unfold votes_inv in Hinv'.
  destruct (Votes_Cert v) as [c|] eqn:Ec; [|destruct Hinv'; congruence].
  destruct Hinv' as (h & Hh' & Hb & Ht). assert (h = header) by congruence. subst h.
  rewrite Hb. unfold spec_collect, valid_vote.
  destruct (bytes_eqb _ (sbytes (Vote_Block vote))) eqn:E1; simpl; [|by exists v].
  destruct (bool_decide (Vote_Voter vote ∈ _)) eqn:E2.
  { rewrite (bool_decide_eq_false_2 (_ ∉ _)), andb_false_r by (apply bool_decide_eq_true in E2; tauto).
    by exists v. }
  destruct (Verify _ _ _) eqn:E3; simpl; [|by exists v].
  apply bool_decide_eq_false in E2. rewrite bool_decide_eq_true_2 by done.
  destruct (tally_merge th _ _ _ _ _ Ht Hu E2 E3) as (a & Hm & Ht'). rewrite Hm.
  eexists. split_and!; [done..|]. split; [|done]. exists header. by split_and!.
Qed.

Lemma collect_votes_sim header v l : collecting header v -> Forall (fun vote => is_u64 vote.(Vote_Voter)) l ->
  exists v', collect_votes v l = Ok (v', snd (spec_run v.(Votes_majority) v.(Votes_votes)
                                               ((fun vote => (vote.(Vote_Voter), valid_vote header vote)) <$> l)))
    /\ v'.(Votes_votes) = fst (spec_run v.(Votes_majority) v.(Votes_votes)
                                ((fun vote => (vote.(Vote_Voter), valid_vote header vote)) <$> l))
    /\ v'.(Votes_majority) = v.(Votes_majority) /\ collecting header v'.
Proof.
  intros Hc Hl. revert v Hc. induction Hl as [|vote l Hu Hl IH]; intros v Hc; [by exists v|].
  destruct (Votes_Collect_sim header v vote Hc Hu) as (v1 & E1 & Es & Em & Hc1).
  destruct (IH v1 Hc1) as (v2 & E2 & Es2 & Em2 & Hc2). exists v2. cbn [collect_votes fmap list_fmap spec_run].
  rewrite E1. cbn [mbind res_bind]. rewrite E2. rewrite Em, Es in *.
  destruct (spec_collect _ _ _ _) as [seen b]. simpl in *. destruct (spec_run _ seen _). by split_and!.
Qed.

(** A certificate over [msg] that the verifier accepts, naming each of the voters
    in [seen] once. *)
Definition quorum_for (msg : bytes) (seen : gset Z) (sig : option AggregatedSignature) : Prop :=
  exists a, sig = Some a /\ NoDup a.(AggregatedSignature_Voters)
    /\ list_to_set a.(AggregatedSignature_Voters) = seen /\ VerifyAggregated msg sig = Ok true.

Lemma tally_quorum msg seen sig : tally th msg seen sig -> 1 <= th <= Z.of_nat (size seen) ->
  quorum_for msg seen sig.
Proof.
  intros Ht Hs. pose proof (tally_verifies th _ _ _ Ht) as Hv. destruct Ht as (a & -> & -> & Hn & Hc).
  exists a. split_and!; [done..|]. apply Hv; lia.
Qed.

(** C19: [Votes], started on a block and fed any sequence of votes, never panics
    and refines the specification: it answers true exactly when a valid vote
    of a new voter brings the count to the majority, the voters it records are
    those with a valid vote for the block, and at a majority its certificate
    names the block and each voter once and is accepted by the verifier. *)
Theorem votes_refine header v l : v.(Votes_votes) = ∅ -> 1 <= th <= v.(Votes_majority) ->
  Forall (fun vote => is_u64 vote.(Vote_Voter)) l ->
  let ballots := (fun vote => (vote.(Vote_Voter), valid_vote header vote)) <$> l in
  exists v' cert, collect_votes (Votes_Start v header) l = Ok (v', snd (spec_run v.(Votes_majority) ∅ ballots))
    /\ v'.(Votes_votes) = list_to_set (fst <$> filter (fun p => snd p = true) ballots)
    /\ v'.(Votes_Cert) = Some cert /\ sbytes cert.(Certificate_Block) = Header_Hash header
    /\ (v.(Votes_majority) <= Z.of_nat (size v'.(Votes_votes)) ->
        quorum_for (Header_Hash header) v'.(Votes_votes) cert.(Certificate_Sig)).
Proof.
  intros He Hth Hl ballots.
  assert (Hc : collecting header (Votes_Start v header)) by (split; [by apply Votes_Start_inv|done]).
  destruct (collect_votes_sim header _ l Hc Hl) as (v' & E & Es & _ & [Hi Hh]). simpl in E, Es.
  rewrite He in E, Es. fold ballots in E, Es. pose proof Hi as Hi'. unfold votes_inv in Hi'.
  destruct (Votes_Cert v') as [cert|] eqn:Ec; [|destruct Hi'; congruence].
  destruct Hi' as (h & Hh' & Hb & Ht). assert (h = header) by congruence. subst h.
  exists v', cert. split_and!; [done| |done|done|].
  - rewrite Es, spec_run_set. set_solver.
  - intros Hs. apply tally_quorum; [done|lia].
Qed.

(** ** Timeouts *)

Definition valid_newview (view : Z) (nv : NewView) : bool :=
  (view =? nv.(NewView_View))
  && Verify nv.(NewView_Voter) (timeout_digest view) (sbytes nv.(NewView_Sig)).

Fixpoint collect_timeouts (t : Timeouts) (l : list NewView) : res (Timeouts * list bool) :=
  match l with
  | [] => Ok (t, [])
  | nv :: l =>
      '(t', b) ← Timeouts_Collect t nv;
      '(t'', bs) ← collect_timeouts t' l;
      mret (t'', b :: bs)
  end.

(** [t] collects new-views for [view]. *)
Definition waiting (view : Z) (t : Timeouts) : Prop :=
  timeouts_inv th t /\ t.(Timeouts_view) = view /\ is_Some t.(Timeouts_Cert).

Lemma Timeouts_Collect_sim view t nv : view <> 0 -> waiting view t -> is_u64 nv.(NewView_Voter) ->
  exists t', Timeouts_Collect t nv = Ok (t', snd (spec_collect t.(Timeouts_majority) t.(Timeouts_received)
                                                    nv.(NewView_Voter) (valid_newview view nv)))
    /\ t'.(Timeouts_received) = fst (spec_collect t.(Timeouts_majority) t.(Timeouts_received)
                                      nv.(NewView_Voter) (valid_newview view nv))
    /\ t'.(Timeouts_majority) = t.(Timeouts_majority) /\ waiting view t'.
Proof.
  intros Hv0 (Hinv & Hv & [c Ec]) Hu. unfold Timeouts_Collect. pose proof Hinv as Hinv'. unfold timeouts_inv in Hinv'.
  rewrite Ec in Hinv' |- *. destruct Hinv' as [Hcv Ht]. subst view.
  rewrite (proj2 (Z.eqb_neq _ _)) by done. unfold spec_collect, valid_newview.
  assert (Hw : waiting (Timeouts_view t) t) by (split_and!; [done..|by rewrite Ec]).
  destruct (Timeouts_view t =? NewView_View nv) eqn:E1; simpl; [|by exists t].
  destruct (bool_decide (NewView_Voter nv ∈ _)) eqn:E2.
  { rewrite (bool_decide_eq_false_2 (_ ∉ _)), andb_false_r by (apply bool_decide_eq_true in E2; tauto).
    by exists t. }
  zbool. rewrite <- E1. destruct (Verify _ _ _) eqn:E3; simpl; [|by exists t].
  apply bool_decide_eq_false in E2. rewrite bool_decide_eq_true_2 by done.
  destruct (tally_merge th _ _ _ _ _ Ht Hu E2 E3) as (a & Hm & Ht'). rewrite Hm.
  eexists. split_and!; [done..|]. split_and!; [|done|done]. by split.
Qed.

Lemma collect_timeouts_sim view t l : view <> 0 -> waiting view t ->
  Forall (fun nv => is_u64 nv.(NewView_Voter)) l ->
  exists t', collect_timeouts t l = Ok (t', snd (spec_run t.(Timeouts_majority) t.(Timeouts_received)
                                                 ((fun nv => (nv.(NewView_Voter), valid_newview view nv)) <$> l)))
    /\ t'.(Timeouts_received) = fst (spec_run t.(Timeouts_majority) t.(Timeouts_received)
                                      ((fun nv => (nv.(NewView_Voter), valid_newview view nv)) <$> l))
    /\ t'.(Timeouts_majority) = t.(Timeouts_majority) /\ waiting view t'.
Proof.
  intros Hv Hc Hl. revert t Hc. induction Hl as [|nv l Hu Hl IH]; intros t Hc; [by exists t|].
  destruct (Timeouts_Collect_sim view t nv Hv Hc Hu) as (t1 & E1 & Es & Em & Hc1).
  destruct (IH t1 Hc1) as (t2 & E2 & Es2 & Em2 & Hc2). exists t2. cbn [collect_timeouts fmap list_fmap spec_run].
  rewrite E1. cbn [mbind res_bind]. rewrite E2. rewrite Em, Es in *.
  destruct (spec_collect _ _ _ _) as [seen b]. simpl in *. destruct (spec_run _ seen _). by split_and!.
Qed.

(** C20: [Timeouts], reset and started on a view other than 0, refines the same
    specification for new-views of that view, and at a majority holds a timeout
    certificate for the view that the verifier accepts. *)
Theorem timeouts_refine view t l : view <> 0 -> 1 <= th <= t.(Timeouts_majority) ->
  Forall (fun nv => is_u64 nv.(NewView_Voter)) l ->
  let ballots := (fun nv => (nv.(NewView_Voter), valid_newview view nv)) <$> l in
  exists t0 t' cert, Timeouts_Start (Timeouts_Reset t) view = Ok t0
    /\ collect_timeouts t0 l = Ok (t', snd (spec_run t.(Timeouts_majority) ∅ ballots))
    /\ t'.(Timeouts_received) = list_to_set (fst <$> filter (fun p => snd p = true) ballots)
    /\ t'.(Timeouts_Cert) = Some cert /\ cert.(TimeoutCertificate_View) = view
    /\ (t.(Timeouts_majority) <= Z.of_nat (size t'.(Timeouts_received)) ->
        quorum_for (timeout_digest view) t'.(Timeouts_received) cert.(TimeoutCertificate_Sig)).
Proof.
  intros Hv Hth Hl ballots.
  set (t0 := mkTimeouts view t.(Timeouts_majority) ∅ (Some (mkTimeoutCertificate view (Some empty_agg)))).
  assert (Hc : waiting view t0) by (split_and!; [split; [done|apply tally_empty]|done|done]).
  destruct (collect_timeouts_sim view t0 l Hv Hc Hl) as (t' & E & Es & _ & (Hi & Hvw & [cert Ec])).
  cbn [t0 Timeouts_majority Timeouts_received] in E, Es. fold ballots in E, Es.
  unfold timeouts_inv in Hi. rewrite Ec, Hvw in Hi. destruct Hi as [Hcv Ht].
  exists t0, t', cert. split_and!; [done|done| |done|done|].
  - rewrite Es, spec_run_set. set_solver.
  - intros Hs. apply tally_quorum; [done|lia].
Qed.
End Collectors.

(** ** Witnesses: three of four replicas, one of them twice, and a forged ballot *)

Definition demo_vote (i : nat) : Vote :=
  mkVote (Some (Header_Hash genesis_header)) 0 (Z.of_nat i) (Some (sign_by i (Header_Hash genesis_header))).
Definition demo_votes : list Vote :=
  [demo_vote 0; demo_vote 0; mkVote (Some (Header_Hash genesis_header)) 0 3 (Some [x01]); demo_vote 1; demo_vote 2].

Lemma votes_refine_witness : exists v' cert,
  collect_votes (Votes_Start (NewVotes 3) genesis_header) demo_votes = Ok (v', [false; false; false; false; true])
  /\ quorum_for (Header_Hash genesis_header) v'.(Votes_votes) cert.(Certificate_Sig).
Proof.
  destruct (votes_refine 3 genesis_header (NewVotes 3) demo_votes) as (v' & cert & E & Es & _ & _ & Hq).
  - reflexivity.
  - simpl; lia.
  - repeat constructor; vm_compute; done.
  - exists v', cert. rewrite E. split.
    + vm_compute. reflexivity.
    + apply Hq. rewrite Es. vm_compute. discriminate.
Defined.

Definition demo_newview (i : nat) : NewView :=
  mkNewView 5 (Z.of_nat i) (Some (sign_by i (timeout_digest 5))) (Some genesis_cert).

Lemma timeouts_refine_witness : exists t' cert,
  collect_timeouts (mkTimeouts 5 3 ∅ (Some (mkTimeoutCertificate 5 (Some empty_agg))))
    [demo_newview 3; demo_newview 1; demo_newview 1; demo_newview 0] = Ok (t', [false; false; false; true])
  /\ quorum_for (timeout_digest 5) t'.(Timeouts_received) cert.(TimeoutCertificate_Sig).
Proof.
  destruct (timeouts_refine 3 5 (NewTimeouts 3) [demo_newview 3; demo_newview 1; demo_newview 1; demo_newview 0])
    as (t0 & t' & cert & E0 & E & Es & _ & _ & Hq).
  - discriminate.
  - simpl; lia.
  - repeat constructor; vm_compute; done.
  - exists t', cert. injection E0 as <-. rewrite E. split.
    + vm_compute. reflexivity.
    + apply Hq. rewrite Es. vm_compute. discriminate.
Defined.
