(* ===== verification/CodecSpec.v ===== *)
(** * The wire format

    Properties of types.pb.go as a whole: what [Marshal] writes is the encoding,
    [Unmarshal] reads it back and ignores fields it does not know, and on
    arbitrary bytes it returns a message or an error. *)

From Stdlib Require Import ZArith Lia.
From S2P Require Import Prelude Wire Types Proto Codec Encoding Crypto Store Quorum Progress Consensus Instances.

(** ** Skipping a field *)

Lemma skip_varint_loop_spec n fuel d pre suf v shift :
  (1 <= n)%nat -> (n <= fuel)%nat -> d = pre ++ varint_fuel n v ++ suf ->
  0 <= v < 2 ^ (7 * Z.of_nat n) -> shift + 7 * Z.of_nat n <= 70 ->
  skip_varint_loop fuel d (len pre) shift = Ok (len pre + len (varint_fuel n v)).
Proof.
  revert fuel pre v shift. induction n as [|n IH]; intros fuel pre v shift Hn Hf Hd Hv Hs; [lia|].
  destruct fuel as [|fuel]; [lia|]. unfold skip_varint_loop; fold skip_varint_loop. rewrite (proj2 (Z.leb_gt 64 shift)) by lia.
  cbn [varint_fuel] in *. destruct (v <? 128) eqn:E; zbool.
  - rewrite (proj2 (Z.leb_gt _ _)) by (subst d; rewrite !len_app, len_cons, len_nil; pose proof (len_nonneg suf); lia).
    subst d. simpl app. rewrite byte_at_app. cbn [mbind res_bind].
    rewrite Z_of_byte_of_Z, Z.mod_small, (proj2 (Z.ltb_lt v 128)) by lia. by rewrite len_cons, len_nil.
  - destruct (varint_fuel_pow n v ltac:(lia)) as [Hn' Hv'].
    set (b := byte_of_Z (Z.lor (Z.land v 127) 128)) in *.
    assert (Hb : 128 <= Z_of_byte b).
    { unfold b. pose proof (Z.mod_pos_bound v 128). rewrite group_byte, Z_of_byte_of_Z, Z.mod_small by lia. lia. }
    assert (Hd2 : d = (pre ++ [b]) ++ varint_fuel n (v / 128) ++ suf) by (by rewrite Hd, shiftr_7, <- app_assoc).
    rewrite (proj2 (Z.leb_gt _ _)).
    2:{ rewrite Hd, !len_app, len_cons. pose proof (len_nonneg suf). pose proof (len_nonneg (varint_fuel n (v ≫ 7))). lia. }
    rewrite Hd at 1. simpl app. rewrite byte_at_app. cbn [mbind res_bind].
    rewrite (proj2 (Z.ltb_ge _ _)) by lia.
    replace (len pre + 1) with (len (pre ++ [b])) by (rewrite len_app; done).
    rewrite (IH fuel (pre ++ [b]) (v / 128)) by (done || lia).
    rewrite len_app, !len_cons, len_nil, shiftr_7. f_equal. lia.
Qed.

Definition wfield_num (f : wfield) : Z := match f with WVarint n _ | WBytes n _ => n end.
Definition wfield_wt (f : wfield) : Z := match f with WVarint _ _ => 0 | WBytes _ _ => 2 end.
(** A field that a writer of a newer format may produce. *)
Definition wfield_ok (f : wfield) : Prop :=
  1 <= wfield_num f < 2 ^ 28 /\ match f with WVarint _ v => is_u64 v | WBytes _ _ => True end.

Lemma tag_u64 f : wfield_ok f -> wfield_tag f = wfield_num f * 8 + wfield_wt f /\ is_u64 (wfield_tag f).
Proof.
  intros [Hn _]. split; [by destruct f; simpl; lia|]. unfold is_u64.
  assert (2 ^ 28 * 8 < two64) by done. destruct f; simpl in *; lia.
Qed.

Lemma tag_wt num wt : 0 <= wt < 8 -> Z.land (num * 8 + wt) 7 = wt.
Proof.
  intros. change 7 with (Z.ones 3). rewrite Z.land_ones by lia. change (2 ^ 3) with 8.
  by rewrite Z.add_comm, Z.mod_add, Z.mod_small by lia.
Qed.
Lemma tag_num num wt : 0 <= wt < 8 -> Z.shiftr (num * 8 + wt) 3 = num.
Proof.
  intros. rewrite Z.shiftr_div_pow2 by lia. change (2 ^ 3) with 8.
  rewrite Z.add_comm, Z.div_add, Z.div_small by lia. lia.
Qed.

(** [skipTypes] moves past exactly one field. *)
Lemma skipTypes_field f rest : wfield_ok f -> len (enc_field f ++ rest) < two63 ->
  skipTypes (enc_field f ++ rest) = Ok (len (enc_field f)).
Proof.
  intros Hf Hl. destruct (tag_u64 f Hf) as [Ht Hu]. unfold skipTypes.
  pose proof (varint_fuel_nonempty 10 (wfield_tag f) ltac:(lia)) as Hne.
  change (varint_fuel 10 (wfield_tag f)) with (varint (wfield_tag f)) in Hne.
  assert (Hlen : 1 <= len (enc_field f ++ rest)).
  { unfold enc_field. rewrite !len_app. pose proof (len_nonneg rest).
    match goal with |- _ <= _ + len ?x + _ => pose proof (len_nonneg x) end. lia. }
  destruct (length (enc_field f ++ rest)) as [|fuel] eqn:El; [unfold len in Hlen; lia|]. cbn [skip_loop].
  rewrite (proj2 (Z.ltb_lt _ _)) by lia.
  assert (Hr : read_uint64 (enc_field f ++ rest) 0 = Ok (wfield_tag f, len (varint (wfield_tag f)))).
  { unfold enc_field. rewrite <- app_assoc. change 0 with (len (@nil byte)).
    by erewrite (read_uint64_spec _ []). }
  rewrite Hr. cbn [mbind res_bind]. rewrite Ht, tag_wt by (destruct f; simpl; lia). rewrite <- Ht.
  destruct f as [num v|num b]; cbn [wfield_wt].
  - destruct Hf as [_ Hv]. rewrite (skip_varint_loop_spec 10 11 _ (varint (wfield_tag (WVarint num v))) rest v);
      [|lia|lia|by unfold enc_field; rewrite <- app_assoc|by apply u64_pow|lia].
    cbn [mbind res_bind mret res_ret]. change (varint_fuel 10 v) with (varint v).
    rewrite (proj2 (Z.ltb_ge _ 0)) by (pose proof (len_nonneg (varint v)); lia).
    unfold enc_field. by rewrite len_app.
  - set (t := varint (wfield_tag (WBytes num b))) in *. unfold read_int.
    assert (Hb : len (enc_field (WBytes num b)) = len t + len (varint (len b)) + len b).
    { unfold enc_field. fold t. rewrite !len_app. lia. }
    rewrite len_app in Hl. pose proof (len_nonneg rest). pose proof (len_nonneg b). pose proof (len_nonneg (varint (len b))).
    rewrite (read_uint64_spec _ t (b ++ rest) (len b)).
    + cbn [mbind res_bind mret res_ret]. rewrite (swrap64_small (len b)) by lia.
      rewrite (proj2 (Z.ltb_ge (len b) 0)) by lia. cbn [mbind res_bind mret res_ret].
      rewrite swrap64_small by lia. rewrite (proj2 (Z.ltb_ge _ 0)) by lia. simpl. f_equal. lia.
    + unfold enc_field. fold t. by rewrite <- !app_assoc.
    + split; [lia|]. apply two63_lt_two64. lia.
Qed.

(** A field outside the message's own numbers leaves the receiver as it is. *)
Lemma step_unknown {Msg} (cases : field_cases Msg) f m : wfield_ok f ->
  (forall d i, cases d (wfield_num f) (wfield_wt f) i m = None) -> step_ok cases f m m.
Proof.
  intros Hf Hc d pre suf Hd Hl. destruct (tag_u64 f Hf) as [Ht Hu]. unfold unmarshal_field.
  assert (Hr : read_uint64 d (len pre) = Ok (wfield_tag f, len pre + len (varint (wfield_tag f)))).
  { subst d. unfold enc_field. rewrite <- !app_assoc. by erewrite read_uint64_spec. }
  rewrite Hr. cbn [mbind res_bind].
  assert (Hw : 0 <= wfield_wt f < 8) by (destruct f; simpl; lia).
  rewrite Ht, tag_num, tag_wt by done.
  assert (Hs : swrap32 (wfield_num f) = wfield_num f).
  { destruct Hf as [Hn _]. assert (2 ^ 28 < 2 ^ 31 < 2 ^ 32) by done. unfold swrap32.
    rewrite Z.mod_small by lia. by rewrite (proj2 (Z.ltb_lt _ _)) by lia. }
  rewrite Hs, (proj2 (Z.eqb_neq _ 4)), (proj2 (Z.leb_gt _ 0)), Hc by (destruct f, Hf; simpl in *; lia).
  assert (Hrest : slice_range d (len pre) (len d) = Ok (enc_field f ++ suf)).
  { subst d. rewrite <- (app_nil_r (enc_field f ++ suf)) at 1.
    replace (len (pre ++ enc_field f ++ suf)) with (len (pre ++ (enc_field f ++ suf))) by done. apply slice_range_app. }
  assert (Hlen : len d = len pre + len (enc_field f ++ suf)) by (subst d; apply len_app).
  pose proof (len_nonneg pre). pose proof (len_nonneg suf). pose proof (len_nonneg (enc_field f)).
  rewrite len_app in Hlen. rewrite Hrest. cbn [mbind res_bind].
  rewrite skipTypes_field by (done || (rewrite len_app; lia)). cbn [mbind res_bind].
  rewrite swrap64_small by lia.
  by rewrite (proj2 (Z.ltb_ge _ 0)), (proj2 (Z.ltb_ge (len pre + _) 0)), (proj2 (Z.ltb_ge (len d) _)) by lia.
Qed.

Lemma steps_unknown {Msg} (cases : field_cases Msg) fs m : Forall wfield_ok fs ->
  Forall (fun f => forall d i, cases d (wfield_num f) (wfield_wt f) i m = None) fs -> steps cases fs m m.
Proof.
  induction 1 as [|f fs Hf Hfs IH]; [constructor|]. intros Hc. inversion_clear Hc as [|? ? Hc1 Hcs].
  econstructor; [by apply step_unknown|by apply IH].
Qed.

(** ** Theorems *)

(** C23: a network message, marshalled and unmarshalled, is the same message, up to
    the nil and the empty byte string, which the format does not distinguish. *)
Theorem Message_roundtrip (m : Message) : good m -> Marshal m ≫= decode = Ok (canon m).
Proof. apply roundtrip. Qed.

(** C24: [Marshal] allocates exactly [Size] bytes and fills them with the encoding. *)
Theorem Message_Marshal_exact (m : Message) : good m ->
  Marshal m = Ok (encoding m) /\ Message_Size m = len (encoding m).
Proof. intros Hg. split; [by apply marshal_encoding|]. destruct Hg as [Hw Hf]. exact (law_size m Hw Hf). Qed.

(** C25: whatever bytes arrive from the network (of a length an int can hold),
    [Unmarshal] of a message or of a sync request returns a well-formed value or
    an error: no panic, no endless loop. *)
Theorem Unmarshal_total (b : bytes) : len b < two63 ->
  safe Message_wf (decode b : res Message) /\ safe SyncRequest_wf (decode b : res SyncRequest).
Proof. intros Hb. split; [exact (decode_safe (A := Message) b Hb)|exact (decode_safe (A := SyncRequest) b Hb)]. Qed.

(** Two messages with the same bytes are the same message. *)
Theorem Message_Marshal_injective (m1 m2 : Message) : good m1 -> good m2 ->
  Marshal m1 = Marshal m2 -> canon m1 = canon m2.
Proof.
  intros H1 H2. rewrite !marshal_encoding by done. intros [= E]. by apply encoding_inj.
Qed.

(** Fields a replica does not know, before or after those it knows, do not
    change the message it reads. *)
Theorem Message_unknown_fields (m : Message) before after : good m ->
  Forall (fun f => 4 < wfield_num f /\ wfield_ok f) (before ++ after) ->
  len (enc_fields (before ++ fields m ++ after)) < two63 ->
  decode (enc_fields (before ++ fields m ++ after)) = Ok (canon m).
Proof.
  intros [Hw Hf] Hu Hl. apply Forall_app in Hu as [Hb Ha].
  assert (Hst : forall fs (m' : Message), Forall (fun f => 4 < wfield_num f /\ wfield_ok f) fs ->
    steps Message_cases fs m' m').
  { intros fs m' Hfs. apply steps_unknown; (eapply Forall_impl; [|exact Hfs]); simpl; [tauto|].
    intros f [Hn _] d i. unfold Message_cases. repeat (case_match; try done); lia. }
  change (nested (unmarshal Message_cases (mkMessage None) (enc_fields (before ++ fields m ++ after))) = Ok (canon m)).
  rewrite (unmarshal_steps _ (before ++ fields m ++ after) (mkMessage None) (canon m)); [done| |done].
  eapply steps_app; [by apply Hst|]. eapply steps_app; [by apply Message_steps|by apply Hst].
Qed.

(** ** Witnesses *)

Definition demo_proposal (root : slice) : Message :=
  NewProposalMsg (mkProposal (Some (mkHeader 7 (Some [x2a]) 5 root None))
    (Some (mkData [mkTransaction (Some [x09]) 1 None (Some [x0a])])) (Some [x01; x02])
    (Some (mkCertificate (Some [x2a]) (Some (mkAggregatedSignature [0; 2; 300] (Some [x07]))))) None).
Definition demo_message : Message := demo_proposal None.

Lemma demo_proposal_good root : root = None \/ root = Some [] -> good (demo_proposal root).
Proof.
  intros Hr. split; [|by destruct Hr as [-> | ->]; vm_compute]. intros t [= <-].
  split_and!; intros ? [= <-]; try (intros ? [= <-]); repeat constructor; vm_compute; done.
Qed.
Lemma demo_message_good : good demo_message.
Proof. apply demo_proposal_good. by left. Qed.

Lemma Message_roundtrip_witness : Marshal demo_message ≫= decode = Ok (canon demo_message).
Proof. apply (Message_roundtrip demo_message). apply demo_message_good. Defined.

Lemma Message_Marshal_exact_witness : Message_Size demo_message = len (encoding demo_message).
Proof. apply (Message_Marshal_exact demo_message). apply demo_message_good. Defined.

Lemma Unmarshal_total_witness : safe Message_wf (decode [x0a; xff; x80] : res Message).
Proof. apply (Unmarshal_total [x0a; xff; x80]). vm_compute. done. Defined.

Lemma Message_Marshal_injective_witness : canon demo_message = canon (demo_proposal (Some [])).
Proof.
  apply (Message_Marshal_injective demo_message (demo_proposal (Some []))).
  - apply demo_message_good.
  - apply demo_proposal_good. by right.
  - vm_compute. reflexivity.
Defined.

Lemma Message_unknown_fields_witness :
  decode (enc_fields ([WVarint 9 300] ++ fields demo_message ++ [WBytes 77 [x05]])) = Ok (canon demo_message).
Proof.
  apply (Message_unknown_fields demo_message [WVarint 9 300] [WBytes 77 [x05]]).
  - apply demo_message_good.
  - repeat constructor; vm_compute; done.
  - vm_compute. done.
Defined.
