(* ===== verification/StoreSpec.v ===== *)
(** * The block store

    Blocks saved are read back, saving one disturbs nothing else, and the chain
    iterator walks the parents of the decided block to the oldest block that is
    stored. *)

From Stdlib Require Import ZArith Lia.
From S2P Require Import Prelude Wire Types Proto Codec Encoding Crypto Store Quorum Progress Consensus Instances.

Section StoreSpec.
Context {DB : Type} `{KVStore DB} `{!KVLaws DB} `{Hasher}.
Implicit Types db : DB.

(** The three entries of a block. *)
Definition block_entry (hash : bytes) (k : skey) : Prop := k = KHeader hash \/ k = KCert hash \/ k = KData hash.

Lemma SaveBlock_entries db b h c d db' :
  b.(Block_Header) = Some h -> b.(Block_Cert) = Some c -> b.(Block_Data) = Some d ->
  good h -> good c -> good d -> SaveBlock db b = (db', Ok tt) ->
  forall k, entry db' k =
    if decide (k = KData (Header_Hash h)) then Some (encoding d) else
    if decide (k = KCert (sbytes c.(Certificate_Block))) then Some (encoding c) else
    if decide (k = KHeader (Header_Hash h)) then Some (encoding h) else entry db k.
Proof.
  intros Eh Ec Ed Hh Hc Hd. unfold SaveBlock.
  intros (db1 & S1 & (db2 & S2 & (db3 & S3 & E)%run_writes_cons)%run_writes_cons)%run_writes_cons k.
  injection E as <-. rewrite Eh in S1, S3. rewrite Ec in S2. rewrite Ed in S3. cbn [deref mbind res_bind] in *.
  apply SaveHeader_entry in S1 as (b1 & M1 & W1). apply SaveCertificate_entry in S2 as (b2 & M2 & W2).
  apply SaveData_entry in S3 as (d' & b3 & [= <-] & M3 & W3).
  rewrite marshal_encoding in M1 by done. rewrite marshal_encoding in M2 by done.
  rewrite marshal_encoding in M3 by done. simplify_eq.
  rewrite W3, W2, W1. repeat (case_decide; simplify_eq); done.
Qed.

(** C26: a block saved with its certificate is read back under the hash of its
    header, the header's hash is the same after the round trip, and no other
    entry of the database changes. *)
Theorem SaveBlock_GetBlock db b h c d db' :
  b.(Block_Header) = Some h -> b.(Block_Cert) = Some c -> b.(Block_Data) = Some d ->
  good h -> good c -> good d -> sbytes c.(Certificate_Block) = Header_Hash h ->
  SaveBlock db b = (db', Ok tt) ->
  GetBlock db' (Header_Hash h) = Ok (canon b) /\ Header_Hash (canon h) = Header_Hash h
  /\ forall k, ~ block_entry (Header_Hash h) k -> entry db' k = entry db k.
Proof.
  intros Eh Ec Ed Hh Hc Hd Hb Hs. pose proof (SaveBlock_entries _ _ _ _ _ _ Eh Ec Ed Hh Hc Hd Hs) as He.
  rewrite Hb in He. split_and!.
  - unfold GetBlock. rewrite GetHeader_entry, GetCertificate_entry, GetData_entry, !He.
    repeat (case_decide; simplify_eq). rewrite decode_encoding by done. cbn [mbind res_bind].
    rewrite decode_encoding by done. cbn [mbind res_bind]. rewrite decode_encoding by done.
    destruct b; simpl in *; by subst.
  - by apply Header_Hash_canon.
  - intros k Hk. rewrite He. unfold block_entry in Hk. repeat (case_decide; simplify_eq); naive_solver.
Qed.

(** ** The chain iterator *)

(** The stored headers from [hash] on, following the parents. *)
Inductive ancestry db : bytes -> list Header -> Prop :=
| ancestry_end hash e : GetHeader db hash = Err e -> ancestry db hash []
| ancestry_step hash h hs : GetHeader db hash = Ok h ->
    ancestry db (sbytes h.(Header_Parent)) hs -> ancestry db hash (h :: hs).

Lemma walk_ancestry db h hs ci n : ancestry db (sbytes h.(Header_Parent)) hs ->
  ci.(ci_store) = db -> ci.(ci_header) = Some h -> (length hs < n)%nat -> walk n ci = Ok hs.
Proof.
  intros Ha. remember (sbytes h.(Header_Parent)) as hash eqn:Eh. revert h Eh ci n.
  induction Ha as [hash e He|hash h' hs Hh' Ha IH]; intros h -> ci n Hdb Hci Hn; (destruct n as [|n]; [simpl in Hn; lia|]);
    cbn [walk]; unfold Next; rewrite Hci, Hdb.
  - by rewrite He.
  - rewrite Hh'. cbn [mbind res_bind ci_header Valid ci_err]. simpl in Hn.
    rewrite (IH h' eq_refl (mkChainIterator db None (Some h') None None) n) by (done || lia). done.
Qed.

(** C27: the loop [for it.Next(); it.Valid(); it.Next()] over a new iterator visits
    the decided block and its stored ancestors in order, and stops. *)
Theorem iterator_walks db hash hs n : GetTag db DecideTag = Ok hash -> ancestry db hash hs ->
  hs <> [] -> (length hs < n)%nat -> walk n (NewChainIterator db) = Ok hs.
Proof.
  intros Ht Ha Hne Hn. destruct Ha as [|hash h hs Hh Ha]; [done|]. destruct n as [|n]; [simpl in Hn; lia|].
  cbn [walk]. unfold Next. cbn [NewChainIterator ci_header ci_store]. unfold GetTagHeader. rewrite Ht.
  cbn [mbind res_bind]. rewrite Hh. cbn [mbind res_bind ci_header Valid ci_err].
  rewrite (walk_ancestry db h hs) by (done || (simpl in Hn; lia)). done.
Qed.
End StoreSpec.

(** ** Witnesses: two blocks on top of the genesis database *)

Definition block_on (parent : Header) (view : Z) : Block :=
  let h := mkHeader view (Some (Header_Hash parent)) parent.(Header_View) (Some [x07]) None in
  mkBlock (Some h) (Some (mkData [])) (Some (mkCertificate (Some (Header_Hash h)) (Some (mkAggregatedSignature [1] (Some [x01]))))).
Definition block1 : Block := block_on genesis_header 1.

Lemma SaveBlock_GetBlock_witness : exists db' h,
  SaveBlock (∅ : mem_db) block1 = (db', Ok tt) /\ GetBlock db' (Header_Hash h) = Ok (canon block1).
Proof.
  set (h := mkHeader 1 (Some (Header_Hash genesis_header)) 0 (Some [x07]) None).
  assert (Er : snd (SaveBlock (∅ : mem_db) block1) = Ok tt) by (vm_compute; reflexivity).
  destruct (SaveBlock (∅ : mem_db) block1) as [db' r] eqn:E. cbn [snd] in Er. subst r.
  exists db', h. split; [reflexivity|].
  eapply (SaveBlock_GetBlock (∅ : mem_db) block1 h); [reflexivity..| | | |vm_compute; reflexivity|exact E].
  - split; [split; split; vm_compute; [discriminate|reflexivity|discriminate|reflexivity]|vm_compute; reflexivity].
  - split; [intros a [= <-]; repeat constructor; vm_compute; done|vm_compute; done].
  - split; [constructor|vm_compute; done].
Defined.

(** The genesis database decides the genesis block, whose parent is not stored. *)
Lemma iterator_walks_witness : walk 5 (NewChainIterator demo_store) = Ok [genesis_header].
Proof.
  apply (iterator_walks demo_store (Header_Hash genesis_header) [genesis_header] 5).
  - vm_compute. reflexivity.
  - eapply ancestry_step; [vm_compute; reflexivity|]. apply (ancestry_end _ _ ErrDB). vm_compute. reflexivity.
  - discriminate.
  - simpl. lia.
Defined.
