(* ===== verification/CryptoSpec.v ===== *)
(** * Signer and verifier together

    Signatures made by [BLS12381Signer] are accepted by [BLS12381Verifier],
    alone and merged; and the verifier counts the voters of an aggregate without
    looking for repetitions. *)

From Stdlib Require Import ZArith Lia.
From S2P Require Import Prelude Wire Types Proto Codec Encoding Crypto Store Quorum Progress Consensus Instances.

Section CryptoSpec.
Context `{BLS} `{!BLSLaws}.

(** The verifier knows the public keys of the signers [sks]. *)
Definition knows (v : BLS12381Verifier) (sks : list SecretKey) : Prop :=
  v.(pubkeys) = PublicKeyFromSecretKey <$> sks.

(** The replicas of [who] sign [msg] with their keys [sks] and the signatures are
    merged in turn, the loop of [createExampleNode]. *)
Fixpoint sign_merge (v : BLS12381Verifier) (sks : list SecretKey) (msg : bytes)
    (a : option AggregatedSignature) (who : list Z) : res (option AggregatedSignature) :=
  match who with
  | [] => Ok a
  | i :: who =>
      sk ← index sks (Z.to_nat i);
      sig ← BLS12381Signer_Sign sk [] msg;
      a' ← BLS12381Verifier_Merge v a i (Some sig);
      sign_merge v sks msg a' who
  end.

Lemma sign_verifies v sks sk i msg : knows v sks -> 0 <= i -> sks !! Z.to_nat i = Some sk ->
  len msg = 32 ->
  exists sig, BLS12381Signer_Sign sk [] msg = Ok sig /\ BLS12381Verifier_Verify v i msg sig = true.
Proof.
  intros Hk Hi Hsk Hm. unfold BLS12381Signer_Sign. rewrite Hm. simpl. eexists. split; [done|].
  unfold BLS12381Verifier_Verify. unfold knows in Hk. rewrite !Hk. pose proof (lookup_lt_Some _ _ _ Hsk) as Hlt.
  rewrite (proj2 (Z.leb_gt _ _)) by (unfold len; rewrite length_fmap; lia).
  rewrite list_lookup_fmap, Hsk. simpl. rewrite compressed_roundtrip. apply verify_sign.
Qed.

Lemma sign_merge_collects v sks msg a who : knows v sks -> len msg = 32 ->
  bls_collected v msg a -> NoDup (a.(AggregatedSignature_Voters) ++ who) ->
  Forall (fun i => 0 <= i < len sks) who ->
  exists a', sign_merge v sks msg (Some a) who = Ok (Some a')
    /\ a'.(AggregatedSignature_Voters) = a.(AggregatedSignature_Voters) ++ who /\ bls_collected v msg a'.
Proof.
  intros Hk Hm Hc Hnd Hw. revert a Hc Hnd. induction Hw as [|i who Hi Hw IH]; intros a Hc Hnd; simpl.
  - exists a. by rewrite app_nil_r.
  - destruct (lookup_lt_is_Some_2 sks (Z.to_nat i)) as [sk Hsk]; [unfold len in Hi; lia|].
    destruct (sign_verifies v sks sk i msg Hk ltac:(lia) Hsk Hm) as (sig & Hsig & Hv).
    unfold index at 1. rewrite Hsk. cbn [mbind res_bind]. rewrite Hsig. cbn [mbind res_bind].
    destruct (bls_collected_merge v msg a i (Some sig) Hc Hv) as (a1 & Hm1 & Hv1 & Hc1).
    { apply list.NoDup_app in Hnd. set_solver. }
    rewrite Hm1. cbn [mbind res_bind].
    destruct (IH a1 Hc1) as (a' & E & Hv' & Hc'); [by rewrite Hv1, <- app_assoc|].
    exists a'. split_and!; [done|by rewrite Hv', Hv1, <- app_assoc|done].
Qed.

Lemma collected_verifies v msg a : bls_collected v msg a -> a.(AggregatedSignature_Voters) <> [] ->
  BLS12381Verifier_VerifyAggregated v msg (Some a) = Ok (v.(threshold) <=? len a.(AggregatedSignature_Voters)).
Proof.
  intros [[Hv _]|(b & s & keys & Hb & Hs & Hks & Hok)] Hne; [done|].
  unfold BLS12381Verifier_VerifyAggregated. cbn [deref mbind res_bind]. rewrite Hks, Hb. simpl.
  rewrite Hs, Hok. f_equal. case_match eqn:E1; destruct (threshold v <=? _) eqn:E2; zbool; done || lia.
Qed.

(** C28: the signatures of any different replicas over a 32-byte digest, merged one
    by one, form an aggregate that names exactly them and that the verifier
    accepts exactly when they reach the threshold. *)
Theorem honest_aggregate v sks msg who : knows v sks -> len msg = 32 -> NoDup who -> who <> [] ->
  Forall (fun i => 0 <= i < len sks) who ->
  exists a, sign_merge v sks msg (Some empty_agg) who = Ok (Some a)
    /\ a.(AggregatedSignature_Voters) = who
    /\ BLS12381Verifier_VerifyAggregated v msg (Some a) = Ok (v.(threshold) <=? len who).
Proof.
  intros Hk Hm Hnd Hne Hw.
  destruct (sign_merge_collects v sks msg empty_agg who Hk Hm) as (a & E & Hv & Hc); [by left|done|done|].
  exists a. split_and!; [done|exact Hv|]. rewrite collected_verifies, Hv by (done || by rewrite Hv). done.
Qed.

(** An aggregate of as many votes as the threshold asks for, in the name of [i] and
    made with the key [sk] alone. *)
Definition alone (v : BLS12381Verifier) (sk : SecretKey) (i : Z) (msg : bytes) : AggregatedSignature :=
  let n := Z.to_nat (v.(threshold) - 1) in
  mkAggregatedSignature (replicate (S n) i) (Some (SignatureToCompressed (agg_pow (blssig_Sign (to32 msg) domain sk) n))).

Lemma alone_accepted v sks sk i msg : knows v sks -> 0 <= i -> sks !! Z.to_nat i = Some sk ->
  BLS12381Verifier_VerifyAggregated v msg (Some (alone v sk i msg)) = Ok true.
Proof.
  intros Hk Hi Hsk. unfold knows in Hk. unfold BLS12381Verifier_VerifyAggregated, alone. cbn [deref mbind res_bind mret res_ret].
  cbn [AggregatedSignature_Voters AggregatedSignature_Sig].
  rewrite (proj2 (Z.ltb_ge _ _)) by (unfold len; rewrite length_replicate; lia).
  pose proof (lookup_lt_Some _ _ _ Hsk) as Hlt.
  rewrite (voter_keys_replicate v i (PublicKeyFromSecretKey sk)).
  - unfold sbytes, default, from_option, id. rewrite compressed_roundtrip. f_equal. apply agg_pow_verifies, verify_sign.
  - rewrite Hk. unfold len. rewrite length_fmap. lia.
  - rewrite Hk, list_lookup_fmap, Hsk. done.
Qed.

(** C32: [VerifyAggregated] does not reject repeated voters: the holder of a single
    key can make, for any digest, an aggregate of as many votes as the threshold
    asks for, all in its own name, and the verifier accepts it. *)
Theorem one_key_makes_a_quorum v sks sk i msg : knows v sks -> 0 <= i -> sks !! Z.to_nat i = Some sk ->
  let n := Z.to_nat (v.(threshold) - 1) in
  BLS12381Verifier_VerifyAggregated v msg
    (Some (mkAggregatedSignature (replicate (S n) i)
             (Some (SignatureToCompressed (agg_pow (blssig_Sign (to32 msg) domain sk) n))))) = Ok true.
Proof. intros. by eapply alone_accepted. Qed.
End CryptoSpec.

(** ** Witnesses *)

Definition demo_keys : list nat := [0; 1; 2; 3]%nat.
Definition demo_digest : bytes := poly_hash [x01].

Lemma honest_aggregate_witness : exists a,
  sign_merge demo_verifier demo_keys demo_digest (Some empty_agg) [3; 0; 2] = Ok (Some a)
  /\ BLS12381Verifier_VerifyAggregated demo_verifier demo_digest (Some a) = Ok true.
Proof.
  destruct (honest_aggregate demo_verifier demo_keys demo_digest [3; 0; 2]) as (a & E & _ & Hv).
  - reflexivity.
  - vm_compute. reflexivity.
  - repeat constructor; set_solver.
  - discriminate.
  - repeat constructor; vm_compute; done.
  - exists a. split; [exact E|exact Hv].
Defined.

Lemma one_key_makes_a_quorum_witness :
  BLS12381Verifier_VerifyAggregated demo_verifier demo_digest
    (Some (mkAggregatedSignature [2; 2; 2]
       (Some (SignatureToCompressed (agg_pow (blssig_Sign (to32 demo_digest) domain 2%nat) 2))))) = Ok true.
Proof.
  apply (one_key_makes_a_quorum demo_verifier demo_keys 2%nat 2 demo_digest); [reflexivity|lia|reflexivity].
Defined.
