(* ===== verification/Safety.v ===== *)
(** * What a replica guarantees over its whole life

    Consequences of [keeps_handle] and [wstep_inv]: the properties of a replica
    stated on its messages, its finalized blocks and its disk, each applied to
    the concrete replica of Instances.v. *)

From Stdlib Require Import ZArith Lia.
From Stdlib Require Sorted.
From stdpp Require Import relations.
From S2P Require Import Prelude Wire Types Proto Codec Encoding Crypto Store Quorum Progress Consensus.
From S2P Require Import ConsensusFacts Handlers Replica Voting Instances.

(** ** The concrete replica satisfies the invariant *)

Lemma genesis_header_good : good genesis_header.
Proof. split; by vm_compute. Qed.
Lemma genesis_cert_good : good genesis_cert.
Proof. split; [|by vm_compute]. intros a E. vm_compute in E. injection E as <-. repeat constructor; by vm_compute. Qed.

Lemma demo_import : ImportGenesis (∅ : mem_db) genesis = (demo_store, Ok tt).
Proof.
  assert (E : snd (ImportGenesis (∅ : mem_db) genesis) = Ok tt) by by vm_compute.
  unfold demo_store. rewrite <- E. apply surjective_pairing.
Qed.

Lemma demo_disk : disk_ok demo_store 1 0 genesis_header genesis_header genesis_header
  /\ GetCertificate demo_store (Header_Hash genesis_header) = Ok (canon genesis_cert).
Proof.
  destruct (ImportGenesis_disk (∅ : mem_db) demo_store genesis genesis_header genesis_cert) as (D & C & _);
    [done..|apply genesis_header_good|apply genesis_cert_good|done|apply demo_import|]. by split.
Qed.

Lemma demo_inv i : 0 <= i < 4 -> Inv 3 (demo i) /\ (demo i).(c_Progress) = empty_progress.
Proof.
  intros Hi. destruct demo_disk as [D C].
  destruct (newConsensus_recovers 3 _ i demo_replicas _ _ _ _ _ _ D C) as (c & E & R & _ & _ & _ & HI).
  assert (Ed : demo i = c) by (unfold demo, demo_replica; by rewrite E). rewrite Ed. split; [|apply R].
  apply HI; clear - Hi; [|by vm_compute]. split; [lia|]. assert (4 < two64) by done. lia.
Qed.

#[local] Instance signer1 : Signer := demo_signer 1.

(** A life of replica 1: it proposes and votes in view 1, is killed, starts
    again, and times out until it sends a new-view. *)
Definition demo_life : list action :=
  [AInput IStart; AInput (ISend None (Some [x01]) (Some (mkData []))); AHandover; AKill; AInput IStart]
  ++ replicate 6 (AInput ITick) ++ [AHandover].

Lemma demo_life_ok : Forall action_ok demo_life.
Proof. repeat constructor. Qed.

Definition demo_world : option (world mem_db) := acts (mkWorld (demo 1) [] []) demo_life.

(** ** Theorems *)

Section Theorems.
Context {DB : Type} `{KVStore DB} `{!KVLaws DB} `{Hasher} `{!HasherLaws} `{Signer} `{Verifier}
        (th : Z) `{!VerifierLaws th}.
Implicit Types c : consensus DB.

(** C3: over the whole life of a replica (any inputs, crashes inside handlers
    and restarts included) the views of the votes and new-views it emits
    strictly increase, start above its last vote and never exceed the vote
    recorded on disk: it never votes twice in a view. *)
Theorem ballots_increase c w : Inv th c -> c.(c_Progress) = empty_progress ->
  rtc wstep (mkWorld c [] []) w ->
  Sorted.StronglySorted Z.lt (ballots (w_messages w))
  /\ Forall (fun v => c.(c_voted) < v <= disk_voted w.(w_c).(c_store)) (ballots (w_messages w)).
Proof.
  intros HI HP Hw. pose proof (worlds_inv th _ _ _ _ _ (WInv_start th c HI HP) Hw) as HW.
  apply chain_sorted, HW.
Qed.

(** C4: every ballot it ever emits was emitted by a handler of the run, between two
    states of the run, and is in its own name and signed by it; a vote is for a
    block signed by the leader of the block's view, on a certified parent that the
    replica has, which is the block that it has locked when the handler is done or
    the block that it has prepared once the parent has had its turn, or is above its
    lock. *)
Theorem ballots_valid c w m : rtc wstep (mkWorld c [] []) w -> c.(c_Progress) = empty_progress ->
  m ∈ w_messages w -> exists w1 i c2,
    rtc wstep (mkWorld c [] []) w1 /\ input_ok i /\ handle i w1.(w_c) = (c2, inl tt)
    /\ rtc wstep (mkWorld c2 w1.(w_sent) w1.(w_events)) w
    /\ m ∈ drop (length w1.(w_c).(c_Progress).(Messages)) c2.(c_Progress).(Messages)
    /\ ballot_ok w1.(w_c) c2 m.
Proof.
  intros Hs HP. revert m. revert w Hs. refine (rtc_ind_r _ _ _ _); [intros m Hm|intros w1 w2 Hs12 Hst IH m Hm].
  - unfold w_messages in Hm. simpl in Hm. rewrite HP in Hm. by apply elem_of_nil in Hm.
  - assert (Hold : m ∈ w_messages w1 -> exists w0 i c2, rtc wstep (mkWorld c [] []) w0 /\ input_ok i
        /\ handle i w0.(w_c) = (c2, inl tt) /\ rtc wstep (mkWorld c2 w0.(w_sent) w0.(w_events)) w2
        /\ m ∈ drop (length w0.(w_c).(c_Progress).(Messages)) c2.(c_Progress).(Messages) /\ ballot_ok w0.(w_c) c2 m).
    { intros (w0 & i & c2 & ? & ? & ? & ? & ? & ?)%IH. exists w0, i, c2. split_and!; try done. by eapply rtc_r. }
    pose proof Hst as Hst'. destruct Hst' as [c1 c' sent events i Hi Hh|c1 sent events|c1 c' sent events Hn|c1 c2 c' sent events i k Hi Hh Hn];
      unfold w_messages in Hm, Hold; simpl in Hm, Hold.
    + pose proof (casts_handle i c1) as Hk. unfold wp in Hk. rewrite Hh in Hk. destruct Hk as (new & Em & Hb).
      rewrite Em, app_assoc in Hm. apply elem_of_app in Hm as [Hm|Hm]; [auto|].
      exists (mkWorld c1 sent events), i, c'. simpl. rewrite Em, drop_app_length. split_and!; try done.
      rewrite list.Forall_forall in Hb. by apply Hb.
    + rewrite app_nil_r in Hm. auto.
    + apply Hold, elem_of_app. left. by rewrite (newConsensus_progress _ _ _ _ Hn), app_nil_r in Hm.
    + apply Hold, elem_of_app. left. by rewrite (newConsensus_progress _ _ _ _ Hn), app_nil_r in Hm.
Qed.

(** C5: every block it ever reports as finalized has a child and a grandchild in
    the two next views, linked by hash, and the grandchild is certified. *)
Theorem finalized_three_chain c w : Inv th c -> c.(c_Progress) = empty_progress ->
  rtc wstep (mkWorld c [] []) w -> Forall final_ok (w_blocks w).
Proof.
  intros HI HP Hw. apply (worlds_inv th _ _ _ _ _ (WInv_start th c HI HP) Hw).
Qed.

(** Every message it ever emits, to others or to itself, is one that a replica may
    be given: its integers have their width and its headers have an encoding.
    What is assumed of the messages that arrive is what holds of those sent. *)
Theorem messages_well_formed c w : Inv th c -> c.(c_Progress) = empty_progress ->
  rtc wstep (mkWorld c [] []) w -> Forall (fun m => input_ok (IStep m.(MsgTo_Message))) (w_messages w).
Proof.
  intros HI HP Hw. apply (worlds_inv th _ _ _ _ _ (WInv_start th c HI HP) Hw).
Qed.

(** C7: no input lowers the prepared or the locked view, and the blocks it
    finalizes have strictly increasing views, the last one being committed. *)
Theorem handle_monotone c i : Inv th c -> input_ok i ->
  let c' := fst (handle i c) in
  c.(c_prepare).(Header_View) <= c'.(c_prepare).(Header_View)
  /\ c.(c_locked).(Header_View) <= c'.(c_locked).(Header_View)
  /\ exists new, c'.(c_Progress).(Events) = c.(c_Progress).(Events) ++ new
     /\ chain c.(c_commit).(Header_View) (finals new) c'.(c_commit).(Header_View).
Proof.
  intros HI Hi c'. pose proof (keeps_handle th i Hi c HI) as Hk. unfold wp in Hk.
  assert (HR : evolves c c') by (unfold c'; destruct (handle i c) as [s [a|k]]; simpl; [by destruct Hk|done]).
  destruct HR as [_ _ _ Hp Hl _ (new & He & Hc & _)]. split_and!; [done..|by exists new].
Qed.

(** C8: after any input the disk of the replica can be loaded: its view, last
    vote and prepared, locked and committed blocks are on disk as in memory
    when the handler returns, and a complete state is on disk when it kills
    the process. *)
Theorem handle_durable c i : Inv th c -> input_ok i ->
  match handle i c with
  | (c', inl _) => disk_ok c'.(c_store) c'.(c_view) c'.(c_voted) c'.(c_prepare) c'.(c_locked) c'.(c_commit)
  | (c', inr _) => on_disk c'.(c_store)
  end.
Proof.
  intros HI Hi. pose proof (keeps_handle th i Hi c HI) as Hk. unfold wp in Hk.
  destruct (handle i c) as [c' [a|k]].
  - destruct Hk as [_ [HI' _]]. apply HI'.
  - apply (ev_disk _ _ Hk), (Inv0_on_disk th), HI.
Qed.

(** C9: a restart from the disk of a running replica gives back its view, its
    last vote and its three blocks, and a replica that satisfies the invariant,
    provided that the certificate of the prepared block was saved. *)
Theorem restart_recovers c cert : Inv th c ->
  GetCertificate c.(c_store) (Header_Hash c.(c_prepare)) = Ok cert ->
  exists c', newConsensus c.(c_store) c.(c_id) c.(c_replicas) = Ok c'
    /\ recovered c.(c_store) c.(c_view) c.(c_voted) c.(c_prepare) c.(c_locked) c.(c_commit) c'
    /\ c'.(c_prepareCert) = cert /\ Inv th c'.
Proof.
  intros [HI Hs] Hc.
  destruct (newConsensus_recovers th _ c.(c_id) c.(c_replicas) _ _ _ _ _ _ (inv_disk _ _ HI) Hc)
    as (c' & E & R & Ec & _ & _ & HI'). exists c'. split_and!; [done..|]. apply HI'; apply HI.
Qed.

(** C10: importing a genesis block whose certificate names it, into a database
    without headers, makes the first start succeed: the replica starts in the
    view after genesis, with genesis prepared, locked and committed. *)
Theorem genesis_starts db db' genesis header cert id replicas :
  genesis.(Block_Header) = Some header -> genesis.(Block_Cert) = Some cert ->
  good header -> good cert -> sbytes cert.(Certificate_Block) = Header_Hash header ->
  (forall k, entry db (KHeader k) = None) ->
  ImportGenesis db genesis = (db', Ok tt) ->
  is_u64 id -> 1 <= th <= quorum_size (len replicas) ->
  exists c, newConsensus db' id replicas = Ok c
    /\ recovered db' (wrap64 (header.(Header_View) + 1)) header.(Header_View) header header header c
    /\ c.(c_prepareCert) = canon cert /\ Inv th c.
Proof.
  intros Eh Ec Hg Hgc Hb Hno Him Hid Hth.
  destruct (ImportGenesis_disk db db' genesis header cert) as (D & C & _); try done. rewrite Hb in C.
  destruct (newConsensus_recovers th _ id replicas _ _ _ _ _ _ D C) as (c & E & R & Ecert & _ & _ & HI).
  exists c. split_and!; auto.
Qed.
End Theorems.

(** ** Witnesses *)

Lemma demo_path w : demo_world = Some w -> rtc wstep (mkWorld (demo 1) [] []) w.
Proof. apply acts_rtc, demo_life_ok. Qed.

Lemma demo_world_some : exists w : world mem_db, demo_world = Some w /\ ballots (w_messages w) = [1; 2].
Proof.
  assert (E : (ballots ∘ w_messages) <$> demo_world = Some [1; 2]) by by vm_compute.
  destruct demo_world as [w|]; [|done]. injection E as E. by exists w.
Qed.

Lemma ballots_increase_witness : exists w : world mem_db, ballots (w_messages w) = [1; 2]
  /\ rtc wstep (mkWorld (demo 1) [] []) w
  /\ Sorted.StronglySorted Z.lt (ballots (w_messages w)).
Proof.
  destruct demo_world_some as (w & E & Hb). exists w. split_and!; [done|by apply demo_path|].
  destruct (demo_inv 1) as [HI HP]; [lia|].
  apply (ballots_increase 3 (demo 1) w HI HP). by apply demo_path.
Defined.

Lemma demo_vote : exists (w : world mem_db) m v, demo_world = Some w /\ m ∈ w_messages w
  /\ m.(MsgTo_Message).(Message_GetType) = Some (Message_Vote v).
Proof.
  assert (E : (fun w => match w_messages w !! 1%nat with
                        | Some (mkMsgTo _ (mkMessage (Some (Message_Vote _)))) => true | _ => false end) <$> demo_world = Some true)
    by by vm_compute.
  destruct demo_world as [w|]; [|discriminate E]. apply (inj Some) in E.
  destruct (w_messages w !! 1%nat) as [[rs [[[p|n|v|sy]|]]]|] eqn:Em; try discriminate E.
  exists w, (mkMsgTo rs (mkMessage (Some (Message_Vote v)))), v. split; [reflexivity|]. split; [|reflexivity].
  by eapply list_elem_of_lookup_2.
Qed.

(** The vote of replica 1 in view 1. *)
Lemma ballots_valid_witness : exists (w w1 : world mem_db) m v c2,
  demo_world = Some w /\ m ∈ w_messages w /\ m.(MsgTo_Message).(Message_GetType) = Some (Message_Vote v)
  /\ rtc wstep (mkWorld (demo 1) [] []) w1 /\ ballot_ok w1.(w_c) c2 m.
Proof.
  destruct demo_vote as (w & m & v & E & Hm & Hv). destruct (demo_inv 1) as [HI HP]; [lia|].
  destruct (ballots_valid (demo 1) w m (demo_path w E) HP Hm) as (w1 & i & c2 & H1' & _ & _ & _ & _ & Hb).
  exists w, w1, m, v, c2. split_and!; [exact E|exact Hm|exact Hv|exact H1'|exact Hb].
Defined.

Lemma messages_well_formed_witness : exists w : world mem_db, ballots (w_messages w) = [1; 2]
  /\ Forall (fun m => input_ok (IStep m.(MsgTo_Message))) (w_messages w).
Proof.
  destruct demo_world_some as (w & E & Hb). exists w. split; [done|].
  destruct (demo_inv 1) as [HI HP]; [lia|].
  apply (messages_well_formed 3 (demo 1) w HI HP). by apply demo_path.
Defined.

(** Replica 1 is sent the certified blocks 1 to 4 and reports the first two as
    finalized. *)
Definition synced_life : list action :=
  [AInput IStart; AInput (IStep (NewSyncMsg (certified_block <$> [1; 2; 3; 4]%nat))); AHandover].

Lemma synced_life_ok : Forall action_ok synced_life.
Proof.
  constructor; [exact I|]. constructor; [|repeat constructor]. simpl.
  repeat (constructor; [intros h [= <-]; split; by vm_compute|]). constructor.
Qed.

Lemma finalized_three_chain_witness : exists (w : world mem_db) e parent gparent, rtc wstep (mkWorld (demo 1) [] []) w
  /\ e ∈ w_blocks w /\ e.(Finalized) = true /\ e.(BlockEvent_Header) = demo_header 2
  /\ certified parent /\ sbytes parent.(Header_Parent) = Header_Hash gparent
  /\ sbytes gparent.(Header_Parent) = Header_Hash (demo_header 2).
Proof.
  assert (E : filter (fun e => e.(Finalized) = true) ∘ w_blocks <$> acts (mkWorld (demo 1) [] []) synced_life
              = Some [mkBlockEvent (demo_header 1) true; mkBlockEvent (demo_header 2) true]) by by vm_compute.
  destruct (acts _ synced_life) as [w|] eqn:Ew; [|discriminate E]. apply (inj Some) in E.
  destruct (demo_inv 1) as [HI HP]; [lia|]. pose proof (acts_rtc _ _ _ synced_life_ok Ew) as Hw.
  assert (Hin : mkBlockEvent (demo_header 2) true ∈ filter (fun e => e.(Finalized) = true) (w_blocks w)).
  { unfold compose in E. rewrite E. right. left. }
  apply list_elem_of_filter in Hin as [_ Hin].
  pose proof (finalized_three_chain 3 (demo 1) w HI HP Hw) as Hf. rewrite list.Forall_forall in Hf.
  destruct (Hf _ Hin eq_refl) as (p & g & Hc & Hp & Hg & _).
  exists w, (mkBlockEvent (demo_header 2) true), p, g. split_and!; [exact Hw|exact Hin|reflexivity|reflexivity|exact Hc|exact Hp|exact Hg].
Defined.

Lemma handle_monotone_witness :
  (demo 1).(c_locked).(Header_View) <= (fst (handle IStart (demo 1))).(c_locked).(Header_View).
Proof. destruct (demo_inv 1) as [HI _]; [lia|]. apply (handle_monotone 3 (demo 1) IStart HI I). Defined.

Lemma handle_durable_witness :
  match handle IStart (demo 1) with
  | (c', inl _) => disk_ok c'.(c_store) c'.(c_view) c'.(c_voted) c'.(c_prepare) c'.(c_locked) c'.(c_commit)
  | (c', inr _) => on_disk c'.(c_store)
  end.
Proof. destruct (demo_inv 1) as [HI _]; [lia|]. apply (handle_durable 3 (demo 1) IStart HI I). Defined.

Lemma demo_cert : is_ok (GetCertificate (demo 1).(c_store) (Header_Hash (demo 1).(c_prepare))) = true.
Proof. by vm_compute. Qed.

Lemma restart_recovers_witness : exists c',
  newConsensus (demo 1).(c_store) (demo 1).(c_id) (demo 1).(c_replicas) = Ok c' /\ Inv 3 c'.
Proof.
  destruct (demo_inv 1) as [HI _]; [lia|]. pose proof demo_cert as Hc.
  destruct (GetCertificate _ _) as [cert| |] eqn:E; [|discriminate Hc..].
  destruct (restart_recovers 3 (demo 1) cert HI E) as (c' & En & _ & _ & HI').
  exists c'. split; [exact En|exact HI'].
Defined.

Lemma genesis_starts_witness : exists c, newConsensus demo_store 2 demo_replicas = Ok c /\ Inv 3 c.
Proof.
  destruct (genesis_starts 3 (∅ : mem_db) demo_store genesis genesis_header genesis_cert 2 demo_replicas)
    as (c & E & _ & _ & HI).
  - reflexivity.
  - reflexivity.
  - apply genesis_header_good.
  - apply genesis_cert_good.
  - by vm_compute.
  - intros k. reflexivity.
  - apply demo_import.
  - by vm_compute.
  - by vm_compute.
  - exists c. split; [exact E|exact HI].
Defined.
