(* ===== verification/Scenarios.v ===== *)
(** * Executions that go wrong

    Concrete runs of the replicas of Instances.v, computed in the kernel, and two
    general facts, that show what a single faulty peer or an interrupted start
    can do.  They are the evidence for the findings listed with this
    development. *)

From Stdlib Require Import ZArith Lia.
From S2P Require Import Prelude Wire Types Proto Codec Encoding Crypto Store Quorum Progress Consensus Instances.

(** ** One malformed message *)

Section Malformed.
Context {DB : Type} `{KVStore DB} `{Hasher} `{Signer} `{Verifier}.
Implicit Types c : consensus DB.

(** C36: the two bytes 0a 00 decode to a proposal without header, and [onProposal]
    dereferences the header before any check: any peer kills any replica, in any
    state, with two bytes. *)
Theorem two_bytes_kill c : exists m, decode [x0a; x00] = Ok m
  /\ handle (IStep m) c = (c, inr NilDeref).
Proof.
  exists (NewProposalMsg (mkProposal None None None None None)). split; [vm_compute; reflexivity|done].
Qed.

(** A new-view without certificate kills the replica it is addressed to, before
    its signature is looked at. *)
Theorem newview_without_cert_kills c n : n.(NewView_Cert) = None ->
  leader_of c.(c_replicas) (wrap64 (n.(NewView_View) + 1)) = Ok c.(c_id) ->
  handle (IStep (NewViewMsg n)) c = (c, inr NilDeref).
Proof.
  intros Hc Hl. cbn [handle Step dispatch NewViewMsg Message_GetType]. unfold onNewView.
  unfold mbind, M_bind, gets, getLeader, liftr. rewrite Hl, Z.eqb_refl. cbn [when]. by rewrite Hc.
Qed.

Lemma Timeouts_Collect_unsigned (t : Timeouts) n :
  Verify n.(NewView_Voter) (timeout_digest n.(NewView_View)) (sbytes n.(NewView_Sig)) = false ->
  Timeouts_Collect t n = Ok (t, false).
Proof. intros Hv. unfold Timeouts_Collect. rewrite Hv. by repeat case_match. Qed.

(** C37: the leader adopts the certificate of a new-view without verifying it: a
    new-view whose own signature is invalid makes any stored block above the
    prepared one the new prepared block, certified by whatever it carries. *)
Theorem newview_cert_unverified c n cert header db :
  leader_of c.(c_replicas) (wrap64 (n.(NewView_View) + 1)) = Ok c.(c_id) ->
  Verify n.(NewView_Voter) (timeout_digest n.(NewView_View)) (sbytes n.(NewView_Sig)) = false ->
  n.(NewView_Cert) = Some cert -> GetHeader c.(c_store) (sbytes cert.(Certificate_Block)) = Ok header ->
  c.(c_prepare).(Header_View) < header.(Header_View) ->
  SetTag c.(c_store) PrepareTag (Header_Hash header) = Ok db ->
  exists c', handle (IStep (NewViewMsg n)) c = (c', inl tt)
    /\ c'.(c_prepare) = header /\ c'.(c_prepareCert) = cert /\ c'.(c_store) = db.
Proof.
  intros Hl Hv Hc Hh Hlt Hset. cbn [handle Step dispatch NewViewMsg Message_GetType]. unfold onNewView.
  unfold mbind, M_bind, gets, getLeader, liftr. rewrite Hl, Z.eqb_refl, Hc. cbn [when deref].
  unfold getHeader, updatePrepare. rewrite Hh. unfold mbind, M_bind, gets. rewrite (proj2 (Z.ltb_lt _ _)) by done.
  cbn [when]. unfold save, modify, modify_progress. cbn [set_prepare set_prepareCert c_store]. rewrite Hset.
  unfold modify. rewrite Timeouts_Collect_unsigned by done. eexists. by split_and!.
Qed.
End Malformed.

Lemma newview_without_cert_kills_witness :
  handle (H1 := demo_signer 2) (IStep (NewViewMsg (mkNewView 1 3 None None))) (demo 2) = (demo 2, inr NilDeref).
Proof.
  apply (newview_without_cert_kills (demo 2) (mkNewView 1 3 None None)); vm_compute; reflexivity.
Defined.

(** ** Runs *)

(** Replica [i] handles the inputs in turn; [None] when it dies. *)
Definition play (i : nat) (c : consensus mem_db) (l : list input) : option (consensus mem_db) :=
  foldl (fun c i' => c ← c; match @handle mem_db mem_kv poly_hasher (demo_signer i) demo_verifier_inst i' c with
                            | (c', inl _) => Some c' | _ => None end) (Some c) l.
Definition demo_after (i : nat) (l : list input) : option (consensus mem_db) := play i (demo (Z.of_nat i)) l.

Definition proposals (c : consensus mem_db) : list Proposal :=
  omap (fun m => match m.(MsgTo_Message).(Message_GetType) with Some (Message_Proposal p) => Some p | _ => None end)
    c.(c_Progress).(Messages).
Definition headers_proposed (c : consensus mem_db) : list Header := omap Proposal_Header (proposals c).

Definition send (root : byte) : input := ISend None (Some [root]) (Some (mkData [])).

(** The proposal of view 1, by its leader. *)
Definition proposal1 : Message :=
  match demo_after 1 [IStart; send x01] with
  | Some c => match proposals c with p :: _ => NewProposalMsg p | [] => mkMessage None end
  | None => mkMessage None
  end.
Definition header1 : Header :=
  match proposal1.(Message_GetType) with
  | Some (Message_Proposal p) => default genesis_header p.(Proposal_Header)
  | _ => genesis_header
  end.

(** A new-view with a made-up certificate for the block of view 1, which has only
    been proposed, and without signature. *)
Definition forged_newview : NewView :=
  mkNewView 1 3 None (Some (mkCertificate (Some (Header_Hash header1)) None)).

(** Replica 2, leader of view 2, after the proposal of view 1. *)
Definition voter2 : consensus mem_db := default (demo 2) (demo_after 2 [IStart; IStep proposal1]).

Lemma newview_cert_unverified_witness :
  exists c', handle (H1 := demo_signer 2) (IStep (NewViewMsg forged_newview)) voter2 = (c', inl tt)
    /\ c'.(c_prepare) = header1 /\ c'.(c_prepareCert) = mkCertificate (Some (Header_Hash header1)) None.
Proof.
  destruct (newview_cert_unverified (H1 := demo_signer 2) voter2 forged_newview
    (mkCertificate (Some (Header_Hash header1)) None) header1
    (<[PrepareTag := Header_Hash header1]> (c_store voter2))) as (c' & E & Hp & Hc & _).
  - vm_compute. reflexivity.
  - vm_compute. reflexivity.
  - reflexivity.
  - vm_compute. reflexivity.
  - vm_compute. reflexivity.
  - reflexivity.
  - exists c'. split; [exact E|split; [exact Hp|exact Hc]].
Defined.

(** The same new-view from an honest replica: signed, with a valid certificate. *)
Definition honest_newview : NewView :=
  mkNewView 1 3 (Some (sign_by 3 (timeout_digest 1)))
    (Some (mkCertificate (Some (Header_Hash header1)) (certify (Header_Hash header1) [0; 1; 3]%nat))).

(** After an honest new-view the leader's prepared block is on disk without its
    certificate, and the process cannot be started again: [newConsensus] exits. *)
Theorem newview_breaks_restart :
  match play 2 voter2 [IStep (NewViewMsg honest_newview)] with
  | Some c => newConsensus c.(c_store) c.(c_id) c.(c_replicas) = Panic LogFatal
              /\ VerifyAggregated (Header_Hash header1) c.(c_prepareCert).(Certificate_Sig) = Ok true
  | None => False
  end.
Proof. vm_compute. split; reflexivity. Qed.

(** A proposal of view 6 by its leader (replica 2) on the genesis block, with a
    timeout certificate that three replicas signed for view 5 and whose view
    field says [claimed]. *)
Definition header6 : Header := mkHeader 6 (Some (Header_Hash genesis_header)) 0 None None.
Definition proposal6 (claimed : Z) : Message :=
  NewProposalMsg (mkProposal (Some header6) (Some (mkData [])) (Some (sign_by 2 (Header_Hash header6)))
    (Some genesis_cert)
    (Some (mkTimeoutCertificate claimed (certify (timeout_digest 5) [0; 1; 3]%nat)))).

(** The view a replica jumps to is the unsigned view field of the timeout
    certificate, not the signed one: a faulty leader moves a replica from view 1
    to view 1000001, where its timeout is 0 and never fires; with the signed view
    the replica goes to view 6. *)
Theorem timeout_view_unsigned :
  (fun c => (c.(c_view), c.(c_timeout))) <$> demo_after 0 [IStart; IStep (proposal6 5)] = Some (6, 64)
  /\ (fun c => (c.(c_view), c.(c_timeout))) <$> demo_after 0 [IStart; IStep (proposal6 1000000)]
     = Some (1000001, 0).
Proof. split; vm_compute; reflexivity. Qed.

(** A new-view of view 1, signed. *)
Definition newview1 (i : nat) : input :=
  IStep (NewViewMsg (mkNewView 1 (Z.of_nat i) (Some (sign_by i (timeout_digest 1))) (Some genesis_cert))).

(** A correct leader that has proposed on three new-views is asked for data again
    by the fourth, and proposes a second, different block in the same view.  A
    proposal is signed over the same digest as a vote, so each of the two
    signatures is also a valid vote of the leader: it has voted twice in a view. *)
Theorem leader_proposes_twice :
  (fun c => (Header_View <$> headers_proposed c, bool_decide (NoDup (Header_Hash <$> headers_proposed c)),
             (fun p => Verify 2 (default [] (Header_Hash <$> p.(Proposal_Header))) (sbytes p.(Proposal_Sig)))
               <$> proposals c))
    <$> demo_after 2 [IStart; newview1 0; newview1 1; newview1 2; send x01; newview1 3; send x02]
  = Some ([2; 2], true, [true; true]).
Proof. vm_compute. reflexivity. Qed.

(** ** An interrupted start *)

(** The database of an [ImportGenesis] that was interrupted after [k] writes. *)
Definition interrupted (k : nat) : mem_db :=
  fst (run_writes (take k (genesis_writes genesis genesis_header)) (∅ : mem_db)).

Lemma interrupted_states k : (1 <= k < 8)%nat ->
  is_ok (GetHeader (interrupted k) (Header_Hash genesis_header)) = true
  /\ newConsensus (interrupted k) 1 demo_replicas = Panic LogFatal.
Proof.
  intros Hk. do 8 (destruct k as [|k]; [first [lia|split; vm_compute; reflexivity]|]). lia.
Qed.

(** An [ImportGenesis] interrupted after any but the last of its writes is taken
    for a finished one at the next attempt, which changes nothing and reports
    success, and the replica cannot start. *)
Theorem interrupted_import_is_final k : (1 <= k < 8)%nat ->
  ImportGenesis (interrupted k) genesis = (interrupted k, Ok tt)
  /\ newConsensus (interrupted k) 1 demo_replicas = Panic LogFatal.
Proof.
  intros Hk. destruct (interrupted_states k Hk) as [Hh Hn]. split; [|exact Hn].
  unfold ImportGenesis. cbn [genesis Block_Header].
  destruct (GetHeader (interrupted k) (Header_Hash genesis_header)); [reflexivity|discriminate Hh..].
Qed.

Lemma interrupted_import_is_final_witness :
  newConsensus (interrupted 3) 1 demo_replicas = Panic LogFatal.
Proof. apply (interrupted_import_is_final 3). lia. Defined.
