(* ===== verification/Routing.v ===== *)
(** * Who a replica writes to

    Every message names replicas of the configuration, or nobody (a broadcast):
    whatever a replica handles, and across crashes.  The transport indexes an
    array with these identities. *)

From Stdlib Require Import ZArith Lia.
From stdpp Require Import relations.
From S2P Require Import Prelude Wire Types Proto Codec Encoding Crypto Store Quorum Progress Consensus.
From S2P Require Import ConsensusFacts Handlers Replica.

(** The recipients of [m] are among [rs]. *)
Definition addressed (rs : list Z) (m : MsgTo) : Prop :=
  match m.(Recipients) with None => True | Some l => l <> [] /\ Forall (fun i => i ∈ rs) l end.

Section Routing.
Context {DB : Type} `{KVStore DB} `{Hasher} `{Signer} `{Verifier}.
Context (rs : list Z).
Implicit Types c : consensus DB.

Definition routed c : Prop := c.(c_replicas) = rs /\ Forall (addressed rs) c.(c_Progress).(Messages).
Definition same_replicas c c' : Prop := c'.(c_replicas) = c.(c_replicas).

#[global] Instance same_replicas_preorder : PreOrder same_replicas.
Proof. split; [by intros c|by intros c1 c2 c3 E1 E2; red; congruence]. Qed.

Abbreviation routes m := (moves routed routed same_replicas m).

(** A change of other fields. *)
Lemma routes_frame (g : consensus DB -> consensus DB) :
  (forall c, c_replicas (g c) = c_replicas c) ->
  (forall c, Messages (c_Progress (g c)) = Messages (c_Progress c)) -> routes (modify g).
Proof. intros Hr Hp c [E F]. apply wp_modify. unfold routed, same_replicas. by rewrite Hr, Hp. Qed.

Lemma routes_save f : routes (save f).
Proof. intros c [E F]. unfold wp, save. by destruct (f (c_store c)). Qed.
Lemma routes_save_all f : routes (save_all f).
Proof. intros c [E F]. unfold wp, save_all. by destruct (f (c_store c)) as [db []]. Qed.
Lemma routes_getHeader hash : routes (getHeader hash).
Proof. intros c [E F]. unfold wp, getHeader. by destruct (GetHeader (c_store c) (sbytes hash)). Qed.
Lemma routes_startTimeouts : routes startTimeouts.
Proof. intros c [E F]. unfold wp, startTimeouts. by destruct (Timeouts_Start (c_timeouts c) (c_view c)). Qed.

Lemma leader_of_elem replicas view r : leader_of replicas view = Ok r -> r ∈ replicas.
Proof.
  unfold leader_of. destruct (len replicas =? 0); [done|]. destruct (replicas !! _) eqn:E; [|done].
  intros [= <-]. by eapply list_elem_of_lookup_2.
Qed.

(** A leader is one of the replicas. *)
Lemma routes_leader {A} view (f : Z -> M (consensus DB) A) :
  (forall r, r ∈ rs -> routes (f r)) -> routes (getLeader view ≫= f).
Proof.
  intros Hf c Hc. apply wp_bind, wp_getLeader; [reflexivity|]. intros r Hr%leader_of_elem.
  apply Hf; [by rewrite <- (proj1 Hc)|done].
Qed.

Lemma routes_resetTimeouts : routes (modify resetTimeouts).
Proof.
  apply routes_frame; intros c; unfold resetTimeouts;
    by destruct (c_timeoutCert c), (Timeouts_Cert (c_timeouts c)).
Qed.
Lemma routes_release : routes releaseTimeoutCert.
Proof.
  apply routes_frame; intros c; by destruct (load_timeoutCert c) as [t|]; [destruct (TimeoutCertificate_View t <? _)|].
Qed.

Section Reentrant.
Context (step : Message -> M (consensus DB) unit) (Hstep : forall m, routes (step m)).

Lemma routes_deliver m ids : routes (deliver_self step m ids).
Proof. induction ids as [|i ids IH]; simpl; auto with keeps typeclass_instances. Qed.

Lemma routes_sendMsg m ids : (forall l, ids = Some l -> l <> [] /\ Forall (fun i => i ∈ rs) l) ->
  routes (sendMsg step m ids).
Proof.
  intros Hids. unfold sendMsg. apply keeps_bind; [apply _| |intros _; destruct ids; [apply routes_deliver|apply Hstep]].
  intros c [E F]. apply wp_modify. split; [done|]. split; [done|]. simpl.
  apply Forall_app_2; [done|]. constructor; [|constructor]. unfold addressed. simpl. destruct ids; [by apply Hids|done].
Qed.

(** Walk through a method. *)
Ltac walk := repeat first
  [ apply keeps_ret; apply _ | apply keeps_gets; apply _ | apply keeps_skip; apply _
  | apply keeps_liftr; apply _ | apply keeps_die; apply _
  | apply routes_save | apply routes_save_all | apply routes_getHeader | apply routes_startTimeouts
  | apply routes_resetTimeouts | apply routes_release
  | apply routes_leader; intros ? ?
  | apply routes_sendMsg; intros ? ?; simplify_eq; (split; [discriminate|repeat constructor; assumption])
  | apply keeps_bind; [apply _| |intros ?]
  | apply keeps_when; [apply _|intros ?]
  | lazymatch goal with
    | |- moves _ _ _ (match ?x with _ => _ end) => destruct x
    | |- moves _ _ _ (let '_ := ?x in _) => destruct x
    end
  | solve [auto with keeps]
  | apply routes_frame; intros ?; reflexivity ].

Lemma routes_nextRound b : routes (nextRound step b).
Proof. unfold nextRound, resetTimeout, sendNewView, waitForData, modify_progress. walk. Qed.
Hint Resolve routes_nextRound : keeps.

Lemma routes_setView v : routes (setView v).
Proof. unfold setView. walk. Qed.
Hint Resolve routes_setView : keeps.

Lemma routes_Tick : routes (Tick step).
Proof. unfold Tick, onTimeout. walk. Qed.
Lemma routes_Send state root data : routes (Send step state root data).
Proof. unfold Send. walk. Qed.

Lemma routes_update parent : routes (update parent).
Proof. unfold update, modify_progress. walk. Qed.
Lemma routes_updatePrepare header cert : routes (updatePrepare header cert).
Proof. unfold updatePrepare, modify_progress. walk. Qed.
Lemma routes_syncView header tcert : routes (syncView step header tcert).
Proof. unfold syncView. walk. Qed.
Hint Resolve routes_update routes_updatePrepare routes_syncView : keeps.

Lemma routes_onProposal p : routes (onProposal step p).
Proof.
  unfold onProposal, acceptProposal, checkTimeout, persistProposal, safeNode, sendVote, modify_progress. walk.
Qed.
Lemma routes_onVote v : routes (onVote step v).
Proof. unfold onVote. walk. Qed.
Lemma routes_onNewView n : routes (onNewView step n).
Proof. unfold onNewView, waitForData, modify_progress. walk. Qed.
Lemma routes_onSync s : routes (onSync s).
Proof.
  unfold onSync. induction (Sync_Blocks s) as [|b l IH]; cbn [onSyncBlocks]; [walk|].
  unfold syncBlock. walk.
Qed.

Lemma routes_dispatch m : routes (dispatch step m).
Proof.
  unfold dispatch. destruct (Message_GetType m) as [[]|];
    [apply routes_onProposal|apply routes_onNewView|apply routes_onVote|apply routes_onSync|walk].
Qed.
End Reentrant.

Lemma routes_Step d m : routes (Step d m).
Proof. revert m. induction d as [|d IH]; intros m; [apply keeps_die; apply _|]. by apply routes_dispatch. Qed.

Lemma routes_handle i : routes (handle i).
Proof.
  pose proof (routes_Step 2) as Hs. destruct i; [by apply routes_nextRound|apply Hs|by apply routes_Send|by apply routes_Tick].
Qed.

(** The same over time. *)
Definition wrouted (w : world DB) : Prop := w.(w_c).(c_replicas) = rs /\ Forall (addressed rs) (w_messages w).

Lemma wstep_routed w w' : wrouted w -> wstep w w' -> wrouted w'.
Proof.
  intros [Hr [Hs Hm]%Forall_app] W.
  assert (Hn : forall c c' sent events, c.(c_replicas) = rs -> Forall (addressed rs) sent ->
    newConsensus c.(c_store) c.(c_id) c.(c_replicas) = Ok c' -> wrouted (mkWorld c' sent events)).
  { intros c c' sent events Er Hsent Hc. pose proof (newConsensus_progress _ _ _ _ Hc) as Hp.
    apply newConsensus_fields in Hc as [_ Hc]. split; [simpl; congruence|]. unfold w_messages. simpl. by rewrite Hp, app_nil_r. }
  destruct W as [c c' sent events i _ Hh|c sent events|c c' sent events Hc|c c1 c' sent events i k _ Hh Hc]; simpl in *.
  - pose proof (routes_handle i c (conj Hr Hm)) as Hw. unfold wp in Hw. rewrite Hh in Hw.
    destruct Hw as [_ [Hr' Hm']]. split; [done|]. by apply Forall_app_2.
  - split; [done|]. unfold w_messages. simpl. rewrite app_nil_r. by apply Forall_app_2.
  - by eapply Hn.
  - pose proof (routes_handle i c (conj Hr Hm)) as Hw. unfold wp in Hw. rewrite Hh in Hw.
    eapply Hn; [|done|exact Hc]. red in Hw. congruence.
Qed.

Lemma worlds_routed w w' : wrouted w -> rtc wstep w w' -> wrouted w'.
Proof. intros HW Hs. induction Hs as [|w1 w2 w3 Hw _ IH]; [done|]. by eapply IH, wstep_routed. Qed.
End Routing.
