(* ===== verification/Node.v ===== *)
(** * node.go: the event loop

    [node] is the Node struct together with the local variables of [run] and the
    contents of its channels (all of capacity one).  One turn of the loop is
    [turn k]: the progress of the replica is taken over if everything taken
    before has been consumed ([refill]), then the ready case [k] of the select is
    run.  Which ready case runs is the scheduler's choice, so the system is a
    step relation, [nstep], of turns and of the environment's operations on the
    channels.

    The loop refines the replica alone: of what its users put into its channels it
    gives everything to the replica, in order, and nothing else ([serve]), and what
    they receive is a prefix of what the replica has handed over.  And it stops handing anything over when
    nobody reads the channel of missing blocks. *)

From Stdlib Require Import ZArith Lia.
From stdpp Require Import relations.
From S2P Require Import Prelude Wire Types Proto Codec Encoding Crypto Store Quorum Progress Consensus.
From S2P Require Import ConsensusFacts Handlers Replica Instances.

(** [Data] of node.go. *)
Record NodeData : Type := mkNodeData { State : slice; Root : slice; NodeData_Data : option Data }.

(** The state of [n.start]: open, closed and not yet noticed, or set to nil. *)
Inductive start_chan : Type := StartOpen | StartClosed | StartNil.

Record node (DB : Type) : Type := mkNode {
  n_consensus : consensus DB;
  (* local variables of [run] *)
  toSend : list MsgTo;
  toUpdate : list BlockEvent;
  toSync : list BlockRef;
  l_messages : bool;         (* messages != nil *)
  l_blocks : bool;
  l_waitingData : bool;
  l_missing : bool;
  (* channels *)
  received : option Message;
  send : option NodeData;
  deliver : option (list MsgTo);
  blocks : option (list BlockEvent);
  waitingData : bool;
  missing : option (list BlockRef);
  start : start_chan;
  quit : bool;
  done : bool;
}.
Arguments mkNode {DB}.
Arguments n_consensus {DB} n.
Arguments toSend {DB} n.
Arguments toUpdate {DB} n.
Arguments toSync {DB} n.
Arguments l_messages {DB} n.
Arguments l_blocks {DB} n.
Arguments l_waitingData {DB} n.
Arguments l_missing {DB} n.
Arguments received {DB} n.
Arguments send {DB} n.
Arguments deliver {DB} n.
Arguments blocks {DB} n.
Arguments waitingData {DB} n.
Arguments missing {DB} n.
Arguments start {DB} n.
Arguments quit {DB} n.
Arguments done {DB} n.

(** ** NewNode *)

(** The loop over [conf.Replicas]: the replica's own index is that of the last
    replica with its key, and 0 when there is none. *)
Section Identity.
Context {Key : Type} `{EqDecision Key}.

Fixpoint own_index (id : Key) (i : Z) (replicas : list Key) (rid : Z) : Z :=
  match replicas with
  | [] => rid
  | r :: replicas => own_index id (i + 1) replicas (if decide (id = r) then i else rid)
  end.

Definition replica_ids (replicas : list Key) : list Z := Z.of_nat <$> seq 0 (length replicas).
End Identity.

Section Node.
Context {DB : Type} `{KVStore DB} `{Hasher} `{Signer} `{Verifier}.
Implicit Types n : node DB.

Definition fresh_node (c : consensus DB) : node DB :=
  mkNode c [] [] [] false false false false None None None None false None StartOpen false false.

Definition NewNode {Key} `{EqDecision Key} (store : DB) (id : Key) (replicas : list Key) : res (node DB) :=
  c ← newConsensus store (own_index id 0 replicas 0) (replica_ids replicas);
  mret (fresh_node c).

(** ** One turn of the loop *)

Definition set_consensus (c : consensus DB) n : node DB :=
  mkNode c n.(toSend) n.(toUpdate) n.(toSync) n.(l_messages) n.(l_blocks) n.(l_waitingData) n.(l_missing)
    n.(received) n.(send) n.(deliver) n.(blocks) n.(waitingData) n.(missing) n.(start) n.(quit) n.(done).

(** [if missing == nil && waitingData == nil && blocks == nil && messages == nil] *)
Definition refill n : node DB :=
  if n.(l_missing) || n.(l_waitingData) || n.(l_blocks) || n.(l_messages) then n
  else
    let p := n.(n_consensus).(c_Progress) in
    let has_messages := match p.(Messages) with [] => false | _ => true end in
    let has_events := match p.(Events) with [] => false | _ => true end in
    let has_missing := match p.(NotFound) with [] => false | _ => true end in
    mkNode (set_Progress (Progress_Reset p) n.(n_consensus))
      (if has_messages then p.(Messages) else n.(toSend))
      (if has_events then p.(Events) else n.(toUpdate))
      (if has_missing then p.(NotFound) else n.(toSync))
      has_messages has_events p.(WaitingData) has_missing
      n.(received) n.(send) n.(deliver) n.(blocks) n.(waitingData) n.(missing) n.(start) n.(quit) n.(done).

(** The cases of the select. *)
Inductive select : Type :=
| SStart | SReceived | SSend | STick | SWaitingData | SMissing | SMessages | SBlocks | SQuit.

(** A handler returned or killed the process. *)
Definition handled (r : consensus DB * (unit + crash)) n : node DB * (unit + crash) :=
  let '(c, o) := r in (set_consensus c n, o).

(** [None]: the case is not ready. *)
Definition run_case (k : select) n : option (node DB * (unit + crash)) :=
  let '(mkNode c ts tu ty lm lb lw li rc sd dl bl wd ms st qt dn) := n in
  if dn then None
  else
    match k with
    | SStart =>
        match st with
        | StartClosed => Some (handled (handle IStart c) (mkNode c ts tu ty lm lb lw li rc sd dl bl wd ms StartNil qt dn))
        | _ => None
        end
    | SReceived =>
        match rc with
        | Some m => Some (handled (handle (IStep m) c) (mkNode c ts tu ty lm lb lw li None sd dl bl wd ms st qt dn))
        | None => None
        end
    | SSend =>
        match sd with
        | Some d => Some (handled (handle (ISend d.(State) d.(Root) d.(NodeData_Data)) c)
                            (mkNode c ts tu ty lm lb lw li rc None dl bl wd ms st qt dn))
        | None => None
        end
    | STick => Some (handled (handle ITick c) n)
    | SWaitingData =>
        if lw && negb wd then Some (mkNode c ts tu ty lm lb false li rc sd dl bl true ms st qt dn, inl tt) else None
    | SMissing =>
        match li, ms with
        | true, None => Some (mkNode c ts tu ty lm lb lw false rc sd dl bl wd (Some ty) st qt dn, inl tt)
        | _, _ => None
        end
    | SMessages =>
        match lm, dl with
        | true, None => Some (mkNode c [] tu ty false lb lw li rc sd (Some ts) bl wd ms st qt dn, inl tt)
        | _, _ => None
        end
    | SBlocks =>
        match lb, bl with
        | true, None => Some (mkNode c ts [] ty lm false lw li rc sd dl (Some tu) wd ms st qt dn, inl tt)
        | _, _ => None
        end
    | SQuit => if qt then Some (mkNode c ts tu ty lm lb lw li rc sd dl bl wd ms st qt true, inl tt) else None
    end.

Definition turn (k : select) n : option (node DB * (unit + crash)) := run_case k (refill n).

(** ** The environment *)

(** What the users of the node have received so far. *)
Record system : Type := mkSystem {
  s_node : node DB;
  got_messages : list MsgTo;
  got_blocks : list BlockEvent;
}.

Definition set_channels rc sd dl bl wd ms st qt n : node DB :=
  mkNode n.(n_consensus) n.(toSend) n.(toUpdate) n.(toSync) n.(l_messages) n.(l_blocks) n.(l_waitingData) n.(l_missing)
    rc sd dl bl wd ms st qt n.(done).

(** Operations of other goroutines.  [use] is [None] where the caller blocks (a
    full or an empty channel) or panics itself (a second [Start] or [Close]).  The
    ways out of [Step] and [Send] with an error change nothing. *)
Inductive user : Type :=
| UStep (m : Message) | USend (d : NodeData) | UStart | UClose
| UMessages | UBlocks | UReady | UMissing.

Definition use (u : user) (s : system) : option system :=
  let n := s.(s_node) in
  let '(mkNode _ _ _ _ _ _ _ _ rc sd dl bl wd ms st qt _) := n in
  let with_node n' := Some (mkSystem n' s.(got_messages) s.(got_blocks)) in
  match u with
  | UStep m => match rc with None => with_node (set_channels (Some m) sd dl bl wd ms st qt n) | Some _ => None end
  | USend d => match sd with None => with_node (set_channels rc (Some d) dl bl wd ms st qt n) | Some _ => None end
  | UStart => match st with StartOpen => with_node (set_channels rc sd dl bl wd ms StartClosed qt n) | _ => None end
  | UClose => if qt then None else with_node (set_channels rc sd dl bl wd ms st true n)
  | UMessages => match dl with
                 | Some l => Some (mkSystem (set_channels rc sd None bl wd ms st qt n) (s.(got_messages) ++ l) s.(got_blocks))
                 | None => None end
  | UBlocks => match bl with
               | Some l => Some (mkSystem (set_channels rc sd dl None wd ms st qt n) s.(got_messages) (s.(got_blocks) ++ l))
               | None => None end
  | UReady => if wd then with_node (set_channels rc sd dl bl false ms st qt n) else None
  | UMissing => match ms with Some _ => with_node (set_channels rc sd dl bl wd None st qt n) | None => None end
  end.

(** Inputs the environment may offer. *)
Definition user_ok (u : user) : Prop :=
  match u with
  | UStep m => msg_ok m
  | USend d => len (sbytes d.(Root)) + len (sbytes d.(State)) < 2 ^ 61
  | _ => True
  end.

Inductive nstep : system -> system -> Prop :=
| N_turn k s n' : turn k s.(s_node) = Some (n', inl tt) ->
    nstep s (mkSystem n' s.(got_messages) s.(got_blocks))
| N_use u s s' : user_ok u -> use u s = Some s' -> nstep s s'.
End Node.
Arguments system DB : clear implicits.

(** ** Refinement *)

Section NodeFacts.
Context {DB : Type} `{KVStore DB} `{Hasher} `{Signer} `{Verifier}.
Implicit Types (n : node DB) (s : system DB).

(** What has left the replica: received by the users, in a channel, or waiting to
    be put into it. *)
Definition out_messages s : list MsgTo :=
  s.(got_messages) ++ default [] s.(s_node).(deliver)
    ++ (if s.(s_node).(l_messages) then s.(s_node).(toSend) else []).
Definition out_blocks s : list BlockEvent :=
  s.(got_blocks) ++ default [] s.(s_node).(blocks)
    ++ (if s.(s_node).(l_blocks) then s.(s_node).(toUpdate) else []).

Definition abs s : world DB := mkWorld s.(s_node).(n_consensus) (out_messages s) (out_blocks s).

(** The inputs waiting in the channels are acceptable. *)
Definition node_ok n : Prop :=
  (forall m, n.(received) = Some m -> msg_ok m)
  /\ (forall d, n.(send) = Some d -> len (sbytes d.(Root)) + len (sbytes d.(State)) < 2 ^ 61).

Lemma fresh_ok (c : consensus DB) : node_ok (fresh_node c).
Proof. split; intros ? [=]. Qed.

Lemma refill_sim s : let s' := mkSystem (refill s.(s_node)) s.(got_messages) s.(got_blocks) in
  rtc wstep (abs s) (abs s') /\ (node_ok s.(s_node) -> node_ok s'.(s_node)).
Proof.
  destruct s as [[c ts tu ty lm lb lw li rc sd dl bl wd ms st qt dn] gm gb].
  unfold refill. cbn [l_missing l_waitingData l_blocks l_messages s_node].
  destruct (li || lw || lb || lm) eqn:E; [by split; [apply rtc_refl|]|].
  apply orb_false_elim in E as [[[-> ->]%orb_false_elim ->]%orb_false_elim ->]. split; [|done].
  apply rtc_once.
  refine (eq_ind _ (wstep _) (W_handover c (gm ++ default [] dl ++ []) (gb ++ default [] bl ++ [])) _ _).
  unfold abs, out_messages, out_blocks. simpl. rewrite !app_nil_r, <- !app_assoc. f_equal.
  - by destruct (Messages (c_Progress c)).
  - by destruct (Events (c_Progress c)).
Qed.

Lemma handled_inv (r : consensus DB * (unit + crash)) n n' :
  handled r n = (n', inl tt) -> exists c', r = (c', inl tt) /\ n' = set_consensus c' n.
Proof. destruct r as [c' o]. simpl. intros [= <- ->]. by exists c'. Qed.

#[local] Opaque handle.

(** A turn of the select is an input of the replica, or moves what has left it. *)
Lemma run_case_sim k n n' gm gb : node_ok n -> run_case k n = Some (n', inl tt) ->
  node_ok n' /\ rtc wstep (abs (mkSystem n gm gb)) (abs (mkSystem n' gm gb)).
Proof.
  destruct n as [c ts tu ty lm lb lw li rc sd dl bl wd ms st qt dn]. intros [Hm Hd].
  unfold run_case. destruct dn; [done|]. simpl in Hm, Hd.
  destruct k.
  - destruct st; try done. intros [= (c' & Eh & ->)%handled_inv]. split; [by split|].
    apply rtc_once. by eapply (W_input c c' _ _ IStart).
  - destruct rc as [m|]; [|done]. intros [= (c' & Eh & ->)%handled_inv]. split; [by split|].
    apply rtc_once. eapply (W_input c c' _ _ (IStep m)); [by apply Hm|done].
  - destruct sd as [d|]; [|done]. intros [= (c' & Eh & ->)%handled_inv]. split; [by split|].
    apply rtc_once. eapply (W_input c c' _ _ (ISend _ _ _)); [by apply (Hd d)|done].
  - intros [= (c' & Eh & ->)%handled_inv]. split; [by split|].
    apply rtc_once. by eapply (W_input c c' _ _ ITick).
  - destruct (lw && negb wd); [|done]. intros [= <-]. by split; [|apply rtc_refl].
  - destruct li, ms; try done. intros [= <-]. by split; [|apply rtc_refl].
  - destruct lm, dl; try done. intros [= <-]. split; [done|].
    unfold abs, out_messages, out_blocks. simpl. rewrite app_nil_r. apply rtc_refl.
  - destruct lb, bl; try done. intros [= <-]. split; [done|].
    unfold abs, out_messages, out_blocks. simpl. rewrite app_nil_r. apply rtc_refl.
  - destruct qt; [|done]. intros [= <-]. by split; [|apply rtc_refl].
Qed.

Lemma use_sim u s s' : user_ok u -> node_ok s.(s_node) -> use u s = Some s' ->
  node_ok s'.(s_node) /\ abs s' = abs s.
Proof.
  destruct s as [[c ts tu ty lm lb lw li rc sd dl bl wd ms st qt dn] gm gb]. intros Hu [Hm Hd].
  unfold use. simpl in *. destruct u; repeat case_match; intros [= <-]; (split; [split; simpl; try done; by intros ? [= <-]|]);
    unfold abs, out_messages, out_blocks; simpl; rewrite <- ?app_assoc; done.
Qed.

Lemma nstep_sim s s' : node_ok s.(s_node) -> nstep s s' ->
  node_ok s'.(s_node) /\ rtc wstep (abs s) (abs s').
Proof.
  intros Hok Hs. destruct Hs as [k s n' Ht|u s s' Hu Hs].
  - destruct (refill_sim s) as [Hr Hok']. destruct (run_case_sim k _ n' s.(got_messages) s.(got_blocks) (Hok' Hok) Ht) as [Hok2 Hc].
    split; [done|]. by etrans.
  - destruct (use_sim u s s' Hu Hok Hs) as [Hok' ->]. by split; [|apply rtc_refl].
Qed.

Lemma nsteps_sim s s' : node_ok s.(s_node) -> rtc nstep s s' ->
  node_ok s'.(s_node) /\ rtc wstep (abs s) (abs s').
Proof.
  intros Hok Hs. induction Hs as [s|s1 s2 s3 Hst _ IH]; [by split; [|apply rtc_refl]|].
  destruct (nstep_sim _ _ Hok Hst) as [Hok2 Hw2]. destruct (IH Hok2) as [Hok3 Hw3]. split; [done|]. by etrans.
Qed.

(** Scripted runs. *)
Inductive op : Type := Turn (k : select) | Use (u : user).

Definition do_op s (o : op) : option (system DB) :=
  match o with
  | Turn k => match turn k s.(s_node) with
              | Some (n', inl _) => Some (mkSystem n' s.(got_messages) s.(got_blocks))
              | _ => None
              end
  | Use u => use u s
  end.
Fixpoint script s (l : list op) : option (system DB) :=
  match l with [] => Some s | o :: l => match do_op s o with Some s' => script s' l | None => None end end.

Definition op_ok (o : op) : Prop := match o with Use u => user_ok u | Turn _ => True end.

Lemma script_rtc (R : relation (system DB)) (P : op -> Prop) :
  (forall s o s', P o -> do_op s o = Some s' -> R s s') ->
  forall l s s', Forall P l -> script s l = Some s' -> rtc R s s'.
Proof.
  intros HR l s s' Hl. revert s. induction Hl as [|o l Ho Hl IH]; simpl; intros s; [by intros [= <-]|].
  destruct (do_op s o) as [s1|] eqn:E; [|done]. intros ?. eapply rtc_l; [by eapply HR|auto].
Qed.

Lemma do_op_nstep s o s' : op_ok o -> do_op s o = Some s' -> nstep s s'.
Proof.
  destruct o as [k|u]; simpl; intros Ho; [|by apply N_use].
  destruct (turn k (s_node s)) as [[n' [[]|]]|] eqn:E; try done. intros [= <-]. by eapply N_turn.
Qed.

(** Every run is a script. *)
Lemma nsteps_script s s' : rtc nstep s s' -> exists l, Forall op_ok l /\ script s l = Some s'.
Proof.
  intros Hs. induction Hs as [s|s1 s2 s3 Hst _ (l & Hl & IH)]; [by exists []; split; [constructor|]|].
  destruct Hst as [k s n' Ht|u s s' Hu Hs].
  - exists (Turn k :: l). split; [by constructor|]. simpl. by rewrite Ht.
  - exists (Use u :: l). split; [by constructor|]. simpl. by rewrite Hs.
Qed.

(** ** The replica alone, under the inputs of the loop

    The replica is given inputs ([Some i]), whose handlers must return, and its
    progress is taken over ([None]). *)
Fixpoint serve (w : world DB) (l : list (option input)) : option (world DB) :=
  match l with
  | [] => Some w
  | Some i :: l =>
      match handle i w.(w_c) with
      | (c', inl _) => serve (mkWorld c' w.(w_sent) w.(w_events)) l
      | _ => None
      end
  | None :: l => serve (mkWorld (set_Progress (Progress_Reset w.(w_c).(c_Progress)) w.(w_c)) (w_messages w) (w_blocks w)) l
  end.

Lemma serve_app w l w1 k : serve w l = Some w1 -> serve w (l ++ k) = serve w1 k.
Proof.
  revert w. induction l as [|[i|] l IH]; simpl; intros w; [by intros [= ->]|..].
  - destruct (handle i (w_c w)) as [c' [u|x]]; [apply IH|done].
  - apply IH.
Qed.

(** The cases of the select that give an input to the replica, and what they give. *)
Definition select_of (i : input) : select :=
  match i with IStart => SStart | IStep _ => SReceived | ISend _ _ _ => SSend | ITick => STick end.
Definition gives_input (k : select) : bool :=
  match k with SStart | SReceived | SSend | STick => true | _ => false end.

Definition turns (l : list op) : list select := omap (fun o => match o with Turn k => Some k | Use _ => None end) l.
Definition put_messages (l : list op) : list Message := omap (fun o => match o with Use (UStep m) => Some m | _ => None end) l.
Definition put_data (l : list op) : list NodeData := omap (fun o => match o with Use (USend d) => Some d | _ => None end) l.
Definition given_messages (l : list input) : list Message := omap (fun i => match i with IStep m => Some m | _ => None end) l.
Definition given_data (l : list input) : list NodeData :=
  omap (fun i => match i with ISend st rt d => Some (mkNodeData st rt d) | _ => None end) l.
Definition inputs_of (l : list (option input)) : list input := omap id l.

(** [l] takes [s] to [s'], and the replica takes [a] meanwhile. *)
Record served s (l : list op) (a : list (option input)) s' : Prop := {
  sv_world : serve (abs s) a = Some (abs s');
  sv_order : select_of <$> inputs_of a = filter gives_input (turns l);
  sv_messages : option_list s.(s_node).(received) ++ put_messages l
    = given_messages (inputs_of a) ++ option_list s'.(s_node).(received);
  sv_data : option_list s.(s_node).(send) ++ put_data l = given_data (inputs_of a) ++ option_list s'.(s_node).(send);
}.

Lemma served_trans s1 s2 s3 l1 l2 a1 a2 : served s1 l1 a1 s2 -> served s2 l2 a2 s3 -> served s1 (l1 ++ l2) (a1 ++ a2) s3.
Proof.
  intros [W1 O1 M1 D1] [W2 O2 M2 D2]. split.
  - by rewrite (serve_app _ _ _ _ W1).
  - unfold inputs_of, turns in *. rewrite !omap_app, fmap_app, list.filter_app. by rewrite O1, O2.
  - unfold inputs_of, put_messages, given_messages in *. rewrite !omap_app, app_assoc, M1, <- !app_assoc. by rewrite M2.
  - unfold inputs_of, put_data, given_data in *. rewrite !omap_app, app_assoc, D1, <- !app_assoc. by rewrite D2.
Qed.

Lemma served_refill s : exists a, served s [] a (mkSystem (refill s.(s_node)) s.(got_messages) s.(got_blocks)).
Proof.
  destruct s as [[c ts tu ty lm lb lw li rc sd dl bl wd ms st qt dn] gm gb].
  unfold refill. cbn [l_missing l_waitingData l_blocks l_messages s_node got_messages got_blocks].
  destruct (li || lw || lb || lm) eqn:E; [by exists []; split; simpl; rewrite ?app_nil_r|].
  apply orb_false_elim in E as [[[-> ->]%orb_false_elim ->]%orb_false_elim ->]. exists [None].
  split; simpl; rewrite ?app_nil_r; try done. f_equal. unfold abs, out_messages, out_blocks, w_messages, w_blocks. simpl.
  rewrite !app_nil_r, <- !app_assoc. f_equal.
  - by destruct (Messages (c_Progress c)).
  - by destruct (Events (c_Progress c)).
Qed.

Lemma served_case k n n' gm gb : run_case k n = Some (n', inl tt) ->
  exists a, served (mkSystem n gm gb) [Turn k] a (mkSystem n' gm gb).
Proof.
  destruct n as [c ts tu ty lm lb lw li rc sd dl bl wd ms st qt dn]. unfold run_case. destruct dn; [done|].
  assert (Hin : forall i c' sent events, handle i c = (c', inl tt) -> serve (mkWorld c sent events) [Some i]
    = Some (mkWorld c' sent events)) by (intros i c' sent events E; simpl; by rewrite E).
  destruct k.
  - destruct st; try done. intros [= (c' & Eh & ->)%handled_inv]. exists [Some IStart]. split; [by apply Hin|done|..]; simpl; by rewrite ?app_nil_r.
  - destruct rc as [m|]; [|done]. intros [= (c' & Eh & ->)%handled_inv]. exists [Some (IStep m)]. split; [by apply Hin|done|..]; simpl; by rewrite ?app_nil_r.
  - destruct sd as [d|]; [|done]. intros [= (c' & Eh & ->)%handled_inv]. exists [Some (ISend d.(State) d.(Root) d.(NodeData_Data))].
    split; [by apply Hin|done|..]; simpl; rewrite ?app_nil_r; by destruct d.
  - intros [= (c' & Eh & ->)%handled_inv]. exists [Some ITick]. split; [by apply Hin|done|..]; simpl; by rewrite ?app_nil_r.
  - destruct (lw && negb wd); [|done]. intros [= <-]. exists []. split; simpl; by rewrite ?app_nil_r.
  - destruct li, ms; try done. intros [= <-]. exists []. split; simpl; by rewrite ?app_nil_r.
  - destruct lm, dl; try done. intros [= <-]. exists []. split; simpl; rewrite ?app_nil_r; try done.
    unfold abs, out_messages, out_blocks. simpl. by rewrite app_nil_r.
  - destruct lb, bl; try done. intros [= <-]. exists []. split; simpl; rewrite ?app_nil_r; try done.
    unfold abs, out_messages, out_blocks. simpl. by rewrite app_nil_r.
  - destruct qt; [|done]. intros [= <-]. exists []. split; simpl; by rewrite ?app_nil_r.
Qed.

Lemma served_use u s s' : use u s = Some s' -> served s [Use u] [] s'.
Proof.
  destruct s as [[c ts tu ty lm lb lw li rc sd dl bl wd ms st qt dn] gm gb]. unfold use. simpl in *.
  destruct u; repeat case_match; intros [= <-]; split; simpl; rewrite ?app_nil_r; try done;
    unfold abs, out_messages, out_blocks; simpl; by rewrite <- ?app_assoc.
Qed.

Lemma served_op s o s' : do_op s o = Some s' -> exists a, served s [o] a s'.
Proof.
  destruct o as [k|u]; simpl; [|intros Hu; exists []; by apply served_use].
  destruct (turn k (s_node s)) as [[n' [[]|]]|] eqn:E; try done. intros [= <-].
  destruct (served_refill s) as [a1 H1'], (served_case k _ n' s.(got_messages) s.(got_blocks) E) as [a2 H2'].
  exists (a1 ++ a2). apply (served_trans _ _ _ [] [Turn k] _ _ H1' H2').
Qed.

Lemma served_script l s s' : script s l = Some s' -> exists a, served s l a s'.
Proof.
  revert s. induction l as [|o l IH]; simpl; intros s.
  - intros [= <-]. exists []. by split; rewrite ?app_nil_r.
  - destruct (do_op s o) as [s1|] eqn:E; [|done]. intros (a2 & H2')%IH. destruct (served_op _ _ _ E) as [a1 H1'].
    exists (a1 ++ a2). by apply (served_trans _ _ _ [o] l _ _ H1').
Qed.

(** ** A reader who ignores missing blocks *)

(** The loop holds a report of missing blocks and the channel is full. *)
Definition stuck n : Prop := n.(l_missing) = true /\ is_Some n.(missing).

(** A step in which nobody reads the channel of missing blocks. *)
Definition deaf_step s s' : Prop :=
  (exists k n', turn k s.(s_node) = Some (n', inl tt) /\ s' = mkSystem n' s.(got_messages) s.(got_blocks))
  \/ (exists u, u <> UMissing /\ use u s = Some s').

Lemma do_op_deaf s o s' : o <> Use UMissing -> do_op s o = Some s' -> deaf_step s s'.
Proof.
  destruct o as [k|u]; simpl; intros Ho.
  - destruct (turn k (s_node s)) as [[n' [[]|]]|] eqn:E; try done. intros [= <-]. left. by exists k, n'.
  - intros E. right. exists u. split; [congruence|done].
Qed.

Lemma stuck_step s s' : stuck s.(s_node) -> deaf_step s s' ->
  stuck s'.(s_node) /\ out_messages s' = out_messages s /\ out_blocks s' = out_blocks s.
Proof.
  destruct s as [[c ts tu ty lm lb lw li rc sd dl bl wd ms st qt dn] gm gb].
  intros [Hli [r Hms]] Hs. simpl in Hli, Hms. subst li ms.
  destruct Hs as [(k & n' & Ht & ->)|(u & Hu & Hs)].
  - unfold turn, refill in Ht. cbn [l_missing s_node orb] in Ht. unfold run_case in Ht. destruct dn; [done|].
    unfold out_messages, out_blocks, stuck.
    destruct k; repeat (case_match; try done); simplify_eq/=;
      try (apply handled_inv in Ht as (c' & _ & ->)); simpl; rewrite ?app_nil_r; by split_and!.
  - unfold use in Hs. simpl in *. unfold out_messages, out_blocks, stuck.
    destruct u; try done; repeat case_match; simplify_eq/=; rewrite <- ?app_assoc; by split_and!.
Qed.

Lemma stuck_steps s s' : stuck s.(s_node) -> rtc deaf_step s s' ->
  out_messages s' = out_messages s /\ out_blocks s' = out_blocks s.
Proof.
  intros Hst Hs. induction Hs as [s|s1 s2 s3 Hd _ IH]; [done|].
  destruct (stuck_step _ _ Hst Hd) as (Hst2 & Em & Eb). destruct (IH Hst2). split; congruence.
Qed.

(** ** Theorems *)

(** C14: the loop is transparent.  In every run of the loop and its users (every run is
    a [script], [nsteps_script]) the replica is in the state in which the inputs [a]
    leave it, and [a] is what the run gave to it: an input for every turn of the
    select that is one, in the order of the turns; the messages are those that the
    users have put into the node, all of them in order but the one still in its
    channel, and so is the data.  What the users have received from [Messages] and
    [Blocks] is a prefix, in order, of what the replica has handed over under these
    inputs.  So nothing is lost, repeated, invented or reordered in either direction. *)
Theorem loop_refines_replica (c : consensus DB) l s : script (mkSystem (fresh_node c) [] []) l = Some s ->
  exists a w, serve (mkWorld c [] []) a = Some w /\ w.(w_c) = s.(s_node).(n_consensus)
    /\ select_of <$> inputs_of a = filter gives_input (turns l)
    /\ put_messages l = given_messages (inputs_of a) ++ option_list s.(s_node).(received)
    /\ put_data l = given_data (inputs_of a) ++ option_list s.(s_node).(send)
    /\ s.(got_messages) `prefix_of` w.(w_sent) /\ s.(got_blocks) `prefix_of` w.(w_events).
Proof.
  intros (a & [W O M D])%served_script. exists a, (abs s). split_and!; [exact W|done|exact O|exact M|exact D|by eexists|by eexists].
Qed.

(** C39: once a report of missing blocks is waiting behind a full channel that nobody
    reads, nothing new ever leaves the node: in every later state the messages
    and events received, in the channels or about to be put into them are the
    same. *)
Theorem missing_unread_silences s s' : stuck s.(s_node) -> rtc deaf_step s s' ->
  out_messages s' = out_messages s /\ out_blocks s' = out_blocks s
  /\ s'.(got_messages) `prefix_of` out_messages s.
Proof.
  intros Hst Hs. destruct (stuck_steps _ _ Hst Hs) as [Em Eb]. split_and!; [done..|].
  rewrite <- Em. by eexists.
Qed.
End NodeFacts.

Section IdentityFacts.
Context {Key : Type} `{EqDecision Key}.

Lemma own_index_absent (id : Key) i replicas rid : id ∉ replicas -> own_index id i replicas rid = rid.
Proof.
  revert i rid. induction replicas as [|r replicas IH]; intros i rid Hn; [done|]. simpl.
  rewrite decide_False by set_solver. apply IH. set_solver.
Qed.

Lemma own_index_lookup (id : Key) i replicas rid j : NoDup replicas -> replicas !! j = Some id ->
  own_index id i replicas rid = i + Z.of_nat j.
Proof.
  revert i rid j. induction replicas as [|r replicas IH]; intros i rid j Hnd Hj; [done|].
  apply list.NoDup_cons in Hnd as [Hr Hnd]. simpl. destruct j as [|j]; simpl in Hj.
  - injection Hj as ->. rewrite decide_True, own_index_absent by done. lia.
  - rewrite (IH _ _ j) by done. lia.
Qed.

(** A node whose key occurs once in the list of replicas takes its index there as
    its identity, with the replicas numbered from 0 in order. *)
Theorem NewNode_identity {DB} `{KVStore DB} (store : DB) (id : Key) replicas i n :
  NoDup replicas -> replicas !! i = Some id -> NewNode store id replicas = Ok n ->
  n.(n_consensus).(c_id) = Z.of_nat i
  /\ n.(n_consensus).(c_replicas) !! i = Some (Z.of_nat i)
  /\ len n.(n_consensus).(c_replicas) = len replicas.
Proof.
  intros Hnd Hi. unfold NewNode. intros (c & Hc & [= <-])%res_bind_Ok. cbn [fresh_node n_consensus].
  destruct (newConsensus_fields _ _ _ _ Hc) as [-> ->]. rewrite (own_index_lookup id 0 replicas 0 i) by done.
  unfold replica_ids, len. rewrite length_fmap, length_seq. split_and!; [lia| |done].
  apply lookup_lt_Some in Hi. by rewrite list_lookup_fmap, lookup_seq_lt.
Qed.
End IdentityFacts.

(** ** Witnesses *)

#[local] Instance signer1 : Signer := demo_signer 1.

Definition demo_system : system mem_db := mkSystem (fresh_node (demo 1)) [] [].

(** Replica 1 starts, is asked for data, proposes, and the users read its messages. *)
Definition propose_script : list op :=
  [Use UStart; Turn SStart; Turn SWaitingData; Use UReady;
   Use (USend (mkNodeData None (Some [x01]) (Some (mkData [])))); Turn SSend; Turn SMessages; Use UMessages].

Lemma loop_refines_replica_witness : exists (s : system mem_db) a (w : world mem_db),
  script demo_system propose_script = Some s /\ length s.(got_messages) = 2%nat
  /\ serve (mkWorld (demo 1) [] []) a = Some w
  /\ inputs_of a = [IStart; ISend None (Some [x01]) (Some (mkData []))]
  /\ s.(got_messages) `prefix_of` w.(w_sent).
Proof.
  assert (E : (fun s => (length (got_messages s), bool_decide (send s.(s_node) = None))) <$> script demo_system propose_script = Some (2%nat, true)) by (vm_compute; reflexivity).
  destruct (script demo_system propose_script) as [s|] eqn:Es; [|discriminate E]. apply (inj Some), pair_equal_spec in E as [E Ed].
  destruct (loop_refines_replica (demo 1) propose_script s Es) as (a & w & Hw & _ & Ho & _ & Hd & Hp & _).
  exists s, a, w. split; [reflexivity|]. split; [exact E|]. split; [exact Hw|]. split; [|exact Hp].
  apply bool_decide_eq_true in Ed. rewrite Ed in Hd. destruct (inputs_of a) as [|[|m|st rt d|] [|[|m'|st' rt' d'|] [|]]]; try discriminate Ho.
  simpl in Hd. injection Hd as <- <- <-. reflexivity.
Defined.

(** A proposal on a certified block that replica 1 does not have. *)
Definition unknown_hash : bytes := poly_hash [x05].
Definition orphan : Message :=
  NewProposalMsg (mkProposal (Some (mkHeader 3 (Some unknown_hash) 2 None None)) (Some (mkData [])) None
    (Some (mkCertificate (Some unknown_hash) (certify unknown_hash [0; 2; 3]%nat))) None).

Definition stuck_script : list op :=
  [Use UStart; Turn SStart; Turn SWaitingData; Use (UStep orphan); Turn SReceived; Turn SMissing; Turn STick].
Definition later_script : list op := replicate 6 (Turn STick).

Lemma missing_unread_silences_witness : exists s s' : system mem_db,
  script demo_system stuck_script = Some s /\ script s later_script = Some s'
  /\ length s'.(s_node).(n_consensus).(c_Progress).(Messages) = 2%nat /\ out_messages s' = out_messages s.
Proof.
  assert (E : (fun s => (s.(s_node).(l_missing), bool_decide (is_Some s.(s_node).(missing)),
                 (fun s' => length s'.(s_node).(n_consensus).(c_Progress).(Messages)) <$> script s later_script))
              <$> script demo_system stuck_script = Some (true, true, Some 2%nat)) by (vm_compute; reflexivity).
  destruct (script demo_system stuck_script) as [s|]; [|discriminate E].
  cbn [fmap option_fmap option_map] in E. apply (inj Some) in E.
  destruct (script s later_script) as [s'|] eqn:Es; [|discriminate E].
  apply pair_equal_spec in E as [[El Em]%pair_equal_spec Ep]. apply (inj Some) in Ep.
  apply bool_decide_eq_true in Em. exists s, s'. split; [reflexivity|]. split; [exact Es|]. split; [exact Ep|].
  apply (missing_unread_silences s s'); [split; [exact El|exact Em]|].
  apply (script_rtc deaf_step (fun o => o <> Use UMissing) do_op_deaf later_script s s'); [|exact Es].
  repeat constructor; discriminate.
Defined.

Lemma NewNode_identity_witness : exists n,
  NewNode demo_store 30%nat [10; 20; 30; 40]%nat = Ok n /\ n.(n_consensus).(c_id) = 2.
Proof.
  assert (E : is_ok (NewNode demo_store 30%nat [10; 20; 30; 40]%nat) = true) by (vm_compute; reflexivity).
  destruct (NewNode demo_store 30%nat [10; 20; 30; 40]%nat) as [n| |] eqn:En; [|discriminate E..].
  exists n. split; [reflexivity|].
  apply (NewNode_identity demo_store 30%nat [10; 20; 30; 40]%nat 2 n); [|reflexivity|exact En].
  apply (bool_decide_eq_true_1 (NoDup [10; 20; 30; 40]%nat)). reflexivity.
Defined.
