(* ===== verification/Net.v ===== *)
(** * hotstuff-node: framing and the identity handshake

    A TCP connection is the list of the bytes that will still be read from it
    before it is closed or the connection is cancelled.  [listen] is the loop of
    [listenForMessages] over such a stream, [sendMessages] what is written for a
    sequence of messages; between them messages travel unchanged.  A new
    connection starts with an exchange of decimal identities,
    [handleConnection], whose result indexes the array of channels. *)

From Stdlib Require Import ZArith Lia.
From S2P Require Import Prelude Wire Types Proto Codec CodecSpec Encoding Crypto Store Quorum Progress Consensus Instances.

(** ** bytes_encoding.go *)

Definition BYTES_ARRAY_PREFIX_LENGTH : nat := 4.

(** [binary.BigEndian.PutUint32(_, uint32(length))] *)
Definition length_prefix (b : bytes) : bytes := be_bytes BYTES_ARRAY_PREFIX_LENGTH (len b mod 2 ^ 32).

Definition toByteArray (msg : bytes) : bytes := length_prefix msg ++ msg.
Definition augmentByteArrayWithLength (msg : bytes) : bytes := length_prefix msg ++ msg.

(** [binary.BigEndian.Uint32] panics on fewer than four bytes. *)
Definition getMsgLength (b : bytes) : res Z :=
  if len b <? 4 then Panic OutOfRange else Ok (be_value (take 4 b)).

(** [io.ReadFull] of [n] bytes: [None] is an error, the stream being too short. *)
Definition ReadFull (n : nat) (stream : bytes) : option (bytes * bytes) :=
  if (n <=? length stream)%nat then Some (take n stream, drop n stream) else None.

Definition getMessageFromReader (stream : bytes) : res (bytes * bytes) :=
  match ReadFull BYTES_ARRAY_PREFIX_LENGTH stream with
  | None => Err ErrReadLength
  | Some (length_buf, rest) =>
      n ← getMsgLength length_buf;
      match ReadFull (Z.to_nat n) rest with
      | None => Err ErrReadBody
      | Some (msg_buf, rest') => Ok (msg_buf, rest')
      end
  end.

(** ** tcpNode.go *)

(** The loop of [listenForMessages] until the connection ends: the messages put
    into [inMsgsChan] and the result.  The error of [Unmarshal] is dropped and
    the message goes on as far as it was read. *)
Fixpoint listen (fuel : nat) (stream : bytes) : list Message * res unit :=
  match fuel with
  | O => ([], Panic OutOfFuel)
  | S fuel =>
      match getMessageFromReader stream with
      | Err e => ([], Err e)
      | Panic c => ([], Panic c)
      | Ok (msg_bytes, rest) =>
          match Unmarshal (zero : Message) msg_bytes with
          | (_, Panic c) => ([], Panic c)
          | (msg, _) => let '(msgs, r) := listen fuel rest in (msg :: msgs, r)
          end
      end
  end.
Definition listenForMessages (stream : bytes) : list Message * res unit := listen (S (length stream)) stream.

(** What [sendMessages] writes for one message, [bytes, _ := msg.Marshal()], and
    for a sequence. *)
Definition sent_one (msg : Message) : res bytes :=
  match Marshal msg with
  | Ok b => Ok (augmentByteArrayWithLength b)
  | Err _ => Ok (augmentByteArrayWithLength [])
  | Panic c => Panic c
  end.
Fixpoint sendMessages (msgs : list Message) : res bytes :=
  match msgs with
  | [] => Ok []
  | m :: msgs => b ← sent_one m; rest ← sendMessages msgs; mret (b ++ rest)
  end.

(** [strconv.Itoa] of a non-negative int. *)
Definition digit (d : Z) : byte := byte_of_Z (48 + d).
Fixpoint decimal (fuel : nat) (z : Z) : bytes :=
  match fuel with
  | O => []
  | S fuel => if z <? 10 then [digit z] else decimal fuel (z / 10) ++ [digit (z mod 10)]
  end.
Definition Itoa (z : Z) : bytes := decimal 19 z.

(** [strconv.Atoi]: an optional sign and decimal digits, in the range of an int. *)
Definition digit_value (b : byte) : option Z :=
  let v := Z_of_byte b - 48 in if (0 <=? v) && (v <=? 9) then Some v else None.
Fixpoint atoi_loop (acc : Z) (b : bytes) : option Z :=
  match b with
  | [] => Some acc
  | x :: b => v ← digit_value x; atoi_loop (acc * 10 + v) b
  end.
Definition in_int (z : Z) : option Z := if (- two63 <=? z) && (z <? two63) then Some z else None.
Definition Atoi (b : bytes) : option Z :=
  match b with
  | [] => None
  | x :: b' =>
      if bool_decide (x = x2b) then match b' with [] => None | _ => atoi_loop 0 b' ≫= in_int end
      else if bool_decide (x = x2d) then match b' with [] => None | _ => z ← atoi_loop 0 b'; in_int (- z) end
      else atoi_loop 0 b ≫= in_int
  end.

(** What is written, and the peer's identity read from its stream. *)
Definition exchangeIDs (myID : Z) (stream : bytes) : bytes * res (Z * bytes) :=
  (toByteArray (Itoa myID),
   match getMessageFromReader stream with
   | Ok (msg_bytes, rest) => match Atoi msg_bytes with Some id => Ok (id, rest) | None => Err ErrAtoi end
   | Err e => Err e
   | Panic c => Panic c
   end).

Definition NUMBER_OF_NODES : Z := 4.

(** [outMsgsChan := arrayOfChannels[yourID]], an array of [NUMBER_OF_NODES]
    channels: the channel that [sendMessages] drains, and what the goroutine that
    listens makes of the rest of the stream. *)
Definition handleConnection (myID : Z) (stream : bytes) : res (Z * (list Message * res unit)) :=
  '(yourID, rest) ← snd (exchangeIDs myID stream);
  if (0 <=? yourID) && (yourID <? NUMBER_OF_NODES) then Ok (yourID, listenForMessages rest)
  else Panic OutOfRange.

(** ** Frames *)

Lemma ReadFull_app n b rest : length b = n -> ReadFull n (b ++ rest) = Some (b, rest).
Proof.
  intros <-. unfold ReadFull. rewrite length_app, (proj2 (Nat.leb_le _ _)) by lia.
  by rewrite take_app_length, drop_app_length.
Qed.
Lemma ReadFull_short n b : (length b < n)%nat -> ReadFull n b = None.
Proof. intros Hl. unfold ReadFull. by rewrite (proj2 (Nat.leb_gt _ _)). Qed.
Lemma ReadFull_Some n s b rest : ReadFull n s = Some (b, rest) -> s = b ++ rest /\ length b = n.
Proof.
  unfold ReadFull. destruct (n <=? length s)%nat eqn:E; [|done]. intros [= <- <-].
  apply Nat.leb_le in E. by rewrite take_drop, length_take, Nat.min_l.
Qed.

Lemma getMsgLength_prefix b : len b < 2 ^ 32 -> getMsgLength (length_prefix b) = Ok (len b).
Proof.
  intros Hb. pose proof (len_nonneg b). unfold getMsgLength, length_prefix, len at 1. rewrite length_be_bytes.
  change (Z.of_nat BYTES_ARRAY_PREFIX_LENGTH <? 4) with false. cbv iota.
  rewrite take_ge by (by rewrite length_be_bytes). rewrite (Z.mod_small (len b)) by lia.
  rewrite be_value_bytes by lia. f_equal. by apply Z.mod_small.
Qed.

Lemma read_frame b rest : len b < 2 ^ 32 -> getMessageFromReader (toByteArray b ++ rest) = Ok (b, rest).
Proof.
  intros Hb. unfold getMessageFromReader, toByteArray. rewrite <- app_assoc, ReadFull_app by apply length_be_bytes.
  rewrite getMsgLength_prefix by done. cbn [mbind res_bind]. rewrite ReadFull_app; [done|]. unfold len. by rewrite Nat2Z.id.
Qed.

(** A frame that is cut short is not read. *)
Lemma read_frame_cut b k : len b < 2 ^ 32 -> (k < length (toByteArray b))%nat ->
  exists e, getMessageFromReader (take k (toByteArray b)) = Err e.
Proof.
  intros Hb Hk. unfold getMessageFromReader, toByteArray in *. rewrite length_app in Hk.
  pose proof (length_be_bytes BYTES_ARRAY_PREFIX_LENGTH (len b mod 2 ^ 32)) as Hp. fold (length_prefix b) in Hp.
  destruct (decide (k < BYTES_ARRAY_PREFIX_LENGTH)%nat) as [Hs|Hs].
  - rewrite ReadFull_short by (rewrite length_take; lia). by eexists.
  - rewrite take_app_ge by lia. rewrite ReadFull_app, getMsgLength_prefix by done. cbn [mbind res_bind].
    rewrite ReadFull_short by (rewrite length_take; unfold len; lia). by eexists.
Qed.

Lemma getMsgLength_range b n : getMsgLength b = Ok n -> 0 <= n < 2 ^ 32.
Proof.
  unfold getMsgLength. destruct (len b <? 4); [done|]. intros [= <-].
  destruct (be_value_range (take 4 b)) as [Hl Hu]. split; [done|]. eapply Z.lt_le_trans; [exact Hu|].
  apply Z.pow_le_mono_r; [lia|]. unfold len. rewrite length_take. lia.
Qed.

(** What is read is shorter than 4 GB, and leaves less to read. *)
Lemma read_shorter s b rest : getMessageFromReader s = Ok (b, rest) ->
  len b < 2 ^ 32 /\ (length rest < length s)%nat.
Proof.
  unfold getMessageFromReader. destruct (ReadFull BYTES_ARRAY_PREFIX_LENGTH s) as [[pre r]|] eqn:E1; [|done].
  intros (n & Hn%getMsgLength_range & Hr)%res_bind_Ok.
  destruct (ReadFull (Z.to_nat n) r) as [[b' r']|] eqn:E2; [|done]. injection Hr as -> ->.
  apply ReadFull_Some in E1 as [-> E1], E2 as [-> E2]. rewrite !length_app, E1. unfold len, BYTES_ARRAY_PREFIX_LENGTH. lia.
Qed.

Lemma read_no_panic s : is_panic (getMessageFromReader s) = false.
Proof.
  unfold getMessageFromReader. destruct (ReadFull BYTES_ARRAY_PREFIX_LENGTH s) as [[pre r]|] eqn:E1; [|done].
  apply ReadFull_Some in E1 as [_ E1]. unfold getMsgLength, len. rewrite E1. simpl. by destruct (ReadFull _ r) as [[??]|].
Qed.

(** ** Streams *)

(** A message the format can frame. *)
Definition framable (m : Message) : Prop := good m /\ len (encoding m) < 2 ^ 32.

(** The bytes of a sequence of messages on the wire. *)
Definition stream_of (msgs : list Message) : bytes := concat ((toByteArray ∘ encoding) <$> msgs).

Lemma sendMessages_stream msgs : Forall framable msgs -> sendMessages msgs = Ok (stream_of msgs).
Proof.
  induction 1 as [|m msgs [Hm _] _ IH]; [done|]. cbn [sendMessages]. unfold sent_one.
  rewrite marshal_encoding by done. cbn [mbind res_bind]. by rewrite IH.
Qed.

Lemma listen_frame fuel m rest : framable m ->
  listen (S fuel) (toByteArray (encoding m) ++ rest)
  = (canon m :: fst (listen fuel rest), snd (listen fuel rest)).
Proof.
  intros [[Hw Hf] Hl]. cbn [listen]. rewrite read_frame by done. unfold encoding.
  rewrite law_unmarshal by done. by destruct (listen fuel rest).
Qed.

Lemma frame_nonempty b : (0 < length (toByteArray b))%nat.
Proof. unfold toByteArray, length_prefix. rewrite length_app, length_be_bytes. unfold BYTES_ARRAY_PREFIX_LENGTH. lia. Qed.

Lemma listen_stream fuel msgs : Forall framable msgs -> (length (stream_of msgs) < fuel)%nat ->
  listen fuel (stream_of msgs) = (canon <$> msgs, Err ErrReadLength).
Proof.
  intros Hm. revert fuel. induction Hm as [|m msgs Hm _ IH]; intros [|fuel] Hf; try (simpl in Hf; lia); [done|].
  change (stream_of (m :: msgs)) with (toByteArray (encoding m) ++ stream_of msgs) in *.
  rewrite length_app in Hf. pose proof (frame_nonempty (encoding m)). rewrite listen_frame, IH by (done || lia). done.
Qed.

(** [j] messages fit into the first [k] bytes, and no more. *)
Definition complete_frames (msgs : list Message) (k j : nat) : Prop :=
  (length (stream_of (take j msgs)) <= k)%nat
  /\ ((j < length msgs)%nat -> (k < length (stream_of (take (S j) msgs)))%nat).

Lemma listen_cut fuel msgs k : Forall framable msgs -> (k `min` length (stream_of msgs) < fuel)%nat ->
  exists j e, listen fuel (take k (stream_of msgs)) = (canon <$> take j msgs, Err e) /\ complete_frames msgs k j.
Proof.
  intros Hm. revert fuel k. induction Hm as [|m msgs Hm _ IH]; intros [|fuel] k Hf; try lia.
  { exists 0%nat, ErrReadLength. change (stream_of []) with (@nil byte). rewrite (take_nil k). split; [done|]. split; simpl; lia. }
  change (stream_of (m :: msgs)) with (toByteArray (encoding m) ++ stream_of msgs) in *. rewrite length_app in Hf.
  destruct (decide (k < length (toByteArray (encoding m)))%nat) as [Hk|Hk].
  - rewrite take_app_le by lia. destruct (read_frame_cut (encoding m) k (proj2 Hm) Hk) as [e He].
    exists 0%nat, e. cbn [listen]. rewrite He. split; [done|]. split; [simpl; lia|]. intros _.
    change (stream_of (take 1 (m :: msgs))) with (toByteArray (encoding m) ++ []). by rewrite app_nil_r.
  - pose proof (frame_nonempty (encoding m)). rewrite take_app_ge, listen_frame by (done || lia).
    destruct (IH fuel (k - length (toByteArray (encoding m)))%nat) as (j & e & -> & [Hle Hlt]); [lia|].
    exists (S j), e. split; [done|].
    split; [change (stream_of (take (S j) (m :: msgs))) with (toByteArray (encoding m) ++ stream_of (take j msgs))
           |change (stream_of (take (S (S j)) (m :: msgs))) with (toByteArray (encoding m) ++ stream_of (take (S j) msgs))];
      rewrite length_app; cbn [length]; lia.
Qed.

Lemma listen_safe fuel s : (length s < fuel)%nat ->
  Forall Message_wf (fst (listen fuel s)) /\ is_panic (snd (listen fuel s)) = false.
Proof.
  revert s. induction fuel as [|fuel IH]; intros s Hs; [lia|]. cbn [listen].
  destruct (getMessageFromReader s) as [[b rest]|e|c] eqn:E; [|by split; [constructor|]|].
  - destruct (read_shorter _ _ _ E) as [Hb Hr]. assert (2 ^ 32 < two63) by done.
    destruct (law_safe (zero : Message) b ltac:(lia) law_wf_zero) as [Hw Hp].
    destruct (Unmarshal zero b) as [msg r]. destruct (IH rest ltac:(lia)) as [Hm Hn].
    destruct (listen fuel rest) as [msgs res]. by destruct r; simpl in *; split; try done; constructor.
  - pose proof (read_no_panic s) as Hn. by rewrite E in Hn.
Qed.

(** ** Identities *)

Lemma digit_value_digit d : 0 <= d <= 9 -> digit_value (digit d) = Some d.
Proof.
  intros Hd. unfold digit_value, digit. rewrite Z_of_byte_of_Z, Z.mod_small by lia.
  replace (48 + d - 48) with d by lia. by rewrite (proj2 (Z.leb_le 0 d)), (proj2 (Z.leb_le d 9)) by lia.
Qed.

Lemma atoi_loop_app a b1 b2 v : atoi_loop a b1 = Some v -> atoi_loop a (b1 ++ b2) = atoi_loop v b2.
Proof.
  revert a. induction b1 as [|x b1 IH]; intros a; simpl; [by intros [= <-]|].
  destruct (digit_value x); simpl; [apply IH|done].
Qed.

Lemma atoi_decimal n z : 0 <= z < 10 ^ Z.of_nat n -> atoi_loop 0 (decimal n z) = Some z.
Proof.
  revert z. induction n as [|n IH]; intros z Hz; [change (10 ^ Z.of_nat 0) with 1 in Hz; simpl; f_equal; lia|].
  cbn [decimal]. destruct (z <? 10) eqn:E; zbool.
  - cbn [atoi_loop]. rewrite digit_value_digit by lia. simpl. by f_equal.
  - rewrite Nat2Z.inj_succ, Z.pow_succ_r in Hz by lia.
    rewrite (atoi_loop_app _ _ _ (z / 10)) by (apply IH; split; [apply Z.div_pos|apply Z.div_lt_upper_bound]; lia).
    pose proof (Z.mod_pos_bound z 10 ltac:(lia)). cbn [atoi_loop]. rewrite digit_value_digit by lia. simpl.
    f_equal. pose proof (Z.div_mod z 10 ltac:(lia)). lia.
Qed.

(** A decimal number starts with a digit. *)
Lemma decimal_head n z : 0 <= z -> exists d rest, 0 <= d <= 9 /\ decimal (S n) z = digit d :: rest.
Proof.
  revert z. induction n as [|n IH]; intros z Hz; cbn [decimal]; (destruct (z <? 10) eqn:E; zbool; [exists z, []; split; [lia|done]|]).
  - exists (z mod 10), []. split; [|done]. pose proof (Z.mod_pos_bound z 10 ltac:(lia)). lia.
  - destruct (IH (z / 10)) as (d & rest & Hd & Er); [by apply Z.div_pos|].
    exists d, (rest ++ [digit (z mod 10)]). split; [done|]. cbn [decimal] in Er. by rewrite Er.
Qed.

Lemma Atoi_Itoa z : 0 <= z < two63 -> Atoi (Itoa z) = Some z.
Proof.
  intros Hz. unfold Itoa. assert (Hl : atoi_loop 0 (decimal 19 z) = Some z).
  { apply atoi_decimal. assert (two63 < 10 ^ Z.of_nat 19) by done. lia. }
  destruct (decimal_head 18 z ltac:(lia)) as (d & rest & Hd & E). rewrite E in *. unfold Atoi.
  assert (Hne : forall b, Z_of_byte b < 48 -> digit d <> b).
  { intros b Hb <-. unfold digit in Hb. rewrite Z_of_byte_of_Z, Z.mod_small in Hb by lia. lia. }
  rewrite !bool_decide_eq_false_2 by (by apply Hne). rewrite Hl. simpl. unfold in_int.
  by rewrite (proj2 (Z.leb_le _ _)), (proj2 (Z.ltb_lt _ _)) by lia.
Qed.

Lemma length_decimal n z : (length (decimal n z) <= n)%nat.
Proof.
  revert z. induction n as [|n IH]; intros z; simpl; [lia|]. destruct (z <? 10); [simpl; lia|].
  rewrite length_app. simpl. specialize (IH (z / 10)). lia.
Qed.

(** What a connection that starts with the frame [b] leads to. *)
Lemma handleConnection_frame myID b rest : len b < 2 ^ 32 ->
  handleConnection myID (toByteArray b ++ rest) =
  match Atoi b with
  | None => Err ErrAtoi
  | Some z => if (0 <=? z) && (z <? NUMBER_OF_NODES) then Ok (z, listenForMessages rest) else Panic OutOfRange
  end.
Proof.
  intros Hb. unfold handleConnection, exchangeIDs. cbn [snd]. rewrite read_frame by done. by destruct (Atoi b).
Qed.

(** ** Theorems *)

(** C11: messages written by [sendMessages] arrive in order and complete.  If the
    connection ends after [k] bytes the reader has received exactly the messages
    whose last byte was among them, and stops with an error. *)
Theorem stream_delivers msgs k : Forall framable msgs ->
  exists stream, sendMessages msgs = Ok stream
  /\ listenForMessages stream = (canon <$> msgs, Err ErrReadLength)
  /\ exists j e, listenForMessages (take k stream) = (canon <$> take j msgs, Err e) /\ complete_frames msgs k j.
Proof.
  intros Hm. exists (stream_of msgs). split_and!; [by apply sendMessages_stream|by apply listen_stream; [|lia]|].
  apply listen_cut; [done|]. rewrite length_take. lia.
Qed.

(** Whatever a peer writes after the handshake, the listening goroutine
    neither panics nor loops: it hands over well-formed messages until it stops
    with an error, also when [Unmarshal] fails, whose error is dropped. *)
Theorem listen_total stream :
  Forall Message_wf (fst (listenForMessages stream)) /\ is_panic (snd (listenForMessages stream)) = false.
Proof. apply listen_safe. lia. Qed.

(** A peer that announces itself as [j] is registered as [j] and its messages
    are read from the rest of the stream, if [j] is the identity of a node; any
    other number kills the process. *)
Theorem handshake_identifies myID j rest : 0 <= j < two63 ->
  handleConnection myID (fst (exchangeIDs j []) ++ rest)
  = if j <? NUMBER_OF_NODES then Ok (j, listenForMessages rest) else Panic OutOfRange.
Proof.
  intros Hj. unfold exchangeIDs. cbn [fst]. rewrite handleConnection_frame, Atoi_Itoa by
    (done || (unfold len; pose proof (length_decimal 19 j); unfold Itoa; lia)).
  by rewrite (proj2 (Z.leb_le _ _)) by lia.
Qed.

(** ** Witnesses *)

Lemma demo_framable : framable demo_message.
Proof. split; [apply demo_message_good|]. vm_compute. reflexivity. Defined.

(** Two messages, cut in the middle of the second. *)
Lemma stream_delivers_witness : exists stream, sendMessages [demo_message; demo_message] = Ok stream
  /\ listenForMessages stream = ([canon demo_message; canon demo_message], Err ErrReadLength).
Proof.
  destruct (stream_delivers [demo_message; demo_message] 40) as (s & Hs & Hl & _).
  - apply Forall_cons; [apply demo_framable|]. apply Forall_cons; [apply demo_framable|constructor].
  - exists s. split; [exact Hs|exact Hl].
Defined.

Lemma handshake_identifies_witness :
  handleConnection 0 (toByteArray [x37]) = Panic OutOfRange
  /\ handleConnection 0 (toByteArray [x33]) = Ok (3, ([], Err ErrReadLength)).
Proof.
  split.
  - apply (handshake_identifies 0 7 []). vm_compute. split; [discriminate|reflexivity].
  - apply (handshake_identifies 0 3 []). vm_compute. split; [discriminate|reflexivity].
Defined.
