(* ===== verification/Ledger.v ===== *)
(** * An abstract ledger of votes, and why it cannot fork

    The ledger is the list of the votes that correct replicas have cast, newest
    first.  [lawful] says when a vote may be added: above all earlier votes of its
    voter, on a parent that a quorum has voted for, and in accordance with a lock
    that is at least as high as the grandparent of every block the voter has
    voted for.  A block with two certified descendants in the next two views is
    final, and of two final blocks one descends from the other.

    Blocks are named by their hashes; [blk] is the tree they form, giving the view
    and the parent of a name. *)

From Stdlib Require Import ZArith Lia.
From stdpp Require Import relations.
From S2P Require Import Prelude Quorum.

(** ** Quorums *)

Section Quorums.
Context (replicas : list Z) (correct : Z -> bool).

(** Less than a third of the replicas is faulty. *)
Definition faulty_minority : Prop :=
  NoDup replicas /\ 3 * len (filter (fun r => correct r = false) replicas) < len replicas.

Definition quorum (Q : list Z) : Prop :=
  NoDup Q /\ Q ⊆ replicas /\ quorum_size (len replicas) <= len Q.

Lemma NoDup_subseteq_len (l k : list Z) : NoDup l -> l ⊆ k -> len l <= len k.
Proof. intros Hn Hs. unfold len. apply inj_le, submseteq_length, NoDup_submseteq; done. Qed.

(** Two quorums have a correct replica in common. *)
Lemma quorum_meet Q1 Q2 : faulty_minority -> quorum Q1 -> quorum Q2 ->
  exists r, r ∈ Q1 /\ r ∈ Q2 /\ correct r = true.
Proof.
  intros [Hnd Hf] (N1 & S1 & L1) (N2 & S2 & L2).
  destruct (list_exist_dec (fun r => r ∈ Q2 /\ correct r = true) Q1) as [(r & ? & ? & ?)|Hno].
  { intros r. apply _. } { by exists r. }
  exfalso. set (P := fun r => r ∈ Q2). set (I := filter P Q1). set (D := filter (fun r => ~ P r) Q1).
  assert (HD : len Q1 = len I + len D).
  { unfold len. rewrite <- Nat2Z.inj_add, <- length_app. f_equal.
    apply Permutation_length. symmetry. apply (filter_app_complement P). }
  assert (HI : len I <= len (filter (fun r => correct r = false) replicas)).
  { apply NoDup_subseteq_len; [by apply list.NoDup_filter|]. intros r [Hr2 Hr1]%list_elem_of_filter.
    apply list_elem_of_filter. split; [|by apply S1]. destruct (correct r) eqn:E; [|done].
    exfalso. apply Hno. by exists r. }
  assert (HU : len (D ++ Q2) <= len replicas).
  { apply NoDup_subseteq_len.
    - apply list.NoDup_app. split_and!; [by apply list.NoDup_filter| |done]. by intros r [? _]%list_elem_of_filter.
    - intros r [[_ Hr]%list_elem_of_filter|Hr]%elem_of_app; [by apply S1|by apply S2]. }
  rewrite len_app in HU. unfold quorum_size in *.
  pose proof (Z.div_mod (2 * len replicas) 3 ltac:(lia)). pose proof (Z.mod_pos_bound (2 * len replicas) 3 ltac:(lia)). lia.
Qed.
End Quorums.

(** ** The tree of blocks *)

Section Ledger.
Context (blk : bytes -> option (Z * bytes)) (root : bytes).
Context (replicas : list Z) (correct : Z -> bool).

(** [k] is a block of view [v]; [k]'s parent is [p]. *)
Definition at_view (k : bytes) (v : Z) : Prop := exists p, blk k = Some (v, p).
Definition child (k p : bytes) : Prop := exists v, blk k = Some (v, p).
Definition descends : bytes -> bytes -> Prop := rtc child.

Lemma at_view_inj k v1 v2 : at_view k v1 -> at_view k v2 -> v1 = v2.
Proof. intros [p1 E1] [p2 E2]. congruence. Qed.
Lemma child_inj k p1 p2 : child k p1 -> child k p2 -> p1 = p2.
Proof. intros [v1 E1] [v2 E2]. congruence. Qed.
Lemma at_view_child k v p : blk k = Some (v, p) -> at_view k v /\ child k p.
Proof. intros E. by split; eexists. Qed.

(** ** Votes *)

Record cast : Type := mkCast { voter : Z; block : bytes }.
#[global] Instance cast_eq_dec : EqDecision cast.
Proof. solve_decision. Defined.

Implicit Types (L : list cast) (e : cast) (k : bytes).

(** The correct members of a quorum have voted for [k]. *)
Definition backed L k : Prop :=
  exists Q, quorum replicas Q /\ forall r, r ∈ Q -> correct r = true -> mkCast r k ∈ L.
Definition certd L k : Prop := k = root \/ backed L k.

(** The lock [l], of view [lv], respects what [r] has voted for. *)
Definition guards (lv : Z) L (r : Z) : Prop := forall e p g vg,
  e ∈ L -> voter e = r -> child (block e) p -> child p g -> at_view g vg -> vg <= lv.

(** [r] may vote for [k], of view [v], after the votes of [L]. *)
Record lawful L (r : Z) k (v : Z) : Prop := {
  law_above : forall e v', e ∈ L -> voter e = r -> at_view (block e) v' -> v' < v;
  law_genesis : forall v0, at_view root v0 -> v0 < v;
  law_parent : exists p l lv, blk k = Some (v, p) /\ certd L p
    /\ certd L l /\ at_view l lv /\ guards lv L r
    /\ (p = l \/ exists vp, at_view p vp /\ lv < vp);
}.

Inductive Lawful : list cast -> Prop :=
| Lawful_nil : Lawful []
| Lawful_cons L e v : Lawful L -> lawful L (voter e) (block e) v -> Lawful (e :: L).

(** [b] has a child and a grandchild in the next two views, the latter certified. *)
Definition final_under (B : bytes -> Prop) (b : bytes) : Prop := exists d c v vd,
  B d /\ blk d = Some (vd, c) /\ blk c = Some (v + 1, b) /\ at_view b v /\ vd = v + 2.
Definition final L : bytes -> Prop := final_under (certd L).

(** ** Monotonicity *)

Lemma backed_mono L L' k : L ⊆ L' -> backed L k -> backed L' k.
Proof. intros HL (Q & HQ & Hv). exists Q. split; [done|]. intros r Hr Hc. by apply HL, Hv. Qed.
Lemma certd_mono L L' k : L ⊆ L' -> certd L k -> certd L' k.
Proof. intros HL [->|Hb]; [by left|right; by eapply backed_mono]. Qed.
Lemma final_mono L L' b : L ⊆ L' -> final L b -> final L' b.
Proof. intros HL (d & c & v & vd & Hd & Hrest). exists d, c, v, vd. split; [by eapply certd_mono|done]. Qed.

Lemma Lawful_app A T : Lawful (A ++ T) -> Lawful T.
Proof. induction A as [|e A IH]; [done|]. intros HL. inversion_clear HL. auto. Qed.

Lemma Lawful_split L e : Lawful L -> e ∈ L ->
  exists A T v, L = A ++ e :: T /\ Lawful T /\ lawful T (voter e) (block e) v.
Proof.
  intros HL (A & T & ->)%list_elem_of_split. pose proof (Lawful_app _ _ HL) as HT.
  inversion_clear HT as [|? ? v HL' Hl]. by exists A, T, v.
Qed.

Lemma lawful_view L r k v : lawful L r k v -> at_view k v.
Proof. intros [_ _ (p & l & lv & E & _)]. by exists p. Qed.

(** A vote with a smaller view is an earlier one. *)
Lemma vote_order A T e e' v v' : Lawful (A ++ e :: T) -> e' ∈ A ++ e :: T -> voter e' = voter e ->
  at_view (block e) v -> at_view (block e') v' -> v' < v -> e' ∈ T.
Proof.
  intros HL Hin Hr Hv Hv' Hlt. apply elem_of_app in Hin as [Hin|[->|Hin]%list.elem_of_cons]; [| |done].
  - exfalso. destruct (list_elem_of_split _ _ Hin) as (A1 & A2 & ->). rewrite <- app_assoc in HL. simpl in HL.
    apply Lawful_app in HL. inversion_clear HL as [|? ? v1 _ Hl].
    pose proof (at_view_inj _ _ _ Hv' (lawful_view _ _ _ _ Hl)) as <-.
    pose proof (law_above _ _ _ _ Hl e v). rewrite elem_of_app, list.elem_of_cons in H. naive_solver lia.
  - pose proof (at_view_inj _ _ _ Hv Hv'). lia.
Qed.

(** A replica votes for one block per view. *)
Lemma one_vote_per_view L e e' v : Lawful L -> e ∈ L -> e' ∈ L -> voter e = voter e' ->
  at_view (block e) v -> at_view (block e') v -> e = e'.
Proof.
  intros HL He He' Hr Hv Hv'. destruct (Lawful_split _ _ HL He) as (A & T & v1 & -> & HT & Hl).
  pose proof (at_view_inj _ _ _ Hv (lawful_view _ _ _ _ Hl)) as <-.
  apply elem_of_app in He' as [Hin|[->|Hin]%list.elem_of_cons]; [|done|].
  - destruct (list_elem_of_split _ _ Hin) as (A1 & A2 & ->). rewrite <- app_assoc in HL. simpl in HL.
    apply Lawful_app in HL. inversion_clear HL as [|? ? v2 _ Hl2].
    pose proof (at_view_inj _ _ _ Hv' (lawful_view _ _ _ _ Hl2)) as <-.
    pose proof (law_above _ _ _ _ Hl2 e v). rewrite elem_of_app, list.elem_of_cons in H. naive_solver lia.
  - pose proof (law_above _ _ _ _ Hl e' v Hin). naive_solver lia.
Qed.

(** ** Certified blocks *)

Context (Hmin : faulty_minority replicas correct).

(** Two certified blocks have a voter in common. *)
Lemma backed_meet L1 L2 k1 k2 : backed L1 k1 -> backed L2 k2 ->
  exists r, mkCast r k1 ∈ L1 /\ mkCast r k2 ∈ L2.
Proof.
  intros (Q1 & HQ1 & V1) (Q2 & HQ2 & V2).
  destruct (quorum_meet _ _ Q1 Q2 Hmin HQ1 HQ2) as (r & H1 & H2 & Hc). exists r. auto.
Qed.

Lemma backed_lawful L k : Lawful L -> backed L k -> exists T r v, T ⊆ L /\ lawful T r k v.
Proof.
  intros HL Hb. destruct (backed_meet _ _ _ _ Hb Hb) as (r & Hr & _).
  destruct (Lawful_split _ _ HL Hr) as (A & T & v & -> & _ & Hl). exists T, r, v. split; [set_solver|done].
Qed.

Lemma backed_above_root L k v v0 : Lawful L -> backed L k -> at_view k v -> at_view root v0 -> v0 < v.
Proof.
  intros HL Hb Hv Hv0. destruct (backed_lawful _ _ HL Hb) as (T & r & v1 & _ & Hl).
  rewrite (at_view_inj _ _ _ Hv (lawful_view _ _ _ _ Hl)). exact (law_genesis _ _ _ _ Hl v0 Hv0).
Qed.

(** At most one certified block per view. *)
Lemma certd_unique L k1 k2 v : Lawful L -> certd L k1 -> certd L k2 ->
  at_view k1 v -> at_view k2 v -> k1 = k2.
Proof.
  intros HL [->|H1] [->|H2] V1 V2; [done|..].
  - pose proof (backed_above_root _ _ _ _ HL H2 V2 V1). lia.
  - pose proof (backed_above_root _ _ _ _ HL H1 V1 V2). lia.
  - destruct (backed_meet _ _ _ _ H1 H2) as (r & C1 & C2).
    pose proof (one_vote_per_view _ _ _ v HL C1 C2 eq_refl V1 V2). congruence.
Qed.

(** The oldest vote for [k]. *)
Lemma oldest_vote L k : Exists (fun e => block e = k) L ->
  exists A e T, L = A ++ e :: T /\ block e = k /\ forall e', e' ∈ T -> block e' <> k.
Proof.
  induction L as [|e L IH]; [by inversion 1|]. intros Hex.
  destruct (decide (Exists (fun e => block e = k) L)) as [HL|HL].
  - destruct (IH HL) as (A & e1 & T & -> & Hrest). by exists (e :: A), e1, T.
  - exists [], e, L. inversion Hex as [? ? He|? ? He]; subst; [|done]. split_and!; [done..|].
    intros e' Hin E. apply HL, list.Exists_exists. by exists e'.
Qed.

(** The parent of a certified block is certified, in a lower view: the oldest vote
    for the block was cast when a quorum had voted for the parent. *)
Lemma certd_parent L k v p : Lawful L -> backed L k -> blk k = Some (v, p) ->
  certd L p /\ exists vp, at_view p vp /\ vp < v.
Proof.
  intros HL Hb Hk. pose proof Hb as (r & Hr & _)%(backed_meet _ _ _ _ Hb).
  destruct (oldest_vote L k) as (A & e & T & -> & <- & Hold).
  { apply list.Exists_exists. by exists (mkCast r k). }
  pose proof (Lawful_app _ _ HL) as HT. inversion_clear HT as [|? ? v1 HT' Hl].
  pose proof (law_parent _ _ _ _ Hl) as (p' & l & lv & E & Hp & Hlc & Hlv & _ & Hrule).
  rewrite Hk in E. injection E as <- <-. split; [apply (certd_mono T); [set_solver|done]|].
  assert (exists vp, at_view p vp) as [vp Hvp] by (destruct Hrule as [->|(vp & ? & _)]; by eexists).
  exists vp. split; [done|]. destruct Hp as [->|Hp]; [by apply (law_genesis _ _ _ _ Hl)|].
  destruct (backed_meet _ _ _ _ Hp Hb) as (r' & Cp & Ck).
  assert (Hlt : vp <> v).
  { intros ->. assert (E : mkCast r' p = mkCast r' (block e)); [|simplify_eq; by apply (Hold _ Cp)].
    apply (one_vote_per_view (A ++ e :: T) _ _ v HL); [set_solver|done|done|done|by eexists]. }
  destruct (decide (v < vp)); [exfalso|lia].
  destruct (list_elem_of_split _ _ Cp) as (T1 & T2 & ->).
  apply (Hold (mkCast r' (block e))); [|done].
  assert (mkCast r' (block e) ∈ T2); [|set_solver].
  eapply (vote_order (A ++ e :: T1) T2 (mkCast r' p) _ vp v); try done; [..|by eexists].
  - by rewrite <- app_assoc.
  - by rewrite <- app_assoc.
Qed.

Lemma certd_above_root L k v v0 : Lawful L -> certd L k -> at_view k v -> at_view root v0 -> v0 <= v.
Proof.
  intros HL [->|Hb] Hv Hv0; [rewrite (at_view_inj _ _ _ Hv Hv0); lia|].
  pose proof (backed_above_root _ _ _ _ HL Hb Hv Hv0). lia.
Qed.

(** The parent of the root is not a block. *)
Definition rooted : Prop := exists v0 p0, blk root = Some (v0, p0) /\ blk p0 = None.
Context (Hroot : rooted).

Lemma certd_backed L k v p vp : certd L k -> blk k = Some (v, p) -> at_view p vp -> backed L k.
Proof.
  intros [->|Hb] Ek [q Eq]; [|done]. destruct Hroot as (v0 & p0 & E & N). congruence.
Qed.

(** The three blocks of a final one. *)
Record three_chain L b d c v : Prop := {
  tc_d : backed L d; tc_c : backed L c; tc_b : certd L b;
  tc_dv : at_view d (v + 2); tc_cv : at_view c (v + 1); tc_bv : at_view b v;
  tc_dc : child d c; tc_cb : child c b;
}.

Lemma final_chain L b : Lawful L -> final L b -> exists d c v, three_chain L b d c v.
Proof.
  intros HL (d & c & v & vd & Hd & Ed & Ec & Hb & ->).
  assert (Hcv : at_view c (v + 1)) by by eexists.
  pose proof (certd_backed _ _ _ _ _ Hd Ed Hcv) as Hbd.
  destruct (certd_parent _ _ _ _ HL Hbd Ed) as [Hc _].
  pose proof (certd_backed _ _ _ _ _ Hc Ec Hb) as Hbc.
  destruct (certd_parent _ _ _ _ HL Hbc Ec) as [Hcb _].
  exists d, c, v. split; try done; by eexists.
Qed.

(** A certified block at or above a final one descends from it.  By induction on the
    ledger: a vote for the block was cast by a replica that had voted for the
    grandchild of the final one, hence was locked on the final block or above. *)
Lemma final_dominates L b d c v : Lawful L -> three_chain L b d c v ->
  forall n T A k w, (length T <= n)%nat -> L = A ++ T -> certd T k -> at_view k w -> v <= w -> descends k b.
Proof.
  intros HL [Hd Hc Hb Vd Vc Vb Pd Pc]. induction n as [n IH] using lt_wf_ind. intros T A k w Hn EL Hk Hw Hle.
  assert (HTL : T ⊆ L) by (subst L; set_solver). pose proof (certd_mono _ _ _ HTL Hk) as HkL.
  destruct (decide (w = v)) as [->|N0].
  { rewrite (certd_unique L k b v) by done. apply rtc_refl. }
  destruct (decide (w = v + 1)) as [->|N1].
  { rewrite (certd_unique L k c (v + 1)) by (done || by right). by apply rtc_once. }
  destruct (decide (w = v + 2)) as [->|N2].
  { rewrite (certd_unique L k d (v + 2)) by (done || by right). eapply rtc_l; [exact Pd|by apply rtc_once]. }
  destruct Hk as [->|Hk]; [pose proof (certd_above_root _ _ _ _ HL Hb Vb Hw); lia|].
  destruct (backed_meet _ _ _ _ Hk Hd) as (r & Ck & Cd).
  destruct (Lawful_split T _ (Lawful_app A T ltac:(by subst L)) Ck) as (A' & T' & w' & -> & HT' & Hl).
  simpl in Hl. rewrite <- (at_view_inj _ _ _ Hw (lawful_view _ _ _ _ Hl)) in Hl. subst L.
  assert (CdT : mkCast r d ∈ T').
  { rewrite app_assoc in HL, Cd. by eapply (vote_order _ _ _ _ w (v + 2) HL Cd eq_refl); [..|lia]. }
  destruct (law_parent _ _ _ _ Hl) as (p & l & lv & Ek & Hp & Hcl & Hlv & Hg & Hrule).
  assert (Hvl : v <= lv) by (by eapply (Hg (mkCast r d))).
  eapply rtc_l; [by eexists|]. rewrite length_app in Hn. simpl in Hn.
  destruct Hrule as [->|(vp & Hvp & Hlt)].
  - eapply (IH (length T') ltac:(lia) T' (A ++ A' ++ [mkCast r k])); try done; by rewrite <- !app_assoc.
  - eapply (IH (length T') ltac:(lia) T' (A ++ A' ++ [mkCast r k])); try done; [by rewrite <- !app_assoc|lia].
Qed.

(** Of two final blocks one descends from the other. *)
Lemma final_comparable L b1 b2 : Lawful L -> final L b1 -> final L b2 -> descends b1 b2 \/ descends b2 b1.
Proof.
  intros HL H1 H2. destruct (final_chain _ _ HL H1) as (d1 & c1 & v1 & T1), (final_chain _ _ HL H2) as (d2 & c2 & v2 & T2).
  destruct (decide (v1 <= v2)); [right|left].
  - apply (final_dominates L b1 d1 c1 v1 HL T1 (length L) L [] _ v2); try done; apply T2.
  - apply (final_dominates L b2 d2 c2 v2 HL T2 (length L) L [] _ v1); [done|done|apply T1|apply T1|lia].
Qed.
End Ledger.
