(* ===== verification/Locking.v ===== *)
(** * A replica's votes are lawful

    What one handler does to the ledger of Ledger.v.  [B] are the blocks certified
    before the handler runs.  As long as what the replica is given is genuine (no
    accepted certificate without a quorum behind it, no hash collision, no blocks
    from outside the chain of proposals), every vote it casts is on a certified
    parent, obeys a certified lock, and that lock is as high as the grandparent of
    the block it votes for; every block it finalizes is final in the ledger; and
    a crash at any point leaves the lock on disk. *)

From Stdlib Require Import ZArith Lia.
From stdpp Require Import relations.
From S2P Require Import Prelude Wire Types Proto Codec Encoding Crypto Store Quorum Progress Consensus.
From S2P Require Import ConsensusFacts Handlers Replica Ledger.

Create HintDb lawful.

(** The block a message votes for, and the view it names. *)
Definition vote_of (m : MsgTo) : option (bytes * Z) :=
  match m.(MsgTo_Message).(Message_GetType) with
  | Some (Message_Vote v) => Some (sbytes v.(Vote_Block), v.(Vote_View))
  | _ => None
  end.

Section Locking.
Context {DB : Type} `{KVStore DB} `{!KVLaws DB} `{Hasher} `{!HasherLaws} `{Signer} `{Verifier}.
Context (blk : bytes -> option (Z * bytes)) (root : bytes) (B : bytes -> Prop).
Implicit Types c : consensus DB.

Abbreviation at_view := (at_view blk).
Abbreviation child := (child blk).

(** The header is the block its hash names. *)
Definition conforms (h : Header) : Prop := blk (Header_Hash h) = Some (h.(Header_View), sbytes h.(Header_Parent)).

(** ** The store *)

Definition stored (db : DB) (k : bytes) : Prop := exists h, GetHeader db k = Ok h.

(** Stored headers form a tree: the parent of each but the root is stored. *)
Definition tree_ok (db : DB) : Prop := forall k h, GetHeader db k = Ok h ->
  Header_Hash h = k /\ conforms h /\ is_u64 h.(Header_View) /\ (k = root \/ stored db (sbytes h.(Header_Parent))).

(** The disk has a certified lock of view [lo] at least, at most as high as the
    prepared block. *)
Definition disk_lock (lo : Z) (db : DB) : Prop := tree_ok db /\ exists l p vl vp,
  entry db KLocked = Some l /\ at_view l vl /\ B l /\ lo <= vl
  /\ entry db KPrepare = Some p /\ at_view p vp /\ vl <= vp.

(** Keys these properties do not depend on. *)
Definition quiet (k : skey) : Prop := match k with KHeader _ | KLocked | KPrepare => False | _ => True end.

Lemma GetHeader_other db db' k v hash : writes_entry db db' k v -> k <> KHeader hash ->
  GetHeader db' hash = GetHeader db hash.
Proof. intros W N. by rewrite !GetHeader_entry, (writes_entry_other _ _ _ _ _ W). Qed.

Lemma tree_ok_other db db' k v : writes_entry db db' k v -> (forall hash, k <> KHeader hash) ->
  tree_ok db -> tree_ok db'.
Proof.
  intros W N HT k' h. rewrite (GetHeader_other _ _ _ _ k' W) by done. intros Hg.
  destruct (HT k' h Hg) as (? & ? & ? & Hp). split_and!; [done..|].
  unfold stored. by rewrite (GetHeader_other _ _ _ _ _ W).
Qed.

Lemma stored_other db db' k v hash : writes_entry db db' k v -> (forall hash, k <> KHeader hash) ->
  stored db hash -> stored db' hash.
Proof. intros W N [h Hh]. exists h. by rewrite (GetHeader_other _ _ _ _ _ W). Qed.

Lemma stored_save db db' h k : good h -> SaveHeader db h = Ok db' -> stored db k -> stored db' k.
Proof.
  intros Hg Hs [q Hq]. pose proof (SaveHeader_GetHeader _ _ _ Hg Hs) as Hget.
  apply SaveHeader_entry in Hs as (buf & _ & W). destruct (decide (k = Header_Hash h)) as [->|N]; [by eexists|].
  exists q. by rewrite (GetHeader_other _ _ _ _ _ W) by congruence.
Qed.

Lemma tree_ok_save db db' h : good h -> conforms h -> stored db (sbytes h.(Header_Parent)) ->
  SaveHeader db h = Ok db' -> tree_ok db -> tree_ok db'.
Proof.
  intros Hg Hc Hp Hs HT. pose proof (SaveHeader_GetHeader _ _ _ Hg Hs) as Hget.
  pose proof (fun k => stored_save _ _ _ k Hg Hs) as Hmono.
  apply SaveHeader_entry in Hs as (buf & _ & W). intros k h'. destruct (decide (k = Header_Hash h)) as [->|N].
  - rewrite Hget. intros [= <-]. rewrite Header_Hash_canon by done. unfold conforms.
    rewrite Header_Hash_canon by done. unfold canon. simpl. unfold Header_canon. simpl.
    assert (sbytes (canon_slice (Header_Parent h)) = sbytes (Header_Parent h)) as -> by by destruct (Header_Parent h) as [[]|].
    split_and!; [done..|apply Hg|]. right. by apply Hmono.
  - rewrite (GetHeader_other _ _ _ _ _ W) by congruence. intros Hk.
    destruct (HT k h' Hk) as (? & ? & ? & [?|?]); split_and!; try done; [by left|]. right. by apply Hmono.
Qed.

Lemma disk_lock_quiet lo db db' k v : quiet k -> writes_entry db db' k v -> disk_lock lo db -> disk_lock lo db'.
Proof.
  intros Hq W [HT (l & p & vl & vp & El & Vl & Bl & Hlo & Ep & Vp & Hle)]. split.
  - eapply tree_ok_other; [exact W|by destruct k|done].
  - exists l, p, vl, vp. rewrite !(writes_entry_other _ _ _ _ _ W) by (by destruct k). done.
Qed.

(** ** What a vote obeys *)

Record vote_fact (lv : Z) (k : bytes) (v : Z) : Prop := {
  vf_parent : exists p l, blk k = Some (v, p) /\ B p /\ B l /\ at_view l lv
    /\ (p = l \/ exists vp, at_view p vp /\ lv < vp);
  vf_lock : forall p g vg, child k p -> child p g -> at_view g vg -> vg <= lv;
}.

(** The votes of [ms], with locks that climb from [lo] to [hi]. *)
Fixpoint votes_chain (lo : Z) (ms : list MsgTo) (hi : Z) : Prop :=
  match ms with
  | [] => lo <= hi
  | m :: ms => match vote_of m with
               | Some (k, v) => exists lv, lo <= lv /\ vote_fact lv k v /\ votes_chain lv ms hi
               | None => votes_chain lo ms hi
               end
  end.

Lemma votes_chain_le lo ms hi : votes_chain lo ms hi -> lo <= hi.
Proof.
  revert lo. induction ms as [|m ms IH]; simpl; intros lo; [done|].
  destruct (vote_of m) as [[k v]|]; [|apply IH]. intros (lv & ? & _ & ?%IH). lia.
Qed.
Lemma votes_chain_lower lo lo' ms hi : lo' <= lo -> votes_chain lo ms hi -> votes_chain lo' ms hi.
Proof.
  revert lo lo'. induction ms as [|m ms IH]; simpl; intros lo lo' Hl; [lia|].
  destruct (vote_of m) as [[k v]|]; [|by apply IH]. intros (lv & ? & ? & ?). exists lv. split_and!; [lia|done..].
Qed.
Lemma votes_chain_app lo ms mid ms' hi : votes_chain lo ms mid -> votes_chain mid ms' hi ->
  votes_chain lo (ms ++ ms') hi.
Proof.
  revert lo. induction ms as [|m ms IH]; simpl; intros lo.
  - intros ?. by apply votes_chain_lower.
  - destruct (vote_of m) as [[k v]|]; [|by apply IH]. intros (lv & ? & ? & ?) ?. exists lv. auto.
Qed.

(** A finalized block has a certified grandchild in the second next view. *)
Definition final_in (e : BlockEvent) : Prop :=
  e.(Finalized) = true -> final_under blk B (Header_Hash e.(BlockEvent_Header)).

(** ** The invariant of a replica, and the effect of a handler *)

Record anchored c : Prop := {
  an_tree : tree_ok c.(c_store);
  an_lock_disk : entry c.(c_store) KLocked = Some (Header_Hash c.(c_locked));
  an_lock : conforms c.(c_locked);
  an_lock_certd : B (Header_Hash c.(c_locked));
  an_prepare_disk : entry c.(c_store) KPrepare = Some (Header_Hash c.(c_prepare));
  an_prepare : conforms c.(c_prepare);
  an_le : c.(c_locked).(Header_View) <= c.(c_prepare).(Header_View);
  an_header : forall h, c.(c_votes).(Votes_Header) = Some h -> conforms h;
}.

Record respects c c' : Prop := {
  re_disk : forall lo, disk_lock lo c.(c_store) -> disk_lock lo c'.(c_store);
  re_votes : exists new, c'.(c_Progress).(Messages) = c.(c_Progress).(Messages) ++ new
    /\ votes_chain c.(c_locked).(Header_View) new c'.(c_locked).(Header_View);
  re_final : exists new, c'.(c_Progress).(Events) = c.(c_Progress).(Events) ++ new /\ Forall final_in new;
  re_prepare : c.(c_prepare).(Header_View) <= c'.(c_prepare).(Header_View);
  re_stored : forall k, stored c.(c_store) k -> stored c'.(c_store) k;
}.

#[global] Instance respects_preorder : PreOrder respects.
Proof.
  split.
  - intros c. split; try done; exists []; rewrite app_nil_r; (split; [done|]); [apply Z.le_refl|constructor].
  - intros c1 c2 c3 [D1 (m1 & M1 & V1) (e1 & E1 & F1) P1 S1] [D2 (m2 & M2 & V2) (e2 & E2 & F2) P2 S2].
    split; [auto|..|lia|auto].
    + exists (m1 ++ m2). rewrite M2, M1, app_assoc. split; [done|by eapply votes_chain_app].
    + exists (e1 ++ e2). rewrite E2, E1, app_assoc. split; [done|by apply Forall_app_2].
Qed.

Abbreviation lawfully m := (moves anchored anchored respects m).

Lemma conforms_view h : conforms h -> at_view (Header_Hash h) h.(Header_View).
Proof. intros Hc. by eexists. Qed.

Lemma anchored_disk c : anchored c -> disk_lock c.(c_locked).(Header_View) c.(c_store).
Proof.
  intros []. split; [done|].
  exists (Header_Hash c.(c_locked)), (Header_Hash c.(c_prepare)), c.(c_locked).(Header_View), c.(c_prepare).(Header_View).
  split_and!; try done; [by apply conforms_view|by apply conforms_view].
Qed.

(** ** Primitives *)

(** A change of fields that do not matter here. *)
Record same_lock c c' : Prop := {
  sl_store : c'.(c_store) = c.(c_store);
  sl_locked : c'.(c_locked) = c.(c_locked);
  sl_prepare : c'.(c_prepare) = c.(c_prepare);
  sl_header : forall h, c'.(c_votes).(Votes_Header) = Some h -> c.(c_votes).(Votes_Header) = Some h;
  sl_messages : c'.(c_Progress).(Messages) = c.(c_Progress).(Messages);
  sl_events : c'.(c_Progress).(Events) = c.(c_Progress).(Events);
}.

Lemma same_lock_respects c c' : same_lock c c' -> respects c c'.
Proof.
  intros [Es El Ep Eh Em Ee]. split; [by rewrite Es|..|by rewrite Ep|by rewrite Es]; exists []; rewrite app_nil_r;
    (split; [done|]); [rewrite El; apply Z.le_refl|constructor].
Qed.
Lemma same_lock_anchored c c' : same_lock c c' -> anchored c -> anchored c'.
Proof. intros [Es El Ep Eh Em Ee] []. split; rewrite ?Es, ?El, ?Ep; auto. Qed.

Lemma lawful_modify (g : consensus DB -> consensus DB) : (forall c, same_lock c (g c)) -> lawfully (modify g).
Proof. intros Hg c Hc. split; [by apply same_lock_respects|by eapply same_lock_anchored]. Qed.

(** A write of an entry that does not matter here. *)
Definition quiet_write (f : DB -> res DB) : Prop := forall db db', f db = Ok db' ->
  exists k v, quiet k /\ writes_entry db db' k v.

Lemma quiet_write_step f c db : quiet_write f -> anchored c -> f c.(c_store) = Ok db ->
  respects c (set_store db c) /\ anchored (set_store db c).
Proof.
  intros Hf Hc (k & v & Hq & W)%Hf. split.
  - split; [intros lo; by eapply disk_lock_quiet|..|done|]; [exists []; rewrite app_nil_r; (split; [done|])..|].
    + apply Z.le_refl.
    + constructor.
    + intros hash. eapply stored_other; [exact W|by destruct k].
  - destruct Hc. split; simpl; try done.
    + eapply tree_ok_other; [exact W|by destruct k|done].
    + rewrite (writes_entry_other _ _ _ _ _ W); [done|by destruct k].
    + rewrite (writes_entry_other _ _ _ _ _ W); [done|by destruct k].
Qed.

Lemma lawful_save f : quiet_write f -> lawfully (save f).
Proof. intros Hf c Hc. apply wp_save; [reflexivity|]. intros db. by apply quiet_write_step. Qed.

(** Several of them, of which the last may fail. *)
Lemma quiet_writes_step ws : Forall quiet_write ws -> forall c, anchored c ->
  let '(db, _) := run_writes ws c.(c_store) in respects c (set_store db c) /\ anchored (set_store db c).
Proof.
  induction 1 as [|f ws Hf Hws IH]; intros c Hc; simpl.
  { by destruct c. }
  destruct (f (c_store c)) as [db1| |] eqn:E; [|by destruct c..].
  destruct (quiet_write_step f c db1 Hf Hc E) as [HR1 Hc1]. specialize (IH _ Hc1). simpl in IH.
  destruct (run_writes ws db1) as [db r]. destruct IH as [HR2 Hc2]. split; [by etrans|done].
Qed.

Lemma quiet_SaveView v : quiet_write (fun db => SaveView db v).
Proof. intros db db' W%SaveView_entry. by exists KView, (EncodeUint64 v). Qed.
Lemma quiet_SaveVoted v : quiet_write (fun db => SaveVoted db v).
Proof. intros db db' W%SaveVoted_entry. by exists KVoted, (EncodeUint64 v). Qed.
Lemma quiet_SaveCertificate cert : quiet_write (fun db => SaveCertificate db cert).
Proof. intros db db' (buf & _ & W)%SaveCertificate_entry. eexists (KCert _), buf. by split. Qed.
Lemma quiet_SaveData hash d : quiet_write (fun db => SaveData db hash d).
Proof. intros db db' (dd & buf & _ & _ & W)%SaveData_entry. eexists (KData _), buf. by split. Qed.

Lemma lawful_getHeader hash : lawfully (getHeader hash).
Proof. intros c Hc. unfold wp, getHeader. by destruct (GetHeader (c_store c) (sbytes hash)). Qed.
Lemma lawful_getLeader view : lawfully (getLeader view).
Proof. intros c Hc. by apply wp_getLeader. Qed.
Lemma lawful_startTimeouts : lawfully startTimeouts.
Proof.
  intros c Hc. unfold wp, startTimeouts. destruct (Timeouts_Start (c_timeouts c) (c_view c)); [|done..].
  assert (same_lock c (set_timeouts a c)) as Hs by by split. split; [by apply same_lock_respects|by eapply same_lock_anchored].
Qed.
Lemma lawful_resetTimeouts : lawfully (modify resetTimeouts).
Proof.
  apply lawful_modify. intros c. unfold resetTimeouts.
  destruct (c_timeoutCert c), (Timeouts_Cert (c_timeouts c)); by split.
Qed.
Lemma lawful_release : lawfully releaseTimeoutCert.
Proof.
  apply lawful_modify. intros c. destruct (load_timeoutCert c) as [t|]; [destruct (TimeoutCertificate_View t <? _)|]; by split.
Qed.

(** ** Headers take over *)

(** What is known of certified blocks (from the ledger). *)
Class CertdLaws : Prop := {
  certd_rooted : rooted blk root;
  certd_inj k1 k2 v : B k1 -> B k2 -> at_view k1 v -> at_view k2 v -> k1 = k2;
  certd_up k v p vp : B k -> blk k = Some (v, p) -> at_view p vp -> B p /\ vp < v;
  certd_low k v v0 : B k -> at_view k v -> at_view root v0 -> v0 <= v;
}.

(** The lock of [c] is as high as the parent of [parent]. *)
Definition locked_above parent c : Prop := forall g vg,
  child (Header_Hash parent) g -> at_view g vg -> vg <= c.(c_locked).(Header_View).

(** The committed block of [c'] is that of [c] or not above [parent]. *)
Definition commit_upto parent c c' : Prop :=
  c'.(c_commit) = c.(c_commit) \/ c'.(c_commit).(Header_View) <= parent.(Header_View).

Lemma conforms_at h v : conforms h -> at_view (Header_Hash h) v -> v = h.(Header_View).
Proof. intros Hc Hv. eapply at_view_inj; [exact Hv|by apply conforms_view]. Qed.

Lemma disk_lock_lock c db h : anchored c -> conforms h -> B (Header_Hash h) ->
  c.(c_locked).(Header_View) <= h.(Header_View) <= c.(c_prepare).(Header_View) ->
  writes_entry c.(c_store) db KLocked (Header_Hash h) -> forall lo, disk_lock lo c.(c_store) -> disk_lock lo db.
Proof.
  intros [] Hh Hb Hle W lo [HT (l & p & vl & vp & El & Vl & Bl & Hlo & Ep & Vp & _)].
  split; [by eapply tree_ok_other; [exact W|done|]|].
  rewrite an_lock_disk0 in El. rewrite an_prepare_disk0 in Ep. simplify_eq.
  apply conforms_at in Vl, Vp; [|done..]. subst.
  exists (Header_Hash h), (Header_Hash (c_prepare c)), h.(Header_View), (c_prepare c).(Header_View).
  rewrite (writes_entry_same _ _ _ _ W), (writes_entry_other _ _ _ _ _ W) by done.
  split_and!; try done; [by apply conforms_view|lia|by apply conforms_view|lia].
Qed.

Lemma disk_lock_prepare c db h : anchored c -> conforms h ->
  c.(c_prepare).(Header_View) <= h.(Header_View) ->
  writes_entry c.(c_store) db KPrepare (Header_Hash h) -> forall lo, disk_lock lo c.(c_store) -> disk_lock lo db.
Proof.
  intros [] Hh Hle W lo [HT (l & p & vl & vp & El & Vl & Bl & Hlo & Ep & Vp & _)].
  split; [by eapply tree_ok_other; [exact W|done|]|].
  rewrite an_lock_disk0 in El. simplify_eq. apply conforms_at in Vl; [|done]. subst.
  exists (Header_Hash (c_locked c)), (Header_Hash h), (c_locked c).(Header_View), h.(Header_View).
  rewrite (writes_entry_same _ _ _ _ W), (writes_entry_other _ _ _ _ _ W) by done.
  split_and!; try done; [by apply conforms_view|by apply conforms_view|lia].
Qed.

(** No message, and a lock that does not go down. *)
Lemma respects_quiet c c' new : (forall lo, disk_lock lo c.(c_store) -> disk_lock lo c'.(c_store)) ->
  (forall k, stored c.(c_store) k -> stored c'.(c_store) k) ->
  c.(c_prepare).(Header_View) <= c'.(c_prepare).(Header_View) ->
  c'.(c_Progress).(Messages) = c.(c_Progress).(Messages) ->
  c.(c_locked).(Header_View) <= c'.(c_locked).(Header_View) ->
  c'.(c_Progress).(Events) = c.(c_Progress).(Events) ++ new -> Forall final_in new -> respects c c'.
Proof.
  intros Hd Hs Hp Hm Hl He Hf. split; [done| |by exists new|done..].
  exists []. rewrite Hm, app_nil_r. split; [done|exact Hl].
Qed.

Ltac wstep := lazymatch goal with
  | |- wp (mbind _ _) _ _ _ => apply wp_bind
  | |- wp (gets _) _ _ _ => apply wp_gets
  | |- wp (modify _) _ _ _ => apply wp_modify
  | |- wp skip _ _ _ => apply wp_skip
  | |- wp (mret _) _ _ _ => apply wp_ret
  | |- wp (modify_progress _) _ _ _ => apply wp_modify
  | |- wp (save _) _ _ _ => apply wp_save
  | |- wp (getLeader _) _ _ _ => apply wp_getLeader; [|intros ? ?]
  | |- wp (liftr _) _ _ _ => apply wp_liftr; [|intros ? ?]
  | |- wp (when _ _) _ _ _ => apply wp_when; intros ?
  end.
Ltac quiet_step new := apply (respects_quiet _ _ new); simpl; rewrite ?app_nil_r;
  try done; try lia; try (by intros ?; eapply stored_other; [eassumption|]); repeat constructor; done.

(** A header from the store. *)
Lemma wp_lookup hash (Q : option Header -> consensus DB -> Prop) (E : consensus DB -> Prop) c :
  E c -> ((forall h, GetHeader c.(c_store) (sbytes hash) <> Ok h) -> Q None c) ->
  (forall h, GetHeader c.(c_store) (sbytes hash) = Ok h -> Q (Some h) c) -> wp (getHeader hash) Q E c.
Proof.
  intros HE HN HS. unfold wp, getHeader. destruct (GetHeader (c_store c) (sbytes hash)) eqn:G; auto.
Qed.

Lemma lawful_updatePrepare header cert c : conforms header -> anchored c ->
  wp (updatePrepare header cert)
    (fun _ s' => (respects c s' /\ anchored s') /\ header.(Header_View) <= s'.(c_prepare).(Header_View)
                 /\ s'.(c_commit) = c.(c_commit)) (respects c) c.
Proof.
  intros Hh Hc. unfold updatePrepare. do 3 wstep; [|zbool; by split_and!]. zbool.
  repeat wstep; [quiet_step (@nil BlockEvent)|].
  intros db W%(SetTag_entry _ KPrepare); [|set_solver].
  pose proof (disk_lock_prepare c db header Hc Hh ltac:(lia) W) as Hd. repeat wstep. split_and!.
  - quiet_step [mkBlockEvent header false].
  - destruct Hc. split; simpl; try done; [by eapply tree_ok_other; [exact W|done|]| |lia].
    by rewrite (writes_entry_other _ _ _ _ _ W).
  - simpl. apply Z.le_refl.
  - done.
Qed.

Lemma stored_parent c parent : anchored c -> conforms parent ->
  stored c.(c_store) (Header_Hash parent) ->
  Header_Hash parent = root \/ stored c.(c_store) (sbytes parent.(Header_Parent)).
Proof.
  intros Hc Hp [h Hh]. destruct (an_tree c Hc _ _ Hh) as (E & Hch & _ & Ht).
  unfold conforms in Hp, Hch. rewrite E, Hp in Hch. injection Hch as _ ->. exact Ht.
Qed.

Lemma lock_certd_step c db h : anchored c -> conforms h -> B (Header_Hash h) ->
  c.(c_locked).(Header_View) < h.(Header_View) <= c.(c_prepare).(Header_View) ->
  writes_entry c.(c_store) db KLocked (Header_Hash h) ->
  respects c (set_store db (set_locked h c)) /\ anchored (set_store db (set_locked h c)).
Proof.
  intros Hc Hh Hb Hle W. pose proof (disk_lock_lock c db h Hc Hh Hb ltac:(lia) W) as Hd. split.
  - quiet_step (@nil BlockEvent).
  - destruct Hc. split; simpl; try done; [by eapply tree_ok_other; [exact W|done|]| |lia].
    by rewrite (writes_entry_other _ _ _ _ _ W).
Qed.

Lemma commit_step c db h : anchored c -> final_under blk B (Header_Hash h) ->
  writes_entry c.(c_store) db KDecide (Header_Hash h) ->
  let c' := set_Progress (AddHeader h true (c_Progress c)) (set_store db (set_commit h c)) in
  respects c c' /\ anchored c'.
Proof.
  intros Hc Hf W c'. split.
  - apply (respects_quiet _ _ [mkBlockEvent h true]); [| |apply Z.le_refl|done|apply Z.le_refl|done|constructor; [intros _; exact Hf|constructor]].
    { intros lo. by apply (disk_lock_quiet lo _ _ KDecide (Header_Hash h)). }
    intros k. by eapply stored_other.
  - destruct Hc. split; simpl; try done; [by eapply tree_ok_other; [exact W|done|]| |];
      by rewrite (writes_entry_other _ _ _ _ _ W).
Qed.

Section Certified.
Context `{!CertdLaws}.

(** [update] locks the parent of a certified block, and commits what is final. *)
Lemma lawful_update parent c0 c : respects c0 c -> anchored c -> conforms parent -> B (Header_Hash parent) ->
  is_u64 parent.(Header_View) -> stored c.(c_store) (Header_Hash parent) ->
  parent.(Header_View) <= c.(c_prepare).(Header_View) ->
  wp (update parent) (fun _ s' => (respects c0 s' /\ anchored s') /\ locked_above parent s' /\ commit_upto parent c s')
    (respects c0) c.
Proof.
  intros HR Hc Hp Hb Hu Hst Hle. unfold update. wstep. apply wp_lookup; [done|..].
  { intros Hno. split_and!; [done..| |by left]. intros g vg [v Hg] [q Hq].
    destruct (stored_parent c parent Hc Hp Hst) as [E|[p Hpar]]; [|by destruct (Hno p)].
    destruct certd_rooted as (v0 & p0 & Er & N). congruence. }
  intros gp Hg1. destruct (an_tree c Hc _ _ Hg1) as (E1 & C1 & U1 & T1).
  assert (Hpar : blk (Header_Hash parent) = Some (parent.(Header_View), Header_Hash gp)) by (rewrite E1; exact Hp).
  destruct (certd_up _ _ _ _ Hb Hpar (conforms_view _ C1)) as [Bg Vg].
  assert (Habove : forall s', gp.(Header_View) <= s'.(c_locked).(Header_View) -> locked_above parent s').
  { intros s' Hl g vg [v Hg] Hvg. rewrite Hpar in Hg. injection Hg as _ <-.
    by rewrite (conforms_at _ _ C1 Hvg). }
  wstep. apply wp_lookup; [done|..].
  { intros Hno. split_and!; [done..| |by left]. apply Habove. destruct T1 as [E|[p Hp2]]; [|by destruct (Hno p)].
    eapply (certd_low (Header_Hash (c_locked c))); [apply (an_lock_certd c Hc)|apply conforms_view, (an_lock c Hc)|]. rewrite <- E, <- E1. by apply conforms_view. }
  intros ggp Hg2. destruct (an_tree c Hc _ _ Hg2) as (E2 & C2 & U2 & T2). do 3 wstep.
  eapply wp_mono with (Q := fun _ s' => respects c0 s' /\ anchored s' /\ gp.(Header_View) <= s'.(c_locked).(Header_View)
    /\ c_commit s' = c_commit c) (E := respects c0); [| |done].
  { wstep; [|zbool; by split_and!]. zbool. repeat wstep.
    - etrans; [exact HR|]. quiet_step (@nil BlockEvent).
    - intros db W%(SetTag_entry _ KLocked); [|set_solver].
      destruct (lock_certd_step c db gp Hc C1 Bg ltac:(lia) W). split_and!; [by etrans|done|apply Z.le_refl|done]. }
  simpl. intros _ c1 (HR1 & Hc1 & Hl1 & E3). do 3 wstep; [|split_and!; [done..|by apply Habove|by left]]. zbool.
  assert (Hf : final_under blk B (Header_Hash ggp) /\ ggp.(Header_View) <= parent.(Header_View)).
  { assert (Hgp : blk (Header_Hash gp) = Some (gp.(Header_View), Header_Hash ggp)) by (rewrite E2; exact C1).
    destruct (certd_up _ _ _ _ Bg Hgp (conforms_view _ C2)) as [_ Vgg]. unfold is_u64 in *.
    rewrite !wrap64_small in * by (unfold is_u64; lia). split; [|lia].
    exists (Header_Hash parent), (Header_Hash gp), ggp.(Header_View), parent.(Header_View).
    split_and!; try done; [|by apply conforms_view|lia]. rewrite Hgp. f_equal. f_equal. lia. }
  destruct Hf as [Hf Hlow].
  repeat wstep.
  - etrans; [exact HR1|]. quiet_step (@nil BlockEvent).
  - intros db W%(SetTag_entry _ KDecide); [|set_solver]. repeat wstep.
    destruct (commit_step c1 db ggp Hc1 Hf W). split_and!; [by etrans|done|by apply Habove|by right].
Qed.
End Certified.

Lemma respects_locked c c' : respects c c' -> c.(c_locked).(Header_View) <= c'.(c_locked).(Header_View).
Proof. intros [_ (new & _ & Hv) _ _ _]. by eapply votes_chain_le. Qed.

(** ** Sending *)

(** What a message must satisfy: its header is what its hash names, and a quorum
    stands behind an accepted certificate.  What is asked of a [Sync] message depends
    on the state it is handled in ([genuine_sync]), and replicas send none. *)
Definition genuine (m : Message) : Prop :=
  match m.(Message_GetType) with
  | Some (Message_Proposal p) => forall h, p.(Proposal_Header) = Some h ->
      good h /\ conforms h /\ forall cert, p.(Proposal_ParentCert) = Some cert ->
        VerifyAggregated (sbytes h.(Header_Parent)) cert.(Certificate_Sig) = Ok true -> B (sbytes h.(Header_Parent))
  | Some (Message_Sync _) => False
  | _ => True
  end.

Section Reentrant.
Context (step : Message -> M (consensus DB) unit) (step_lawful : forall m, genuine m -> lawfully (step m)).

Lemma lawful_deliver m ids : genuine m -> lawfully (deliver_self step m ids).
Proof.
  intros Hm. induction ids as [|i ids IH]; simpl; [apply keeps_skip, _|].
  apply keeps_bind; [apply _|apply keeps_gets, _|intros self].
  apply keeps_bind; [apply _| |by intros _]. apply keeps_when; [apply _|auto].
Qed.

(** A vote that obeys the lock may be sent. *)
Lemma lawful_sendMsg m ids : genuine m ->
  moves (fun c => anchored c /\ forall k v, vote_of (mkMsgTo ids m) = Some (k, v) ->
                    vote_fact c.(c_locked).(Header_View) k v)
    anchored respects (sendMsg step m ids).
Proof.
  intros Hm c [Hc Hf]. unfold sendMsg. do 2 wstep.
  eapply (wp_moves respects anchored anchored anchored); [| | |done].
  - destruct ids; [by apply lawful_deliver|by apply step_lawful].
  - split; try done; [|exists []; by rewrite app_nil_r].
    exists [mkMsgTo ids m]. split; [done|]. simpl. destruct (vote_of _) as [[k v]|]; [|apply Z.le_refl].
    exists c.(c_locked).(Header_View). split_and!; [apply Z.le_refl|by apply Hf|apply Z.le_refl].
  - destruct Hc. by split.
Qed.

(** Anything but a vote. *)
Lemma lawful_sendOther m ids : genuine m -> (forall v, m.(Message_GetType) <> Some (Message_Vote v)) ->
  lawfully (sendMsg step m ids).
Proof.
  intros Hm Hv c Hc. apply lawful_sendMsg; [done|]. split; [done|]. unfold vote_of. simpl. intros k v.
  destruct (Message_GetType m) as [[| |w|]|]; try done. by destruct (Hv w).
Qed.

(** Walk through a program none of whose own steps matters here. *)
Ltac walk := repeat first
  [ apply keeps_ret; apply _ | apply keeps_gets; apply _ | apply keeps_skip; apply _
  | apply keeps_liftr; apply _ | apply keeps_die; apply _
  | apply lawful_save; first [apply quiet_SaveView|apply quiet_SaveVoted|apply quiet_SaveCertificate|apply quiet_SaveData]
  | apply lawful_getHeader | apply lawful_getLeader | apply lawful_startTimeouts
  | apply lawful_resetTimeouts | apply lawful_release
  | apply lawful_sendOther; [exact I|intros ?; discriminate]
  | apply keeps_bind; [apply _| |intros ?]
  | apply keeps_when; [apply _|intros ?]
  | lazymatch goal with
    | |- moves _ _ _ (match ?x with _ => _ end) => destruct x
    | |- moves _ _ _ (let '_ := ?x in _) => destruct x
    end
  | solve [auto with lawful]
  | apply lawful_modify; intros ?; split; (reflexivity || (intros ?; (done || discriminate))) ].

Lemma lawful_nextRound b : lawfully (nextRound step b).
Proof. unfold nextRound, resetTimeout, sendNewView, waitForData, modify_progress. walk. Qed.
Lemma lawful_setView v : lawfully (setView v).
Proof. unfold setView. walk. Qed.
Hint Resolve lawful_nextRound lawful_setView : lawful.

Lemma lawful_syncView header tcert : lawfully (syncView step header tcert).
Proof. unfold syncView. walk. Qed.
Lemma lawful_Tick : lawfully (Tick step).
Proof. unfold Tick, onTimeout. walk. Qed.
Lemma lawful_checkTimeout header t : lawfully (checkTimeout header t).
Proof. unfold checkTimeout. walk. Qed.
Hint Resolve lawful_syncView lawful_checkTimeout : lawful.

(** ** Votes *)

(** What allows a vote for [header] in state [c]. *)
Record votable header c : Prop := {
  vo_conforms : conforms header;
  vo_fact : vote_fact c.(c_locked).(Header_View) (Header_Hash header) header.(Header_View);
}.

Definition voting header c : Prop := anchored c /\ votable header c.

Lemma voting_frame {A} header (m : M (consensus DB) A) : lawfully m ->
  (forall c, wp m (fun _ s' => s'.(c_locked) = c.(c_locked)) (fun _ => True) c) ->
  moves (voting header) (voting header) respects m.
Proof.
  intros Hm Hl c [Hc [Hh Hf]]. specialize (Hm c Hc). specialize (Hl c). unfold wp in *.
  destruct (m c) as [c' [a|k]]; [|done]. destruct Hm as [HR Hc']. split; [done|]. split; [done|]. split; [done|]. by rewrite Hl.
Qed.

Lemma voting_save header f : quiet_write f -> moves (voting header) (voting header) respects (save f).
Proof.
  intros Hf. apply voting_frame; [by apply lawful_save|]. intros c. unfold wp, save. by destruct (f (c_store c)).
Qed.

Lemma voting_start header :
  moves (voting header) (voting header) respects (modify (fun c => set_votes (Votes_Start c.(c_votes) header) c)).
Proof.
  intros c [Hc Hv]. apply wp_modify. split.
  - split; try done; exists []; rewrite app_nil_r; (split; [done|]); [apply Z.le_refl|constructor].
  - split; [|by destruct Hv; split]. destruct Hc. split; try done. simpl. intros h [= <-]. apply Hv.
Qed.

Lemma lawful_sendVote header : moves (voting header) anchored respects (sendVote step header).
Proof.
  unfold sendVote. apply (moves_bind respects _ (voting header)); [|intros _].
  { apply voting_frame; [|done]. apply lawful_modify. intros c. by split. }
  apply (moves_bind respects _ (voting header)); [by apply voting_save, quiet_SaveVoted|intros _].
  apply (moves_bind respects _ (voting header)); [apply voting_start|intros _].
  apply (moves_bind respects _ (voting header)); [apply keeps_gets, _|intros self].
  apply (moves_bind respects _ (voting header)); [apply keeps_liftr, _|intros sig].
  apply (moves_bind respects _ (voting header)); [|intros leader].
  { apply voting_frame; [apply lawful_getLeader|]. intros c. by apply wp_getLeader. }
  intros c [Hc [Hh Hf]]. apply lawful_sendMsg; [done|]. split; [done|]. by intros k v [= <- <-].
Qed.

(** ** Proposals *)

(** ** Fetched blocks *)

(** A header whose parent is stored may be stored. *)
Lemma save_header_step header db c : good header -> conforms header ->
  anchored c -> stored c.(c_store) (sbytes header.(Header_Parent)) -> SaveHeader c.(c_store) header = Ok db ->
  respects c (set_store db c) /\ anchored (set_store db c).
Proof.
  intros Hg Hh Hc Hp S.
  pose proof (fun k => stored_save _ _ _ k Hg S) as Hm. pose proof (tree_ok_save _ _ _ Hg Hh Hp S) as Ht.
  apply SaveHeader_entry in S as (buf & _ & W).
  assert (Ho : forall k, (forall hash, k <> KHeader hash) -> entry db k = entry (c_store c) k).
  { intros k Hk. by apply (writes_entry_other _ _ _ _ _ W). }
  split; [split; try done|].
  - intros lo [HT Hl]. split; [by apply Ht|]. by rewrite !Ho by done.
  - exists []. rewrite app_nil_r. split; [done|]. apply Z.le_refl.
  - exists []. rewrite app_nil_r. split; [done|]. constructor.
  - destruct Hc. split; simpl; rewrite ?Ho by done; auto.
Qed.

Lemma lawful_SaveBlock b header c : b.(Block_Header) = Some header -> good header -> conforms header ->
  anchored c -> stored c.(c_store) (sbytes header.(Header_Parent)) ->
  wp (save_all (fun db => SaveBlock db b)) (fun _ s' => (respects c s' /\ anchored s')
      /\ stored s'.(c_store) (Header_Hash header) /\ s'.(c_commit) = c.(c_commit)) (respects c) c.
Proof.
  intros Eh Hg Hh Hc Hp. unfold wp, save_all, SaveBlock. rewrite run_writes_step, Eh. cbn [deref mbind res_bind].
  destruct (SaveHeader (c_store c) header) as [db1| |] eqn:E; [|by destruct c..].
  destruct (save_header_step header db1 c Hg Hh Hc Hp E) as [HR1 Hc1].
  assert (Hst : stored db1 (Header_Hash header)) by (eexists; by eapply SaveHeader_GetHeader).
  match goal with |- context [run_writes ?ws db1] =>
    assert (Hws : Forall quiet_write ws); [|pose proof (quiet_writes_step ws Hws _ Hc1) as Hq; simpl c_store in Hq;
                                            destruct (run_writes ws db1) as [db r]] end.
  { repeat constructor; intros d d'; [destruct (Block_Cert b)|]; simpl; try done;
      [apply quiet_SaveCertificate|apply quiet_SaveData]. }
  destruct Hq as [HR2 Hc2]. change (set_store db (set_store db1 c)) with (set_store db c) in HR2, Hc2.
  assert (respects c (set_store db c)) by by etrans.
  destruct r as [[]| |]; try done. split_and!; try done. by apply (re_stored _ _ HR2).
Qed.

(** What is asked of a block of a [Sync] message: its header is what its hash
    names, and a quorum stands behind its certificate when that is accepted. *)
Definition genuine_block (b : Block) : Prop := forall h cert,
  b.(Block_Header) = Some h -> b.(Block_Cert) = Some cert ->
  good h /\ conforms h /\ (VerifyAggregated (Header_Hash h) cert.(Certificate_Sig) = Ok true -> B (Header_Hash h)).

(** Each block is the child of the one before it and the first the child of [k],
    in views that climb from [v]. *)
Fixpoint chained (k : bytes) (v : Z) (bs : list Block) : Prop :=
  match bs with
  | [] => True
  | b :: bs =>
      match b.(Block_Header) with
      | Some h => sbytes h.(Header_Parent) = k /\ v < h.(Header_View) /\ chained (Header_Hash h) h.(Header_View) bs
      | None => True
      end
  end.

(** Blocks not above the committed one, which [syncBlock] skips, and then a chain
    that starts on a stored block. *)
Fixpoint linked c (bs : list Block) : Prop :=
  match bs with
  | [] => True
  | b :: bs =>
      match b.(Block_Header) with
      | Some h => if h.(Header_View) <=? c.(c_commit).(Header_View) then linked c bs
                  else stored c.(c_store) (sbytes h.(Header_Parent)) /\ chained (Header_Hash h) h.(Header_View) bs
      | None => True
      end
  end.
Definition genuine_sync c (s : Sync) : Prop := Forall genuine_block s.(Sync_Blocks) /\ linked c s.(Sync_Blocks).

Lemma lawful_syncBlock b h c : CertdLaws -> genuine_block b -> b.(Block_Header) = Some h -> anchored c ->
  (c.(c_commit).(Header_View) < h.(Header_View) -> stored c.(c_store) (sbytes h.(Header_Parent))) ->
  wp (syncBlock b) (fun ok s' => (respects c s' /\ anchored s') /\ (ok = true ->
      (h.(Header_View) <= c.(c_commit).(Header_View) /\ s' = c)
      \/ (c.(c_commit).(Header_View) < h.(Header_View) /\ stored s'.(c_store) (Header_Hash h)
          /\ s'.(c_commit).(Header_View) <= h.(Header_View)))) (respects c) c.
Proof.
  intros HB Hgen Eh Hc Hp. unfold syncBlock. rewrite Eh.
  destruct (Block_Cert b) as [cert|] eqn:Ec; [|by apply wp_ret].
  destruct (Block_Data b) as [data|]; [|by apply wp_ret].
  destruct (Hgen h cert Eh Ec) as (Hg & Hh & Hb). repeat wstep.
  destruct (Header_View h <=? _) eqn:E; zbool; [apply wp_ret; split; [done|]; intros _; by left|].
  wstep. wstep; [done|]. destruct a; [|by apply wp_ret].
  wstep. eapply wp_mono; [by eapply lawful_SaveBlock, Hp; [..|lia]|simpl|done].
  intros _ c1 ([HR1 Hc1] & Hs1 & E1). wstep.
  eapply wp_mono; [by apply lawful_updatePrepare|simpl|intros s; by etrans].
  intros _ c2 ([HR2 Hc2] & Hp2 & E2). wstep.
  eapply wp_mono; [apply (lawful_update h c1 c2)|simpl|intros s; by etrans]; try done;
    [by apply Hb|apply Hg|by apply (re_stored _ _ HR2)|].
  intros _ c3 ([HR3 Hc3] & _ & Hcm). wstep. split; [split; [by etrans|done]|]. intros _. right. split_and!; [done| |].
  - by apply (re_stored _ _ HR3).
  - destruct Hcm as [->|]; [rewrite E2, E1; lia|done].
Qed.

(** Both phases of [onSync]: blocks it skips, and a chain. *)
Lemma lawful_chained bs k v : CertdLaws -> Forall genuine_block bs -> chained k v bs -> forall c0 c,
  respects c0 c -> anchored c -> stored c.(c_store) k -> c.(c_commit).(Header_View) <= v ->
  wp (onSyncBlocks bs) (fun _ s' => respects c0 s' /\ anchored s') (respects c0) c.
Proof.
  intros HB Hbs. revert k v. induction Hbs as [|b bs Hb Hbs IH]; intros k v Hl c0 c HR Hc Hk Hv; cbn [onSyncBlocks]; [by wstep|].
  simpl in Hl. destruct (Block_Header b) as [h|] eqn:Eh; [|unfold syncBlock; rewrite Eh; by repeat wstep].
  destruct Hl as (Ep & Hvh & Hl). wstep.
  eapply wp_mono; [apply (lawful_syncBlock b h c HB Hb Eh Hc)|simpl|intros s; by etrans]; [by rewrite Ep|].
  intros ok c1 [[HR1 Hc1] Hok]. wstep; [|split; [by etrans|done]].
  destruct (Hok ltac:(done)) as [[? _]|(_ & Hs & Hcm)]; [lia|]. by apply (IH _ _ Hl); [etrans|..].
Qed.

Lemma lawful_onSync s c : CertdLaws -> genuine_sync c s -> anchored c ->
  wp (onSync s) (fun _ s' => respects c s' /\ anchored s') (respects c) c.
Proof.
  intros HB [Hbs Hl] Hc. unfold onSync. induction Hbs as [|b bs Hb Hbs IH]; cbn [onSyncBlocks]; [by wstep|].
  simpl in Hl. destruct (Block_Header b) as [h|] eqn:Eh; [|unfold syncBlock; rewrite Eh; by repeat wstep].
  wstep. eapply wp_mono; [apply (lawful_syncBlock b h c HB Hb Eh Hc)|simpl|done].
  { intros Hlt. rewrite (proj2 (Z.leb_gt _ _)) in Hl by done. apply Hl. }
  intros ok c1 [[HR1 Hc1] Hok]. wstep; [|done]. destruct (Header_View h <=? _) eqn:E; zbool.
  - destruct (Hok ltac:(done)) as [[_ ->]|(? & _)]; [by apply IH|lia].
  - destruct Hl as [_ Hl], (Hok ltac:(done)) as [[? _]|(_ & Hs & Hcm)]; [lia|]. by eapply lawful_chained.
Qed.

Lemma lawful_persistProposal header data cert c : good header -> conforms header ->
  anchored c -> stored c.(c_store) (sbytes header.(Header_Parent)) ->
  wp (persistProposal header data cert) (fun _ s' => respects c s' /\ anchored s') (respects c) c.
Proof.
  intros Hg Hh Hc Hp. unfold persistProposal. wstep. wstep; [reflexivity|]. intros db S.
  destruct (save_header_step header db c Hg Hh Hc Hp S) as [HR Hc'].
  assert (Hrest : lawfully (save (fun db => SaveData db (Header_Hash header) data) ;;
    save (fun db => SaveCertificate db cert) : M (consensus DB) unit)) by walk.
  by eapply wp_moves; [apply _|exact Hrest|..].
Qed.

(** The vote rule, read in a state whose lock is as high as the parent's parent. *)
Lemma rule_votable header parent c : CertdLaws -> anchored c -> conforms header -> locked_above parent c ->
  sbytes header.(Header_Parent) = Header_Hash parent -> B (Header_Hash parent) ->
  wp (safeNode header) (fun ok s' => s' = c /\ (ok = true -> votable header c)) (fun s' => s' = c) c.
Proof.
  intros HB Hc Hh Hl Hp Hb. unfold safeNode. wstep. apply wp_lookup; [done|intros _; by apply wp_ret|].
  intros p Hget. destruct (an_tree c Hc _ _ Hget) as (Ep & Cp & _ & _). repeat wstep. split; [done|]. intros Hr.
  split; [done|]. split.
  - exists (sbytes header.(Header_Parent)), (Header_Hash (c_locked c)).
    split_and!; [done|by rewrite Hp|apply (an_lock_certd c Hc)|apply conforms_view, (an_lock c Hc)|]. rewrite <- Ep.
    assert (Hvp : at_view (Header_Hash p) (Header_View p)) by by apply conforms_view.
    unfold id in Hr. apply orb_prop in Hr as [[Hr|Hr]%orb_prop|Hr]; zbool.
    + left. apply bytes_eqb_eq in Hr. congruence.
    + apply bytes_eqb_eq in Hr. rewrite <- Ep in Hr. pose proof (an_le c Hc) as Hle.
      rewrite Hr in Hvp. pose proof (conforms_at _ _ (an_prepare c Hc) Hvp) as Ev.
      destruct (decide ((c_locked c).(Header_View) < Header_View p)) as [Hlt|Hge]; [right|left].
      * exists (Header_View p). split; [by rewrite Hr|done].
      * apply (certd_inj _ _ (Header_View p)).
        -- rewrite Ep, Hp. exact Hb.
        -- apply (an_lock_certd c Hc).
        -- by rewrite Hr.
        -- replace (Header_View p) with ((c_locked c).(Header_View)) by lia. apply conforms_view, (an_lock c Hc).
    + right. by exists (Header_View p).
  - intros q g vg [v Hq]. unfold conforms in Hh. rewrite Hh, Hp in Hq. injection Hq as _ <-. apply Hl.
Qed.

Lemma locked_above_mono parent c c' : respects c c' -> locked_above parent c -> locked_above parent c'.
Proof. intros HR Hl g vg Hg Hv. pose proof (Hl g vg Hg Hv). pose proof (respects_locked _ _ HR). lia. Qed.

Lemma lawful_acceptProposal msg header parent cert c : CertdLaws -> good header -> conforms header ->
  GetHeader c.(c_store) (sbytes header.(Header_Parent)) = Ok parent -> B (Header_Hash parent) -> anchored c ->
  wp (acceptProposal step msg header parent cert) (fun _ s' => respects c s' /\ anchored s') (respects c) c.
Proof.
  intros HB Hg Hh Hget Hb Hc. destruct (an_tree c Hc _ _ Hget) as (Ep & Cp & Up & _).
  assert (Hst : stored c.(c_store) (Header_Hash parent)) by (exists parent; by rewrite Ep).
  unfold acceptProposal. wstep. eapply wp_mono; [by apply lawful_updatePrepare|simpl|done].
  intros _ c1 [[HR1 Hc1] [Hp1 _]].
  eapply wp_moves_then; [apply _|apply lawful_syncView|done..|]. intros u c2 E2 HR2 Hc2.
  assert (R12 : respects c1 c2).
  { pose proof (lawful_syncView parent (Proposal_Timeout msg) c1 Hc1) as Hw. unfold wp in Hw. rewrite E2 in Hw. apply Hw. }
  wstep. eapply wp_mono; [apply (lawful_update parent c c2)|simpl|done]; try done.
  { by apply (re_stored _ _ HR2). }
  { pose proof (re_prepare _ _ R12). lia. }
  intros _ c3 ((HR3 & Hc3) & Hl3 & _). do 3 wstep; [|done].
  wstep. eapply wp_mono; [apply lawful_persistProposal|simpl; intros _ c4 [HR4 Hc4]|intros s; by etrans]; try done.
  { rewrite <- Ep. by apply (re_stored _ _ HR3). }
  assert (HR4' : respects c c4) by by etrans.
  do 3 wstep; [|done]. wstep.
  eapply wp_mono; [apply (rule_votable header parent)|simpl; intros ok s [-> Hok]|simpl; intros s ->]; try done.
  { by apply (locked_above_mono _ _ _ HR4). }
  wstep; [|done]. eapply wp_moves; [apply _|apply lawful_sendVote|done| |done]. split; auto.
Qed.

Lemma lawful_onProposal msg : CertdLaws -> genuine (NewProposalMsg msg) -> lawfully (onProposal step msg).
Proof.
  intros HB Hm c Hc. unfold onProposal. wstep. wstep; [reflexivity|].
  destruct (Hm a) as (Hg & Hh & Hcert). { by destruct (Proposal_Header msg); simplify_eq/=. }
  destruct (Proposal_ParentCert msg) as [cert|]; [|by wstep].
  wstep; [|done]. wstep. wstep; [reflexivity|]. wstep; [|done]. subst.
  wstep. apply wp_lookup; [reflexivity|..].
  { intros _. apply (wp_moves respects anchored anchored); [|reflexivity|done|done]. unfold modify_progress. walk. }
  intros parent Hget. destruct (an_tree c Hc _ _ Hget) as (Ep & Cp & _).
  assert (Hb : B (Header_Hash parent)) by (rewrite Ep; by eapply Hcert).
  apply (wp_moves_then respects anchored anchored); [apply lawful_checkTimeout|reflexivity|done|].
  intros tok c1 E1 HR1 Hc1. wstep; [|done]. wstep. wstep; [done|]. wstep; [|done].
  assert (Es : c_store c1 = c_store c).
  { unfold checkTimeout in E1. destruct (Proposal_Timeout msg); unfold mret, M_ret, liftr in E1; [|congruence].
    destruct (VerifyAggregated _ _) in E1; congruence. }
  eapply wp_mono; [apply (lawful_acceptProposal msg a parent cert c1)|simpl|intros s; by etrans]; try done.
  - by rewrite Es.
  - intros _ s [? ?]. split; [by etrans|done].
Qed.

(** ** Ballots *)

Lemma Votes_Collect_header v vote v' b : Votes_Collect v vote = Ok (v', b) -> v'.(Votes_Header) = v.(Votes_Header).
Proof.
  unfold Votes_Collect. repeat case_match; try done; try (by intros [= <- <-]).
  intros (sig & _ & [= <- <-])%res_bind_Ok. done.
Qed.

Lemma lawful_onVote vote : lawfully (onVote step vote).
Proof.
  intros c Hc. unfold onVote. do 2 wstep. wstep. wstep; [reflexivity|]. wstep; [|done].
  do 2 wstep. wstep. apply wp_liftr; [reflexivity|]. intros [votes' majority] Hcol%Votes_Collect_header. wstep. wstep.
  set (c1 := set_votes votes' c). assert (S1 : same_lock c c1).
  { split; try done. simpl. by rewrite Hcol. }
  assert (Hc1 : anchored c1) by by eapply same_lock_anchored.
  assert (HR1 : respects c c1) by by apply same_lock_respects.
  wstep; [|done]. wstep. wstep; [done|].
  apply (wp_moves_then respects anchored anchored); [apply lawful_save, quiet_SaveCertificate|done|done|].
  intros _ c2 _ HR2 Hc2. wstep. apply wp_liftr; [done|]. intros header Hheader.
  assert (Hh : conforms header).
  { apply (an_header c Hc). rewrite <- Hcol. by destruct (Votes_Header votes'); simplify_eq/=. }
  wstep. eapply wp_mono; [by apply lawful_updatePrepare|simpl|intros s; by etrans].
  intros _ c3 [[HR3 Hc3] _].
  assert (Hrest : lawfully (syncView step header None ;; nextRound step false : M (consensus DB) unit)) by walk.
  eapply wp_moves; [apply _|exact Hrest|by etrans|done|done].
Qed.

Lemma lawful_onNewView n : lawfully (onNewView step n).
Proof.
  intros c Hc. unfold onNewView. do 2 wstep. wstep. wstep; [reflexivity|]. wstep; [|done].
  wstep. wstep; [reflexivity|]. wstep. apply wp_lookup; [reflexivity|by intros _; wstep|].
  intros header Hget. destruct (an_tree c Hc _ _ Hget) as (_ & Hh & _).
  wstep. eapply wp_mono; [by apply lawful_updatePrepare|simpl|done]. intros _ c1 [[HR1 Hc1] _].
  eapply (wp_moves respects anchored anchored); [|done|done|done]. unfold waitForData, modify_progress. walk.
Qed.

Lemma lawful_dispatch m : CertdLaws -> genuine m -> lawfully (dispatch step m).
Proof.
  intros HB Hm. unfold dispatch. pose proof Hm as Hm'. unfold genuine in Hm'.
  destruct m as [[[]|]]; simpl in *; [by apply lawful_onProposal|apply lawful_onNewView|apply lawful_onVote|done|apply keeps_skip, _].
Qed.

(** The proposal that [Send] makes in state [c]. *)
Definition own_header (state root : slice) c : Header :=
  mkHeader c.(c_view) (Some (Header_Hash c.(c_prepare))) c.(c_prepare).(Header_View) root state.

Lemma lawful_Send state droot data c : anchored c ->
  (forall sig, genuine (NewProposalMsg (mkProposal (Some (own_header state droot c)) data (Some sig) (Some c.(c_prepareCert))
     (load_timeoutCert c)))) ->
  wp (Send step state droot data) (fun _ s' => respects c s' /\ anchored s') (respects c) c.
Proof.
  intros Hc Hg. unfold Send. do 2 wstep. wstep; [|done]. do 2 wstep.
  set (c1 := set_waitingData false c). assert (S1 : same_lock c c1) by by split.
  do 2 wstep. wstep. wstep; [by apply same_lock_respects|].
  eapply (wp_moves respects anchored anchored); [|by apply same_lock_respects|by eapply same_lock_anchored|done].
  apply lawful_sendOther; [apply Hg|done].
Qed.
End Reentrant.

Lemma lawful_Step d m : CertdLaws -> genuine m -> lawfully (Step d m).
Proof.
  intros HB. revert m. induction d as [|d IH]; intros m Hm; [apply keeps_die, _|]. by apply lawful_dispatch.
Qed.

(** What the environment may give to a replica in state [c]. *)
Definition genuine_input c (i : input) : Prop :=
  match i with
  | IStep m => match m.(Message_GetType) with
               | Some (Message_Sync s) => genuine_sync c s
               | _ => genuine m
               end
  | ISend state droot data => forall sig, genuine (NewProposalMsg (mkProposal (Some (own_header state droot c)) data (Some sig)
      (Some c.(c_prepareCert)) (load_timeoutCert c)))
  | IStart | ITick => True
  end.

(** Every handler is lawful. *)
Lemma lawful_handle c i : CertdLaws -> genuine_input c i -> anchored c ->
  wp (handle i) (fun _ s' => respects c s' /\ anchored s') (respects c) c.
Proof.
  intros HB Hi Hc. assert (Hs : forall m, genuine m -> lawfully (Step 2 m)) by (intros; by apply lawful_Step).
  destruct i; cbn [handle].
  - by apply lawful_nextRound.
  - destruct (Message_GetType msg) as [[]|] eqn:Em; simpl in Hi; rewrite Em in Hi; try by apply lawful_Step.
    change (Step 2 msg) with (dispatch (Step 1) msg). unfold dispatch. rewrite Em. by apply lawful_onSync.
  - by apply lawful_Send.
  - by apply lawful_Tick.
Qed.

(** A restart loads the lock that is on disk. *)
Lemma lawful_restart db id rs c lo : disk_lock lo db -> newConsensus db id rs = Ok c ->
  anchored c /\ lo <= c.(c_locked).(Header_View) /\ c.(c_store) = db /\ c.(c_Progress) = empty_progress.
Proof.
  intros [HT (l & p & vl & vp & El & Vl & Bl & Hlo & Ep & Vp & Hle)]. unfold newConsensus.
  intros (view & _ & (voted & _ & (prepare & Hp & (locked & Hl & (commit & _ & (cert & _ & [= <-])%res_bind_Ok)
    %res_bind_Ok)%res_bind_Ok)%res_bind_Ok)%res_bind_Ok)%res_bind_Ok.
  assert (Hget : forall k hash h, k ∈ [KPrepare; KLocked; KDecide] -> entry db k = Some hash ->
    fatal (GetTagHeader db (skey_bytes k)) = Ok h -> Header_Hash h = hash /\ conforms h).
  { intros k hash h Hk Ek Hh. unfold GetTagHeader in Hh. rewrite GetTag_entry, Ek in Hh by done. simpl in Hh.
    destruct (GetHeader db hash) eqn:G; simplify_eq/=. destruct (HT _ _ G) as (? & ? & _). done. }
  destruct (Hget KLocked l locked ltac:(set_solver) El Hl) as [<- Cl].
  destruct (Hget KPrepare p prepare ltac:(set_solver) Ep Hp) as [<- Cp].
  apply conforms_at in Vl, Vp; [|done..]. subst. by split_and!.
Qed.
End Locking.
