(* ===== verification/Agreement.v ===== *)
(** * Agreement

    All correct replicas at once, among up to a third of faulty ones.  A step is an
    input to one correct replica, the hand-over of its progress, its death and
    restart, or its death inside a handler ([gstep_when], for a condition on the
    inputs).  Of the network and of the faulty replicas agreement assumes only that
    inputs are [genuine_input] ([gstep]): an accepted
    certificate for a block has a quorum behind it whose correct members have
    voted for the block, no two blocks have the same hash ([blk] names the blocks
    of the run), and the blocks of a sync message continue what the replica has,
    without gaps ([linked]; Forks.v shows that this is needed).

    The ghost state is the ledger of all votes cast and the list of all blocks
    finalized.  The theorem: of two finalized blocks, at any replicas, one descends
    from the other.  The verifier of verifier.go does not keep its part of the
    contract, see CryptoSpec.v and Scenarios.v. *)

From Stdlib Require Import ZArith Lia.
From stdpp Require Import relations.
From S2P Require Import Prelude Wire Types Proto Codec Encoding Crypto Store Quorum Progress Consensus.
From S2P Require Import ConsensusFacts Handlers Replica Ledger Locking Instances Safety.

Section Agreement.
Context {DB : Type} `{KVStore DB} `{Hasher} `{Verifier} (signer : Z -> Signer).
Context (blk : bytes -> option (Z * bytes)) (root : bytes).
Context (replicas : list Z) (correct : Z -> bool).

(** A handler of replica [r], which signs with its own key. *)
Definition run (r : Z) (i : input) : M (consensus DB) unit :=
  @handle DB _ _ (signer r) _ i.

Record net : Type := mkNet {
  nodes : gmap Z (consensus DB);
  ledger : list cast;
  finalized : list (Z * Header);
}.

(** The votes among [ms], cast by [r]. *)
Definition record_votes (r : Z) (L : list cast) (ms : list MsgTo) : list cast :=
  foldl (fun L m => match vote_of m with Some (k, _) => mkCast r k :: L | None => L end) L ms.

(** What a handler has added to the progress. *)
Definition new_messages (c c' : consensus DB) : list MsgTo :=
  drop (length c.(c_Progress).(Messages)) c'.(c_Progress).(Messages).
Definition new_finals (r : Z) (c c' : consensus DB) : list (Z * Header) :=
  omap (fun e => if e.(Finalized) then Some (r, e.(BlockEvent_Header)) else None)
    (drop (length c.(c_Progress).(Events)) c'.(c_Progress).(Events)).

Definition certified_in (L : list cast) : bytes -> Prop := certd root replicas correct L.

(** A step of the network, when the replicas are given only inputs that satisfy
    [accept], a condition on the votes cast so far, the replica and the input. *)
Inductive gstep_when (accept : list cast -> consensus DB -> input -> Prop) (g : net) : net -> Prop :=
| G_input r c c' i : nodes g !! r = Some c ->
    input_ok i -> accept (ledger g) c i -> run r i c = (c', inl tt) ->
    gstep_when accept g (mkNet (<[r := c']> (nodes g)) (record_votes r (ledger g) (new_messages c c'))
               (new_finals r c c' ++ finalized g))
| G_handover r c : nodes g !! r = Some c ->
    gstep_when accept g (mkNet (<[r := set_Progress (Progress_Reset c.(c_Progress)) c]> (nodes g)) (ledger g) (finalized g))
| G_kill r c c' : nodes g !! r = Some c -> newConsensus c.(c_store) c.(c_id) c.(c_replicas) = Ok c' ->
    gstep_when accept g (mkNet (<[r := c']> (nodes g)) (ledger g) (finalized g))
| G_crash r c c1 k c' i : nodes g !! r = Some c ->
    input_ok i -> accept (ledger g) c i -> run r i c = (c1, inr k) ->
    newConsensus c1.(c_store) c1.(c_id) c1.(c_replicas) = Ok c' ->
    gstep_when accept g (mkNet (<[r := c']> (nodes g)) (ledger g) (finalized g)).

(** What agreement needs of the inputs. *)
Definition genuine_at (L : list cast) (c : consensus DB) (i : input) : Prop := genuine_input blk (certified_in L) c i.
Definition gstep : net -> net -> Prop := gstep_when genuine_at.

(** A replica that has imported [genesis] into a new database and started. *)
Definition born (genesis : Block) (r : Z) (c : consensus DB) : Prop := exists db db',
  (forall k, entry db (KHeader k) = None) /\ ImportGenesis db genesis = (db', Ok tt)
  /\ newConsensus db' r replicas = Ok c.

Record gstart (genesis : Block) (g : net) : Prop := {
  gs_nodes : forall r c, nodes g !! r = Some c -> is_u64 r /\ born genesis r c;
  gs_ledger : ledger g = [];
  gs_finalized : finalized g = [];
}.

(** The genesis block is the root of the tree of blocks. *)
Record genesis_ok (genesis : Block) : Prop := {
  go_header : exists header, genesis.(Block_Header) = Some header /\ good header
    /\ root = Header_Hash header /\ blk root = Some (header.(Header_View), sbytes header.(Header_Parent))
    /\ blk (sbytes header.(Header_Parent)) = None;
  go_cert : exists cert, genesis.(Block_Cert) = Some cert /\ good cert /\ sbytes cert.(Certificate_Block) = root;
}.
End Agreement.
Arguments net DB : clear implicits.

(** ** The invariant *)

Section Facts.
Context {DB : Type} `{KVStore DB} `{!KVLaws DB} `{Hasher} `{!HasherLaws} `{Verifier}
        (th : Z) `{!VerifierLaws th} (signer : Z -> Signer).
Context (blk : bytes -> option (Z * bytes)) (root : bytes).
Context (replicas : list Z) (correct : Z -> bool).
Implicit Types (g : net DB) (c : consensus DB) (L : list cast).

Abbreviation certified_in := (certified_in root replicas correct).
Abbreviation Lawful := (Lawful blk root replicas correct).
Abbreviation at_view := (at_view blk).
Abbreviation anchored L := (anchored blk root (certified_in L)).

(** The votes of [r] in [L] are not above [v]. *)
Definition votes_upto (L : list cast) (r v : Z) : Prop :=
  forall e v', e ∈ L -> voter e = r -> at_view (block e) v' -> v' <= v.

Record node_inv L (r : Z) c : Prop := {
  ni_inv : Inv th c;
  ni_anchored : anchored L c;
  ni_votes : votes_upto L r (disk_voted c.(c_store));
  ni_guards : guards blk c.(c_locked).(Header_View) L r;
  ni_root : forall v0, at_view root v0 -> v0 <= disk_voted c.(c_store);
}.

Record net_inv g : Prop := {
  gi_lawful : Lawful (ledger g);
  gi_nodes : forall r c, nodes g !! r = Some c -> node_inv (ledger g) r c;
  gi_final : forall r h, (r, h) ∈ finalized g -> final blk root replicas correct (ledger g) (Header_Hash h);
}.

Lemma certified_mono L L' : L ⊆ L' -> forall k, certified_in L k -> certified_in L' k.
Proof. intros HL k. by apply certd_mono. Qed.

Lemma anchored_mono L L' c : L ⊆ L' -> anchored L c -> anchored L' c.
Proof. intros HL []. split; try done. by eapply certified_mono. Qed.

(** What the ledger promises to the replicas. *)
Lemma certified_laws L : faulty_minority replicas correct -> rooted blk root -> Lawful L ->
  CertdLaws blk root (certified_in L).
Proof.
  intros Hmin Hroot HL. split; [done|..].
  - intros k1 k2 v. by eapply certd_unique.
  - intros k v p vp Hk E Hp. assert (Hb : backed replicas correct L k) by by eapply certd_backed.
    destruct (certd_parent _ _ _ _ Hmin _ _ _ _ HL Hb E) as (Hcp & vp' & Hvp' & Hlt).
    by rewrite (at_view_inj _ _ _ _ Hp Hvp').
  - intros k v v0. by eapply certd_above_root.
Qed.

(** ** One replica's new votes *)

Lemma record_votes_cons r L m ms : record_votes r L (m :: ms)
  = record_votes r (match vote_of m with Some (k, _) => mkCast r k :: L | None => L end) ms.
Proof. done. Qed.

Lemma record_votes_mono r L ms : L ⊆ record_votes r L ms.
Proof.
  revert L. induction ms as [|m ms IH]; intros L; [done|]. rewrite record_votes_cons.
  etrans; [|apply IH]. destruct (vote_of m) as [[k v]|]; set_solver.
Qed.

Lemma record_votes_other r L ms e : e ∈ record_votes r L ms -> voter e <> r -> e ∈ L.
Proof.
  revert L. induction ms as [|m ms IH]; intros L; [done|]. rewrite record_votes_cons. intros He Hr.
  specialize (IH _ He Hr). destruct (vote_of m) as [[k v]|]; [|done].
  apply list.elem_of_cons in IH as [->|?]; [by destruct Hr|done].
Qed.

Lemma vote_ballot m k v : vote_of m = Some (k, v) -> ballot_view m = Some v.
Proof. unfold vote_of, ballot_view. destruct (Message_GetType _) as [[]|]; try done. by intros [= _ <-]. Qed.

Lemma record_votes_lawful r L0 ms : forall L lo hi vlo vhi, L0 ⊆ L -> Lawful L ->
  votes_upto L r vlo -> guards blk lo L r -> (forall v0, at_view root v0 -> v0 <= vlo) ->
  votes_chain blk (certified_in L0) lo ms hi -> chain vlo (ballots ms) vhi ->
  let L' := record_votes r L ms in Lawful L' /\ votes_upto L' r vhi /\ guards blk hi L' r.
Proof.
  induction ms as [|m ms IH]; intros L lo hi vlo vhi HL0 HL Hv Hg Hr Hc Hb.
  - simpl in *. split_and!; [done|intros e v' He Er Ha; specialize (Hv e v' He Er Ha); lia|].
    intros e p q vg He Er Hp Hq Hvg. specialize (Hg e p q vg He Er Hp Hq Hvg). lia.
  - simpl in Hc. unfold ballots in Hb. simpl in Hb. cbv zeta. rewrite record_votes_cons.
    destruct (vote_of m) as [[k v]|] eqn:Em.
    + rewrite (vote_ballot _ _ _ Em) in Hb. destruct Hb as [Hlt Hb], Hc as (lv & Hlo & [Hpar Hlock] & Hc).
      destruct Hpar as (p & l & E & Bp & Bl & Vl & Hrule). pose proof (at_view_child _ _ _ _ E) as [Hkv _].
      apply (IH _ lv hi v vhi); try done.
      * set_solver.
      * apply (Lawful_cons _ _ _ _ _ _ v); [done|]. split; simpl.
        -- intros e v' He Er Ha. specialize (Hv e v' He Er Ha). lia.
        -- intros v0 Hv0. specialize (Hr v0 Hv0). lia.
        -- exists p, l, lv. split_and!; [done|by eapply certified_mono|by eapply certified_mono|done| |done].
           intros e p' q vg He Er Hp Hq Hvg. specialize (Hg e p' q vg He Er Hp Hq Hvg). lia.
      * intros e v' He Er Ha. apply list.elem_of_cons in He as [->|He].
        -- rewrite (at_view_inj _ _ _ _ Ha Hkv). lia.
        -- specialize (Hv e v' He Er Ha). lia.
      * intros e p' q vg He Er Hp Hq Hvg. apply list.elem_of_cons in He as [->|He]; [by eapply Hlock|].
        specialize (Hg e p' q vg He Er Hp Hq Hvg). lia.
      * intros v0 Hv0. specialize (Hr v0 Hv0). lia.
    + destruct (ballot_view m) as [v|]; [|by eapply IH]. destruct Hb as [Hlt Hb].
      apply (IH _ lo hi v vhi); try done.
      * intros e v' He Er Ha. specialize (Hv e v' He Er Ha). lia.
      * intros v0 Hv0. specialize (Hr v0 Hv0). lia.
Qed.

(** ** Steps *)

Context (Hmin : faulty_minority replicas correct) (Hroot : rooted blk root).

Lemma anchored_restart L c c1 c' : Lawful L -> Inv th c -> on_disk c1.(c_store) ->
  c1.(c_id) = c.(c_id) -> c1.(c_replicas) = c.(c_replicas) ->
  disk_lock blk root (certified_in L) c.(c_locked).(Header_View) c1.(c_store) ->
  newConsensus c1.(c_store) c1.(c_id) c1.(c_replicas) = Ok c' ->
  Inv th c' /\ anchored L c' /\ c'.(c_store) = c1.(c_store)
  /\ c.(c_locked).(Header_View) <= c'.(c_locked).(Header_View).
Proof.
  intros HL [HI _] HD Ei Er Hd Hn. rewrite Ei, Er in Hn.
  destruct (restart_Inv th _ _ _ _ HD Hn (inv_id _ _ HI) (inv_threshold _ _ HI)) as (HI' & Es & _).
  destruct (lawful_restart _ _ _ _ _ _ _ _ Hd Hn) as (Ha & Hlo & _). by split_and!.
Qed.

(** A node whose own state changes, while the ledger may grow by its votes. *)
Lemma net_inv_update g r c' L' fs : net_inv g -> Lawful L' -> ledger g ⊆ L' ->
  (forall e, e ∈ L' -> voter e <> r -> e ∈ ledger g) -> node_inv L' r c' ->
  (forall h, (r, h) ∈ fs -> final blk root replicas correct L' (Header_Hash h)) ->
  Forall (fun x => fst x = r) fs ->
  net_inv (mkNet (<[r := c']> (nodes g)) L' (fs ++ finalized g)).
Proof.
  intros [HL Hn Hf] HL' Hsub Hold Hc' Hfs Hr. split; simpl; [done|..].
  - intros r2 c2. destruct (decide (r = r2)) as [<-|N]; [rewrite lookup_insert_eq; by intros [= <-]|].
    rewrite lookup_insert_ne by done. intros Hg. destruct (Hn _ _ Hg) as [I1 A1 V1 G1 R1]. split; try done.
    + by eapply anchored_mono.
    + intros e v' He Er Ha. apply (V1 e v'); [|done..]. apply Hold; [done|congruence].
    + intros e p q vg He Er. apply G1; [|done]. apply Hold; [done|congruence].
  - intros r2 h [Hin|Hin]%elem_of_app.
    + assert (r2 = r) as -> by (rewrite list.Forall_forall in Hr; by apply (Hr (r2, h))). by apply Hfs.
    + eapply final_mono; [exact Hsub|by eapply Hf].
Qed.

Lemma net_inv_same g r c c' : net_inv g -> nodes g !! r = Some c -> node_inv (ledger g) r c' ->
  net_inv (mkNet (<[r := c']> (nodes g)) (ledger g) (finalized g)).
Proof.
  intros HG Hc Hc'. apply (net_inv_update g r c' (ledger g) []); try done; [apply HG|]. by intros h ?%elem_of_nil.
Qed.

(** What a handler does to a node. *)
Lemma handled_node g r c i : net_inv g -> nodes g !! r = Some c -> input_ok i ->
  genuine_input blk (certified_in (ledger g)) c i ->
  let c' := fst (run signer r i c) in
  evolves c c' /\ respects blk root (certified_in (ledger g)) c c'
  /\ (snd (run signer r i c) = inl tt -> Inv th c' /\ anchored (ledger g) c').
Proof.
  intros HG Hc Hi Hgen. destruct (gi_nodes _ HG _ _ Hc) as [HI HA _ _ _].
  pose proof (@keeps_handle DB _ _ _ _ (signer r) _ th _ i Hi c HI) as K.
  pose proof (@lawful_handle DB _ _ _ _ (signer r) _ blk root (certified_in (ledger g)) c i
    (certified_laws _ Hmin Hroot (gi_lawful _ HG)) Hgen HA) as W.
  unfold wp, run in *. destruct (handle i c) as [c' [[]|k]]; simpl; [|by split_and!]. tauto.
Qed.

Lemma new_finals_in r c c' new : c'.(c_Progress).(Events) = c.(c_Progress).(Events) ++ new ->
  new_finals r c c' = omap (fun e => if e.(Finalized) then Some (r, e.(BlockEvent_Header)) else None) new.
Proof. intros E. unfold new_finals. by rewrite E, drop_app_length. Qed.

Lemma input_inv g r c c' i : net_inv g -> nodes g !! r = Some c -> input_ok i ->
  genuine_input blk (certified_in (ledger g)) c i -> run signer r i c = (c', inl tt) ->
  net_inv (mkNet (<[r := c']> (nodes g)) (record_votes r (ledger g) (new_messages c c'))
             (new_finals r c c' ++ finalized g)).
Proof.
  intros HG Hc Hi Hgen Hrun. destruct (handled_node g r c i HG Hc Hi Hgen) as (HE & HR & HN).
  rewrite Hrun in HE, HR, HN. simpl in HE, HR, HN. destruct (HN eq_refl) as [HI' HA'].
  destruct (gi_nodes _ HG _ _ Hc) as [HI HA HV Hg HR0].
  destruct (ev_msgs _ _ HE) as (ms & Em & Hb & _), (re_votes _ _ _ _ _ HR) as (ms' & Em' & Hv).
  rewrite Em in Em'. apply app_inv_head in Em'. subst ms'.
  assert (Enew : new_messages c c' = ms) by (unfold new_messages; by rewrite Em, drop_app_length). rewrite Enew.
  destruct (record_votes_lawful r (ledger g) ms (ledger g) _ _ _ _ ltac:(done) (gi_lawful _ HG) HV Hg HR0 Hv Hb)
    as (HL' & HV' & Hg'). pose proof (record_votes_mono r (ledger g) ms) as Hsub.
  destruct (re_final _ _ _ _ _ HR) as (es & Ee & Hf).
  apply net_inv_update; try done.
  - intros e He Hne. by eapply record_votes_other.
  - split; try done; [by eapply anchored_mono|]. intros v0 Hv0. specialize (HR0 v0 Hv0). pose proof (chain_le _ _ _ Hb). lia.
  - intros h. rewrite (new_finals_in _ _ _ _ Ee). intros (e & He & Eh)%list_elem_of_omap.
    rewrite list.Forall_forall in Hf. specialize (Hf e He). unfold final_in in Hf.
    destruct (Finalized e); [|done]. injection Eh as <-. by eapply final_mono, Hf.
  - rewrite (new_finals_in _ _ _ _ Ee). apply list.Forall_forall. intros x (e & _ & Eh)%list_elem_of_omap.
    destruct (Finalized e); [|done]. by injection Eh as <-.
Qed.

Lemma restart_node g r c c1 c' : net_inv g -> nodes g !! r = Some c ->
  on_disk c1.(c_store) -> c1.(c_id) = c.(c_id) -> c1.(c_replicas) = c.(c_replicas) ->
  disk_lock blk root (certified_in (ledger g)) c.(c_locked).(Header_View) c1.(c_store) ->
  disk_voted c.(c_store) <= disk_voted c1.(c_store) ->
  newConsensus c1.(c_store) c1.(c_id) c1.(c_replicas) = Ok c' -> node_inv (ledger g) r c'.
Proof.
  intros HG Hc HD Ei Er Hd Hv Hn. destruct (gi_nodes _ HG _ _ Hc) as [HI HA HV Hg HR0].
  destruct (anchored_restart (ledger g) c c1 c' (gi_lawful _ HG) HI HD Ei Er Hd Hn) as (HI' & HA' & Es & Hl).
  split; [done|done|..]; rewrite ?Es.
  - intros e v' He Er' Ha. specialize (HV e v' He Er' Ha). lia.
  - intros e p q vg He Er' Hp Hq Hvg. specialize (Hg e p q vg He Er' Hp Hq Hvg). lia.
  - intros v0 Hv0. specialize (HR0 v0 Hv0). lia.
Qed.

Lemma gstep_inv g g' : net_inv g -> gstep signer blk root replicas correct g g' -> net_inv g'.
Proof.
  intros HG Hs. destruct Hs as [r c c' i Hc Hi Hgen Hrun|r c Hc|r c c' Hc Hn|r c c1 k c' i Hc Hi Hgen Hrun Hn].
  - by eapply input_inv.
  - apply (net_inv_same g r c); [done..|]. destruct (gi_nodes _ HG _ _ Hc) as [[HI Hst] HA HV Hg HR0].
    split; try done; [split; [|done]; destruct HI; by constructor|]. destruct HA. by split.
  - apply (net_inv_same g r c); [done..|]. destruct (gi_nodes _ HG _ _ Hc) as [[HI Hst] HA HV Hg HR0].
    eapply (restart_node g r c c); try done; [by apply (Inv0_on_disk th)|by apply anchored_disk].
  - apply (net_inv_same g r c); [done..|].
    destruct (handled_node g r c i HG Hc Hi Hgen) as (HE & HR & _). rewrite Hrun in HE, HR. simpl in HE, HR.
    destruct (gi_nodes _ HG _ _ Hc) as [[HI Hst] HA HV Hg HR0].
    eapply (restart_node g r c c1); try done; [|apply HE|apply HE| |].
    + by apply (ev_disk _ _ HE), (Inv0_on_disk th).
    + by apply (re_disk _ _ _ _ _ HR), anchored_disk.
    + destruct (ev_msgs _ _ HE) as (ms & _ & Hb & _). by eapply chain_le.
Qed.

(** ** The start *)

Lemma born_node genesis r c : genesis_ok blk root genesis -> is_u64 r ->
  1 <= th <= quorum_size (len replicas) -> born replicas genesis r c -> node_inv [] r c.
Proof.
  intros [(header & Eh & Hg & Eroot & Eb & En) (cert & Ec & Hgc & Hb)] Hr Hth (db & db' & Hno & Him & Hn).
  destruct (ImportGenesis_disk db db' genesis header cert) as (D & Cg & Honly); try done. rewrite Hb in Cg.
  assert (Hh : conforms blk header) by (unfold conforms; by rewrite <- Eroot).
  assert (Hon : on_disk db') by (do 5 eexists; exact D).
  destruct (restart_Inv th _ _ _ _ Hon Hn Hr Hth) as (HI & Es & _).
  assert (Hd : disk_lock blk root (certified_in []) header.(Header_View) db').
  { split.
    - intros k h [-> ->]%Honly. rewrite Header_Hash_canon by done. split_and!; [done| |apply Hg|by left].
      unfold conforms. rewrite Header_Hash_canon, <- Eroot by done. unfold canon. simpl. unfold Header_canon. simpl.
      rewrite Eb. f_equal. f_equal. by destruct (Header_Parent header) as [[]|].
    - exists (Header_Hash header), (Header_Hash header), header.(Header_View), header.(Header_View).
      rewrite <- Eroot in *. destruct D.
      split_and!; try done; [rewrite Eroot; apply disk_locked|by eexists|by left|rewrite Eroot; apply disk_prepare|by eexists]. }
  destruct (lawful_restart _ _ _ _ _ _ _ _ Hd Hn) as (Ha & Hlo & _). split; try done.
  - intros e v' ?%elem_of_nil. done.
  - intros e p q vg ?%elem_of_nil. done.
  - intros v0 [p0 Ev]. rewrite Es, Eb in *. injection Ev as <- <-. destruct D.
    unfold disk_voted. rewrite GetVoted_entry, disk_vote, Encode_Decode by done. apply Z.le_refl.
Qed.

(** ** Runs *)

Context (genesis : Block) (Hgenesis : genesis_ok blk root genesis) (Hth : 1 <= th <= quorum_size (len replicas)).

Lemma gstart_inv g : gstart replicas genesis g -> net_inv g.
Proof.
  intros [Hn El Ef]. split; rewrite ?El, ?Ef; [constructor| |by intros r h ?%elem_of_nil].
  intros r c Hc. destruct (Hn r c Hc). by eapply born_node.
Qed.

Lemma gsteps_inv g g' : net_inv g -> rtc (gstep signer blk root replicas correct) g g' -> net_inv g'.
Proof. intros HG Hs. induction Hs as [|x y z Hxy _ IH]; [done|]. by eapply IH, gstep_inv. Qed.

(** Finalized blocks do not conflict. *)
Lemma finalized_comparable g r1 h1 r2 h2 : net_inv g -> (r1, h1) ∈ finalized g -> (r2, h2) ∈ finalized g ->
  descends blk (Header_Hash h1) (Header_Hash h2) \/ descends blk (Header_Hash h2) (Header_Hash h1).
Proof.
  intros [HL _ Hf] Hf1 Hf2.
  eapply final_comparable; [exact Hmin|exact Hroot|exact HL|exact (Hf _ _ Hf1)|exact (Hf _ _ Hf2)].
Qed.
End Facts.

Lemma genesis_rooted blk root genesis `{Hasher} : genesis_ok blk root genesis -> rooted blk root.
Proof. intros [(h & _ & _ & _ & E & N) _]. by eexists _, _. Qed.

(** [linked], decided. *)
Section Links.
Context {DB : Type} `{KVStore DB} `{Hasher}.

Fixpoint chainedb (k : bytes) (v : Z) (bs : list Block) : bool :=
  match bs with
  | [] => true
  | b :: bs =>
      match b.(Block_Header) with
      | Some h => bytes_eqb (sbytes h.(Header_Parent)) k && (v <? h.(Header_View))
                  && chainedb (Header_Hash h) h.(Header_View) bs
      | None => true
      end
  end.
Fixpoint linkedb (c : consensus DB) (bs : list Block) : bool :=
  match bs with
  | [] => true
  | b :: bs =>
      match b.(Block_Header) with
      | Some h => if h.(Header_View) <=? c.(c_commit).(Header_View) then linkedb c bs
                  else is_ok (GetHeader c.(c_store) (sbytes h.(Header_Parent)))
                       && chainedb (Header_Hash h) h.(Header_View) bs
      | None => true
      end
  end.

Lemma chainedb_ok bs : forall k v, chainedb k v bs = true -> chained k v bs.
Proof.
  induction bs as [|b bs IH]; intros k v; simpl; [done|]. destruct (Block_Header b) as [h|]; [|done].
  intros [[Hp Hv]%andb_prop Hc]%andb_prop. zbool. apply bytes_eqb_eq in Hp. auto.
Qed.

Lemma linkedb_ok c bs : linkedb c bs = true -> linked c bs.
Proof.
  induction bs as [|b bs IH]; simpl; [done|]. destruct (Block_Header b) as [h|]; [|done].
  destruct (Header_View h <=? _); [done|]. intros [Hs Hc]%andb_prop. split; [|by apply chainedb_ok].
  unfold stored. destruct (GetHeader _ _) as [q| |]; [by exists q|done..].
Qed.

End Links.

(** ** Executions

    [exec] runs a list of operations: an input to a replica, or the delivery to
    [dst] of the [j]-th message waiting in the progress of [src].  It checks what
    [gstep] asks for, so a run is a path of steps; [link] is the check of the
    blocks of a sync message. *)

Section Executions.
Context {DB : Type} `{KVStore DB} `{Hasher} `{Verifier} (signer : Z -> Signer).
Context (blk : bytes -> option (Z * bytes)) (root : bytes).
Context (replicas : list Z) (correct : Z -> bool) (link : consensus DB -> list Block -> bool).
Implicit Types (g : net DB).

Inductive netop : Type :=
| Give (r : Z) (i : input)
| Pass (src : Z) (j : nat) (dst : Z).

Definition op_input g (o : netop) : option (Z * input) :=
  match o with
  | Give r i => Some (r, i)
  | Pass src j dst => c ← nodes g !! src; m ← c.(c_Progress).(Messages) !! j; Some (dst, IStep m.(MsgTo_Message))
  end.

Definition is_u64b (z : Z) : bool := (0 <=? z) && (z <? two64).
Definition certdb (L : list cast) (k : bytes) : bool :=
  bytes_eqb k root
  || (quorum_size (len replicas) <=? len (filter (fun r => correct r = true -> mkCast r k ∈ L) replicas)).
Definition header_wfb (h : Header) : bool :=
  is_u64b h.(Header_View) && is_u64b h.(Header_ParentView) && (len (enc_fields (fields h)) <? two63)
  && bool_decide (blk (Header_Hash h) = Some (h.(Header_View), sbytes h.(Header_Parent))).
Definition header_okb (L : list cast) (h : Header) : bool := header_wfb h && certdb L (sbytes h.(Header_Parent)).
Definition block_okb (L : list cast) (b : Block) : bool :=
  match b.(Block_Header) with
  | Some h => header_wfb h && match b.(Block_Cert) with Some _ => certdb L (Header_Hash h) | None => true end
  | None => true
  end.

Definition input_okb g (r : Z) (i : input) : bool :=
  match i with
  | IStart | ITick => true
  | ISend state droot data =>
      match nodes g !! r with
      | Some c => header_okb (ledger g) (own_header state droot c)
          && (len (sbytes droot) + len (sbytes state) <? 2 ^ 61)
      | None => false
      end
  | IStep m =>
      match m.(Message_GetType) with
      | Some (Message_Proposal p) => match p.(Proposal_Header) with Some h => header_okb (ledger g) h | None => true end
      | Some (Message_Vote v) => is_u64b v.(Vote_Voter)
      | Some (Message_Newview n) => is_u64b n.(NewView_Voter)
      | Some (Message_Sync s) => match nodes g !! r with
                                 | Some c => forallb (block_okb (ledger g)) s.(Sync_Blocks) && link c s.(Sync_Blocks)
                                 | None => false
                                 end
      | None => true
      end
  end.

Definition exec1 g (o : netop) : option (net DB) :=
  '(r, i) ← op_input g o;
  c ← nodes g !! r;
  if input_okb g r i then
    match run signer r i c with
    | (c', inl _) => Some (mkNet (<[r := c']> (nodes g)) (record_votes r (ledger g) (new_messages c c'))
                             (new_finals r c c' ++ finalized g))
    | _ => None
    end
  else None.
Fixpoint exec g (l : list netop) : option (net DB) :=
  match l with [] => Some g | o :: l => g' ← exec1 g o; exec g' l end.

Context (link_ok : forall c bs, link c bs = true -> linked c bs).

Lemma is_u64b_ok z : is_u64b z = true -> is_u64 z.
Proof. unfold is_u64b, is_u64. intros ?. zbool. lia. Qed.

Lemma certdb_ok L k : NoDup replicas -> certdb L k = true -> certified_in root replicas correct L k.
Proof.
  intros Hnd [Hk|Hq]%orb_prop; [left; by apply bytes_eqb_eq|right]. zbool.
  exists (filter (fun r => correct r = true -> mkCast r k ∈ L) replicas). split.
  - split_and!; [by apply list.NoDup_filter|by intros r [_ ?]%list_elem_of_filter|done].
  - by intros r [? _]%list_elem_of_filter.
Qed.

Lemma header_wfb_ok h : header_wfb h = true -> good h /\ conforms blk h.
Proof.
  unfold header_wfb. intros [[[Hv Hp]%andb_prop Hf]%andb_prop Hb]%andb_prop. zbool.
  apply bool_decide_eq_true in Hb. split; [|done]. split; [split; by apply is_u64b_ok|done].
Qed.

Lemma header_okb_ok L h : NoDup replicas -> header_okb L h = true ->
  good h /\ conforms blk h /\ certified_in root replicas correct L (sbytes h.(Header_Parent)).
Proof. intros Hnd [[? ?]%header_wfb_ok Hc]%andb_prop. split_and!; [done..|by apply certdb_ok]. Qed.

Lemma block_okb_ok L b : NoDup replicas -> block_okb L b = true ->
  (forall h, b.(Block_Header) = Some h -> good h) /\ genuine_block blk (certified_in root replicas correct L) b.
Proof.
  unfold block_okb. intros Hnd Hb. split.
  - intros h Eh. rewrite Eh in Hb. apply andb_prop in Hb as [[? _]%header_wfb_ok _]. done.
  - intros h cert Eh Ec. rewrite Eh, Ec in Hb. apply andb_prop in Hb as [[? ?]%header_wfb_ok Hc].
    split_and!; [done..|]. intros _. by apply certdb_ok.
Qed.

Lemma sync_okb_ok L c bs : NoDup replicas -> forallb (block_okb L) bs && link c bs = true ->
  Forall (fun b => forall h, b.(Block_Header) = Some h -> good h) bs
  /\ Forall (genuine_block blk (certified_in root replicas correct L)) bs /\ linked c bs.
Proof.
  intros Hnd [Hb Hl]%andb_prop. rewrite forallb_forall in Hb.
  split_and!; [..|by apply link_ok]; apply list.Forall_forall; intros b Hin%list_elem_of_In;
    by destruct (block_okb_ok L b Hnd (Hb b Hin)).
Qed.

Lemma input_okb_ok g r i c : NoDup replicas -> nodes g !! r = Some c -> input_okb g r i = true ->
  input_ok i /\ genuine_input blk (certified_in root replicas correct (ledger g)) c i.
Proof.
  intros Hnd Hc. destruct i as [|m|state droot data|]; [done| | |done]; simpl.
  - unfold msg_ok, genuine. destruct (Message_GetType m) as [[p|n|v|s]|]; try done.
    + intros Hh. split; intros h Eh; rewrite Eh in Hh; apply header_okb_ok in Hh as (Hg & Hcf & Hp); try done.
    + intros ?%is_u64b_ok. done.
    + intros ?%is_u64b_ok. done.
    + rewrite Hc. intros (? & ? & ?)%sync_okb_ok; [|done]. by split_and!.
  - rewrite Hc. intros [(Hg & Hcf & Hp)%header_okb_ok Hl]%andb_prop; [|done]. zbool. split; [done|].
    intros sig h [= <-]. split_and!; [done..|]. by intros cert [= <-] _.
Qed.

Lemma exec1_gstep g o g' : NoDup replicas -> exec1 g o = Some g' -> gstep signer blk root replicas correct g g'.
Proof.
  intros Hnd. unfold exec1. destruct (op_input g o) as [[r i]|]; [|done]. simpl.
  destruct (nodes g !! r) as [c|] eqn:Hc; [|done]. simpl. destruct (input_okb g r i) eqn:Hi; [|done].
  destruct (input_okb_ok g r i c Hnd Hc Hi) as [Hok Hgen].
  destruct (run signer r i c) as [c' [[]|k]] eqn:Hr; [|done]. intros [= <-]. by eapply G_input.
Qed.

Lemma exec_rtc g l g' : NoDup replicas -> exec g l = Some g' -> rtc (gstep signer blk root replicas correct) g g'.
Proof.
  intros Hnd. revert g. induction l as [|o l IH]; simpl; intros g; [intros [= <-]; apply rtc_refl|].
  destruct (exec1 g o) as [g1|] eqn:E; [|done]. simpl. intros Hl. eapply rtc_l; [by eapply exec1_gstep|auto].
Qed.
End Executions.

(** ** Theorem *)

Section Main.
Context {DB : Type} `{KVStore DB} `{!KVLaws DB} `{Hasher} `{!HasherLaws} `{Verifier}
        (th : Z) `{!VerifierLaws th} (signer : Z -> Signer).
Context (blk : bytes -> option (Z * bytes)) (root : bytes).
Context (replicas : list Z) (correct : Z -> bool).

(** C1: with less than a third of the replicas faulty, whatever the order in which
    messages arrive, time passes, correct replicas die and restart, two blocks that
    correct replicas finalize are never in conflict: one descends from the other.
    The conditions are those of [gstep]: every certificate that a replica accepts has
    a quorum of votes behind it when it is handled; the headers of the run, which
    [blk] names by their hashes, have no hash collision; and the blocks of every sync
    message follow one another from a block that the replica has ([linked]), without
    which agreement fails also with genuine certificates (Forks.v). *)
Theorem agreement genesis (g0 g : net DB) r1 h1 r2 h2 :
  faulty_minority replicas correct -> genesis_ok blk root genesis -> 1 <= th <= quorum_size (len replicas) ->
  gstart replicas genesis g0 -> rtc (gstep signer blk root replicas correct) g0 g ->
  (r1, h1) ∈ finalized g -> (r2, h2) ∈ finalized g ->
  descends blk (Header_Hash h1) (Header_Hash h2) \/ descends blk (Header_Hash h2) (Header_Hash h1).
Proof.
  intros Hmin Hgen Hth Hstart Hsteps. pose proof (genesis_rooted _ _ _ Hgen) as Hroot.
  apply (finalized_comparable th blk root replicas correct Hmin Hroot).
  eapply gsteps_inv; [done..| |exact Hsteps]. by eapply gstart_inv.
Qed.
End Main.

(** ** Witness

    Replicas 1, 2 and 3 of Instances.v are correct, replica 0 is taken for faulty:
    its only messages are the proposal of view 4 and, to replica 3, the blocks 1
    to 4.  Blocks 1 and 2 are finalized by all three. *)

Definition demo_signers (r : Z) : Signer := demo_signer (Z.to_nat r).
Definition but_zero (r : Z) : bool := negb (r =? 0).
Definition demo_start : net mem_db := mkNet (<[1 := demo 1]> (<[2 := demo 2]> {[3 := demo 3]})) [] [].

Definition offer (x : byte) : input := ISend None (Some [x]) (Some (mkData [])).
Definition views123 : list netop :=
  [Give 1 IStart; Give 2 IStart; Give 3 IStart; Give 1 (offer x01);
   Pass 1 0 2; Pass 1 0 3; Pass 1 1 2; Pass 3 0 2;
   Give 2 (offer x02); Pass 2 1 1; Pass 2 1 3; Pass 1 2 3; Pass 2 2 3;
   Give 3 (offer x03); Pass 3 2 1; Pass 3 2 2].
Definition views45 (proposal4 : Message) : list netop :=
  [Give 1 (IStep proposal4); Give 2 (IStep proposal4); Give 3 (IStep proposal4);
   Pass 2 4 1; Pass 3 4 1; Give 1 (offer x05); Pass 1 5 2].

Definition demo_blk (k : bytes) : option (Z * bytes) :=
  (fun h => (Header_View h, sbytes (Header_Parent h))) <$> find (fun h => bytes_eqb (Header_Hash h) k) demo_headers.
Definition demo_root : bytes := Eval vm_compute in Header_Hash genesis_header.

Definition proposal4 : Message := NewProposalMsg (mkProposal (Some (demo_header 4)) (Some (mkData []))
  (Some (sign_by 0 (Header_Hash (demo_header 4))))
  (Some (mkCertificate (Some (Header_Hash (demo_header 3))) (certify (Header_Hash (demo_header 3)) [1; 2; 3]%nat))) None).

Definition sync14 : input := IStep (NewSyncMsg (certified_block <$> [1; 2; 3; 4]%nat)).

Definition demo_exec : option (net mem_db) :=
  exec demo_signers demo_blk demo_root demo_replicas but_zero linkedb demo_start
    (views123 ++ views45 proposal4 ++ [Give 3 sync14]).

Lemma demo_minority : faulty_minority demo_replicas but_zero.
Proof. split; [apply (bool_decide_eq_true_1 (NoDup demo_replicas)); reflexivity|vm_compute; reflexivity]. Qed.

Lemma demo_genesis_ok : genesis_ok demo_blk demo_root genesis.
Proof.
  split.
  - exists genesis_header. split; [reflexivity|]. split; [apply genesis_header_good|].
    split; [vm_compute; reflexivity|]. split; vm_compute; reflexivity.
  - exists genesis_cert. split; [reflexivity|]. split; [apply genesis_cert_good|vm_compute; reflexivity].
Qed.

Lemma demo_born i : 0 <= i < 4 -> born demo_replicas genesis i (demo i).
Proof.
  intros Hi. exists ∅, demo_store. split; [intros k; reflexivity|]. split; [apply demo_import|].
  destruct demo_disk as [D C].
  destruct (newConsensus_recovers 3 _ i demo_replicas _ _ _ _ _ _ D C) as (c & E & _).
  unfold demo, demo_replica. rewrite E. reflexivity.
Qed.

Lemma demo_gstart : gstart demo_replicas genesis demo_start.
Proof.
  split; [|reflexivity..]. intros r c Hc. unfold demo_start in Hc. simpl in Hc.
  assert (Hr : (r = 1 \/ r = 2 \/ r = 3) /\ c = demo r).
  { rewrite !lookup_insert_Some, lookup_singleton_Some in Hc.
    destruct Hc as [[<- <-]|[_ [[<- <-]|[_ [<- <-]]]]]; (split; [lia|reflexivity]). }
  destruct Hr as [Hr ->]. split; [|apply demo_born; lia].
  split; [lia|]. assert (4 < two64) by reflexivity. lia.
Qed.

Lemma agreement_witness : exists g : net mem_db, demo_exec = Some g
  /\ (1, demo_header 1) ∈ finalized g /\ (3, demo_header 2) ∈ finalized g
  /\ (descends demo_blk (Header_Hash (demo_header 1)) (Header_Hash (demo_header 2))
      \/ descends demo_blk (Header_Hash (demo_header 2)) (Header_Hash (demo_header 1))).
Proof.
  assert (E : finalized <$> demo_exec = Some [(3, demo_header 2); (2, demo_header 2); (1, demo_header 2); (3, demo_header 1);
                                            (2, demo_header 1); (1, demo_header 1)])
    by (vm_compute; reflexivity).
  destruct demo_exec as [g|] eqn:Eg; [|discriminate E]. apply (inj Some) in E.
  assert (H1 : (1, demo_header 1) ∈ finalized g) by (rewrite E; do 5 right; left).
  assert (H2 : (3, demo_header 2) ∈ finalized g) by (rewrite E; left).
  exists g. split; [reflexivity|]. split; [exact H1|]. split; [exact H2|].
  apply (agreement 3 demo_signers demo_blk demo_root demo_replicas but_zero genesis demo_start g 1 (demo_header 1) 3 (demo_header 2)).
  - apply demo_minority.
  - apply demo_genesis_ok.
  - vm_compute. split; discriminate.
  - apply demo_gstart.
  - apply (exec_rtc demo_signers demo_blk demo_root demo_replicas but_zero linkedb linkedb_ok demo_start
             (views123 ++ views45 proposal4 ++ [Give 3 sync14])); [apply demo_minority|exact Eg].
  - exact H1.
  - exact H2.
Defined.
