(* ===== verification/Forks.v ===== *)
(** * Sync messages with gaps break agreement

    [onSync] takes any block whose certificate is valid, also one whose parent the
    replica does not have.  [update] then finds no parent to lock, silently, and
    the replica goes on to vote.  Here is a run of the network of Agreement.v in
    which a correct replica finalizes two conflicting blocks, with one faulty
    replica among four and with genuine certificates only: it differs from the
    runs of [agreement] in one sync message of one block.

    The faulty replica is 0.  Views 1 to 3 are normal, but it keeps the votes for
    block 3 to itself and proposes block 4 on block 2.  Replicas 1 and 2 vote
    for it, and for block 5 on it.  Replica 3 is sent block 5 without block 4, is
    not locked on block 4, and votes for block 6 on block 5: replica 2 finalizes
    block 4.  Replicas 1 and 3 then time out and vote for block 8 on block 3,
    whose certificate replica 0 has kept; blocks 9, 10 and 11 follow, and replica
    2 finalizes block 8. *)

From Stdlib Require Import ZArith Lia.
From stdpp Require Import relations.
From S2P Require Import Prelude Wire Types Proto Codec Encoding Crypto Store Quorum Progress Consensus.
From S2P Require Import ConsensusFacts Handlers Replica Ledger Locking Instances Safety Agreement.

(** ** Descent, decided *)

(** [false] when [k] does not descend from [b]; no answer after [n] steps counts as
    yes. *)
Fixpoint may_descend (blk : bytes -> option (Z * bytes)) (n : nat) (k b : bytes) : bool :=
  bytes_eqb k b ||
  match n with
  | O => true
  | S n => match blk k with Some (_, p) => may_descend blk n p b | None => false end
  end.

Lemma may_descend_no blk n : forall k b, may_descend blk n k b = false -> ~ descends blk k b.
Proof.
  induction n as [|n IH]; intros k b; simpl; [by rewrite orb_true_r|].
  intros [Hne Hp]%orb_false_iff Hd. inversion Hd as [|? p ? [v Hk] Hpb]; subst.
  - by rewrite (proj2 (bytes_eqb_eq b b)) in Hne.
  - rewrite Hk in Hp. by apply (IH p b).
Qed.

(** ** The run *)

Definition block_at (parent : Header) (v : Z) (x : byte) : Header :=
  mkHeader v (Some (Header_Hash parent)) (Header_View parent) (Some [x]) None.

(** Blocks 0 to 11; block [v] is of view [v]. *)
Definition fork_headers : list Header := Eval vm_compute in
  let h1 := block_at genesis_header 1 x01 in let h2 := block_at h1 2 x02 in let h3 := block_at h2 3 x03 in
  let h4 := block_at h2 4 x04 in let h5 := block_at h4 5 x05 in let h6 := block_at h5 6 x06 in
  let h8 := block_at h3 8 x08 in let h9 := block_at h8 9 x09 in let h10 := block_at h9 10 x0a in
  [genesis_header; h1; h2; h3; h4; h5; h6; block_at h6 7 x07; h8; h9; h10; block_at h10 11 x0b].
Definition fork_header (v : nat) : Header := nth v fork_headers genesis_header.
Definition fork_blk (k : bytes) : option (Z * bytes) :=
  (fun h => (Header_View h, sbytes (Header_Parent h))) <$> find (fun h => bytes_eqb (Header_Hash h) k) fork_headers.

Definition fork_cert (v : nat) (who : list nat) : Certificate :=
  mkCertificate (Some (Header_Hash (fork_header v))) (certify (Header_Hash (fork_header v)) who).

(** What replica 0 sends: proposals, votes, and the block with the gap. *)
Definition propose0 (v parent : nat) : input :=
  IStep (NewProposalMsg (mkProposal (Some (fork_header v)) (Some (mkData []))
    (Some (sign_by 0 (Header_Hash (fork_header v)))) (Some (fork_cert parent [1; 2; 3]%nat)) None)).
Definition vote0 (v : nat) : input :=
  IStep (NewVoteMsg (mkVote (Some (Header_Hash (fork_header v))) (Z.of_nat v) 0
    (Some (sign_by 0 (Header_Hash (fork_header v)))))).
Definition gap : input :=
  IStep (NewSyncMsg [mkBlock (Some (fork_header 5)) (Some (mkData [])) (Some (fork_cert 5 [0; 1; 2]%nat))]).

Definition ticks (r : Z) (n : nat) : list netop := replicate n (Give r ITick).

(** Blocks 1 to 3; replicas 1 and 2 time out; block 4 from replica 0; blocks 5 and 6
    from their leaders. *)
Definition before_gap : list netop :=
  views123 ++ ticks 1 2 ++ ticks 2 2 ++
  [Give 1 (propose0 4 2); Give 2 (propose0 4 2); Pass 2 4 1; Give 1 (vote0 4);
   Give 1 (offer x05); Pass 1 5 2; Pass 1 6 2; Give 2 (vote0 5); Give 2 (offer x06)].

(** Replicas 2 and 3 vote for block 6 and block 7 follows; all time out; block 8 from
    replica 0, blocks 9 to 11 from their leaders. *)
Definition after_gap : list netop :=
  [Pass 2 6 3; Pass 2 7 3; Give 3 (vote0 6); Give 3 (offer x07); Pass 3 5 2] ++
  ticks 1 14 ++ ticks 2 2 ++ ticks 3 2 ++
  [Give 2 (propose0 8 3); Give 1 (propose0 8 3); Give 3 (propose0 8 3); Pass 3 7 1; Give 1 (vote0 8);
   Give 1 (offer x09); Pass 1 10 2; Pass 1 10 3; Pass 1 11 2; Pass 3 8 2;
   Give 2 (offer x0a); Pass 2 10 3; Pass 2 10 1; Pass 1 12 3; Pass 2 11 3; Give 3 (offer x0b); Pass 3 10 2].

Definition fork_exec (link : consensus mem_db -> list Block -> bool) : net mem_db -> list netop -> option (net mem_db) :=
  exec demo_signers fork_blk demo_root demo_replicas but_zero link.

(** All steps but one are steps of [gstep]; that one is an input with a genuine block
    that does not link to the store of replica 3. *)
Definition fork_run : option (net mem_db) :=
  g1 ← fork_exec linkedb demo_start before_gap;
  g2 ← fork_exec (fun _ _ => true) g1 [Give 3 gap];
  fork_exec linkedb g2 after_gap.

(** C34: one sync message that carries a certified block without its parent is enough
    to break agreement, with genuine certificates and one faulty replica among
    four: every other step of the run is a step of the network of C1, and a
    correct replica finalizes two blocks neither of which descends from the
    other. *)
Theorem gap_sync_forks : exists g, fork_run = Some g
  /\ (2, fork_header 4) ∈ finalized g /\ (2, fork_header 8) ∈ finalized g
  /\ ~ descends fork_blk (Header_Hash (fork_header 4)) (Header_Hash (fork_header 8))
  /\ ~ descends fork_blk (Header_Hash (fork_header 8)) (Header_Hash (fork_header 4)).
Proof.
  assert (E : (fun g => filter (fun x => fst x = 2) (finalized g)) <$> fork_run
              = Some [(2, fork_header 8); (2, fork_header 4)]) by (vm_compute; reflexivity).
  destruct fork_run as [g|]; [|discriminate E]. apply (inj Some) in E.
  assert (Hin : forall h, h ∈ [fork_header 8; fork_header 4] -> (2, h) ∈ finalized g).
  { intros h Hh. apply (list_elem_of_fmap_2 (pair 2)) in Hh. change (pair 2 <$> _) with [(2, fork_header 8); (2, fork_header 4)] in Hh.
    rewrite <- E in Hh. by apply list_elem_of_filter in Hh as [_ Hh]. }
  exists g. split; [reflexivity|]. split; [apply Hin; right; left|]. split; [apply Hin; left|].
  split; apply (may_descend_no _ 12); vm_compute; reflexivity.
Qed.
