(* ===== verification/Progression.v ===== *)
(** * A round makes progress

    What the protocol promises when nothing goes wrong: a proposal of the current
    view on the highest certificate, made by the leader, gets the replica's vote,
    sent to the next leader, and the handler returns.  Nothing goes wrong means
    that the database accepts writes and the signer signs. *)

From Stdlib Require Import ZArith Lia.
From S2P Require Import Prelude Wire Types Proto Codec Encoding Crypto Store Quorum Progress Consensus.
From S2P Require Import ConsensusFacts Instances Safety.

Section Progression.
Context {DB : Type} `{KVStore DB} `{!KVLaws DB} `{Hasher} `{!HasherLaws} `{Signer} `{Verifier}.
Context (Hput : forall (db : DB) k v, is_Some (db_put db k v)).
Implicit Types c : consensus DB.

(** [m] returns, from a state in [I] to one in [J]. *)
Definition returns {A} (I : consensus DB -> Prop) (m : M (consensus DB) A) (J : A -> consensus DB -> Prop) : Prop :=
  forall c, I c -> wp m J (fun _ => False) c.

Lemma returns_bind {A B} I (m : M (consensus DB) A) J (f : A -> M (consensus DB) B) K :
  returns I m J -> (forall a, returns (J a) (f a) K) -> returns I (m ≫= f) K.
Proof. intros Hm Hf c Hc. apply wp_bind. eapply wp_mono; [by apply Hm|apply Hf|done]. Qed.

Lemma returns_modify I g (J : consensus DB -> Prop) : (forall c, I c -> J (g c)) -> returns I (modify g) (fun _ => J).
Proof. intros Hg c Hc. apply wp_modify. auto. Qed.

Lemma returns_when I (b : bool) m (J : consensus DB -> Prop) : (b = true -> returns I m (fun _ => J)) ->
  (b = false -> forall c, I c -> J c) -> returns I (when b m) (fun _ => J).
Proof. destruct b; intros Ht Hf; [auto|]. intros c Hc. by apply wp_skip, Hf. Qed.

Lemma returns_gets {A} I (f : consensus DB -> A) J : (forall c, I c -> J (f c) c) -> returns I (gets f) J.
Proof. intros Hf c Hc. by apply wp_gets, Hf. Qed.

Lemma returns_weaken {A} (I I' : consensus DB -> Prop) (m : M (consensus DB) A) (J J' : A -> consensus DB -> Prop) :
  (forall c, I' c -> I c) -> (forall a c, J a c -> J' a c) -> returns I m J -> returns I' m J'.
Proof. intros HI HJ Hm c Hc. eapply wp_mono; [by apply Hm, HI|apply HJ|done]. Qed.

(** ** Writes succeed *)

Lemma Put_ok (db : DB) k v : exists db', Put db k v = Ok db'.
Proof. unfold Put. destruct (Hput db k v) as [db' ->]. by exists db'. Qed.

Lemma returns_save I f (J : consensus DB -> Prop) :
  (forall c, I c -> exists db, f c.(c_store) = Ok db /\ J (set_store db c)) -> returns I (save f) (fun _ => J).
Proof. intros Hf c Hc. destruct (Hf c Hc) as (db & E & HJ). unfold wp, save. by rewrite E. Qed.

(** ** A replica that waits for the proposal of its view *)

(** The fields that do not change until the vote, a store in order in which the
    block [k] is found, and messages that start with [ms]. *)
Record steady (c0 : consensus DB) (k : bytes) c : Prop := {
  st_view : c.(c_view) = c0.(c_view);
  st_voted : c.(c_voted) = c0.(c_voted);
  st_id : c.(c_id) = c0.(c_id);
  st_replicas : c.(c_replicas) = c0.(c_replicas);
  st_store : store_ok c.(c_store);
  st_block : exists b, entry c.(c_store) (KHeader k) = Some b;
}.

(** The block [k] is prepared. *)
Definition ready c0 k c : Prop := steady c0 k c /\ Header_Hash c.(c_prepare) = k.

Lemma steady_write c0 k c db sk v : steady c0 k c -> writes_entry c.(c_store) db sk v ->
  (forall hash, sk <> KHeader hash) -> steady c0 k (set_store db c).
Proof.
  intros [] W N. split; try done; simpl; [by eapply store_ok_other|].
  by rewrite (writes_entry_other _ _ _ _ _ W).
Qed.

Lemma returns_getHeader c0 k hash :
  returns (ready c0 k) (getHeader hash) (fun o c => ready c0 k c /\ (sbytes hash = k -> is_Some o)).
Proof.
  intros c [Hc Hp]. unfold wp, getHeader. rewrite GetHeader_entry.
  destruct (entry (c_store c) (KHeader (sbytes hash))) as [b|] eqn:E.
  - destruct (st_store _ _ _ Hc _ _ E) as (h & Hg & -> & _). rewrite decode_encoding by done. by split.
  - split; [done|]. intros <-. destruct (st_block _ _ _ Hc) as [b Hb]. congruence.
Qed.

Lemma returns_tag c0 k sk hash : sk ∈ [KPrepare; KLocked; KDecide] ->
  returns (ready c0 k) (save (fun db => SetTag db (skey_bytes sk) hash)) (fun _ => ready c0 k).
Proof.
  intros Hsk. apply returns_save. intros c [Hc Hp].
  destruct (Put_ok c.(c_store) (skey_bytes sk) hash) as [db E].
  exists db. split; [exact E|]. pose proof (SetTag_entry _ sk _ _ Hsk E) as W. split; [|exact Hp].
  eapply steady_write; [exact Hc|exact W|]. intros h ->. set_solver.
Qed.

(** [updatePrepare] makes the parent the prepared block. *)
Lemma returns_updatePrepare c0 parent cert :
  returns (fun c => steady c0 (Header_Hash parent) c
             /\ (Header_Hash c.(c_prepare) = Header_Hash parent \/ c.(c_prepare).(Header_View) < parent.(Header_View)))
    (updatePrepare parent cert) (fun _ => ready c0 (Header_Hash parent)).
Proof.
  intros c [Hc Hp]. unfold updatePrepare. apply wp_bind, wp_gets, wp_when; intros E; zbool.
  - apply wp_bind, wp_modify, wp_bind, wp_modify.
    apply (returns_bind (ready c0 (Header_Hash parent)) _ (fun _ => ready c0 (Header_Hash parent)) _ (fun _ => ready c0 (Header_Hash parent))).
    + apply (returns_tag c0 _ KPrepare). set_solver.
    + intros _ s Hs. apply wp_modify. destruct Hs as [[] ?]. by split.
    + split; [|done]. destruct Hc. by split.
  - split; [done|]. destruct Hp; [done|lia].
Qed.

Lemma returns_progress c0 k f : returns (ready c0 k) (modify_progress f) (fun _ => ready c0 k).
Proof. apply returns_modify. intros c [[] ?]. by split. Qed.

(** [update] returns, whatever of the chain is stored. *)
Lemma returns_update c0 k parent : returns (ready c0 k) (update parent) (fun _ => ready c0 k).
Proof.
  unfold update. eapply returns_bind; [apply returns_getHeader|]. intros [gp|]; [|intros c [Hc _]; by apply wp_skip].
  eapply returns_bind; [eapply returns_weaken; [|done|apply returns_getHeader]; by intros c [Hc _]|].
  intros [ggp|]; [|intros c [Hc _]; by apply wp_skip].
  eapply (returns_bind _ _ (fun _ => ready c0 k)); [by apply returns_gets; intros c [Hc _]|]. intros locked.
  eapply (returns_bind _ _ (fun _ => ready c0 k)).
  { apply returns_when; [intros _|done]. eapply (returns_bind _ _ (fun _ => ready c0 k)).
    - apply returns_modify. intros c [[] ?]. by split.
    - intros _. apply (returns_tag c0 k KLocked). set_solver. }
  intros _. eapply (returns_bind _ _ (fun _ => ready c0 k)); [by apply returns_gets|]. intros commit.
  apply returns_when; [intros _|done]. eapply (returns_bind _ _ (fun _ => ready c0 k)).
  - apply returns_modify. intros c [[] ?]. by split.
  - intros _. eapply (returns_bind _ _ (fun _ => ready c0 k)); [apply (returns_tag c0 k KDecide); set_solver|].
    intros _. apply returns_progress.
Qed.

(** The proposal is written. *)
Lemma returns_persistProposal c0 k header data cert : good header -> good data -> good cert ->
  returns (ready c0 k) (persistProposal header (Some data) cert) (fun _ => ready c0 k).
Proof.
  intros Hh Hd Hc. unfold persistProposal. eapply (returns_bind _ _ (fun _ => ready c0 k)).
  { apply returns_save. intros c [Hs Hp]. unfold SaveHeader. rewrite marshal_encoding by done. cbn [mbind res_bind].
    destruct (Put_ok c.(c_store) (headerKey (Header_Hash header)) (encoding header)) as [db E]. exists db. split; [exact E|].
    assert (S : SaveHeader c.(c_store) header = Ok db) by (unfold SaveHeader; by rewrite marshal_encoding).
    destruct Hs. destruct (store_ok_save _ _ _ Hh S st_store0) as [Hs' _].
    split; [|done]. split; try done. simpl. destruct st_block0 as [b Hb].
    pose proof (Put_entry _ (KHeader (Header_Hash header)) _ _ E) as W. rewrite W. case_decide; by eexists. }
  intros _. eapply (returns_bind _ _ (fun _ => ready c0 k)).
  { apply returns_save. intros c [Hs Hp]. unfold SaveData. cbn [deref mbind res_bind]. rewrite marshal_encoding by done. cbn [mbind res_bind].
    destruct (Put_ok c.(c_store) (dataKey (Header_Hash header)) (encoding data)) as [db E]. exists db. split; [exact E|].
    split; [|done]. eapply steady_write; [done|by apply (Put_entry _ (KData _)) in E|done]. }
  intros _. apply returns_save. intros c [Hs Hp]. unfold SaveCertificate. rewrite marshal_encoding by done. cbn [mbind res_bind].
  destruct (Put_ok c.(c_store) (certKey (sbytes (Certificate_Block cert))) (encoding cert)) as [db E]. exists db. split; [exact E|].
  split; [|done]. eapply steady_write; [done|by apply (Put_entry _ (KCert _)) in E|done].
Qed.

(** The rule lets through what extends the prepared block. *)
Lemma returns_safeNode c0 header : returns (ready c0 (sbytes header.(Header_Parent)))
  (safeNode header) (fun ok c => ok = true /\ ready c0 (sbytes header.(Header_Parent)) c).
Proof.
  unfold safeNode. eapply returns_bind; [apply returns_getHeader|]. simpl. intros [p|].
  - intros c [Hc _]. apply wp_bind, wp_gets, wp_ret. split; [|done].
    unfold id. apply orb_true_iff. left. apply orb_true_iff. right. apply bytes_eqb_eq. by destruct Hc.
  - intros c [_ Hn]. by destruct (Hn eq_refl).
Qed.

(** The vote is sent to the leader of the next view, who is another replica. *)
Lemma returns_sendVote step c0 k header next sig :
  Sign [] (Header_Hash header) = Ok sig ->
  leader_of c0.(c_replicas) (wrap64 (header.(Header_View) + 1)) = Ok next -> next <> c0.(c_id) ->
  returns (ready c0 k) (sendVote step header) (fun _ c' =>
    c'.(c_voted) = header.(Header_View) /\ c'.(c_view) = c0.(c_view)
    /\ mkMsgTo (Some [next]) (NewVoteMsg (mkVote (Some (Header_Hash header)) header.(Header_View) c0.(c_id) (Some sig)))
       ∈ c'.(c_Progress).(Messages)).
Proof.
  intros Hs Hl Hne c [[] Hp]. unfold sendVote. apply wp_bind, wp_modify, wp_bind.
  destruct (Put_ok c.(c_store) [votedBucket] (EncodeUint64 header.(Header_View))) as [db E].
  unfold wp at 1, save. unfold SaveVoted. simpl c_store. rewrite E.
  apply wp_bind, wp_modify, wp_bind, wp_gets, wp_bind. unfold wp at 1, liftr. rewrite Hs.
  apply wp_bind. unfold wp at 1, getLeader, liftr. simpl c_replicas. rewrite st_replicas0, Hl.
  unfold sendMsg. apply wp_bind, wp_modify. simpl deliver_self. apply wp_bind, wp_gets, wp_bind.
  simpl c_id. rewrite st_id0, (proj2 (Z.eqb_neq _ _)) by done. apply wp_skip, wp_skip. split_and!; [done|done|].
  simpl. apply elem_of_app. right. left.
Qed.

(** A proposal of [leader] for the current view, on the highest certificate the
    replica knows of, or a higher one. *)
Record offered c (p : Proposal) (header parent : Header) (data : Data) (cert : Certificate) (leader : Z) : Prop := {
  of_header : p.(Proposal_Header) = Some header;
  of_data : p.(Proposal_Data) = Some data;
  of_cert : p.(Proposal_ParentCert) = Some cert;
  of_timeout : p.(Proposal_Timeout) = None;
  of_good : good header /\ good data /\ good cert;
  of_view : header.(Header_View) = c.(c_view);
  of_fresh : c.(c_voted) < c.(c_view);
  of_block : sbytes header.(Header_Parent) = sbytes cert.(Certificate_Block);
  of_valid : VerifyAggregated (sbytes header.(Header_Parent)) cert.(Certificate_Sig) = Ok true;
  of_parent : GetHeader c.(c_store) (sbytes header.(Header_Parent)) = Ok parent;
  of_below : parent.(Header_View) < c.(c_view);
  of_highest : Header_Hash c.(c_prepare) = Header_Hash parent \/ c.(c_prepare).(Header_View) < parent.(Header_View);
  of_leader : leader_of c.(c_replicas) c.(c_view) = Ok leader;
  of_signed : Verify leader (Header_Hash header) (sbytes p.(Proposal_Sig)) = true;
}.

Lemma returns_acceptProposal step c p header parent data cert leader next sig :
  store_ok c.(c_store) -> offered c p header parent data cert leader ->
  Sign [] (Header_Hash header) = Ok sig ->
  leader_of c.(c_replicas) (wrap64 (header.(Header_View) + 1)) = Ok next -> next <> c.(c_id) ->
  wp (acceptProposal step p header parent cert) (fun _ c' =>
    c'.(c_voted) = header.(Header_View) /\ c'.(c_view) = c.(c_view)
    /\ mkMsgTo (Some [next]) (NewVoteMsg (mkVote (Some (Header_Hash header)) header.(Header_View) c.(c_id) (Some sig)))
       ∈ c'.(c_Progress).(Messages)) (fun _ => False) c.
Proof.
  intros Hst [] Hs Hl Hne. destruct of_good0 as (Hgh & Hgd & Hgc).
  pose proof (store_ok_get _ _ _ Hst of_parent0) as [_ Ep].
  assert (H0' : steady c (Header_Hash parent) c).
  { split; try done. rewrite Ep. rewrite GetHeader_entry in of_parent0.
    destruct (entry _ _) as [b|]; [by exists b|done]. }
  unfold acceptProposal. rewrite of_timeout0, of_data0.
  apply wp_bind. eapply wp_mono; [by apply (returns_updatePrepare c parent cert)| |done]. intros [] c1 H1'; cbv beta in H1'.
  apply wp_bind. unfold syncView. apply wp_bind, wp_gets. rewrite (st_view _ _ _ (proj1 H1')).
  rewrite (proj2 (Z.leb_gt _ _)) by lia. apply wp_skip.
  apply wp_bind. eapply wp_mono; [by apply (returns_update c (Header_Hash parent))| |done]. intros [] c2 H2'; cbv beta in H2'.
  apply wp_bind, wp_gets. rewrite (st_view _ _ _ (proj1 H2')), of_view0, Z.eqb_refl. cbn [when].
  apply wp_bind. eapply wp_mono; [by apply (returns_persistProposal c (Header_Hash parent))| |done]. intros [] c3 H3'; cbv beta in H3'.
  apply wp_bind, wp_gets. rewrite (st_voted _ _ _ (proj1 H3')). rewrite (proj2 (Z.ltb_lt _ _)) by lia. cbn [when].
  apply wp_bind. rewrite Ep in H3'. eapply wp_mono; [by apply (returns_safeNode c header)| |done]. intros ok c4 [-> H4'].
  cbn [when]. pose proof (returns_sendVote step c _ header next sig Hs Hl Hne c4 H4') as Hv.
  by rewrite of_view0 in Hv.
Qed.

Lemma returns_onProposal step c p header parent data cert leader next sig :
  store_ok c.(c_store) -> offered c p header parent data cert leader ->
  Sign [] (Header_Hash header) = Ok sig ->
  leader_of c.(c_replicas) (wrap64 (header.(Header_View) + 1)) = Ok next -> next <> c.(c_id) ->
  wp (onProposal step p) (fun _ c' =>
    c'.(c_voted) = header.(Header_View) /\ c'.(c_view) = c.(c_view)
    /\ mkMsgTo (Some [next]) (NewVoteMsg (mkVote (Some (Header_Hash header)) header.(Header_View) c.(c_id) (Some sig)))
       ∈ c'.(c_Progress).(Messages)) (fun _ => False) c.
Proof.
  intros Hst Ho Hs Hl Hne. pose proof Ho as []. unfold onProposal. rewrite of_header0, of_cert0.
  apply wp_bind. unfold wp at 1, liftr, deref. rewrite of_block0, (proj2 (bytes_eqb_eq _ _)) by done. cbn [when].
  apply wp_bind. unfold wp at 1, liftr. rewrite <- of_block0, of_valid0. cbn [when].
  apply wp_bind. unfold wp at 1, getHeader. rewrite of_parent0.
  apply wp_bind. unfold checkTimeout. rewrite of_timeout0. apply wp_ret. cbn [when].
  apply wp_bind. unfold wp at 1, getLeader, liftr.
  rewrite <- of_view0 in of_leader0. rewrite of_leader0, of_signed0. cbn [when].
  by apply (returns_acceptProposal step c p header parent data cert leader next sig).
Qed.
End Progression.

(** ** Theorem *)

Section Votes.
Context {DB : Type} `{KVStore DB} `{!KVLaws DB} `{Hasher} `{!HasherLaws} `{Signer} `{Verifier}.

(** When the database accepts writes, a replica that has not voted in its view
    answers the proposal of the view's leader on the highest certificate with its
    vote: the handler returns, and the vote for the block, signed, is on its way
    to the leader of the next view. *)
Theorem proposal_gets_vote (c : consensus DB) p header parent data cert leader next sig :
  (forall (db : DB) k v, is_Some (db_put db k v)) -> store_ok c.(c_store) ->
  offered c p header parent data cert leader -> Sign [] (Header_Hash header) = Ok sig ->
  leader_of c.(c_replicas) (wrap64 (header.(Header_View) + 1)) = Ok next -> next <> c.(c_id) ->
  exists c', handle (IStep (NewProposalMsg p)) c = (c', inl tt)
    /\ c'.(c_voted) = header.(Header_View) /\ c'.(c_view) = c.(c_view)
    /\ mkMsgTo (Some [next]) (NewVoteMsg (mkVote (Some (Header_Hash header)) header.(Header_View) c.(c_id) (Some sig)))
       ∈ c'.(c_Progress).(Messages).
Proof.
  intros Hput Hst Ho Hs Hl Hne.
  pose proof (returns_onProposal Hput (Step 1) c p header parent data cert leader next sig Hst Ho Hs Hl Hne) as Hw.
  change (handle (IStep (NewProposalMsg p))) with (onProposal (Step 1) p). unfold wp in Hw.
  destruct (onProposal (Step 1) p c) as [c' [[]|k]]; [|done]. by exists c'.
Qed.
End Votes.

(** ** Witness: replica 3 answers the proposal of view 1 *)

Definition header_of_view1 : Header := mkHeader 1 (Some (Header_Hash genesis_header)) 0 (Some [x01]) None.
Definition proposal_of_view1 : Proposal := mkProposal (Some header_of_view1) (Some (mkData []))
  (Some (sign_by 1 (Header_Hash header_of_view1))) (Some genesis_cert) None.

Lemma proposal_offered :
  offered (demo 3) proposal_of_view1 header_of_view1 (canon genesis_header) (mkData []) genesis_cert 1.
Proof.
  pose proof genesis_cert_good as Hc.
  assert (Hg : good header_of_view1 /\ good (mkData [])).
  { split; (split; [|vm_compute; reflexivity]); [split; split; vm_compute; [discriminate|reflexivity|discriminate|reflexivity]|constructor]. }
  destruct Hg as [Hh Hd]. constructor; [reflexivity|reflexivity|reflexivity|reflexivity|by split_and!|..].
  1-6: vm_compute; reflexivity.
  - left. vm_compute. reflexivity.
  - vm_compute. reflexivity.
  - vm_compute. reflexivity.
Qed.

Lemma proposal_gets_vote_witness : exists c', handle (H1 := demo_signer 3) (IStep (NewProposalMsg proposal_of_view1)) (demo 3) = (c', inl tt)
  /\ c'.(c_voted) = 1.
Proof.
  destruct (proposal_gets_vote (H2 := demo_signer 3) (demo 3) proposal_of_view1 header_of_view1 (canon genesis_header)
    (mkData []) genesis_cert 1 2 (sign_by 3 (Header_Hash header_of_view1))) as (c' & E & Hv & _).
  - intros db k v. eexists. reflexivity.
  - destruct (demo_inv 3) as [[HI _] _]; [lia|]. apply (disk_store _ _ _ _ _ _ (inv_disk _ _ HI)).
  - apply proposal_offered.
  - vm_compute. reflexivity.
  - vm_compute. reflexivity.
  - vm_compute. discriminate.
  - exists c'. split; [exact E|exact Hv].
Defined.
