(* ===== verification/Rounds.v ===== *)
(** * Rounds

    What a replica does when nothing goes wrong, over many views.  [tracked] is an
    abstract replica that only knows its view, its last vote, the prepared and the
    committed block and what it has stored, reported and sent; [follow] is what a
    good proposal does to it, a total function.  The handler of consensus.go
    refines it: it returns, and the state it leaves is described by [follow].

    It follows that a replica that is given a chain of good proposals in
    consecutive views votes for all of them and finalizes all but the last three. *)

From Stdlib Require Import ZArith Lia.
From S2P Require Import Prelude Wire Types Proto Codec Encoding Crypto Store Quorum Progress Consensus.
From S2P Require Import ConsensusFacts Handlers Replica Instances Safety Progression Agreement.

(** ** The abstract replica *)

Record tracked : Type := mkTracked {
  t_view : Z;
  t_voted : Z;
  t_idle : bool;                (* no vote has been collected *)
  t_prepare : Header;
  t_commit : Header;
  t_stored : list Header;
  t_events : list BlockEvent;
  t_msgs : list MsgTo;
  t_absent : list bytes;        (* hashes of no stored header *)
}.

Definition t_enter (v : Z) t : tracked :=
  mkTracked v t.(t_voted) true t.(t_prepare) t.(t_commit) t.(t_stored) t.(t_events) t.(t_msgs) t.(t_absent).
Definition t_prepared (h : Header) t : tracked :=
  if t.(t_prepare).(Header_View) <? h.(Header_View)
  then mkTracked t.(t_view) t.(t_voted) t.(t_idle) h t.(t_commit) t.(t_stored) t.(t_events) t.(t_msgs) t.(t_absent)
  else t.
Definition t_committed (parent gparent ggparent : Header) t : tracked :=
  if (wrap64 (parent.(Header_View) - gparent.(Header_View)) =? 1)
     && (wrap64 (gparent.(Header_View) - ggparent.(Header_View)) =? 1)
     && (t.(t_commit).(Header_View) <? ggparent.(Header_View))
  then mkTracked t.(t_view) t.(t_voted) t.(t_idle) t.(t_prepare) ggparent t.(t_stored)
         (mkBlockEvent ggparent true :: t.(t_events)) t.(t_msgs) t.(t_absent)
  else t.
Definition t_save (h : Header) t : tracked :=
  mkTracked t.(t_view) t.(t_voted) t.(t_idle) t.(t_prepare) t.(t_commit) (h :: t.(t_stored)) t.(t_events) t.(t_msgs) t.(t_absent).
Definition t_vote (m : MsgTo) (v : Z) t : tracked :=
  mkTracked t.(t_view) v false t.(t_prepare) t.(t_commit) t.(t_stored) t.(t_events) (m :: t.(t_msgs)) t.(t_absent).
Definition t_sync (v : Z) t : tracked := if t.(t_view) <=? v then t_enter (v + 1) t else t.

Section Follow.
Context `{Hasher}.

(** A stored header with a given hash. *)
Definition t_find (k : bytes) t : option Header := find (fun h => bytes_eqb (Header_Hash h) k) t.(t_stored).

(** [update], as far as the stored headers that are tracked go. *)
Definition t_update (parent : Header) t : tracked :=
  match g ← t_find (sbytes parent.(Header_Parent)) t; gg ← t_find (sbytes g.(Header_Parent)) t; Some (g, gg) with
  | Some (g, gg) => t_committed parent g gg t
  | None => t
  end.

(** A proposal for [h] on [parent], answered by [m]. *)
Definition follow (h parent : Header) (m : MsgTo) t : tracked :=
  t_vote m h.(Header_View) (t_save (canon h) (t_update parent (t_sync (h.(Header_View) - 1) (t_prepared parent t)))).
End Follow.

Section Rounds.
Context {DB : Type} `{KVStore DB} `{!KVLaws DB} `{Hasher} `{!HasherLaws} `{Signer} `{Verifier}.
Context (th : Z) `{!VerifierLaws th}.
Context (Hput : forall (db : DB) k v, is_Some (db_put db k v)) (Hsign : forall msg, len msg = 32 -> exists sig, Sign [] msg = Ok sig).
Context (self : Z) (Hself : is_u64 self) (replicas : list Z) (Hn : 2 <= len replicas).
Implicit Types (c : consensus DB) (t : tracked).

(** [t] describes [c]. *)
Record tracks t c : Prop := {
  tr_view : c.(c_view) = t.(t_view);
  tr_voted : c.(c_voted) = t.(t_voted);
  tr_id : c.(c_id) = self;
  tr_replicas : c.(c_replicas) = replicas;
  tr_majority : c.(c_votes).(Votes_majority) = quorum_size (len replicas);
  tr_idle : t.(t_idle) = true -> c.(c_votes).(Votes_votes) = ∅;
  tr_prepare : c.(c_prepare) = t.(t_prepare);
  tr_commit : c.(c_commit) = t.(t_commit);
  tr_store : store_ok c.(c_store);
  tr_stored : Forall (fun h => GetHeader c.(c_store) (Header_Hash h) = Ok h) t.(t_stored);
  tr_absent : Forall (fun k => entry c.(c_store) (KHeader k) = None) t.(t_absent);
  tr_events : t.(t_events) ⊆ c.(c_Progress).(Events);
  tr_msgs : t.(t_msgs) ⊆ c.(c_Progress).(Messages);
  tr_old : forall tc, load_timeoutCert c = Some tc -> tc.(TimeoutCertificate_View) < t.(t_view);
}.

Abbreviation steps t m t' := (returns (tracks t) m (fun _ => tracks t')).

Lemma tracks_write t c db sk v : tracks t c -> writes_entry c.(c_store) db sk v -> (forall k, sk <> KHeader k) ->
  tracks t (set_store db c).
Proof.
  intros [] W N. split; try done; simpl; [by eapply store_ok_other|..].
  - eapply list.Forall_impl; [exact tr_stored0|]. intros h Hh. simpl.
    by rewrite GetHeader_entry, (writes_entry_other _ _ _ _ _ W), <- GetHeader_entry by done.
  - eapply list.Forall_impl; [exact tr_absent0|]. intros k Hk. simpl. by rewrite (writes_entry_other _ _ _ _ _ W).
Qed.

(** A write of something that is not a header. *)
Definition plain_write (f : DB -> res DB) : Prop := forall db, exists db' sk v,
  f db = Ok db' /\ writes_entry db db' sk v /\ forall k, sk <> KHeader k.

Lemma steps_save t f : plain_write f -> steps t (save f) t.
Proof.
  intros Hf. apply returns_save. intros c Hc. destruct (Hf c.(c_store)) as (db & sk & v & E & W & N).
  exists db. split; [done|by eapply tracks_write].
Qed.

Lemma plain_put sk v : (forall k, sk <> KHeader k) -> plain_write (fun db => Put db (skey_bytes sk) v).
Proof.
  intros N db. destruct (Put_ok Hput db (skey_bytes sk) v) as [db' E]. exists db', sk, v.
  split_and!; [done|by apply Put_entry|done].
Qed.

Lemma steps_modify t t' (g : consensus DB -> consensus DB) : (forall c, tracks t c -> tracks t' (g c)) -> steps t (modify g) t'.
Proof. intros Hg. by apply returns_modify. Qed.

Lemma steps_bind {A} t (m : M (consensus DB) A) J K (f : A -> M (consensus DB) unit) :
  returns (tracks t) m J -> (forall a, returns (J a) (f a) K) -> returns (tracks t) (m ≫= f) K.
Proof. apply returns_bind. Qed.
Lemma steps_seq t1 t2 K (m m' : M (consensus DB) unit) : steps t1 m t2 -> returns (tracks t2) m' K -> returns (tracks t1) (m ;; m') K.
Proof. intros H1' H2'. eapply returns_bind; [exact H1'|by intros []]. Qed.

(** ** Entering a view *)

Lemma leader_ok v : exists r, leader_of replicas v = Ok r.
Proof.
  unfold leader_of. destruct (len replicas =? 0) eqn:E; zbool; [lia|].
  destruct (replicas !! Z.to_nat (v mod len replicas)) as [r|] eqn:Er; [by exists r|].
  apply lookup_ge_None in Er. pose proof (Z.mod_pos_bound v (len replicas) ltac:(lia)). unfold len in *. lia.
Qed.

Lemma returns_leader t v : returns (tracks t) (getLeader v) (fun r c => leader_of replicas v = Ok r /\ tracks t c).
Proof.
  intros c Hc. unfold wp, getLeader, liftr. rewrite (tr_replicas _ _ Hc). destruct (leader_ok v) as [r ->]. done.
Qed.

Lemma load_reset c : load_timeoutCert (resetTimeouts c) = load_timeoutCert c.
Proof.
  unfold resetTimeouts. destruct (c_timeoutCert c) eqn:E1, (Timeouts_Cert (c_timeouts c)) eqn:E2;
    unfold load_timeoutCert; simpl; by rewrite ?E1, ?E2.
Qed.

(** The collector of timeouts is new, and nobody else has its certificate. *)
Definition unshared c : Prop := c.(c_timeouts).(Timeouts_view) = 0 /\ c.(c_timeoutCert) <> TcTimeouts.

Lemma tracks_reset t c : tracks t c -> tracks t (resetTimeouts c) /\ unshared (resetTimeouts c).
Proof.
  intros []. split.
  - split; try (unfold resetTimeouts; by destruct (c_timeoutCert c), (Timeouts_Cert (c_timeouts c))). by rewrite load_reset.
  - unfold unshared, resetTimeouts. destruct (c_timeoutCert c) eqn:E, (Timeouts_Cert (c_timeouts c)); (split; [done|simpl; congruence]).
Qed.

Lemma load_unshared c T : c.(c_timeoutCert) <> TcTimeouts -> load_timeoutCert (set_timeouts T c) = load_timeoutCert c.
Proof. unfold load_timeoutCert. simpl. by destruct (c_timeoutCert c). Qed.

Lemma returns_start t : returns (fun c => tracks t c /\ unshared c) startTimeouts (fun _ => tracks t).
Proof.
  intros c [Hc [E Hu]]. unfold wp, startTimeouts, Timeouts_Start. rewrite E. simpl. destruct Hc. split; try done. by rewrite load_unshared.
Qed.

(** A replica that enters a view it leads waits for data. *)
Definition waits t c : Prop := tracks t c /\ (leader_of replicas t.(t_view) = Ok self -> c.(c_waitingData) = true).

Lemma returns_nextRound step t : returns (tracks t) (nextRound step false) (fun _ => waits (t_enter t.(t_view) t)).
Proof.
  set (t' := t_enter t.(t_view) t). unfold nextRound, resetTimeout, releaseTimeoutCert.
  eapply (returns_bind _ _ (fun _ => tracks t)); [apply steps_modify; intros c []; by split|intros _].
  eapply (returns_bind _ _ (fun _ => tracks t)); [apply steps_modify; intros c []; by split|intros _].
  eapply (returns_bind _ _ (fun _ => tracks t')); [apply steps_modify; intros c []; by split|intros _].
  eapply (returns_bind _ _ (fun _ => tracks t')).
  { apply steps_modify. intros c Hc. destruct (load_timeoutCert c) as [x|] eqn:Ex; [destruct (_ <? _)|]; try done. destruct Hc; by split. }
  intros _. eapply (returns_bind _ _ (fun me c => me = self /\ tracks t' c)).
  { apply returns_gets. intros c Hc. split; [by destruct Hc|done]. }
  intros me c [-> Hc]. revert c Hc. eapply (returns_bind _ _ (fun v c => v = t'.(t_view) /\ tracks t' c)).
  { apply returns_gets. intros c Hc. split; [by destruct Hc|done]. }
  intros v c [-> Hc]. revert c Hc.
  eapply (returns_bind _ _ (fun _ => tracks t')); [eapply returns_weaken; [done| |apply returns_leader]; by intros ? ? [_ ?]|]. intros prev.
  eapply (returns_bind _ _ (fun _ => tracks t')).
  { apply returns_when; [intros _|done]. apply steps_modify. intros c Hc. by apply tracks_reset. }
  intros _. eapply (returns_bind _ _ (fun _ => tracks t')); [eapply returns_weaken; [done| |apply returns_leader]; by intros ? ? [_ ?]|]. intros next.
  eapply (returns_bind _ _ (fun _ => tracks t')).
  { apply returns_when; [intros _|done]. eapply returns_bind; [apply (returns_modify _ _ (fun c => tracks t' c /\ unshared c))|intros []; apply returns_start].
    intros c Hc. by apply tracks_reset. }
  intros _. eapply (returns_bind _ _ (fun _ => tracks t')); [by apply returns_gets|]. intros voted. simpl.
  eapply returns_bind; [apply returns_leader|]. intros leader c [Hl Hc]. unfold waits.
  apply wp_when; [intros _|intros E; split; [done|]; intros E'; zbool; change (t_view t') with (t_view t) in *; congruence].
  unfold waitForData, modify_progress. apply wp_bind, wp_modify, wp_modify. split; [destruct Hc; by split|done].
Qed.

Lemma steps_nextRound step t : steps t (nextRound step false) (t_enter t.(t_view) t).
Proof. eapply returns_weaken; [done| |apply returns_nextRound]. by intros _ c [? _]. Qed.

Lemma steps_setView v t : t.(t_view) <= v -> steps t (setView v) (mkTracked v t.(t_voted) t.(t_idle) t.(t_prepare) t.(t_commit) t.(t_stored) t.(t_events) t.(t_msgs) t.(t_absent)).
Proof.
  intros Hv. set (t' := mkTracked _ _ _ _ _ _ _ _ _). unfold setView. apply (steps_seq t t').
  { apply steps_modify. intros c []. split; try done. intros tc Htc. specialize (tr_old0 tc Htc). simpl. lia. }
  apply steps_save, (plain_put KView). done.
Qed.

Lemma steps_enter step v t : t.(t_view) <= v -> steps t (setView v ;; nextRound step false) (t_enter v t).
Proof. intros Hv. apply (steps_seq t _ _ _ _ (steps_setView v t Hv) (steps_nextRound step _)). Qed.

(** To the view after [v], that of the parent or of the timeout certificate. *)
Lemma steps_syncView step t (h : Header) (tcert : option TimeoutCertificate) v : is_u64 (v + 1) ->
  v = match tcert with Some tc => tc.(TimeoutCertificate_View) | None => h.(Header_View) end ->
  steps t (syncView step h tcert) (t_sync v t).
Proof.
  intros Hu Ev. unfold syncView, t_sync.
  eapply (steps_bind t _ (fun view c => view = t.(t_view) /\ tracks t c)).
  { apply returns_gets. intros c Hc. split; [by destruct Hc|done]. }
  intros view c [-> Hc]. destruct tcert as [tc|]; rewrite <- Ev;
    (destruct (t_view t <=? v) eqn:E; simpl; [|by apply wp_skip]; rewrite wrap64_small by done; revert c Hc; apply steps_enter; zbool; lia).
Qed.

(** ** Prepared, committed, stored *)

Lemma returns_prepare t : returns (tracks t) (gets c_prepare) (fun p c => p = t.(t_prepare) /\ tracks t c).
Proof. apply returns_gets. intros c Hc. split; [by destruct Hc|done]. Qed.

Lemma steps_updatePrepare t h cert : steps t (updatePrepare h cert) (t_prepared h t).
Proof.
  unfold updatePrepare, t_prepared. eapply steps_bind; [apply returns_prepare|]. intros p c [-> Hc].
  destruct (_ <? _); [|by apply wp_skip]. simpl. revert c Hc.
  set (t' := mkTracked _ _ _ _ _ _ _ _ _).
  eapply (steps_seq t t'); [apply steps_modify; intros c []; by split|].
  eapply (steps_seq t' t'); [apply steps_modify; intros c []; by split|].
  eapply (steps_seq t' t'); [by apply steps_save, (plain_put KPrepare)|].
  apply steps_modify. intros c []. split; try done. simpl. clear -tr_events0. set_solver.
Qed.

Lemma t_find_stored k t h c : tracks t c -> t_find k t = Some h -> Header_Hash h = k /\ GetHeader c.(c_store) k = Ok h.
Proof.
  intros Hc Hf. apply find_some in Hf as [Hin E]. apply bytes_eqb_eq in E. subst k. split; [reflexivity|].
  pose proof (tr_stored _ _ Hc) as Hs. rewrite list.Forall_forall in Hs. apply Hs. by apply list_elem_of_In.
Qed.

(** It is known whether the header with hash [k] is stored. *)
Definition t_knows t (k : bytes) : Prop := is_Some (t_find k t) \/ k ∈ t.(t_absent).
(** What [update] looks up is known. *)
Definition t_closed t (parent : Header) : Prop := t_knows t (sbytes parent.(Header_Parent))
  /\ forall g, t_find (sbytes parent.(Header_Parent)) t = Some g -> t_knows t (sbytes g.(Header_Parent)).

Lemma returns_lookup t hash : t_knows t (sbytes hash) ->
  returns (tracks t) (getHeader hash) (fun o c => o = t_find (sbytes hash) t /\ tracks t c).
Proof.
  intros Hk c Hc. unfold wp, getHeader. destruct Hk as [[h Hh]|Ha].
  - destruct (t_find_stored _ _ _ _ Hc Hh) as [_ ->]. by rewrite Hh.
  - pose proof (tr_absent _ _ Hc) as Hab. rewrite list.Forall_forall in Hab. specialize (Hab _ Ha).
    destruct (t_find (sbytes hash) t) as [h|] eqn:E.
    + destruct (t_find_stored _ _ _ _ Hc E) as [_ Hg]. rewrite GetHeader_entry, Hab in Hg. done.
    + rewrite GetHeader_entry, Hab. by split.
Qed.

Lemma steps_update t parent : t_closed t parent -> steps t (update parent) (t_update parent t).
Proof.
  intros [Hp Hg]. unfold update, t_update. eapply steps_bind; [by apply returns_lookup|].
  intros o c [-> Hc]. destruct (t_find _ t) as [g|] eqn:E; [|by apply wp_skip]. cbn [mbind option_bind].
  revert c Hc. eapply steps_bind; [apply returns_lookup; by apply Hg|].
  intros o c [-> Hc]. destruct (t_find (sbytes (Header_Parent g)) t) as [gg|]; [|by apply wp_skip]. cbn [mbind option_bind].
  revert c Hc. eapply (steps_bind t _ (fun _ => tracks t)); [by apply returns_gets|]. intros locked.
  apply (steps_seq t t).
  { apply returns_when; [intros _|done]. apply (steps_seq t t); [apply steps_modify; intros c []; by split|].
    by apply steps_save, (plain_put KLocked). }
  eapply (steps_bind t _ (fun m c => m = t.(t_commit) /\ tracks t c)).
  { apply returns_gets. intros c Hc. split; [by destruct Hc|done]. }
  intros commit c [-> Hc]. unfold t_committed. destruct (_ && _ && _); simpl; [|by apply wp_skip]. revert c Hc.
  set (t1 := mkTracked t.(t_view) t.(t_voted) t.(t_idle) t.(t_prepare) gg t.(t_stored) t.(t_events) t.(t_msgs) t.(t_absent)).
  apply (steps_seq t t1); [apply steps_modify; intros c []; by split|].
  apply (steps_seq t1 t1); [by apply steps_save, (plain_put KDecide)|].
  apply steps_modify. intros c []. split; try done. simpl in *. clear -tr_events0. set_solver.
Qed.

(** The header is one that was not stored before. *)
Definition t_fresh t (h : Header) : Prop :=
  Forall (fun h' => Header_Hash h' <> Header_Hash h) t.(t_stored) /\ (Header_Hash h ∉ t.(t_absent)).

Lemma steps_saveHeader t h : good h -> t_fresh t h -> steps t (save (fun db => SaveHeader db h)) (t_save (canon h) t).
Proof.
  intros Hg [Hf Ha]. apply returns_save. intros c Hc. unfold SaveHeader. rewrite marshal_encoding by done. cbn [mbind res_bind].
  destruct (Put_ok Hput c.(c_store) (headerKey (Header_Hash h)) (encoding h)) as [db E]. exists db. split; [exact E|].
  assert (S : SaveHeader c.(c_store) h = Ok db) by (unfold SaveHeader; by rewrite marshal_encoding).
  destruct Hc. destruct (store_ok_save _ _ _ Hg S tr_store0) as [Hs _].
  pose proof (Put_entry _ (KHeader (Header_Hash h)) _ _ E) as W. split; try done; simpl.
  - apply list.Forall_cons_2.
    + rewrite Header_Hash_canon by done. by eapply SaveHeader_GetHeader.
    + apply list.Forall_forall. intros h' Hin. rewrite list.Forall_forall in tr_stored0, Hf. rewrite <- (tr_stored0 h' Hin).
      rewrite !GetHeader_entry, (writes_entry_other _ _ _ _ _ W); [done|]. pose proof (Hf h' Hin). congruence.
  - apply list.Forall_forall. intros k Hin. rewrite list.Forall_forall in tr_absent0.
    rewrite (writes_entry_other _ _ _ _ _ W); [by apply tr_absent0|]. intros [= <-]. done.
Qed.

Lemma plain_SaveData hash data : good data -> plain_write (fun db => SaveData db hash (Some data)).
Proof.
  intros Hd db. destruct (plain_put (KData hash) (encoding data) ltac:(done) db) as (db' & sk & v & E & Hrest).
  exists db', sk, v. split; [|done]. unfold SaveData. cbn [deref mbind res_bind]. rewrite marshal_encoding by done. exact E.
Qed.
Lemma plain_SaveCertificate cert : good cert -> plain_write (fun db => SaveCertificate db cert).
Proof.
  intros Hd db. destruct (plain_put (KCert (sbytes (Certificate_Block cert))) (encoding cert) ltac:(done) db) as (db' & sk & v & E & Hrest).
  exists db', sk, v. split; [|done]. unfold SaveCertificate. rewrite marshal_encoding by done. exact E.
Qed.

Lemma steps_persist t h data cert : good h -> good data -> good cert -> t_fresh t h ->
  steps t (persistProposal h (Some data) cert) (t_save (canon h) t).
Proof.
  intros Hh Hd Hc Hf. unfold persistProposal. eapply steps_seq; [by apply steps_saveHeader|].
  eapply steps_seq; [by apply steps_save, plain_SaveData|by apply steps_save, plain_SaveCertificate].
Qed.

(** ** The vote *)

(** The vote for [h], signed with [sig], to the leader [next]. *)
Definition vote_msg (h : Header) (sig : bytes) (next : Z) : MsgTo :=
  mkMsgTo (Some [next]) (NewVoteMsg (mkVote (Some (Header_Hash h)) h.(Header_View) self (Some sig))).

(** Collection for [h] has just started. *)
Definition collecting_for (h : Header) t c : Prop := tracks t c /\ t.(t_idle) = false
  /\ exists v0, c.(c_votes) = Votes_Start v0 h /\ v0.(Votes_votes) = ∅ /\ v0.(Votes_majority) = quorum_size (len replicas).

Lemma quorum_two : 2 <= quorum_size (len replicas).
Proof. unfold quorum_size. pose proof (Z.div_le_mono 3 (2 * len replicas) 3 ltac:(lia) ltac:(lia)). change (3 / 3) with 1 in *. lia. Qed.

Lemma tracks_set_votes t c v : tracks t c -> t.(t_idle) = false -> v.(Votes_majority) = quorum_size (len replicas) ->
  tracks t (set_votes v c).
Proof. intros [] Hi Hv. split; try done. by rewrite Hi. Qed.

(** The replica's own vote alone is no majority. *)
Lemma own_vote step t h vote : vote.(Vote_Voter) = self ->
  returns (collecting_for h t) (onVote step vote) (fun _ => tracks t).
Proof.
  intros Hv c (Hc & Hi & v0 & Ev & E0 & Em). unfold onVote. apply wp_bind, wp_gets, wp_bind.
  unfold wp at 1, getLeader, liftr. rewrite (tr_replicas _ _ Hc). destruct (leader_ok (wrap64 (Vote_View vote + 1))) as [r ->].
  apply wp_when; [intros _|by intros _]. apply wp_bind, wp_gets, wp_bind. unfold wp at 1, liftr. rewrite Ev.
  destruct (Votes_Collect_cases th (Votes_Start v0 h) vote) as [->|(cert & h' & a & _ & _ & _ & _ & _ & _ & _ & ->)].
  - by apply Votes_Start_inv.
  - by rewrite Hv.
  - apply wp_bind, wp_modify, wp_when; [done|intros _]. by apply tracks_set_votes.
  - apply wp_bind, wp_modify, wp_when; [|intros _; by apply tracks_set_votes].
    simpl. rewrite E0, Em, right_id_L, size_singleton by apply _. pose proof quorum_two. intros E. zbool. lia.
Qed.

Section Voting.
Context (step : Message -> M (consensus DB) unit).
(** The vote of this replica for [h]. *)
Definition own_vote_for (h : Header) (sig : bytes) : Vote := mkVote (Some (Header_Hash h)) h.(Header_View) self (Some sig).
(** What holds when the vote has been cast, and collected if it is this replica's to
    collect. *)
Context (voted : Header -> tracked -> consensus DB -> Prop).
Context (step_vote : forall t h sig, Sign [] (Header_Hash h) = Ok sig ->
  returns (collecting_for h t) (step (NewVoteMsg (own_vote_for h sig))) (fun _ => voted h t)).
Context (not_collector : forall t h c, leader_of replicas (wrap64 (h.(Header_View) + 1)) <> Ok self -> collecting_for h t c -> voted h t c).

Lemma steps_sendVote t h sig next : t.(t_idle) = true -> Sign [] (Header_Hash h) = Ok sig ->
  leader_of replicas (wrap64 (h.(Header_View) + 1)) = Ok next ->
  returns (tracks t) (sendVote step h) (fun _ => voted h (t_vote (vote_msg h sig next) h.(Header_View) t)).
Proof.
  intros Hi Hs Hl. unfold sendVote.
  set (t1 := mkTracked t.(t_view) h.(Header_View) true t.(t_prepare) t.(t_commit) t.(t_stored) t.(t_events) t.(t_msgs) t.(t_absent)).
  set (t2 := mkTracked t.(t_view) h.(Header_View) false t.(t_prepare) t.(t_commit) t.(t_stored) t.(t_events) t.(t_msgs) t.(t_absent)).
  apply (steps_seq t t1). { apply steps_modify. intros c []. split; try done. intros _. by apply tr_idle0. }
  apply (steps_seq t1 t1); [by apply steps_save, (plain_put KVoted)|].
  eapply (returns_bind _ _ (fun _ => collecting_for h t2)).
  { apply returns_modify. intros c Hc. split; [|split; [done|]].
    - destruct Hc. by split.
    - exists c.(c_votes). split; [done|]. split; [by apply (tr_idle _ _ Hc)|apply (tr_majority _ _ Hc)]. }
  intros _. eapply (returns_bind _ _ (fun me c => me = self /\ collecting_for h t2 c)).
  { apply returns_gets. intros c Hc. split; [by destruct Hc as [[] _]|done]. }
  intros me c [-> Hc]. apply wp_bind. unfold wp at 1, liftr. rewrite Hs. apply wp_bind.
  unfold wp at 1, getLeader, liftr. rewrite (tr_replicas _ _ (proj1 Hc)), Hl.
  unfold sendMsg. apply wp_bind, wp_modify. simpl deliver_self. apply wp_bind, wp_gets, wp_bind.
  set (c1 := set_Progress _ c). set (t3 := t_vote _ _ _).
  assert (H1' : collecting_for h t3 c1).
  { destruct Hc as (Hc & _ & Hv). split; [|by split]. destruct Hc. split; try done. simpl. intros x Hx.
    apply list.elem_of_cons in Hx as [->|Hx]; apply elem_of_app; [right; by left|left; by apply tr_msgs0]. }
  apply wp_when.
  - intros _. eapply wp_mono; [exact (step_vote t3 h sig Hs c1 H1')|by intros []|done].
  - intros E. apply wp_skip, not_collector; [|exact H1']. pose proof (tr_id _ _ (proj1 H1')). zbool. rewrite Hl. intros [= ->]. congruence.
Qed.

(** ** A proposal *)

(** A proposal of its leader for [h] on [parent], with a certificate for it, and, when
    views were left without a block, for the timeout of the last one. *)
Record proper (p : Proposal) (h parent : Header) : Prop := {
  pr_header : p.(Proposal_Header) = Some h;
  pr_data : exists data, p.(Proposal_Data) = Some data /\ good data;
  pr_cert : exists cert, p.(Proposal_ParentCert) = Some cert /\ good cert
    /\ sbytes h.(Header_Parent) = sbytes cert.(Certificate_Block)
    /\ VerifyAggregated (sbytes h.(Header_Parent)) cert.(Certificate_Sig) = Ok true;
  pr_timeout : match p.(Proposal_Timeout) with
    | None => h.(Header_View) = parent.(Header_View) + 1
    | Some tc => h.(Header_View) = tc.(TimeoutCertificate_View) + 1
                 /\ VerifyAggregated (timeout_digest tc.(TimeoutCertificate_View)) tc.(TimeoutCertificate_Sig) = Ok true
    end;
  pr_good : good h;
  pr_view : parent.(Header_View) < h.(Header_View);
  pr_next : is_u64 (h.(Header_View) + 1);
  pr_parent : sbytes h.(Header_Parent) = Header_Hash parent;
  pr_leader : exists leader, leader_of replicas h.(Header_View) = Ok leader
    /\ Verify leader (Header_Hash h) (sbytes p.(Proposal_Sig)) = true;
}.

(** The replica has [parent] and expects a block on it in view [v]: it is not beyond
    [v] and has not voted in it, and the blocks before the parent that are tracked
    have lower views. *)
Record expecting t (parent : Header) (v : Z) : Prop := {
  ex_parent : t_find (Header_Hash parent) t = Some parent;
  ex_view : t.(t_view) < v \/ (t.(t_view) = v /\ t.(t_idle) = true);
  ex_voted : t.(t_voted) < v;
  ex_above : parent.(Header_View) < v;
  ex_prepare : t.(t_prepare).(Header_View) < parent.(Header_View)
    \/ (Header_Hash t.(t_prepare) = Header_Hash parent /\ t.(t_prepare).(Header_View) = parent.(Header_View));
  ex_closed : t_closed t parent;
  ex_range : 0 <= parent.(Header_View) < two64;
  ex_down : forall g, t_find (sbytes parent.(Header_Parent)) t = Some g -> 0 <= g.(Header_View) < parent.(Header_View)
    /\ forall gg, t_find (sbytes g.(Header_Parent)) t = Some gg -> 0 <= gg.(Header_View) < g.(Header_View);
}.

(** What the stages of [follow] leave alone. *)
Record same_blocks t t' : Prop := {
  sb_stored : t'.(t_stored) = t.(t_stored);
  sb_absent : t'.(t_absent) = t.(t_absent);
  sb_voted : t'.(t_voted) = t.(t_voted);
}.
#[export] Instance same_blocks_preorder : PreOrder same_blocks.
Proof. split; [by intros t|]. intros t1 t2 t3 [] []. split; congruence. Qed.

Lemma prepared_same h t : same_blocks t (t_prepared h t).
Proof. unfold t_prepared. by destruct (_ <? _). Qed.
Lemma sync_same v t : same_blocks t (t_sync v t).
Proof. unfold t_sync. by destruct (_ <=? _). Qed.
Lemma update_same h t : same_blocks t (t_update h t) /\ (t_update h t).(t_view) = t.(t_view)
  /\ (t_update h t).(t_idle) = t.(t_idle) /\ (t_update h t).(t_prepare) = t.(t_prepare).
Proof. unfold t_update, t_committed. repeat case_match; done. Qed.

Lemma same_find k t t' : same_blocks t t' -> t_find k t' = t_find k t.
Proof. intros []. unfold t_find. by rewrite sb_stored0. Qed.
Lemma same_closed t t' parent : same_blocks t t' -> t_closed t parent -> t_closed t' parent.
Proof.
  intros Hs [Hp Hg]. unfold t_closed, t_knows in *. rewrite !(same_find _ _ _ Hs), (sb_absent _ _ Hs). split; [done|].
  intros g Hfind. rewrite (same_find _ _ _ Hs). by apply Hg.
Qed.
Lemma same_fresh t t' h : same_blocks t t' -> t_fresh t h -> t_fresh t' h.
Proof. intros [E1 E2 _] Hf. unfold t_fresh. by rewrite E1, E2. Qed.

(** The state of the abstract replica just before it writes the proposal. *)
Definition arrived (parent : Header) (v : Z) t : tracked := t_update parent (t_sync (v - 1) (t_prepared parent t)).

Lemma arrived_same parent v t : same_blocks t (arrived parent v t).
Proof. etrans; [apply (prepared_same parent)|]. etrans; [apply (sync_same (v - 1))|]. apply update_same. Qed.

Lemma arrived_spec t parent v : expecting t parent v ->
  (arrived parent v t).(t_view) = v /\ (arrived parent v t).(t_idle) = true
  /\ Header_Hash (arrived parent v t).(t_prepare) = Header_Hash parent.
Proof.
  intros [Hp Hv _ _ Hpr _ _ _]. unfold arrived. destruct (update_same parent (t_sync (v - 1) (t_prepared parent t))) as (_ & -> & -> & ->).
  assert (Evi : (t_prepared parent t).(t_view) = t.(t_view) /\ (t_prepared parent t).(t_idle) = t.(t_idle)
    /\ Header_Hash (t_prepared parent t).(t_prepare) = Header_Hash parent).
  { unfold t_prepared. destruct (_ <? _) eqn:E; [done|]. zbool. split_and!; [done..|]. destruct Hpr as [|[? _]]; [lia|done]. }
  destruct Evi as (Ev & Ei & Ep). unfold t_sync. rewrite Ev. destruct (t_view t <=? v - 1) eqn:E; zbool; simpl.
  - split_and!; [lia|done..].
  - destruct Hv as [|[Hv Hi]]; [lia|]. rewrite Ev, Ei. by split_and!.
Qed.

Lemma steps_safeNode t h parent : t_find (Header_Hash parent) t = Some parent -> sbytes h.(Header_Parent) = Header_Hash parent ->
  Header_Hash t.(t_prepare) = Header_Hash parent -> returns (tracks t) (safeNode h) (fun ok c => ok = true /\ tracks t c).
Proof.
  intros Hf Hp Hh. unfold safeNode. eapply returns_bind; [apply returns_lookup; left; rewrite Hp; by exists parent|].
  intros o c [-> Hc]. rewrite Hp, Hf. apply wp_bind, wp_gets, wp_ret. split; [|done]. unfold id.
  apply orb_true_iff. left. apply orb_true_iff. right. apply bytes_eqb_eq. by rewrite (tr_prepare _ _ Hc).
Qed.

Lemma steps_accept t p h parent data cert sig next : expecting t parent h.(Header_View) -> t_fresh t h -> proper p h parent ->
  p.(Proposal_Data) = Some data -> good data -> good cert -> Sign [] (Header_Hash h) = Ok sig ->
  leader_of replicas (wrap64 (h.(Header_View) + 1)) = Ok next ->
  returns (tracks t) (acceptProposal step p h parent cert) (fun _ => voted h (follow h parent (vote_msg h sig next) t)).
Proof.
  intros He Hfr Hp Ed Hd Hc Hs Hl. destruct (arrived_spec t parent _ He) as (Hview & Hidle & Hprep).
  pose proof (arrived_same parent h.(Header_View) t) as Hsame. unfold acceptProposal. rewrite Ed.
  eapply steps_seq; [apply steps_updatePrepare|]. eapply steps_seq.
  { apply (steps_syncView _ _ _ _ (h.(Header_View) - 1)).
    - replace (Header_View h - 1 + 1) with (Header_View h) by lia. apply (pr_good _ _ _ Hp).
    - pose proof (pr_timeout _ _ _ Hp) as Ht. destruct (Proposal_Timeout p) as [tc|]; [destruct Ht|]; lia. }
  eapply (steps_seq _ (arrived parent h.(Header_View) t)).
  { apply steps_update. eapply same_closed, (ex_closed _ _ _ He). etrans; [apply prepared_same|apply sync_same]. }
  eapply (steps_bind _ _ (fun v c => v = h.(Header_View) /\ tracks (arrived parent h.(Header_View) t) c)).
  { apply returns_gets. intros c Hc'. split; [by rewrite (tr_view _ _ Hc')|done]. }
  intros v c [-> Ht]. rewrite Z.eqb_refl. cbn [when]. revert c Ht.
  set (t4 := t_save (canon h) (arrived parent h.(Header_View) t)).
  apply (steps_seq _ t4).
  { apply steps_persist; [apply (pr_good _ _ _ Hp)|done|done|]. by eapply same_fresh. }
  eapply (steps_bind _ _ (fun v c => v = t.(t_voted) /\ tracks t4 c)).
  { apply returns_gets. intros c Hc'. split; [rewrite (tr_voted _ _ Hc'); apply Hsame|done]. }
  intros v c [-> Ht]. rewrite (proj2 (Z.ltb_lt _ _)) by (pose proof (ex_voted _ _ _ He); lia).
  cbn [when]. revert c Ht. eapply steps_bind.
  { apply (steps_safeNode _ h parent); [|apply (pr_parent _ _ _ Hp)|done]. unfold t4, t_find. simpl.
    rewrite Header_Hash_canon by apply (pr_good _ _ _ Hp). pose proof (ex_parent _ _ _ He) as Hf.
    destruct (bytes_eqb (Header_Hash h) (Header_Hash parent)) eqn:E.
    - apply bytes_eqb_eq in E. destruct Hfr as [Hfr _]. rewrite list.Forall_forall in Hfr.
      apply find_some in Hf as [Hin _]. by destruct (Hfr parent (proj2 (list_elem_of_In _ _) Hin)).
    - rewrite <- Hf. apply (same_find _ _ _ Hsame). }
  intros ok c [-> Ht]. cbn [when]. revert c Ht. by apply steps_sendVote.
Qed.

Lemma proper_timeout p h parent : 0 <= parent.(Header_View) < two64 -> proper p h parent ->
  checkTimeout (DB := DB) h p.(Proposal_Timeout) = mret true.
Proof.
  intros Hr Hp. pose proof (pr_timeout _ _ _ Hp) as Ht. pose proof (pr_view _ _ _ Hp). destruct (pr_good _ _ _ Hp) as [[Hu _] _].
  unfold checkTimeout. destruct (Proposal_Timeout p) as [tc|]; [|done]. destruct Ht as [Ev Hv]. unfold is_u64 in Hu.
  replace (Header_View h - 1) with (TimeoutCertificate_View tc) by lia. rewrite wrap64_small by (unfold is_u64; lia). by rewrite Hv.
Qed.

(** A good proposal: the handler returns, and does what [follow] says. *)
Lemma steps_onProposal t p h parent sig next : expecting t parent h.(Header_View) -> t_fresh t h -> proper p h parent ->
  Sign [] (Header_Hash h) = Ok sig -> leader_of replicas (wrap64 (h.(Header_View) + 1)) = Ok next ->
  returns (tracks t) (onProposal step p) (fun _ => voted h (follow h parent (vote_msg h sig next) t)).
Proof.
  intros He Hfr Hp Hs Hl. destruct (pr_data _ _ _ Hp) as (data & Ed & Hd), (pr_cert _ _ _ Hp) as (cert & Ec & Hgc & Eb & Hv).
  destruct (pr_leader _ _ _ Hp) as (leader & El & Esig). unfold onProposal. rewrite (pr_header _ _ _ Hp), Ec.
  intros c Hc. apply wp_bind. unfold wp at 1, liftr, deref. rewrite (proj2 (bytes_eqb_eq _ _)) by done. cbn [when].
  apply wp_bind. unfold wp at 1, liftr. rewrite Hv. cbn [when]. revert c Hc.
  eapply steps_bind; [apply returns_lookup; left; rewrite (pr_parent _ _ _ Hp); exists parent; apply (ex_parent _ _ _ He)|].
  intros o c [-> Hc]. rewrite (pr_parent _ _ _ Hp), (ex_parent _ _ _ He).
  apply wp_bind. rewrite (proper_timeout p h parent (ex_range _ _ _ He) Hp). apply wp_ret. cbn [when]. apply wp_bind.
  unfold wp at 1, getLeader, liftr. rewrite (tr_replicas _ _ Hc), El, Esig. cbn [when].
  by apply (steps_accept t p h parent data cert sig next).
Qed.
End Voting.

(** ** A chain of proposals *)

Lemma step_own_vote d t h sig : Sign [] (Header_Hash h) = Ok sig ->
  returns (collecting_for h t) (Step (S d) (NewVoteMsg (own_vote_for h sig))) (fun _ => tracks t).
Proof. intros _. by apply own_vote. Qed.

Lemma hash_signs (h : Header) : good h -> exists sig, Sign [] (Header_Hash h) = Ok sig.
Proof. intros Hg. apply Hsign. rewrite Header_Hash_encoding by done. unfold len. by rewrite blake2s256_length. Qed.

(** The vote of this replica for [h]. *)
Definition own_msg (h : Header) : MsgTo :=
  vote_msg h (match Sign [] (Header_Hash h) with Ok s => s | _ => [] end)
    (match leader_of replicas (wrap64 (h.(Header_View) + 1)) with Ok r => r | _ => 0 end).

Lemma steps_proposal t p h parent : expecting t parent h.(Header_View) -> t_fresh t h -> proper p h parent ->
  steps t (handle (IStep (NewProposalMsg p))) (follow h parent (own_msg h) t).
Proof.
  intros He Hf Hp. destruct (hash_signs h (pr_good _ _ _ Hp)) as [sig Hs], (leader_ok (wrap64 (h.(Header_View) + 1))) as [next Hl].
  unfold own_msg. rewrite Hs, Hl. change (handle (IStep (NewProposalMsg p))) with (onProposal (Step 1) p).
  apply (steps_onProposal _ (fun _ => tracks)); [apply (step_own_vote 0)|by intros ? ? ? _ []|done..].
Qed.

(** A new block does not change what is found. *)
Lemma find_after k t h m v : good h -> t_knows t k -> t_fresh t h -> t_find k (t_vote m v (t_save (canon h) t)) = t_find k t.
Proof.
  intros Hg Hk [Hf Ha]. unfold t_find. simpl. rewrite Header_Hash_canon by done.
  destruct (bytes_eqb (Header_Hash h) k) eqn:E; [|done]. apply bytes_eqb_eq in E. subst k. exfalso. destruct Hk as [[g Hfind]|?]; [|done].
  apply find_some in Hfind as [Hin Eg]. apply bytes_eqb_eq in Eg. rewrite list.Forall_forall in Hf.
  by destruct (Hf g (proj2 (list_elem_of_In _ _) Hin)).
Qed.
Lemma canon_parent h : sbytes (canon h).(Header_Parent) = sbytes h.(Header_Parent).
Proof. unfold canon. simpl. unfold Header_canon. simpl. by destruct (Header_Parent h) as [[]|]. Qed.
Lemma canon_view h : (canon h).(Header_View) = h.(Header_View).
Proof. done. Qed.

(** [h] extends [parent]. *)
Record extends (h parent : Header) : Prop := {
  xt_good : good h;
  xt_view : parent.(Header_View) < h.(Header_View);
  xt_parent : sbytes h.(Header_Parent) = Header_Hash parent;
}.

Lemma follow_find k t h parent m : good h -> t_fresh t h -> t_knows t k ->
  t_find k (follow h parent m t) = t_find k t.
Proof.
  intros Hg Hf Hk. pose proof (arrived_same parent h.(Header_View) t) as Hs.
  unfold follow. fold (arrived parent h.(Header_View) t). rewrite find_after; [by apply same_find|done| |by eapply same_fresh].
  unfold t_knows. by rewrite (same_find _ _ _ Hs), (sb_absent _ _ Hs).
Qed.

(** After one block the replica expects the next, in any later view. *)
Lemma follow_expecting t h parent m v : expecting t parent h.(Header_View) -> extends h parent -> t_fresh t h ->
  h.(Header_View) < v -> expecting (follow h parent m t) (canon h) v.
Proof.
  intros He [Hg Hv Hp] Hf Hlt. destruct (arrived_spec t parent _ He) as (Hview & _ & Hprep).
  pose proof (arrived_same parent h.(Header_View) t) as Hs.
  assert (Hfindp : t_find (Header_Hash parent) (follow h parent m t) = Some parent).
  { rewrite follow_find; [by eapply ex_parent|done..|]. left. rewrite (ex_parent _ _ _ He). by eexists. }
  destruct (ex_closed _ _ _ He) as [Hk Hkg].
  split.
  - unfold follow, t_find. simpl. by rewrite (proj2 (bytes_eqb_eq _ _)).
  - left. unfold follow. simpl. fold (arrived parent h.(Header_View) t). by rewrite Hview.
  - exact Hlt.
  - exact Hlt.
  - left. unfold follow. simpl. fold (arrived parent h.(Header_View) t). unfold arrived.
    destruct (update_same parent (t_sync (h.(Header_View) - 1) (t_prepared parent t))) as (_ & _ & _ & ->).
    assert ((t_sync (h.(Header_View) - 1) (t_prepared parent t)).(t_prepare) = (t_prepared parent t).(t_prepare)) as -> by (unfold t_sync; by destruct (_ <=? _)).
    unfold t_prepared. destruct (_ <? _) eqn:E; simpl; zbool; [lia|]. destruct (ex_prepare _ _ _ He) as [|[_ ->]]; lia.
  - split; rewrite canon_parent, Hp.
    + left. rewrite Hfindp. by eexists.
    + rewrite Hfindp. intros g [= <-]. destruct Hk as [Hk|Hk]; [left; rewrite follow_find by (done || by left); done|right].
      unfold follow. simpl. fold (arrived parent h.(Header_View) t). by rewrite (sb_absent _ _ Hs).
  - rewrite canon_view. apply Hg.
  - rewrite canon_parent, Hp, Hfindp. intros g [= <-]. rewrite canon_view. pose proof (ex_range _ _ _ He). split; [lia|].
    intros gg. rewrite follow_find by done. intros Hgg. by destruct (ex_down _ _ _ He gg Hgg).
Qed.

(** ** Finality *)

Lemma committed_cases t parent g gg : 0 <= gg.(Header_View) < g.(Header_View) -> g.(Header_View) < parent.(Header_View) < two64 ->
  t_committed parent g gg t = if (parent.(Header_View) =? g.(Header_View) + 1) && (g.(Header_View) =? gg.(Header_View) + 1)
    && (t.(t_commit).(Header_View) <? gg.(Header_View))
  then mkTracked t.(t_view) t.(t_voted) t.(t_idle) t.(t_prepare) gg t.(t_stored)
         (mkBlockEvent gg true :: t.(t_events)) t.(t_msgs) t.(t_absent)
  else t.
Proof.
  intros Hg Hp. unfold t_committed. rewrite !wrap64_small by (unfold is_u64; lia).
  replace (Header_View parent - Header_View g =? 1) with (Header_View parent =? Header_View g + 1) by lia.
  by replace (Header_View g - Header_View gg =? 1) with (Header_View g =? Header_View gg + 1) by lia.
Qed.

(** [update] when the two ancestors are known. *)
Lemma update_found t parent g gg : t_find (sbytes parent.(Header_Parent)) t = Some g ->
  t_find (sbytes g.(Header_Parent)) t = Some gg -> t_update parent t = t_committed parent g gg t.
Proof. intros E1 E2. unfold t_update. rewrite E1. cbn [mbind option_bind]. by rewrite E2. Qed.

(** What has been finalized when the replica expects a block on [parent]. *)
Definition commit_bound (v0 : Z) t (parent : Header) : Prop :=
  t.(t_commit).(Header_View) <= Z.max v0 (parent.(Header_View) - 3).

Lemma arrived_before t parent v : exists t1, same_blocks t t1 /\ t1.(t_commit) = t.(t_commit) /\ t1.(t_events) = t.(t_events)
  /\ t1.(t_msgs) = t.(t_msgs) /\ arrived parent v t = t_update parent t1.
Proof.
  exists (t_sync (v - 1) (t_prepared parent t)). split_and!; try done; [by etrans; [apply prepared_same|apply sync_same]|..];
    unfold t_sync, t_prepared; by repeat case_match.
Qed.

Lemma follow_commit v0 t h parent m : expecting t parent h.(Header_View) -> extends h parent -> commit_bound v0 t parent ->
  commit_bound v0 (follow h parent m t) (canon h) /\ t.(t_events) ⊆ (follow h parent m t).(t_events)
  /\ (follow h parent m t).(t_msgs) = m :: t.(t_msgs)
  /\ forall g gg, t_find (sbytes parent.(Header_Parent)) t = Some g -> t_find (sbytes g.(Header_Parent)) t = Some gg ->
       parent.(Header_View) = g.(Header_View) + 1 -> g.(Header_View) = gg.(Header_View) + 1 -> v0 < gg.(Header_View) ->
       mkBlockEvent gg true ∈ (follow h parent m t).(t_events).
Proof.
  intros He [_ Hv _] Hb. unfold follow. fold (arrived parent h.(Header_View) t). destruct (arrived_before t parent h.(Header_View)) as (t1 & Hs & Ec & Ee & Em & ->).
  unfold commit_bound in *. rewrite canon_view. simpl.
  assert (Hf : forall k, t_find k t1 = t_find k t) by (intros k; by apply same_find).
  destruct (t_find (sbytes parent.(Header_Parent)) t) as [g|] eqn:Eg.
  2:{ unfold t_update. rewrite Hf, Eg. simpl. rewrite Ec, Ee, Em. split_and!; [lia|done..]. }
  destruct (t_find (sbytes g.(Header_Parent)) t) as [gg|] eqn:Egg.
  2:{ unfold t_update. rewrite Hf, Eg. simpl. rewrite Hf, Egg. simpl. rewrite Ec, Ee, Em. split_and!; [lia|done..|].
      intros ? ? [= <-]. congruence. }
  destruct (ex_down _ _ _ He g Eg) as [Hg Hgg]. specialize (Hgg gg Egg). pose proof (ex_range _ _ _ He).
  rewrite (update_found t1 parent g gg), committed_cases by (done || lia || by rewrite Hf).
  rewrite Ec. destruct (_ && _) eqn:E; simpl; rewrite ?Ec, ?Ee, ?Em.
  - zbool. split_and!; [lia|intros ? ?; by right|done|]. intros g' gg' [= <-] ?. simplify_eq. left.
  - split_and!; [lia|done..|]. intros g' gg' [= <-] ? ? ? ?. simplify_eq. zbool.
    exfalso. apply andb_false_iff in E as [[E|E]%andb_false_iff|E]; zbool; lia.
Qed.

(** The blocks before, most recent first: each is found as the parent of the one
    after it. *)
Fixpoint linked_back t (bs : list Header) : Prop :=
  match bs with
  | b :: (g :: _) as rest => t_find (sbytes b.(Header_Parent)) t = Some g /\ b.(Header_View) = g.(Header_View) + 1 /\ linked_back t rest
  | _ => True
  end.

Lemma follow_linked t h parent m bs : expecting t parent h.(Header_View) -> extends h parent -> h.(Header_View) = parent.(Header_View) + 1 -> t_fresh t h ->
  linked_back t (parent :: bs) -> linked_back (follow h parent m t) (canon h :: parent :: bs).
Proof.
  intros He Hx Hv Hf Hl. pose proof Hx as [Hg _ Hp].
  assert (Hall : forall bs b, linked_back t (b :: bs) -> linked_back (follow h parent m t) (b :: bs)).
  { clear Hl bs. induction bs as [|g bs IH]; intros b; [done|]. intros (Eg & Eb & Hl). split_and!; [|done|by apply IH].
    rewrite follow_find by (done || left; rewrite Eg; by eexists). done. }
  split_and!; [|by rewrite canon_view|by apply Hall].
  rewrite canon_parent, Hp, follow_find; [by eapply ex_parent|done..|]. left. rewrite (ex_parent _ _ _ He). by eexists.
Qed.

Lemma follow_fresh t h parent m h' : good h -> t_fresh t h' -> Header_Hash h <> Header_Hash h' -> t_fresh (follow h parent m t) h'.
Proof.
  intros Hg Hf Hne. pose proof (arrived_same parent h.(Header_View) t) as Hs.
  apply (same_fresh _ _ _ Hs) in Hf as [Hf Ha]. split; [|exact Ha]. unfold follow. simpl. fold (arrived parent h.(Header_View) t).
  apply list.Forall_cons_2; [by rewrite Header_Hash_canon|done].
Qed.

(** Proposals for blocks each of which extends the one before. *)
Inductive proper_chain : Header -> list (Proposal * Header) -> Prop :=
| pc_nil parent : proper_chain parent []
| pc_cons parent p h l : proper p h parent -> h.(Header_View) = parent.(Header_View) + 1 -> proper_chain (canon h) l -> proper_chain parent ((p, h) :: l).

Fixpoint handle_all (l : list input) : M (consensus DB) unit :=
  match l with [] => skip | i :: l => handle i ;; handle_all l end.
Definition proposal_input (x : Proposal * Header) : input := IStep (NewProposalMsg x.1).

Definition reported (v0 : Z) t (bs : list Header) : Prop :=
  Forall (fun b => v0 < b.(Header_View) -> mkBlockEvent b true ∈ t.(t_events)) bs.

Lemma reported_mono v0 t t' bs : t.(t_events) ⊆ t'.(t_events) -> reported v0 t bs -> reported v0 t' bs.
Proof. intros Hs Hr. eapply list.Forall_impl; [exact Hr|]. auto. Qed.

(** The block three before the parent of the new one is final. *)
Lemma follow_reported v0 t h parent m bs : expecting t parent h.(Header_View) -> extends h parent -> commit_bound v0 t parent ->
  linked_back t (parent :: bs) -> reported v0 t (drop 3 (parent :: bs)) ->
  reported v0 (follow h parent m t) (drop 3 (canon h :: parent :: bs)).
Proof.
  intros He Hx Hb Hl Hr. destruct (follow_commit v0 t h parent m He Hx Hb) as (_ & Hev & _ & Hfin).
  apply (reported_mono _ _ _ _ Hev) in Hr. destruct bs as [|g [|gg bs]]; [constructor..|].
  destruct Hl as (Eg & Vg & Egg & Vgg & _). apply list.Forall_cons_2; [|exact Hr]. intros Hv. by apply (Hfin g gg).
Qed.

Lemma proper_extends p h parent : proper p h parent -> extends h parent.
Proof. intros []. by split. Qed.

Lemma steps_chain v0 l : forall t parent bs, proper_chain parent l -> expecting t parent (parent.(Header_View) + 1) -> linked_back t (parent :: bs) ->
  commit_bound v0 t parent -> reported v0 t (drop 3 (parent :: bs)) ->
  Forall (t_fresh t) l.*2 -> NoDup (Header_Hash <$> l.*2) ->
  exists t', steps t (handle_all (proposal_input <$> l)) t'
    /\ t'.(t_msgs) = reverse (own_msg <$> l.*2) ++ t.(t_msgs)
    /\ reported v0 t' (drop 3 (reverse (canon <$> l.*2) ++ parent :: bs)).
Proof.
  induction l as [|[p h] l IH]; intros t parent bs Hc He Hl Hb Hr Hf Hnd.
  { exists t. split_and!; [|done|done]. intros c Hc'. by apply wp_skip. }
  inversion_clear Hc as [|? ? ? ? Hp Hv Hc']. rewrite <- Hv in He. pose proof (proper_extends _ _ _ Hp) as Hx. cbn [fmap list_fmap snd] in *.
  apply list.Forall_cons_1 in Hf as [Hfh Hf]. apply list.NoDup_cons in Hnd as [Hnin Hnd].
  destruct (follow_commit v0 t h parent (own_msg h) He Hx Hb) as (Hb' & _ & Hm & _).
  destruct (IH (follow h parent (own_msg h) t) (canon h) (parent :: bs)) as (t' & Hsteps & Hmsgs & Hrep); try done.
  - apply follow_expecting; try done. rewrite canon_view. lia.
  - by apply follow_linked.
  - by apply follow_reported.
  - apply list.Forall_forall. intros h' Hin. rewrite list.Forall_forall in Hf.
    apply follow_fresh; [apply Hx|by apply Hf|]. intros E. apply Hnin. rewrite E. by apply list_elem_of_fmap_2.
  - exists t'. split_and!.
    + cbn [handle_all]. eapply steps_seq; [by apply steps_proposal|exact Hsteps].
    + rewrite Hmsgs, Hm. cbn [fmap list_fmap]. rewrite reverse_cons. by rewrite <- app_assoc.
    + cbn [fmap list_fmap]. rewrite reverse_cons, <- app_assoc. exact Hrep.
Qed.
End Rounds.

(** ** Theorem *)

Section Chain.
Context {DB : Type} `{KVStore DB} `{!KVLaws DB} `{Hasher} `{!HasherLaws} `{Signer} `{Verifier}.
Context (th : Z) `{!VerifierLaws th}.

Lemma chain_views replicas parent l : proper_chain replicas parent l -> forall i x, l !! i = Some x ->
  x.2.(Header_View) = parent.(Header_View) + 1 + Z.of_nat i.
Proof.
  induction 1 as [|parent p h l Hp Hv _ IH]; intros i x Hx; [done|]. destruct i as [|i]; simpl in Hx.
  - injection Hx as <-. simpl. lia.
  - rewrite (IH i x Hx), canon_view. lia.
Qed.

Lemma proper_chain_good replicas parent l : proper_chain replicas parent l -> forall p h, (p, h) ∈ l -> good h.
Proof. induction 1 as [|parent p h l Hp _ _ IH]; intros p' h' Hin; [by apply elem_of_nil in Hin|]. apply list.elem_of_cons in Hin as [[= -> ->]|Hin]; [apply Hp|by eapply IH]. Qed.

End Chain.

(** ** Witness: replica 3 and four views

    The block of view 1 is final when the proposal of view 4 has been handled. *)

Definition round_header (v : nat) : Header := demo_header v.
Definition round_proposal (v : nat) : Proposal := mkProposal (Some (round_header v)) (Some (mkData []))
  (Some (sign_by (v mod 4) (Header_Hash (round_header v))))
  (Some (mkCertificate (Some (Header_Hash (round_header (v - 1)))) (certify (Header_Hash (round_header (v - 1))) [1; 2; 3]%nat))) None.
Definition round (v : nat) : Proposal * Header := (round_proposal v, round_header v).
Definition round_start : tracked :=
  mkTracked 1 0 true (canon genesis_header) (canon genesis_header) [canon genesis_header] [] [] [[]].

#[local] Instance signer3 : Signer := demo_signer 3.

Lemma round_tracks : tracks 3 demo_replicas round_start (demo 3).
Proof.
  destruct (demo_inv 3) as [[HI _] _]; [lia|]. split; [vm_compute; reflexivity..| | | | | | | | |].
  - intros _. vm_compute. reflexivity.
  - vm_compute. reflexivity.
  - vm_compute. reflexivity.
  - apply (disk_store _ _ _ _ _ _ (inv_disk _ _ HI)).
  - apply list.Forall_cons_2; [vm_compute; reflexivity|constructor].
  - apply list.Forall_cons_2; [vm_compute; reflexivity|constructor].
  - intros x Hx. by apply elem_of_nil in Hx.
  - intros x Hx. by apply elem_of_nil in Hx.
  - intros tc E. vm_compute in E. discriminate.
Qed.

Lemma round_expecting : expecting round_start (canon genesis_header) 1.
Proof.
  split; [vm_compute; reflexivity|right; vm_compute; split; reflexivity|vm_compute; reflexivity|vm_compute; reflexivity| | | |].
  - right. split; reflexivity.
  - split; [right; vm_compute; left|]. intros g E. vm_compute in E. discriminate.
  - vm_compute. split; [discriminate|reflexivity].
  - intros g E. vm_compute in E. discriminate.
Qed.

Ltac computed := vm_compute; solve [reflexivity | discriminate | split; (reflexivity || discriminate)].

Ltac round_good := split;
  [ split;
    [ reflexivity
    | exists (mkData []); split; [reflexivity|split; [constructor|computed]]
    | eexists; split; [reflexivity|split; [split; [|computed]|split; computed]]
    | reflexivity | split; [split; computed|computed] | computed | computed | computed | eexists; split; computed ]
  | split; [apply list.Forall_cons_2; [computed|constructor]|] ];
  [ let E := fresh in intros ? E; vm_compute in E; injection E as <-; repeat constructor; computed
  | let E := fresh in intros E; apply list.elem_of_cons in E as [E|E]; [vm_compute in E; discriminate E|by apply elem_of_nil in E] ].

Definition round_ok (v : nat) : Prop :=
  proper demo_replicas (round_proposal v) (round_header v) (canon (round_header (v - 1))) /\ t_fresh round_start (round_header v).
Lemma round1_ok : round_ok 1. Proof. round_good. Qed.
Lemma round2_ok : round_ok 2. Proof. round_good. Qed.
Lemma round3_ok : round_ok 3. Proof. round_good. Qed.
Lemma round4_ok : round_ok 4. Proof. round_good. Qed.

