(* ===== verification/Forging.v ===== *)
(** * What a replica syncs

    [onSync] looks at the certificates of the blocks, not at signatures of leaders or
    at the blocks they extend.  Three blocks in a row that verify make the first of
    them final, whatever the replica has stored, and one key suffices to make their
    certificates (CryptoSpec.v). *)

From Stdlib Require Import ZArith Lia.
From S2P Require Import Prelude Wire Types Proto Codec Encoding Crypto Store Quorum Progress Consensus.
From S2P Require Import ConsensusFacts Instances CryptoSpec Safety Progression Rounds Scenarios.

Section Syncing.
Context {DB : Type} `{KVStore DB} `{!KVLaws DB} `{Hasher} `{!HasherLaws} `{Signer} `{Verifier}.
Context (Hput : forall (db : DB) k v, is_Some (db_put db k v)).
Implicit Types c : consensus DB.

(** The headers [hs] are stored, and what is committed is below the view [v]. *)
Record synced (hs : list Header) (v : Z) c : Prop := {
  sy_store : store_ok c.(c_store);
  sy_held : Forall (fun h => GetHeader c.(c_store) (Header_Hash h) = Ok (canon h)) hs;
  sy_commit : c.(c_commit).(Header_View) < v;
}.

(** A block as [syncBlock] accepts it. *)
Record syncable (h : Header) (b : Block) : Prop := {
  sb_header : b.(Block_Header) = Some h;
  sb_good : good h;
  sb_cert : exists cert, b.(Block_Cert) = Some cert /\ good cert /\ VerifyAggregated (Header_Hash h) cert.(Certificate_Sig) = Ok true;
  sb_data : exists data, b.(Block_Data) = Some data /\ good data;
}.

Lemma synced_write hs v c db sk x : synced hs v c -> writes_entry c.(c_store) db sk x -> (forall k, sk <> KHeader k) -> synced hs v (set_store db c).
Proof.
  intros [Hs Hh Hc] W N. split; [by eapply store_ok_other| |done]. eapply list.Forall_impl; [exact Hh|]. intros h E.
  simpl. rewrite <- E, !GetHeader_entry. by rewrite (writes_entry_other _ _ _ _ _ W).
Qed.

Lemma synced_tag hs v sk hash : sk ∈ [KPrepare; KLocked; KDecide] ->
  returns (synced hs v) (save (fun db => SetTag db (skey_bytes sk) hash)) (fun _ => synced hs v).
Proof.
  intros Hsk. apply returns_save. intros c Hc. destruct (Put_ok Hput c.(c_store) (skey_bytes sk) hash) as [db E].
  exists db. split; [exact E|]. pose proof (SetTag_entry _ sk _ _ Hsk E) as W. eapply synced_write; [exact Hc|exact W|]. intros h ->. set_solver.
Qed.

Lemma synced_modify hs v g : (forall c, c_store (g c) = c_store c /\ c_commit (g c) = c_commit c) ->
  returns (synced hs v) (modify g) (fun _ => synced hs v).
Proof. intros Hg. apply returns_modify. intros c [? ? ?]. destruct (Hg c) as [E1 E2]. split; by rewrite ?E1, ?E2. Qed.

(** ** One block *)

Lemma synced_saves hs v h b : syncable h b -> Forall (fun h' => Header_Hash h' <> Header_Hash h) hs ->
  returns (synced hs v) (save_all (fun db => SaveBlock db b)) (fun _ => synced (h :: hs) v).
Proof.
  intros [Eh Hg (cert & Ec & Hgc & _) (data & Ed & Hgd)] Hnew c [Hs Hh Hc]. unfold wp, save_all, SaveBlock.
  rewrite !run_writes_step, Eh, Ec, Ed. cbn [deref mbind res_bind]. unfold SaveHeader, SaveCertificate, SaveData.
  rewrite !marshal_encoding by done. cbn [deref mbind res_bind]. rewrite ?marshal_encoding by done. cbn [mbind res_bind].
  destruct (Put_ok Hput c.(c_store) (headerKey (Header_Hash h)) (encoding h)) as [db1 E1]. rewrite E1.
  rewrite run_writes_step. destruct (Put_ok Hput db1 (certKey (sbytes (Certificate_Block cert))) (encoding cert)) as [db2 E2]. rewrite E2.
  rewrite run_writes_step. destruct (Put_ok Hput db2 (dataKey (Header_Hash h)) (encoding data)) as [db3 E3]. rewrite E3. cbn [run_writes].
  assert (S1 : SaveHeader c.(c_store) h = Ok db1) by (unfold SaveHeader; by rewrite marshal_encoding).
  destruct (store_ok_save _ _ _ Hg S1 Hs) as [Hs1 _].
  pose proof (Put_entry _ (KHeader (Header_Hash h)) _ _ E1) as W1.
  assert (H1' : synced (h :: hs) v (set_store db1 c)).
  { split; [exact Hs1| |exact Hc]. apply list.Forall_cons_2; [simpl; by eapply SaveHeader_GetHeader|].
    apply list.Forall_forall. intros h' Hin. rewrite list.Forall_forall in Hh, Hnew. simpl. rewrite <- (Hh h' Hin), !GetHeader_entry.
    rewrite (writes_entry_other _ _ _ _ _ W1); [done|]. pose proof (Hnew h' Hin). congruence. }
  assert (H2' : synced (h :: hs) v (set_store db2 (set_store db1 c))) by (eapply synced_write; [exact H1'|by apply (Put_entry _ (KCert _)) in E2|done]).
  exact (synced_write _ _ _ _ _ _ H2' (Put_entry _ (KData _) _ _ E3) ltac:(done)).
Qed.

Lemma synced_prepares hs v h cert : returns (synced hs v) (updatePrepare h cert) (fun _ => synced hs v).
Proof.
  unfold updatePrepare, modify_progress. eapply (returns_bind _ _ (fun _ => synced hs v)); [by apply returns_gets|intros p].
  apply returns_when; [intros _|done]. repeat (eapply (returns_bind _ _ (fun _ => synced hs v)); [by apply synced_modify|intros _]).
  eapply (returns_bind _ _ (fun _ => synced hs v)); [apply (synced_tag _ _ KPrepare); set_solver|intros _]. by apply synced_modify.
Qed.

Lemma synced_lookup hs v hash : returns (synced hs v) (getHeader hash)
  (fun o c => synced hs v c /\ (forall g, o = Some g -> good g)
     /\ forall h, h ∈ hs -> Header_Hash h = sbytes hash -> o = Some (canon h)).
Proof.
  intros c [Hs Hh Hc]. unfold wp, getHeader. pose proof Hh as Hh'. rewrite list.Forall_forall in Hh'.
  destruct (GetHeader (c_store c) (sbytes hash)) as [g|e|p] eqn:E.
  - split_and!; [done| |].
    + intros ? [= <-]. by apply (store_ok_get _ _ _ Hs E).
    + intros h Hin Eh. specialize (Hh' h Hin). rewrite Eh, E in Hh'. congruence.
  - split_and!; [done|done|]. intros h Hin Eh. specialize (Hh' h Hin). rewrite Eh, E in Hh'. done.
  - rewrite GetHeader_entry in E. destruct (entry (c_store c) (KHeader (sbytes hash))) as [b|] eqn:Eb; [|done].
    destruct (Hs _ _ Eb) as (h & Hg & -> & _). by rewrite decode_encoding in E.
Qed.

(** The block [final] is reported final. *)
Definition reported_final (final : Header) c : Prop := mkBlockEvent (canon final) true ∈ c.(c_Progress).(Events).

Lemma successor_view (h g : Header) : good h -> good g -> wrap64 (h.(Header_View) - g.(Header_View)) = 1 -> 1 <= h.(Header_View) ->
  g.(Header_View) = h.(Header_View) - 1.
Proof.
  intros [[Hh _] _] [[Hg _] _] E H1'. unfold is_u64 in *. unfold wrap64, two64 in *.
  destruct (decide (g.(Header_View) <= h.(Header_View))).
  - rewrite Z.mod_small in E by lia. lia.
  - rewrite <- (Z.mod_add _ 1) in E by lia. rewrite Z.mod_small in E by lia. lia.
Qed.

(** [update] commits at most the block two views below [h]. *)
Lemma synced_update hs v h : good h -> 2 <= h.(Header_View) < v + 2 -> returns (synced hs v) (update h) (fun _ => synced hs v).
Proof.
  intros Hg Hv. unfold update. eapply returns_bind; [apply synced_lookup|]. intros [g|]; [|intros c [Hc _]; by apply wp_skip].
  intros c (Hc & Hgg & _). specialize (Hgg g eq_refl). revert c Hc. eapply returns_bind; [apply synced_lookup|].
  intros [gg|]; [|intros c [Hc _]; by apply wp_skip]. intros c (Hc & Hggg & _). specialize (Hggg gg eq_refl). revert c Hc.
  eapply (returns_bind _ _ (fun _ => synced hs v)); [by apply returns_gets|intros locked].
  eapply (returns_bind _ _ (fun _ => synced hs v)).
  { apply returns_when; [intros _|done]. eapply (returns_bind _ _ (fun _ => synced hs v)); [by apply synced_modify|intros _].
    apply (synced_tag _ _ KLocked). set_solver. }
  intros _. eapply (returns_bind _ _ (fun _ => synced hs v)); [by apply returns_gets|intros commit].
  apply returns_when; [intros E|done]. zbool. pose proof (successor_view h g Hg Hgg ltac:(done) ltac:(lia)).
  pose proof (successor_view g gg Hgg Hggg ltac:(done) ltac:(lia)).
  eapply (returns_bind _ _ (fun _ => synced hs v)).
  { apply returns_modify. intros c [? ? ?]. split; [done..|]. simpl. lia. }
  intros _. eapply (returns_bind _ _ (fun _ => synced hs v)); [apply (synced_tag _ _ KDecide); set_solver|intros _]. by apply synced_modify.
Qed.

(** The third block in a row makes the first final. *)
Lemma synced_finalizes hs v h g gg : g ∈ hs -> gg ∈ hs ->
  sbytes h.(Header_Parent) = Header_Hash g -> sbytes g.(Header_Parent) = Header_Hash gg ->
  h.(Header_View) = g.(Header_View) + 1 -> g.(Header_View) = gg.(Header_View) + 1 -> v = gg.(Header_View) ->
  returns (synced hs v) (update h) (fun _ => reported_final gg).
Proof.
  intros Hg Hgg E1 E2 V1 V2 ->. unfold update. eapply returns_bind; [apply synced_lookup|].
  intros o c (Hc & _ & Ho). rewrite (Ho g Hg (eq_sym E1)). clear o Ho. revert c Hc. eapply returns_bind; [apply synced_lookup|].
  intros o c (Hc & _ & Ho). rewrite (Ho gg Hgg) by (by rewrite <- E2, canon_parent). clear o Ho. revert c Hc.
  set (v := gg.(Header_View)). eapply (returns_bind _ _ (fun _ => synced hs v)); [by apply returns_gets|intros locked].
  eapply (returns_bind _ _ (fun _ => synced hs v)).
  { apply returns_when; [intros _|done]. eapply (returns_bind _ _ (fun _ => synced hs v)); [by apply synced_modify|intros _].
    apply (synced_tag _ _ KLocked). set_solver. }
  intros _ c Hc. apply wp_bind, wp_gets. pose proof (sy_commit _ _ _ Hc) as Hlt. rewrite !canon_view.
  replace (Header_View h - Header_View g) with 1 by lia. replace (Header_View g - Header_View gg) with 1 by lia.
  change (wrap64 1) with 1. rewrite (proj2 (Z.ltb_lt _ _)) by done. cbn [andb Z.eqb Pos.eqb when]. revert c Hc Hlt. intros c Hc _.
  apply wp_bind, wp_modify, wp_bind. unfold wp at 1, save.
  destruct (Put_ok Hput (c_store (set_commit (canon gg) c)) DecideTag (Header_Hash (canon gg))) as [db E]. unfold SetTag. rewrite E.
  unfold modify_progress. apply wp_modify. unfold reported_final. simpl. apply elem_of_app. right. left.
Qed.

(** ** Three blocks *)

(** The part of [syncBlock] that saves a block it has accepted. *)
Lemma synced_accepts {K} hs v h b : syncable h b -> v <= h.(Header_View) -> Forall (fun h' => Header_Hash h' <> Header_Hash h) hs ->
  returns (synced (h :: hs) v) (update h) (fun _ => K) ->
  returns (synced hs v) (syncBlock b) (fun ok c => ok = true /\ K c).
Proof.
  intros Hb Hv Hnew Hup c Hc. pose proof Hb as [Eh Hg (cert & Ec & Hgc & Hok) (data & Ed & Hgd)]. unfold syncBlock. rewrite Eh, Ec, Ed.
  apply wp_bind, wp_gets. rewrite (proj2 (Z.leb_gt _ _)) by (pose proof (sy_commit _ _ _ Hc); lia).
  apply wp_bind. unfold wp at 1, liftr. rewrite Hok. revert c Hc.
  apply (returns_bind _ _ (fun _ => synced (h :: hs) v)); [by eapply synced_saves|intros _].
  apply (returns_bind _ _ (fun _ => synced (h :: hs) v)); [apply synced_prepares|intros _].
  apply (returns_bind _ _ (fun _ => K)); [exact Hup|intros _]. intros c2 Hc2. by split.
Qed.

Lemma sync_one {K J} b bs I : returns I (syncBlock b) (fun ok c => ok = true /\ K c) -> returns K (onSyncBlocks bs) (fun _ => J) ->
  returns I (onSyncBlocks (b :: bs)) (fun _ => J).
Proof. intros Hb Hbs. cbn [onSyncBlocks]. eapply returns_bind; [exact Hb|]. intros ok c [-> Hc]. by apply Hbs. Qed.

(** The block after [h]. *)
Definition above (h : Header) : Header := mkHeader (h.(Header_View) + 1) (Some (Header_Hash h)) h.(Header_View) None None.

Lemma sync_finalizes h b1 b2 b3 : syncable h b1 -> syncable (above h) b2 -> syncable (above (above h)) b3 -> 2 <= h.(Header_View) ->
  NoDup (Header_Hash <$> [h; above h; above (above h)]) ->
  returns (synced [] h.(Header_View)) (onSync (mkSync [b1; b2; b3])) (fun _ => reported_final h).
Proof.
  intros S1 S2 S3 Hv Hnd. set (v := h.(Header_View)). rewrite !fmap_cons, !list.NoDup_cons in Hnd. destruct Hnd as (N1 & N2 & _).
  assert (D : forall x y l, x ∉ Header_Hash <$> y :: l -> x <> Header_Hash y) by (intros x y l Hx ->; apply Hx; left).
  pose proof (D _ (above h) [above (above h)] N1) as D12. pose proof (D _ (above (above h)) [] N2) as D23.
  assert (D13 : Header_Hash h <> Header_Hash (above (above h))) by (intros E; apply N1; rewrite E; right; left).
  unfold onSync. cbn [Sync_Blocks]. apply (sync_one (K := synced [h] v)).
  { apply (synced_accepts [] v h); [done|lia|constructor|]. apply synced_update; [apply S1|lia]. }
  apply (sync_one (K := synced [above h; h] v)).
  { apply (synced_accepts [h] v (above h)); [done|simpl; lia|by repeat constructor|]. apply synced_update; [apply S2|simpl; lia]. }
  apply (sync_one (K := reported_final h)); [|intros c Hc; by apply wp_skip].
  apply (synced_accepts [above h; h] v (above (above h))); [done|simpl; lia|by repeat constructor|].
  apply (synced_finalizes _ _ _ (above h) h); try done; [right; left|right; right; left].
Qed.
End Syncing.

(** ** One key *)

Section OneKey.
Context {DB : Type} `{KVStore DB} `{!KVLaws DB} `{Hasher} `{!HasherLaws} `{Signer} `{BLS} `{!BLSLaws}.
Context (v : BLS12381Verifier).

(** A block with a certificate by the replica [i] alone, whose key is [sk]. *)
Definition forged_cert (sk : SecretKey) (i : Z) (h : Header) : Certificate :=
  mkCertificate (Some (Header_Hash h)) (Some (alone v sk i (Header_Hash h))).
Definition forged_block (sk : SecretKey) (i : Z) (h : Header) : Block := mkBlock (Some h) (Some (mkData [])) (Some (forged_cert sk i h)).
Definition forged_chain (h : Header) : list Header := [h; above h; above (above h)].
Definition forged_sync (sk : SecretKey) (i : Z) (h : Header) : Message := NewSyncMsg (forged_block sk i <$> forged_chain h).

End OneKey.

(** ** Witness: replicas 1 and 2 finalize different blocks of view 2

    Both blocks are on the genesis block and certified with the key of replica 0. *)

Definition forged_header (x : byte) : Header := mkHeader 2 (Some (Header_Hash genesis_header)) 0 (Some [x]) None.

Lemma demo_commit i : 0 <= i < 4 -> (demo i).(c_commit) = canon genesis_header.
Proof. intros Hi. assert (i = 0 \/ i = 1 \/ i = 2 \/ i = 3) as [->|[->|[->| ->]]] by lia; vm_compute; reflexivity. Qed.

(** What is made can be encoded. *)
Ltac can_be_forged := repeat apply list.Forall_cons_2; try apply list.Forall_nil_2;
  (split; [first [split; computed|intros ? E; vm_compute in E; injection E as <-; repeat constructor; computed]|computed]).

