(* ===== verification/Leading.v ===== *)
(** * From votes to the next proposal

    The other half of a round: the leader of the next view collects the votes of a
    quorum into a certificate, enters its view, asks for data and proposes.  Its
    proposal is a good one in the sense of Rounds.v, so the replicas that get it
    vote for it, as it does itself. *)

From Stdlib Require Import ZArith Lia.
From S2P Require Import Prelude Wire Types Proto Codec Encoding Crypto Store Quorum Progress Consensus.
From S2P Require Import ConsensusFacts Handlers Replica Instances Safety Progression Agreement Rounds.

(** ** Computations that leave a field alone *)

Section Fixes.
Context {DB : Type} `{KVStore DB} `{Hasher} `{Signer} `{Verifier} {X : Type} (f : consensus DB -> X).

Definition fixes {A} (m : M (consensus DB) A) : Prop := forall c, wp m (fun _ c' => f c' = f c) (fun _ => True) c.

Lemma fixes_bind {A B} (m : M (consensus DB) A) (g : A -> M (consensus DB) B) : fixes m -> (forall a, fixes (g a)) -> fixes (m ≫= g).
Proof.
  intros Hm Hg c. apply wp_bind. eapply wp_mono; [apply Hm| |done]. intros a c1 E. rewrite <- E. apply Hg.
Qed.
Lemma fixes_modify g : (forall c, f (g c) = f c) -> fixes (modify g).
Proof. intros Hg c. apply wp_modify, Hg. Qed.
Lemma fixes_gets {A} (g : consensus DB -> A) : fixes (gets g).
Proof. intros c. by apply wp_gets. Qed.
Lemma fixes_skip : fixes skip.
Proof. intros c. by apply wp_skip. Qed.
Lemma fixes_when b m : fixes m -> fixes (when b m).
Proof. destruct b; [done|]. intros _. apply fixes_skip. Qed.
Lemma fixes_save g : (forall db c, f (set_store db c) = f c) -> fixes (save g).
Proof. intros Hf c. unfold wp, save. destruct (g (c_store c)); [apply Hf|done..]. Qed.
Lemma fixes_leader v : fixes (getLeader v).
Proof. intros c. unfold getLeader. by apply wp_liftr. Qed.

Lemma returns_and {A} I (m : M (consensus DB) A) J K : returns I m J -> (forall c, I c -> wp m K (fun _ => True) c) ->
  returns I m (fun a c => J a c /\ K a c).
Proof.
  intros Hm Hk c Hc. specialize (Hm c Hc). specialize (Hk c Hc). unfold wp in *. destruct (m c) as [c' [a|k]]; [by split|done].
Qed.

Lemma returns_frame {A} I (m : M (consensus DB) A) J x : returns I m J -> fixes m ->
  returns (fun c => I c /\ f c = x) m (fun a c => J a c /\ f c = x).
Proof.
  intros Hm Hf. apply returns_and; [intros c [Hc _]; by apply Hm|].
  intros c [_ E]. eapply wp_mono; [apply Hf|intros a c1 E'; congruence|done].
Qed.
End Fixes.

Section Cert.
Context {DB : Type} `{KVStore DB} `{Hasher} `{Signer} `{Verifier}.

Lemma fixes_reset : fixes (DB := DB) c_prepareCert (modify resetTimeouts).
Proof.
  apply fixes_modify. intros c. unfold resetTimeouts. by destruct (c_timeoutCert c), (Timeouts_Cert (c_timeouts c)).
Qed.
Lemma fixes_start : fixes (DB := DB) c_prepareCert startTimeouts.
Proof. intros c. unfold wp, startTimeouts. by destruct (Timeouts_Start _ _). Qed.

Lemma fixes_nextRound step : fixes (DB := DB) c_prepareCert (nextRound step false).
Proof.
  unfold nextRound, resetTimeout, releaseTimeoutCert, waitForData, modify_progress. simpl.
  repeat first [apply fixes_bind; [|intros ?] | apply fixes_gets | apply fixes_leader | apply fixes_when
    | apply fixes_reset | apply fixes_start | apply fixes_modify; intros ?; by repeat case_match].
Qed.
Lemma fixes_setView {X} (f : consensus DB -> X) v : (forall c, f (set_view v c) = f c) -> (forall db c, f (set_store db c) = f c) ->
  fixes f (setView v).
Proof. intros Hv Hs. unfold setView. apply fixes_bind; [by apply fixes_modify|intros _; by apply fixes_save]. Qed.
Lemma fixes_syncView step h : fixes (DB := DB) c_prepareCert (syncView step h None).
Proof.
  unfold syncView. apply fixes_bind; [apply fixes_gets|]. intros v. apply fixes_when.
  apply fixes_bind; [by apply fixes_setView|intros _; apply fixes_nextRound].
Qed.

Lemma sets_updatePrepare h cert c : c.(c_prepare).(Header_View) < h.(Header_View) ->
  wp (S := consensus DB) (updatePrepare h cert) (fun _ c' => c'.(c_prepareCert) = cert) (fun _ => True) c.
Proof.
  intros Hv. unfold updatePrepare, modify_progress. apply wp_bind, wp_gets. rewrite (proj2 (Z.ltb_lt _ _)) by done. cbn [when].
  unfold wp, mbind, M_bind, save, modify. simpl. by destruct (SetTag _ _ _).
Qed.
End Cert.

(** ** The timeout certificate of an earlier view is released *)

Section Release.
Context {DB : Type} `{KVStore DB} `{Hasher} `{Signer} `{Verifier}.
Implicit Types c : consensus DB.

Definition unheld c : Prop := load_timeoutCert c = None.
Definition outdated c : Prop := forall tc, load_timeoutCert c = Some tc -> tc.(TimeoutCertificate_View) < wrap64 (c.(c_view) - 1).

Lemma fixes_load_reset : fixes (DB := DB) load_timeoutCert (modify resetTimeouts).
Proof. apply fixes_modify, load_reset. Qed.

Lemma restart_unheld c : unheld c -> wp (modify resetTimeouts ;; startTimeouts) (fun _ => unheld) (fun _ => True) c.
Proof.
  intros Hc. apply wp_bind, wp_modify. unfold wp, startTimeouts. destruct (Timeouts_Start _ _); try done.
  unfold unheld. rewrite load_unshared by (by destruct (c_timeoutCert c) eqn:E1, (Timeouts_Cert (c_timeouts c)) eqn:E2; unfold resetTimeouts; rewrite ?E1, ?E2; simpl; rewrite ?E1).
  by rewrite load_reset.
Qed.

Lemma releases step c : outdated c -> wp (nextRound step false) (fun _ => unheld) (fun _ => True) c.
Proof.
  intros Ho. unfold nextRound, resetTimeout, releaseTimeoutCert. apply wp_bind, wp_modify, wp_bind, wp_modify, wp_bind, wp_modify, wp_bind, wp_modify.
  set (c1 := set_votes _ _). change (load_timeoutCert c1) with (load_timeoutCert c).
  set (c2 := match load_timeoutCert c with Some _ => _ | None => _ end).
  assert (Hu : unheld c2).
  { unfold c2, unheld. destruct (load_timeoutCert c) as [tc|] eqn:E; [|done]. change (c_view c1) with (c_view c).
    by rewrite (proj2 (Z.ltb_lt _ _)) by by apply Ho. }
  clearbody c2. clear c1 Ho.
  assert (Hfix : forall A (m : M (consensus DB) A) (K : A -> consensus DB -> Prop) c, unheld c -> fixes load_timeoutCert m ->
    (forall a c', unheld c' -> K a c') -> wp m K (fun _ => True) c).
  { intros A m K c' Hc' Hf HK. eapply wp_mono; [apply Hf| |done]. intros a c'' E. apply HK. unfold unheld in *. congruence. }
  apply wp_bind, wp_gets, wp_bind, wp_gets, wp_bind. apply Hfix; [done|apply fixes_leader|intros prev c3 Hc3].
  apply wp_bind, Hfix; [done|apply fixes_when, fixes_load_reset|intros _ c4 Hc4].
  apply wp_bind, Hfix; [done|apply fixes_leader|intros next c5 Hc5]. apply wp_bind.
  assert (Hrest : forall c, unheld c -> wp (voted ← gets c_voted;
    if false && (voted <? wrap64 (c_view c2 - 1)) then sendNewView step else leader ← getLeader (c_view c2); when (c_id c2 =? leader) waitForData)
    (fun _ => unheld) (fun _ => True) c).
  { intros c6 Hc6. apply Hfix; [done| |done]. unfold waitForData, modify_progress. simpl.
    repeat first [apply fixes_bind; [|intros ?] | apply fixes_gets | apply fixes_leader | apply fixes_when | by apply fixes_modify]. }
  apply wp_when; [intros _|by intros _; apply Hrest]. eapply wp_mono; [by apply restart_unheld|intros []; apply Hrest|done].
Qed.

(** A replica that leaves the view [v] for the next. *)
Lemma leaves_releases step v h c : is_u64 v -> c.(c_view) = v -> h.(Header_View) = v -> wrap64 (v + 1) = v + 1 ->
  (forall tc, load_timeoutCert c = Some tc -> tc.(TimeoutCertificate_View) < v) ->
  wp (syncView step h None) (fun _ => unheld) (fun _ => True) c.
Proof.
  intros Hu Hv Hh Hw Ho. unfold syncView. apply wp_bind, wp_gets. rewrite Hv, Hh, Z.leb_refl, Hw. cbn [when].
  unfold setView. apply wp_bind, wp_bind, wp_modify. unfold wp at 1, save. destruct (SaveView _ _) as [db| |]; try done.
  apply releases. intros tc Htc. simpl. replace (v + 1 - 1) with v by lia. rewrite wrap64_small by done. by apply Ho.
Qed.
Lemma stays_unheld step c : unheld c -> wp (nextRound step false) (fun _ => unheld) (fun _ => True) c.
Proof. intros Hc. apply releases. intros tc. by rewrite Hc. Qed.
End Release.

(** ** Votes *)

Section Tally.
Context `{Hasher} `{Verifier} (th : Z) `{!VerifierLaws th} (majority : Z).

(** The aggregate of signatures by voters, in the order in which they came. *)
Definition merge_sig (a : option AggregatedSignature) (b : Z * slice) : option AggregatedSignature :=
  match Merge a b.1 b.2 with Ok a' => a' | _ => None end.
Definition tallied (l : list (Z * slice)) : option AggregatedSignature := foldl merge_sig (Some empty_agg) l.

(** Signatures of [msg] by different voters. *)
Definition signed (msg : bytes) (l : list (Z * slice)) : Prop :=
  Forall (fun b => is_u64 b.1 /\ Verify b.1 msg (sbytes b.2) = true) l /\ NoDup l.*1.

Lemma signed_snoc msg l b : signed msg (l ++ [b]) -> signed msg l /\ is_u64 b.1 /\ Verify b.1 msg (sbytes b.2) = true /\ (b.1 ∉ l.*1).
Proof.
  unfold signed. rewrite fmap_app, list.NoDup_app, Forall_app. intros [[Hf [[Hu Hv] _]%list.Forall_cons_1] (Hn & Hd & _)].
  split_and!; [done..|]. intros Hin. apply (Hd _ Hin). by left.
Qed.

Lemma tallied_ok msg l : signed msg l -> exists a, tallied l = Some a /\ a.(AggregatedSignature_Voters) = l.*1 /\ collected msg a.
Proof.
  induction l as [|b l IH] using rev_ind; intros Hb; [exists empty_agg; split_and!; [done..|apply collected_empty]|].
  apply signed_snoc in Hb as (Hb & Hu & Hv & Hn). destruct (IH Hb) as (a & E & Ev & Hc).
  destruct (collected_merge msg a b.1 b.2) as (a' & Hm & Hvs & Hc'); [done..|by rewrite Ev|].
  exists a'. split_and!; [|by rewrite Hvs, Ev, fmap_app|done]. unfold tallied. rewrite foldl_app. fold (tallied l). rewrite E.
  simpl. unfold merge_sig. by rewrite Hm.
Qed.

(** One more. *)
Lemma tallied_next msg l b : signed msg (l ++ [b]) -> Merge (tallied l) b.1 b.2 = Ok (tallied (l ++ [b])).
Proof.
  intros (Hb & Hu & Hv & Hn)%signed_snoc. destruct (tallied_ok _ _ Hb) as (a & E & Ev & Hc).
  destruct (collected_merge msg a b.1 b.2) as (a' & Hm & _); [done..|by rewrite Ev|].
  unfold tallied in *. rewrite foldl_app, E. simpl. unfold merge_sig. by rewrite Hm.
Qed.

Lemma tallied_accepted msg l : signed msg l -> 1 <= th <= len l -> VerifyAggregated msg (tallied l) = Ok true.
Proof.
  intros Hb Hl. destruct (tallied_ok _ _ Hb) as (a & -> & Ev & Hc). apply collected_verify; [done|..]; rewrite Ev.
  - intros E. apply (f_equal length) in E. rewrite length_fmap in E. unfold len in Hl. simpl in E. lia.
  - unfold len in *. rewrite length_fmap. lia.
Qed.

(** What is collected of a list of ballots. *)
Lemma tally_set (l : list (Z * slice)) b : {[ b.1 ]} ∪ list_to_set l.*1 = list_to_set (C := gset Z) (l ++ [b]).*1.
Proof. rewrite fmap_app, list_to_set_app_L. simpl. set_solver. Qed.
Lemma tally_count (l : list (Z * slice)) : NoDup l.*1 -> Z.of_nat (size (list_to_set (C := gset Z) l.*1)) = len l.
Proof. intros Hn. rewrite size_list_to_set by done. unfold len. by rewrite length_fmap. Qed.

(** The collector after the votes [vs] for [h]. *)
Definition vote_sig (v : Vote) : Z * slice := (v.(Vote_Voter), v.(Vote_Sig)).
Definition cert_of (h : Header) (vs : list Vote) : Certificate := mkCertificate (Some (Header_Hash h)) (tallied (vote_sig <$> vs)).
Definition votes_of (h : Header) (vs : list Vote) : Votes :=
  mkVotes majority (list_to_set (vote_sig <$> vs).*1) (Some (cert_of h vs)) (Some h).

Record vote_for (h : Header) (v : Vote) : Prop := {
  vf_voter : is_u64 v.(Vote_Voter);
  vf_view : v.(Vote_View) = h.(Header_View);
  vf_block : sbytes v.(Vote_Block) = Header_Hash h;
  vf_sig : Verify v.(Vote_Voter) (Header_Hash h) (sbytes v.(Vote_Sig)) = true;
}.
Definition ballots (h : Header) (vs : list Vote) : Prop := Forall (vote_for h) vs /\ NoDup (Vote_Voter <$> vs).

Lemma voters_fmap vs : (vote_sig <$> vs).*1 = Vote_Voter <$> vs.
Proof. by rewrite <- list_fmap_compose. Qed.
Lemma ballots_signed h vs : ballots h vs -> signed (Header_Hash h) (vote_sig <$> vs).
Proof. intros [Hf Hn]. split; [|by rewrite voters_fmap]. apply Forall_fmap. eapply list.Forall_impl; [exact Hf|]. by intros v []. Qed.

Lemma ballots_snoc h vs v : ballots h (vs ++ [v]) -> ballots h vs /\ vote_for h v.
Proof.
  unfold ballots. rewrite fmap_app, list.NoDup_app, Forall_app. by intros [[Hf [Hv _]%list.Forall_cons_1] (Hn & _)].
Qed.

Lemma collect_next h vs v : ballots h (vs ++ [v]) ->
  Votes_Collect (votes_of h vs) v = Ok (votes_of h (vs ++ [v]), majority <=? len (vs ++ [v])).
Proof.
  intros Hb. assert (E : vote_sig <$> vs ++ [v] = (vote_sig <$> vs) ++ [vote_sig v]) by exact (fmap_app vote_sig vs [v]).
  pose proof (ballots_signed _ _ Hb) as Hs. rewrite E in Hs.
  pose proof (tallied_next _ _ _ Hs) as Hm. destruct (signed_snoc _ _ _ Hs) as (_ & _ & Hv & Hn).
  apply ballots_snoc in Hb as [_ [_ _ Hk _]].
  unfold Votes_Collect, votes_of, cert_of. cbn [Votes_Cert Votes_votes Votes_majority Votes_Header Certificate_Block Certificate_Sig].
  rewrite (proj2 (bytes_eqb_eq _ _)) by (simpl; congruence). cbn [negb].
  rewrite bool_decide_eq_false_2 by (by rewrite elem_of_list_to_set). simpl sbytes. simpl in Hv, Hm. rewrite Hv. cbn [negb].
  rewrite (tally_set (vote_sig <$> vs) (vote_sig v)). rewrite Hm, E. cbn [mbind res_bind mret res_ret fmap list_fmap].
  do 2 f_equal. rewrite tally_count by apply Hs. unfold len. by rewrite !length_app, length_fmap.
Qed.

(** A certificate for [h] that every replica accepts. *)
Definition certifies (cert : Certificate) (h : Header) : Prop := sbytes cert.(Certificate_Block) = Header_Hash h
  /\ VerifyAggregated (Header_Hash h) cert.(Certificate_Sig) = Ok true.

(** The certificate of a quorum of ballots is accepted. *)
Lemma cert_of_accepted h vs : ballots h vs -> 1 <= th <= len vs -> certifies (cert_of h vs) h.
Proof.
  intros Hb Hl. split; [done|]. apply tallied_accepted; [by apply ballots_signed|]. unfold len in *. by rewrite length_fmap.
Qed.
End Tally.

(** ** The collector becomes a leader *)

Section Leading.
Context {DB : Type} `{KVStore DB} `{!KVLaws DB} `{Hasher} `{!HasherLaws} `{Signer} `{Verifier}.
Context (th : Z) `{!VerifierLaws th}.
Context (Hput : forall (db : DB) k v, is_Some (db_put db k v)) (Hsign : forall msg, len msg = 32 -> exists sig, Sign [] msg = Ok sig).
Context (self : Z) (Hself : is_u64 self) (replicas : list Z) (Hn : 2 <= len replicas).
(** The replicas accept this one's signatures, and a quorum of them. *)
Context (Hown : forall msg sig, Sign [] msg = Ok sig -> Verify self msg sig = true) (Hth : 1 <= th <= quorum_size (len replicas)).
Implicit Types (c : consensus DB) (t : tracked).

Abbreviation tracks := (tracks self replicas).
Abbreviation quorum := (quorum_size (len replicas)).

(** The vote of this replica. *)
Definition own_ballot (h : Header) : Vote :=
  own_vote_for self h (match Sign [] (Header_Hash h) with Ok s => s | _ => [] end).

(** The collector of [c] holds the votes [vs] for [h]. *)
Definition counts (h : Header) (vs : list Vote) t c : Prop :=
  tracks t c /\ t.(t_idle) = false /\ c.(c_votes) = votes_of quorum h vs.
Definition leads (v : Z) : Prop := leader_of replicas v = Ok self.

Lemma own_vote_for_h h sig : Sign [] (Header_Hash h) = Ok sig -> vote_for h (own_vote_for self h sig).
Proof. intros Hs. split; [done..|]. by apply Hown. Qed.

(** [onVote] of a replica that collects for [h]. *)
Lemma returns_vote step t h vs v (K : consensus DB -> Prop) : leads (wrap64 (h.(Header_View) + 1)) -> ballots h (vs ++ [v]) ->
  (forall c, counts h (vs ++ [v]) t c -> wp (when (quorum <=? len (vs ++ [v]))
     (cert ← liftr (deref (votes_of quorum h (vs ++ [v])).(Votes_Cert));
      save (fun db => SaveCertificate db cert) ;;
      header ← liftr (deref (votes_of quorum h (vs ++ [v])).(Votes_Header));
      updatePrepare header cert ;; syncView step header None ;; nextRound step false)) (fun _ => K) (fun _ => False) c) ->
  returns (counts h vs t) (onVote step v) (fun _ => K).
Proof.
  intros Hl Hb HK c (Hc & Hi & Ev). apply ballots_snoc in Hb as Hb'. destruct Hb' as (_ & [_ Hvv _ _]).
  unfold onVote. apply wp_bind, wp_gets, wp_bind. unfold wp at 1, getLeader, liftr.
  rewrite (tr_replicas _ _ _ _ Hc), Hvv, Hl, (tr_id _ _ _ _ Hc), Z.eqb_refl. cbn [when].
  apply wp_bind, wp_gets, wp_bind. unfold wp at 1, liftr. rewrite Ev, (collect_next th quorum h vs v Hb).
  apply wp_bind, wp_modify, HK. split; [by apply tracks_set_votes|by split].
Qed.

(** A vote that is not the last of a quorum. *)
Lemma vote_counted step t h vs v : leads (wrap64 (h.(Header_View) + 1)) -> ballots h (vs ++ [v]) -> len (vs ++ [v]) < quorum ->
  returns (counts h vs t) (onVote step v) (fun _ => counts h (vs ++ [v]) t).
Proof.
  intros Hl Hb Hq. apply returns_vote; [done..|]. intros c Hc. apply wp_when; [intros E; zbool; lia|done].
Qed.

(** The new leader: it waits for data and has the certificates for its proposal. *)
Record led (cert : Certificate) (o : option TimeoutCertificate) t c : Prop := {
  ld_tracks : tracks t c;
  ld_cert : c.(c_prepareCert) = cert;
  ld_timeout : load_timeoutCert c = o;
  ld_waiting : c.(c_waitingData) = true;
}.
Definition promote (h : Header) t : tracked := t_enter (h.(Header_View) + 1) (t_prepared h t).

Lemma vote_elects step t h vs v : leads (h.(Header_View) + 1) -> is_u64 (h.(Header_View) + 1) -> is_u64 h.(Header_View) ->
  ballots h (vs ++ [v]) -> quorum <= len (vs ++ [v]) -> good (cert_of h (vs ++ [v])) ->
  t.(t_view) = h.(Header_View) -> t.(t_prepare).(Header_View) < h.(Header_View) ->
  returns (counts h vs t) (onVote step v) (fun _ => led (cert_of h (vs ++ [v])) None (promote h t)).
Proof.
  intros Hl Hu Hu' Hb Hq Hg Hv Hp. set (cert := cert_of h (vs ++ [v])) in *.
  apply returns_vote; [by rewrite wrap64_small|done|]. intros c Hc. rewrite (proj2 (Z.leb_le _ _)) by done. cbn [when].
  apply wp_bind. unfold wp at 1, liftr. simpl deref. fold cert. cbv iota beta.
  destruct Hc as (Hc & _). revert c Hc.
  eapply steps_seq; [by apply steps_save, (plain_SaveCertificate Hput)|].
  eapply (returns_bind _ _ (fun h' c => h' = h /\ tracks t c)); [by intros c Hc; unfold wp, liftr|].
  intros h' c [-> Hc]. revert c Hc.
  eapply (returns_bind _ _ (fun _ c => tracks (t_prepared h t) c /\ c.(c_prepareCert) = cert)).
  { apply returns_and; [apply (steps_updatePrepare Hput)|]. intros c Hc. apply sets_updatePrepare. by rewrite (tr_prepare _ _ _ _ Hc). }
  assert (Ev : (t_prepared h t).(t_view) = h.(Header_View)) by (unfold t_prepared; by destruct (_ <? _)).
  assert (Es : promote h t = t_sync h.(Header_View) (t_prepared h t)) by (unfold t_sync, promote; by rewrite Ev, Z.leb_refl).
  intros _. eapply (returns_bind _ _ (fun _ c => (tracks (promote h t) c /\ c.(c_prepareCert) = cert) /\ unheld c)).
  { apply returns_and.
    - apply returns_frame; [|apply fixes_syncView]. rewrite Es. by apply (steps_syncView Hput self replicas Hn).
    - intros c [Hc _]. apply (leaves_releases step h.(Header_View)); try done; [by rewrite (tr_view _ _ _ _ Hc)|by rewrite wrap64_small|].
      intros tc Htc. rewrite <- Ev. by apply (tr_old _ _ _ _ Hc). }
  intros _. eapply returns_weaken; [intros c Hc; exact Hc| |apply returns_and; [|intros c [_ Hc]; by apply stays_unheld]].
  2:{ intros c [Hc _]. revert c Hc. apply returns_frame; [apply (returns_nextRound self replicas Hn)|apply fixes_nextRound]. }
  intros _ c [[[Hc Hw] E] Hu1]. split; [exact Hc|exact E|exact Hu1|by apply Hw].
Qed.

(** ** The leader proposes *)

Definition t_sent (m : MsgTo) t : tracked :=
  mkTracked t.(t_view) t.(t_voted) t.(t_idle) t.(t_prepare) t.(t_commit) t.(t_stored) t.(t_events) (m :: t.(t_msgs)) t.(t_absent).
Definition built_header (v : Z) (h : Header) (state root : slice) : Header :=
  mkHeader v (Some (Header_Hash h)) h.(Header_View) root state.
(** What [Send] makes in view [v] of a certificate for [h] and one for a timeout. *)
Definition proposal_on (v : Z) (h : Header) (cert : Certificate) (o : option TimeoutCertificate) (state root : slice) (data : Data) : Proposal :=
  let h' := built_header v h state root in
  mkProposal (Some h') (Some data) (Some (match Sign [] (Header_Hash h') with Ok s => s | _ => [] end)) (Some cert) o.
Definition proposal_msg (p : Proposal) : MsgTo := mkMsgTo None (NewProposalMsg p).

(** The block that is proposed can be encoded. *)
Record sendable (v : Z) (h : Header) (cert : Certificate) (state root : slice) (data : Data) : Prop := {
  sd_next : is_u64 (v + 1);
  sd_header : good (built_header v h state root);
  sd_data : good data;
  sd_cert : good cert;
}.

(** A block in view [v] may follow [h]: at once, or after views that timed out. *)
Definition reached (v : Z) (h : Header) (o : option TimeoutCertificate) : Prop := h.(Header_View) < v /\
  match o with
  | None => v = h.(Header_View) + 1
  | Some tc => v = tc.(TimeoutCertificate_View) + 1
      /\ VerifyAggregated (timeout_digest tc.(TimeoutCertificate_View)) tc.(TimeoutCertificate_Sig) = Ok true
  end.

Lemma proposal_on_proper v h cert o state root data : good h -> leads v -> reached v h o ->
  sendable v h cert state root data -> certifies cert h -> proper replicas (proposal_on v h cert o state root data) (built_header v h state root) (canon h).
Proof.
  intros Hg Hl [Hlt Ho] [Hu Hh Hd Hc] [Eb Hv]. split; try done.
  - by exists data.
  - by exists cert.
  - simpl. by rewrite Header_Hash_canon.
  - exists self. split; [done|]. destruct (hash_signs Hsign (built_header v h state root) Hh) as [sig E]. simpl. rewrite E. by apply Hown.
Qed.

Lemma promoted_prepare h t : t.(t_prepare).(Header_View) < h.(Header_View) -> (promote h t).(t_prepare) = h.
Proof. intros Hp. unfold promote, t_prepared. by rewrite (proj2 (Z.ltb_lt _ _)). Qed.

Lemma promoted_same h t : same_blocks t (promote h t).
Proof. destruct (prepared_same h t) as [E1 E2 E3]. by split. Qed.

(** The new leader expects a block on [h]. *)
Lemma promoted_expecting h t : good h -> (promote h t).(t_prepare) = h -> expecting t (canon h) (h.(Header_View) + 1) ->
  expecting (promote h t) (canon h) (h.(Header_View) + 1).
Proof.
  intros Hg Hp [Hf _ Hv Ha _ Hc Hr Hd]. pose proof (promoted_same h t) as Hs. split.
  - by rewrite (same_find _ _ _ Hs).
  - by right.
  - by rewrite (sb_voted _ _ Hs).
  - done.
  - right. rewrite Hp. by rewrite Header_Hash_canon.
  - by eapply same_closed.
  - done.
  - intros g. rewrite (same_find _ _ _ Hs). intros Eg. destruct (Hd g Eg) as [? Hgg]. split; [done|]. intros gg.
    rewrite (same_find _ _ _ Hs). apply Hgg.
Qed.

Lemma sent_expecting m t parent v : expecting t parent v -> expecting (t_sent m t) parent v.
Proof. by intros []. Qed.

(** The leader's state when its own proposal has been broadcast and handled. *)
Definition launch (h : Header) (p : Proposal) (h' : Header) t : tracked :=
  follow h' (canon h) (own_msg self replicas h') (t_sent (proposal_msg p) t).

Lemma led_sends v h cert o t state root data : good h -> leads v -> reached v h o ->
  sendable v h cert state root data -> certifies cert h -> t.(t_view) = v -> t.(t_prepare) = h -> expecting t (canon h) v ->
  t_fresh t (built_header v h state root) ->
  returns (led cert o t) (handle (ISend state root (Some data)))
    (fun _ => tracks (launch h (proposal_on v h cert o state root data) (built_header v h state root) t)).
Proof.
  intros Hg Hl Ho Hsd Hce Hv Hp He Hf c [Hc Ec Et Ew]. set (h' := built_header v h state root). set (p := proposal_on v h cert o state root data).
  pose proof (proposal_on_proper v h cert o state root data Hg Hl Ho Hsd Hce) as Hpr. fold p h' in Hpr.
  destruct (hash_signs Hsign h' (pr_good _ _ _ _ Hpr)) as [sig Hsig]. destruct (leader_ok replicas Hn (wrap64 (h'.(Header_View) + 1))) as [next Hnext].
  change (handle (ISend state root (Some data))) with (Send (Step 2) state root (Some data)). unfold Send.
  apply wp_bind, wp_gets. rewrite Ew. cbn [when]. apply wp_bind, wp_modify, wp_bind, wp_gets.
  set (c1 := set_waitingData false c). unfold id.
  assert (H1' : tracks t c1) by (destruct Hc; by split).
  assert (Eh : mkHeader c1.(c_view) (Some (Header_Hash c1.(c_prepare))) c1.(c_prepare).(Header_View) root state = h').
  { rewrite (tr_view _ _ _ _ H1'), (tr_prepare _ _ _ _ H1'), Hp, Hv. done. }
  rewrite Eh. apply wp_bind. unfold wp at 1, liftr. rewrite Hsig.
  change (load_timeoutCert c1) with (load_timeoutCert c). rewrite Et.
  assert (c1.(c_prepareCert) = cert) as -> by exact Ec.
  assert (Ep : mkProposal (Some h') (Some data) (Some sig) (Some cert) o = p).
  { unfold p, proposal_on. fold h'. by rewrite Hsig. }
  rewrite Ep. unfold sendMsg, modify_progress. apply wp_bind, wp_modify.
  assert (Eo : own_msg self replicas h' = vote_msg self h' sig next) by (unfold own_msg; by rewrite Hsig, Hnext).
  unfold launch. rewrite Eo.
  eapply (steps_onProposal Hput self replicas Hn (Step 1) (fun _ => tracks)); [intros; by apply (step_own_vote th)|by intros ? ? ? _ []|..].
  - by apply sent_expecting.
  - exact Hf.
  - done.
  - done.
  - done.
  - pose proof (tr_msgs _ _ _ _ H1') as Hms. destruct H1'. split; try done. simpl. intros x Hx. apply list.elem_of_cons in Hx as [->|Hx]; apply elem_of_app; [right; by left|left; by apply Hms].
Qed.

(** ** From the proposal to the next one *)

(** The vote has been cast and, if it is this replica's to collect, collected. *)
Definition voted (h : Header) t c : Prop := tracks t c /\ t.(t_idle) = false
  /\ (leads (wrap64 (h.(Header_View) + 1)) -> c.(c_votes) = votes_of quorum h [own_ballot h]).

Lemma own_vote_counted step t h sig : Sign [] (Header_Hash h) = Ok sig ->
  returns (collecting_for self replicas h t) (onVote step (own_vote_for self h sig)) (fun _ => voted h t).
Proof.
  intros Hs c (Hc & Hi & v0 & Ev & E0 & Em).
  assert (Eo : own_ballot h = own_vote_for self h sig) by (unfold own_ballot; by rewrite Hs).
  destruct (leader_ok replicas Hn (wrap64 (h.(Header_View) + 1))) as [r Er]. destruct (decide (r = self)) as [->|Hr].
  - eapply wp_mono; [apply (vote_counted _ t h [] (own_vote_for self h sig) Er)|intros _ c' (Hc' & _ & E)|done].
    + split; [repeat constructor; by apply own_vote_for_h|apply NoDup_singleton].
    + pose proof (quorum_two replicas Hn). change (1 < quorum). lia.
    + split_and!; [done..|]. rewrite Ev. unfold Votes_Start, votes_of, cert_of. by rewrite E0, Em.
    + split_and!; [done..|]. by rewrite Eo.
  - unfold onVote. apply wp_bind, wp_gets, wp_bind. unfold wp at 1, getLeader, liftr.
    rewrite (tr_replicas _ _ _ _ Hc). simpl Vote_View. rewrite Er, (tr_id _ _ _ _ Hc), (proj2 (Z.eqb_neq _ _)) by done.
    apply wp_skip. split_and!; [done..|]. unfold leads. rewrite Er. intros [= ->]. done.
Qed.

(** The collector counts its own vote as it casts it. *)
Lemma collector_follows t p h parent : expecting t parent h.(Header_View) -> t_fresh t h -> proper replicas p h parent -> leads (h.(Header_View) + 1) ->
  returns (tracks t) (handle (proposal_input (p, h))) (fun _ => counts h [own_ballot h] (follow h parent (own_msg self replicas h) t)).
Proof.
  intros He Hf Hp Hl. destruct (hash_signs Hsign h (pr_good _ _ _ _ Hp)) as [sig Hs].
  assert (Hl' : leads (wrap64 (h.(Header_View) + 1))) by (rewrite wrap64_small; [done|apply (pr_next _ _ _ _ Hp)]).
  assert (own_msg self replicas h = vote_msg self h sig self) as -> by (unfold own_msg; by rewrite Hs, Hl').
  change (handle (proposal_input (p, h))) with (onProposal (Step 1) p).
  eapply returns_weaken; [intros c Hc; exact Hc| |apply (steps_onProposal Hput self replicas Hn (Step 1) voted)]; try done.
  - intros _ c (Hc & Hi & Ev). split_and!; [exact Hc|exact Hi|by apply Ev].
  - intros t1 h1 sig1. apply own_vote_counted.
  - intros t1 h1 c Hne (Hc & Hi & _). by split_and!.
Qed.

Definition vote_input (v : Vote) : input := IStep (NewVoteMsg v).

Lemma votes_counted h t rest : forall vs, leads (wrap64 (h.(Header_View) + 1)) -> ballots h (vs ++ rest) -> len (vs ++ rest) < quorum ->
  returns (counts h vs t) (handle_all (vote_input <$> rest)) (fun _ => counts h (vs ++ rest) t).
Proof.
  induction rest as [|v rest IH]; intros vs Hl Hb Hq; [rewrite app_nil_r; intros c Hc; by apply wp_skip|].
  assert (E : vs ++ v :: rest = (vs ++ [v]) ++ rest) by by rewrite <- app_assoc. rewrite E in *.
  cbn [fmap list_fmap handle_all]. apply (returns_bind _ _ (fun _ => counts h (vs ++ [v]) t)); [|intros []; by apply (IH (vs ++ [v]))].
  apply (vote_counted (Step 1)); [done| |unfold len in *; rewrite length_app in Hq; lia].
  destruct Hb as [Hv Hd]. rewrite fmap_app in Hd. split; [by apply Forall_app in Hv as [? _]|by apply list.NoDup_app in Hd as [? _]].
Qed.

Lemma handle_one i (I J : consensus DB -> Prop) : returns I (handle i) (fun _ => J) -> returns I (handle_all [i]) (fun _ => J).
Proof. intros Hi. apply (returns_bind _ _ (fun _ => J)); [done|]. by intros [] c Hc. Qed.
Lemma handle_all_app (l l' : list input) (I J K : consensus DB -> Prop) : returns I (handle_all l) (fun _ => J) -> returns J (handle_all l') (fun _ => K) ->
  returns I (handle_all (l ++ l')) (fun _ => K).
Proof.
  revert I. induction l as [|i l IH]; intros I Hl Hl'; [intros c Hc; apply Hl'; exact (Hl c Hc)|].
  intros c Hc. specialize (Hl c Hc). cbn [handle_all app] in *. unfold wp, mbind, M_bind in *. destruct (handle i c) as [c' [[]|k]] eqn:E; [|done].
  apply (IH (eq c')); [intros ? <-; exact Hl|exact Hl'|done].
Qed.

(** The votes of a quorum, the last of which elects. *)
Lemma votes_elect h t vs : vs <> [] -> leads (h.(Header_View) + 1) -> is_u64 (h.(Header_View) + 1) -> is_u64 h.(Header_View) -> ballots h (own_ballot h :: vs) ->
  len (own_ballot h :: vs) = quorum -> good (cert_of h (own_ballot h :: vs)) ->
  t.(t_view) = h.(Header_View) -> t.(t_prepare).(Header_View) < h.(Header_View) ->
  returns (counts h [own_ballot h] t) (handle_all (vote_input <$> vs)) (fun _ => led (cert_of h (own_ballot h :: vs)) None (promote h t)).
Proof.
  intros Hne Hl Hu Hu' Hb Hq Hg Hv Hp. destruct vs as [|v vs _] using rev_ind; [done|]. rewrite fmap_app.
  change (own_ballot h :: vs ++ [v]) with ((own_ballot h :: vs) ++ [v]) in *. eapply handle_all_app.
  - apply votes_counted; [by rewrite wrap64_small|by apply ballots_snoc in Hb as [? _]|]. unfold len in *. rewrite length_app in Hq. simpl in *. lia.
  - apply handle_one, (vote_elects (Step 1)); try done. lia.
Qed.

Lemma follow_prepare t h parent m : expecting t parent h.(Header_View) -> (follow h parent m t).(t_prepare).(Header_View) <= parent.(Header_View).
Proof.
  intros He. unfold follow. simpl. destruct (update_same parent (t_sync (h.(Header_View) - 1) (t_prepared parent t))) as (_ & _ & _ & ->).
  assert ((t_sync (h.(Header_View) - 1) (t_prepared parent t)).(t_prepare) = (t_prepared parent t).(t_prepare)) as -> by (unfold t_sync; by destruct (_ <=? _)).
  unfold t_prepared. destruct (_ <? _) eqn:E; simpl; zbool; [lia|]. destruct (ex_prepare _ _ _ He) as [|[_ ->]]; lia.
Qed.

(** The inputs of a round at the replica that collects its votes. *)
Definition collector_inputs (p : Proposal) (h : Header) (vs : list Vote) (state root : slice) (data : Data) : list input :=
  proposal_input (p, h) :: (vote_input <$> vs) ++ [ISend state root (Some data)].
(** The block on [h], and its proposal. *)
Definition next_header (h : Header) (state root : slice) : Header := built_header (h.(Header_View) + 1) h state root.
Definition next_on (h : Header) (cert : Certificate) (state root : slice) (data : Data) : Proposal :=
  proposal_on (h.(Header_View) + 1) h cert None state root data.
(** The state it ends in: one proposal ahead. *)
Definition collected_round (h parent : Header) (vs : list Vote) (state root : slice) (data : Data) t : tracked :=
  launch h (next_on h (cert_of h (own_ballot h :: vs)) state root data) (next_header h state root)
    (promote h (follow h parent (own_msg self replicas h) t)).

Lemma collector_round t p h parent vs state root data : expecting t parent h.(Header_View) -> t_fresh t h -> proper replicas p h parent ->
  leads (h.(Header_View) + 1) -> ballots h (own_ballot h :: vs) -> len (own_ballot h :: vs) = quorum ->
  sendable (h.(Header_View) + 1) h (cert_of h (own_ballot h :: vs)) state root data -> t_fresh t (next_header h state root) ->
  Header_Hash h <> Header_Hash (next_header h state root) ->
  returns (tracks t) (handle_all (collector_inputs p h vs state root data)) (fun _ => tracks (collected_round h parent vs state root data t)).
Proof.
  intros He Hf Hp Hl Hb Hq Hsd Hf' Hne. pose proof (proper_extends _ _ _ _ Hp) as Hx. pose proof (pr_good _ _ _ _ Hp) as Hg.
  assert (Hvs : vs <> []) by (pose proof (quorum_two replicas Hn); intros ->; change (1 = quorum) in Hq; lia).
  set (t1 := follow h parent (own_msg self replicas h) t).
  assert (Hp1 : t1.(t_prepare).(Header_View) < h.(Header_View)).
  { pose proof (follow_prepare t h parent (own_msg self replicas h) He). pose proof (pr_view _ _ _ _ Hp). unfold t1. lia. }
  assert (Hv1 : t1.(t_view) = h.(Header_View)) by by destruct (arrived_spec t parent _ He) as (? & _).
  pose proof (promoted_prepare h t1 Hp1) as Hp2.
  unfold collector_inputs. cbn [handle_all]. eapply returns_bind; [by apply collector_follows|intros []].
  eapply handle_all_app.
  { apply (votes_elect h t1); try done; [apply (pr_next _ _ _ _ Hp)|apply Hg|apply Hsd]. }
  apply handle_one, (led_sends (h.(Header_View) + 1)); try done; [split; [lia|done]|by apply (cert_of_accepted th); [|lia]| |].
  - apply promoted_expecting; [done..|]. apply follow_expecting; [done..|lia].
  - eapply same_fresh; [apply promoted_same|by apply follow_fresh].
Qed.
End Leading.
