(* ===== verification/Synchrony.v ===== *)
(** * All replicas in step

    What a synchronous network gives.  A run hands the replicas messages that
    others have sent them, and the leader data when it waits for some.  In a round
    the proposal of the leader goes to all, the votes of a quorum go to the next
    leader, and data lets it propose: the handlers return, the proposal is a good
    one again, and the round has finalized the block three before at every replica.
    The abstract replica of Rounds.v is what each replica refines; [stands] is the
    invariant of one, [round_of] that of all. *)

From Stdlib Require Import ZArith Lia.
From stdpp Require Import relations.
From S2P Require Import Prelude Wire Types Proto Codec Encoding Crypto Store Quorum Progress Consensus.
From S2P Require Import ConsensusFacts Handlers Replica Voting Instances CryptoSpec Safety Progression Agreement Pacemaker Rounds Leading.

Section Synchrony.
Context {DB : Type} `{KVStore DB} `{!KVLaws DB} `{Hasher} `{!HasherLaws} `{Verifier} (signer : Z -> Signer).
Context (th : Z) `{!VerifierLaws th} (replicas : list Z).
Implicit Types (c : consensus DB) (t : tracked).

Abbreviation pool := (gmap Z (consensus DB)).
Implicit Types (g : pool).

(** ** Deliveries *)

(** Replica [r] may be given [i]: its start, data, a tick of its clock, or a message
    that another has sent it. *)
Definition available g (r : Z) (i : input) : Prop :=
  match i with
  | IStart | ISend _ _ _ | ITick => True
  | IStep m => exists src c ids, src <> r /\ g !! src = Some c /\ mkMsgTo ids m ∈ c.(c_Progress).(Messages)
      /\ match ids with None => True | Some l => r ∈ l end
  end.

(** One of them is given it, when it is one of the inputs [may], and its handler
    returns. *)
Inductive delivery (may : input -> Prop) g : pool -> Prop :=
| deliver r i c c' : may i -> g !! r = Some c -> available g r i -> run signer r i c = (c', inl tt) -> delivery may g (<[r := c']> g).

(** Starts and clock ticks, and what is not: messages and data. *)
Definition silent_input (i : input) : Prop := match i with IStart | ITick => True | _ => False end.
Definition traffic (i : input) : Prop := match i with IStep _ | ISend _ _ _ => True | _ => False end.

(** What a replica has sent stays sent. *)
Definition has_sent g (r : Z) (m : MsgTo) : Prop := exists c, g !! r = Some c /\ m ∈ c.(c_Progress).(Messages).

Lemma sent_stays may g g' r m : rtc (delivery may) g g' -> has_sent g r m -> has_sent g' r m.
Proof.
  induction 1 as [g|g g1 g' [r' i c c' _ Hg _ Hrun] _ IH]; [done|]. intros (c0 & Hc0 & Hm). apply IH.
  destruct (decide (r' = r)) as [->|Hne]; [|exists c0; by rewrite lookup_insert_ne].
  exists c'. rewrite lookup_insert_eq. split; [done|]. rewrite Hg in Hc0. injection Hc0 as <-.
  pose proof (casts_handle (H1 := signer r) i c) as Hw. unfold wp in Hw. unfold run in Hrun. rewrite Hrun in Hw.
  destruct Hw as (new & -> & _). apply elem_of_app. by left.
Qed.

(** The inputs [l] at replica [r]. *)
Definition run_all (r : Z) (l : list input) : M (consensus DB) unit := handle_all (H2 := signer r) l.

Lemma available_other g r c i : available g r i -> available (<[r := c]> g) r i.
Proof.
  destruct i as [|m|s d x|]; [done| |done|done]. intros (src & cs & ids & Hne & Hg & Hrest). exists src, cs, ids.
  rewrite lookup_insert_ne by done. done.
Qed.

Lemma deliver_all (may : input -> Prop) r l : Forall may l -> forall g c c', g !! r = Some c -> Forall (available g r) l ->
  run_all r l c = (c', inl tt) -> rtc (delivery may) g (<[r := c']> g).
Proof.
  induction 1 as [|i l Hi' Hl' IH]; intros g c c' Hg Hl Hrun.
  - injection Hrun as <-. by rewrite insert_id.
  - apply list.Forall_cons_1 in Hl as [Hi Hl]. unfold run_all in Hrun. cbn [handle_all] in Hrun. unfold mbind, M_bind in Hrun.
    destruct (handle i c) as [c1 [[]|k]] eqn:E; [|done]. eapply rtc_l; [by eapply deliver|].
    rewrite <- (insert_insert_eq g r c' c1). eapply IH; [apply lookup_insert_eq| |exact Hrun].
    eapply list.Forall_impl; [exact Hl|]. intros. by apply available_other.
Qed.

(** The inputs [l] to each of [rs], available as long as nobody else moves. *)
Lemma deliver_each may l (Post : Z -> consensus DB -> Prop) rs : Forall may l -> forall g, NoDup rs ->
  (forall g' r, (forall r', r' ∉ rs -> g' !! r' = g !! r') -> r ∈ rs -> Forall (available g' r) l) ->
  (forall r, r ∈ rs -> exists c c', g !! r = Some c /\ run_all r l c = (c', inl tt) /\ Post r c') ->
  exists g', rtc (delivery may) g g' /\ (forall r, r ∈ rs -> exists c, g' !! r = Some c /\ Post r c)
    /\ forall r, r ∉ rs -> g' !! r = g !! r.
Proof.
  intros Hmay. induction rs as [|r rs IH]; intros g Hnd Hi Hrs.
  { exists g. split_and!; [done|intros r Hr; by apply elem_of_nil in Hr|done]. }
  apply list.NoDup_cons in Hnd as [Hr Hnd]. destruct (Hrs r) as (c & c' & Hc & Hrun & Hpost); [by left|].
  destruct (IH (<[r := c']> g)) as (g' & Hsteps & Hin & Hout); [done| | |].
  - intros g' r' Hg' Hr'. apply Hi; [|by right]. intros r2 Hr2. rewrite Hg' by (intros ?; apply Hr2; by right).
    apply lookup_insert_ne. intros ->. apply Hr2. left.
  - intros r' Hr'. rewrite lookup_insert_ne by (intros ->; done). apply Hrs. by right.
  - exists g'. split_and!.
    + etrans; [|exact Hsteps]. eapply deliver_all; [exact Hmay|exact Hc| |exact Hrun]. apply Hi; [done|by left].
    + intros r' [->|Hr']%list.elem_of_cons; [|by apply Hin]. exists c'. rewrite (Hout r Hr), lookup_insert_eq. done.
    + intros r' Hr'. rewrite Hout by (intros ?; apply Hr'; by right). apply lookup_insert_ne. intros ->. apply Hr'. left.
Qed.

(** ** Leaders *)

Lemma leader_in v r : leader_of replicas v = Ok r -> r ∈ replicas.
Proof.
  unfold leader_of. destruct (len replicas =? 0); [done|]. destruct (replicas !! _) eqn:E; [|done]. intros [= <-].
  by apply list_elem_of_lookup_2 in E.
Qed.

Lemma leaders_differ v r r' : NoDup replicas -> 2 <= len replicas -> leader_of replicas v = Ok r ->
  leader_of replicas (v + 1) = Ok r' -> r <> r'.
Proof.
  intros Hnd Hn. assert (Hne : replicas <> []) by (intros ->; unfold len in Hn; simpl in Hn; lia).
  unfold leader_of. rewrite (proj2 (Z.eqb_neq _ _)) by lia.
  destruct (replicas !! Z.to_nat (v mod len replicas)) as [x|] eqn:E1, (replicas !! Z.to_nat ((v + 1) mod len replicas)) as [x'|] eqn:E2; try done.
  intros [= ->] [= ->] ->. pose proof (NoDup_lookup _ _ _ _ Hnd E1 E2) as E.
  pose proof (Z.mod_pos_bound v (len replicas) ltac:(lia)). pose proof (Z.mod_pos_bound (v + 1) (len replicas) ltac:(lia)).
  apply Z2Nat.inj in E; [|lia..]. rewrite <- (Zplus_mod_idemp_l v) in E.
  destruct (decide (v mod len replicas + 1 = len replicas)) as [E'|E'].
  - rewrite E', Z_mod_same_full in E. lia.
  - rewrite (Z.mod_small (v mod len replicas + 1)) in E by lia. lia.
Qed.

(** ** One replica *)

(** The replica expects a block of view [v] on the first of [bs], which are linked;
    the blocks of [hs] are new to it, and all of [bs] but the last three are reported
    final. *)
Record stands (v0 v : Z) (bs hs : list Header) t : Prop := {
  sn_parent : exists parent rest, bs = parent :: rest /\ expecting t parent v /\ commit_bound v0 t parent;
  sn_linked : linked_back t bs;
  sn_fresh : Forall (t_fresh t) hs;
  sn_reported : reported v0 t (drop 3 bs);
}.

Lemma stands_expecting v0 v parent bs hs t : stands v0 v (parent :: bs) hs t -> expecting t parent v.
Proof. intros [(? & ? & [= <- <-] & ? & _) _ _ _]. done. Qed.

(** The blocks that [h] is linked to: none, when it was made after a timeout. *)
Definition behind (h parent : Header) (bs : list Header) : list Header :=
  if h.(Header_View) =? parent.(Header_View) + 1 then parent :: bs else [].

(** A good proposal is followed. *)
Lemma stands_follow v0 parent bs h hs t m : stands v0 h.(Header_View) (parent :: bs) (h :: hs) t -> extends h parent ->
  Forall (fun h' => Header_Hash h <> Header_Hash h') hs ->
  stands v0 (h.(Header_View) + 1) (canon h :: behind h parent bs) hs (follow h parent m t).
Proof.
  intros [(? & ? & [= <- <-] & He & Hb) Hl [Hf Hfs]%list.Forall_cons_1 Hr] Hx Hd.
  destruct (follow_commit v0 t h parent m He Hx Hb) as (Hb' & _). split.
  - exists (canon h), (behind h parent bs). split_and!; [done|apply follow_expecting; try done; lia|done].
  - unfold behind. destruct (_ =? _) eqn:E; zbool; [by apply follow_linked|done].
  - apply list.Forall_forall. intros h' Hin. rewrite list.Forall_forall in Hfs, Hd. apply follow_fresh; [apply Hx|by apply Hfs|by apply Hd].
  - unfold behind. destruct (_ =? _); [by apply follow_reported|constructor].
Qed.

(** Only the view and what was sent have changed. *)
Record same_ledger t t' : Prop := {
  sl_stored : t'.(t_stored) = t.(t_stored);
  sl_absent : t'.(t_absent) = t.(t_absent);
  sl_commit : t'.(t_commit) = t.(t_commit);
  sl_events : t'.(t_events) = t.(t_events);
}.
Lemma ledger_find k t t' : same_ledger t t' -> t_find k t' = t_find k t.
Proof. intros [E _ _ _]. unfold t_find. by rewrite E. Qed.
Lemma stands_ledger v0 v w parent bs hs t t' : same_ledger t t' -> expecting t' parent w ->
  stands v0 v (parent :: bs) hs t -> stands v0 w (parent :: bs) hs t'.
Proof.
  intros Hs He' [(? & ? & [= <- <-] & He & Hb) Hl Hf Hr]. split.
  - exists parent, bs. split_and!; [done..|]. unfold commit_bound in *. by rewrite (sl_commit _ _ Hs).
  - clear -Hl Hs. revert Hl. generalize parent. induction bs as [|g bs IH]; intros b Hl; [done|]. destruct Hl as (E & Ev & Hl).
    split_and!; [by rewrite (ledger_find _ _ _ Hs)|done|by apply IH].
  - eapply list.Forall_impl; [exact Hf|]. intros h. unfold t_fresh. by rewrite (sl_stored _ _ Hs), (sl_absent _ _ Hs).
  - unfold reported in *. by rewrite (sl_events _ _ Hs).
Qed.

(** A new leader stands where it stood. *)
Lemma stands_promoted v0 h bs hs t : stands v0 (h.(Header_View) + 1) (canon h :: bs) hs t -> good h -> (promote h t).(t_prepare) = h ->
  stands v0 (h.(Header_View) + 1) (canon h :: bs) hs (promote h t).
Proof.
  intros Hs Hg Hp. apply (stands_ledger _ (h.(Header_View) + 1) _ _ _ _ t); [|apply promoted_expecting; try done; by apply (stands_expecting _ _ _ _ _ _ Hs)|exact Hs].
  split; unfold promote, t_prepared; by destruct (_ <? _).
Qed.
Lemma stands_sent v0 v parent bs hs m t : stands v0 v (parent :: bs) hs t -> stands v0 v (parent :: bs) hs (t_sent m t).
Proof. intros Hs. apply (stands_ledger _ v _ _ _ _ t); [by split|apply sent_expecting; by apply (stands_expecting _ _ _ _ _ _ Hs)|exact Hs]. Qed.

(** ** All replicas *)

(** The database accepts writes, the replicas sign, and accept each other's
    signatures. *)
Record in_service : Prop := {
  is_writes : forall (db : DB) k v, is_Some (db_put db k v);
  is_signs : forall r msg, len msg = 32 -> exists sig, @Sign (signer r) [] msg = Ok sig;
  is_verifies : forall r msg sig, r ∈ replicas -> @Sign (signer r) [] msg = Ok sig -> Verify r msg sig = true;
  is_ids : forall r, r ∈ replicas -> is_u64 r;
  is_distinct : NoDup replicas;
  is_many : 2 <= len replicas;
  is_threshold : 1 <= th <= quorum_size (len replicas);
}.

Definition ballot (r : Z) (h : Header) : Vote := own_ballot (H2 := signer r) r h.
Definition vote_sent (r : Z) (h : Header) : MsgTo := own_msg (H2 := signer r) r replicas h.
Definition others (r : Z) : list Z := filter (fun r' => r' <> r) replicas.
(** The votes that elect [r]: its own and those of the first others. *)
Definition quorum_of (r : Z) : list Z := take (Z.to_nat (quorum_size (len replicas) - 1)) (others r).
Definition quorum_votes (r : Z) (h : Header) : list Vote := ballot r h :: ((fun r' => ballot r' h) <$> quorum_of r).

Lemma others_in r r' : r' ∈ others r <-> r' <> r /\ r' ∈ replicas.
Proof. unfold others. by rewrite list_elem_of_filter. Qed.
Lemma quorum_of_in r r' : r' ∈ quorum_of r -> r' <> r /\ r' ∈ replicas.
Proof. intros Hin. apply others_in. unfold quorum_of in Hin. apply elem_of_take in Hin as (i & Hi & _). by apply list_elem_of_lookup_2 in Hi. Qed.

Lemma filter_absent (r : Z) (l : list Z) : r ∉ l -> filter (fun r' => r' <> r) l = l.
Proof.
  induction l as [|x l IH]; intros Hr; [done|]. rewrite filter_cons_True by set_solver. f_equal. apply IH. set_solver.
Qed.
Lemma others_length r : NoDup replicas -> r ∈ replicas -> len (others r) = len replicas - 1.
Proof.
  intros Hnd [l Hl]%elem_of_Permutation. unfold others, len. rewrite Hl in *. apply list.NoDup_cons in Hnd as [Hr _].
  rewrite filter_cons_False by auto. rewrite filter_absent by done. simpl. lia.
Qed.

Lemma quorum_votes_count r h : in_service -> r ∈ replicas -> len (quorum_votes r h) = quorum_size (len replicas).
Proof.
  intros [] Hr. pose proof (others_length r is_distinct0 Hr) as Ho. pose proof (quorum_two replicas is_many0).
  assert (quorum_size (len replicas) <= len replicas).
  { unfold quorum_size. assert (2 * len replicas / 3 < len replicas) by (apply Z.div_lt_upper_bound; lia). lia. }
  unfold quorum_votes. rewrite len_cons. unfold quorum_of, len in *. rewrite length_fmap, length_take. lia.
Qed.

Lemma quorum_votes_ballots r h : in_service -> good h -> r ∈ replicas -> ballots h (quorum_votes r h).
Proof.
  intros [] Hg Hr. assert (Hall : forall r', r' ∈ r :: quorum_of r -> vote_for h (ballot r' h)).
  { intros r' Hin. assert (Hr' : r' ∈ replicas) by (apply list.elem_of_cons in Hin as [->|Hin]; [done|by apply quorum_of_in in Hin as [_ ?]]).
    destruct (hash_signs (H2 := signer r') (is_signs0 r') h Hg) as [sig Hs].
    assert (ballot r' h = own_vote_for r' h sig) as -> by (unfold ballot, own_ballot; by rewrite Hs).
    apply (own_vote_for_h (H2 := signer r')); auto. }
  change (quorum_votes r h) with ((fun r' => ballot r' h) <$> (r :: quorum_of r)). split.
  - apply list.Forall_forall. intros v (r' & -> & Hin)%list_elem_of_fmap. by apply Hall.
  - rewrite <- list_fmap_compose. change (NoDup (id <$> (r :: quorum_of r))). rewrite list_fmap_id. apply list.NoDup_cons. split.
    + intros Hin. by apply quorum_of_in in Hin as [? _].
    + unfold quorum_of. eapply sublist_NoDup; [|apply sublist_take]. by apply list.NoDup_filter.
Qed.

(** ** A round *)

(** The leader of [h] has proposed it to the others, and followed it itself. *)
Record round_of (v0 : Z) g (p : Proposal) (h parent : Header) (bs hs : list Header) (l : Z) : Prop := {
  ro_leader : leader_of replicas h.(Header_View) = Ok l;
  ro_proper : proper replicas p h parent;
  ro_ahead : exists c t, g !! l = Some c /\ tracks l replicas t c /\ stands v0 (h.(Header_View) + 1) (canon h :: behind h parent bs) hs t
    /\ proposal_msg p ∈ t.(t_msgs) /\ vote_sent l h ∈ t.(t_msgs);
  ro_rest : forall r, r ∈ replicas -> r <> l -> exists c t, g !! r = Some c /\ tracks r replicas t c
    /\ stands v0 h.(Header_View) (parent :: bs) (h :: hs) t;
}.

(** A replica that has followed [h] and sent its vote. *)
Definition followed (v0 : Z) (h parent : Header) (bs hs : list Header) (r : Z) c : Prop :=
  exists t, tracks r replicas t c /\ stands v0 (h.(Header_View) + 1) (canon h :: behind h parent bs) hs t /\ vote_sent r h ∈ t.(t_msgs).

Record payload : Type := mkPayload { pl_state : slice; pl_root : slice; pl_data : Data }.
Definition next_of (h : Header) (x : payload) : Header := next_header h x.(pl_state) x.(pl_root).
(** What [l] proposes when it has been elected with the votes for [h]. *)
Definition next_proposal (l : Z) (h : Header) (x : payload) : Proposal :=
  next_on (H2 := signer l) h (cert_of h (quorum_votes l h)) x.(pl_state) x.(pl_root) x.(pl_data).
Definition can_send (l : Z) (h : Header) (x : payload) : Prop :=
  sendable (h.(Header_View) + 1) h (cert_of h (quorum_votes l h)) x.(pl_state) x.(pl_root) x.(pl_data).

Lemma behind_next h x bs : behind (next_of h x) (canon h) bs = canon h :: bs.
Proof. unfold behind. rewrite canon_view. simpl. by rewrite Z.eqb_refl. Qed.

Lemma follow_msgs v0 parent bs h hs t m : stands v0 h.(Header_View) (parent :: bs) (h :: hs) t -> extends h parent ->
  (follow h parent m t).(t_msgs) = m :: t.(t_msgs).
Proof.
  intros [(? & ? & [= <- <-] & He & Hb) _ _ _] Hx. by destruct (follow_commit v0 t h parent m He Hx Hb) as (_ & _ & -> & _).
Qed.

(** The proposal at a replica that does not collect. *)
Lemma replica_follows v0 p h parent bs hs r t c : in_service -> r ∈ replicas -> proper replicas p h parent ->
  tracks r replicas t c -> stands v0 h.(Header_View) (parent :: bs) (h :: hs) t -> Forall (fun h' => Header_Hash h <> Header_Hash h') hs ->
  exists c', run_all r [proposal_input (p, h)] c = (c', inl tt) /\ followed v0 h parent bs hs r c'.
Proof.
  intros [] Hr Hp Ht Hs Hd. pose proof (proper_extends _ _ _ _ Hp) as Hx.
  pose proof (steps_proposal (H2 := signer r) th is_writes0 (is_signs0 r) r (is_ids0 r Hr) replicas is_many0 t p h parent) as Hst.
  specialize (Hst (stands_expecting _ _ _ _ _ _ Hs)).
  assert (Hfr : t_fresh t h) by by destruct (list.Forall_cons_1 _ _ _ (sn_fresh _ _ _ _ _ Hs)).
  specialize (Hst Hfr Hp). change (IStep (NewProposalMsg p)) with (proposal_input (p, h)) in Hst.
  apply (handle_one (H2 := signer r)) in Hst. specialize (Hst c Ht). unfold wp in Hst. unfold run_all.
  destruct (handle_all _ c) as [c' [[]|k]]; [|done]. exists c'. split; [done|].
  exists (follow h parent (vote_sent r h) t). split_and!; [exact Hst|by apply stands_follow|].
  rewrite (follow_msgs v0 parent bs h hs) by done. left.
Qed.

Lemma hash_new h hs : Header_Hash h ∉ (Header_Hash <$> hs) -> Forall (fun h' => Header_Hash h <> Header_Hash h') hs.
Proof. intros Hn. apply list.Forall_forall. intros h' Hin E. apply Hn. rewrite E. by apply list_elem_of_fmap_2. Qed.

Lemma next_proposal_proper l h x : in_service -> good h -> leader_of replicas (h.(Header_View) + 1) = Ok l -> can_send l h x ->
  proper replicas (next_proposal l h x) (next_of h x) (canon h).
Proof.
  intros Hin Hg Hl Hsd. pose proof (leader_in _ _ Hl) as Hr. pose proof (quorum_votes_count l h Hin Hr) as Hq.
  pose proof (quorum_votes_ballots l h Hin Hg Hr) as Hb. destruct Hin.
  apply (proposal_on_proper (H2 := signer l) (is_signs0 l) l); try done; [by intros ? ?; apply is_verifies0|split; [lia|done]|].
  apply (cert_of_accepted th); [done|lia].
Qed.

(** The collector's part, from the proposal to its own. *)
Lemma collector_leads v0 p h parent bs hs x l t c : in_service -> l ∈ replicas -> proper replicas p h parent ->
  leader_of replicas (h.(Header_View) + 1) = Ok l -> can_send l h x ->
  tracks l replicas t c -> stands v0 h.(Header_View) (parent :: bs) (h :: next_of h x :: hs) t ->
  NoDup (Header_Hash <$> h :: next_of h x :: hs) ->
  exists c' t', run_all l (collector_inputs p h ((fun r => ballot r h) <$> quorum_of l) x.(pl_state) x.(pl_root) x.(pl_data)) c = (c', inl tt)
    /\ tracks l replicas t' c' /\ stands v0 ((next_of h x).(Header_View) + 1) (canon (next_of h x) :: canon h :: behind h parent bs) hs t'
    /\ proposal_msg (next_proposal l h x) ∈ t'.(t_msgs) /\ vote_sent l (next_of h x) ∈ t'.(t_msgs).
Proof.
  intros Hin Hl Hp Hld Hsd Ht Hs Hd. pose proof (quorum_votes_count l h Hin Hl) as Hq. pose proof (pr_good _ _ _ _ Hp) as Hg.
  pose proof (quorum_votes_ballots l h Hin Hg Hl) as Hb. pose proof (next_proposal_proper l h x Hin Hg Hld Hsd) as Hpr. destruct Hin. pose proof (proper_extends _ _ _ _ Hp) as Hx.
  rewrite !fmap_cons, !list.NoDup_cons in Hd. destruct Hd as (Hd & Hd' & _).
  pose proof (sn_fresh _ _ _ _ _ Hs) as Hf. apply list.Forall_cons_1 in Hf as [Hf [Hf' _]%list.Forall_cons_1].
  set (t1 := follow h parent (vote_sent l h) t).
  assert (Hs1 : stands v0 (h.(Header_View) + 1) (canon h :: behind h parent bs) (next_of h x :: hs) t1).
  { apply stands_follow; [done..|]. by apply hash_new. }
  assert (Hp1 : t1.(t_prepare).(Header_View) < h.(Header_View)).
  { pose proof (follow_prepare t h parent (vote_sent l h) (stands_expecting _ _ _ _ _ _ Hs)). pose proof (pr_view _ _ _ _ Hp). unfold t1. lia. }
  assert (Hne : Header_Hash h <> Header_Hash (next_of h x)) by (intros E; apply Hd; rewrite E; left).
  pose proof (collector_round (H2 := signer l) th is_writes0 (is_signs0 l) l (is_ids0 l Hl) replicas is_many0
    (fun msg sig => is_verifies0 l msg sig Hl) is_threshold0 t p h parent ((fun r => ballot r h) <$> quorum_of l) x.(pl_state) x.(pl_root) x.(pl_data)
    (stands_expecting _ _ _ _ _ _ Hs) Hf Hp Hld Hb Hq Hsd Hf' Hne c Ht) as Hst.
  unfold wp in Hst. unfold run_all. destruct (handle_all _ c) as [c' [[]|k]]; [|done].
  set (t2 := t_sent (proposal_msg (next_proposal l h x)) (promote h t1)).
  assert (Hs2 : stands v0 (next_of h x).(Header_View) (canon h :: behind h parent bs) (next_of h x :: hs) t2)
    by (apply stands_sent, stands_promoted; [done..|by apply promoted_prepare]).
  exists c', (follow (next_of h x) (canon h) (vote_sent l (next_of h x)) t2). split_and!; [done|exact Hst|..].
  - rewrite <- (behind_next h x). apply stands_follow; [done|by eapply proper_extends|by apply hash_new].
  - rewrite (follow_msgs v0 (canon h) (behind h parent bs) _ hs) by (done || by eapply proper_extends). right. left.
  - rewrite (follow_msgs v0 (canon h) (behind h parent bs) _ hs) by (done || by eapply proper_extends). left.
Qed.

Lemma vote_sent_ballot r h l : leader_of replicas (wrap64 (h.(Header_View) + 1)) = Ok l ->
  vote_sent r h = mkMsgTo (Some [l]) (NewVoteMsg (ballot r h)).
Proof. intros Hl. unfold vote_sent, own_msg. by rewrite Hl. Qed.

(** What the collector is given is there to be delivered. *)
Lemma collector_available g p h l l' cl x : l <> l' -> g !! l = Some cl ->
  leader_of replicas (wrap64 (h.(Header_View) + 1)) = Ok l' ->
  proposal_msg p ∈ cl.(c_Progress).(Messages) ->
  (forall r, r ∈ quorum_of l' -> exists c, g !! r = Some c /\ vote_sent r h ∈ c.(c_Progress).(Messages)) ->
  Forall (available g l') (collector_inputs p h ((fun r => ballot r h) <$> quorum_of l') x.(pl_state) x.(pl_root) x.(pl_data)).
Proof.
  intros Hne Hg Hl Hp Hv. unfold collector_inputs. apply list.Forall_cons_2; [by exists l, cl, None|].
  apply Forall_app. split; [|by repeat constructor]. apply list.Forall_forall. intros i (v & -> & (r & -> & Hr)%list_elem_of_fmap)%list_elem_of_fmap.
  destruct (Hv r Hr) as (c & Hc & Hm). rewrite (vote_sent_ballot r h l' Hl) in Hm. apply quorum_of_in in Hr as [Hr _].
  exists r, c, (Some [l']). split_and!; [done..|by left].
Qed.

Lemma collector_traffic p h vs s root d : Forall traffic (collector_inputs p h vs s root d).
Proof.
  unfold collector_inputs. apply list.Forall_cons_2; [exact I|]. apply Forall_app. split; [|by repeat constructor].
  apply list.Forall_forall. by intros i (v & -> & _)%list_elem_of_fmap.
Qed.

(** The leader of [b] has sent [p] to all, which proposes [b] on a block that it shows
    to be certified. *)
Record proposed g (p : Proposal) (b : Header) : Prop := {
  po_sent : exists l, leader_of replicas b.(Header_View) = Ok l /\ has_sent g l (proposal_msg p);
  po_header : p.(Proposal_Header) = Some b;
  po_cert : exists cert, p.(Proposal_ParentCert) = Some cert /\ sbytes cert.(Certificate_Block) = sbytes b.(Header_Parent)
    /\ VerifyAggregated (sbytes b.(Header_Parent)) cert.(Certificate_Sig) = Ok true;
}.

Lemma round_proposed v0 g p h parent bs hs l : round_of v0 g p h parent bs hs l -> proposed g p h.
Proof.
  intros [Hl Hp (c & t & Hg & Ht & _ & Hm & _) _]. split; [|by apply Hp|].
  - exists l. split; [done|]. exists c. split; [done|]. by apply (tr_msgs _ _ _ _ Ht).
  - destruct (pr_cert _ _ _ _ Hp) as (cert & Ec & _ & Eb & Hv). by exists cert.
Qed.
Lemma proposed_stays may g g' p b : rtc (delivery may) g g' -> proposed g p b -> proposed g' p b.
Proof. intros Hs [(l & Hl & Hm) Hh Hc]. split; [|done..]. exists l. split; [done|]. by eapply sent_stays. Qed.

Lemma a_round v0 g p h parent bs hs x l l' : in_service -> round_of v0 g p h parent bs (next_of h x :: hs) l ->
  leader_of replicas (h.(Header_View) + 1) = Ok l' -> can_send l' h x -> NoDup (Header_Hash <$> h :: next_of h x :: hs) ->
  exists g', rtc (delivery traffic) g g' /\ round_of v0 g' (next_proposal l' h x) (next_of h x) (canon h) (behind h parent bs) hs l'.
Proof.
  intros Hin [Hl Hp (cl & tl & Hgl & Htl & Hsl & Hpl & Hvl) Hrest] Hl' Hsd Hnd. pose proof (pr_good _ _ _ _ Hp) as Hg.
  assert (Hne : l <> l') by (eapply leaders_differ; [apply Hin|apply Hin|done..]).
  assert (Hlw : leader_of replicas (wrap64 (h.(Header_View) + 1)) = Ok l') by (rewrite wrap64_small; [done|apply (pr_next _ _ _ _ Hp)]).
  assert (Hd : Forall (fun h' => Header_Hash h <> Header_Hash h') (next_of h x :: hs)).
  { apply hash_new. rewrite fmap_cons in Hnd. by apply list.NoDup_cons in Hnd as [? _]. }
  set (rs := filter (fun r => r <> l') (others l)).
  assert (Hrs : forall r, r ∈ rs <-> r <> l' /\ r <> l /\ r ∈ replicas) by (intros r; unfold rs; by rewrite list_elem_of_filter, others_in).
  destruct (deliver_each traffic [proposal_input (p, h)] (followed v0 h parent bs (next_of h x :: hs)) rs) with (g := g) as (g1 & Hsteps & Hfol & Hout).
  { by repeat constructor. }
  { apply list.NoDup_filter, list.NoDup_filter, Hin. }
  { intros g' r Hg' (_ & Hr & _)%Hrs. repeat constructor. exists l, cl, None.
    split_and!; [done|rewrite Hg' by (rewrite Hrs; tauto); done|by apply (tr_msgs _ _ _ _ Htl)|done]. }
  { intros r (Hr' & Hrl & Hr)%Hrs. destruct (Hrest r Hr Hrl) as (c & t & Hc & Ht & Hs).
    destruct (replica_follows v0 p h parent bs (next_of h x :: hs) r t c) as (c' & Hrun & Hf); try done. by exists c, c'. }
  destruct (Hrest l' (leader_in _ _ Hl') ltac:(done)) as (c & t & Hc & Ht & Hs).
  destruct (collector_leads v0 p h parent bs hs x l' t c) as (c' & t' & Hrun & Ht' & Hs' & Hp' & Hv'); try done.
  { by eapply leader_in. }
  assert (Hg1l : g1 !! l = Some cl) by (rewrite Hout by (rewrite Hrs; tauto); done).
  assert (Hg1l' : g1 !! l' = Some c) by (rewrite Hout by (rewrite Hrs; tauto); done).
  exists (<[l' := c']> g1). split.
  - etrans; [exact Hsteps|]. eapply deliver_all; [apply collector_traffic|exact Hg1l'| |exact Hrun].
    apply (collector_available g1 p h l l' cl); try done; [by apply (tr_msgs _ _ _ _ Htl)|].
    intros r [Hr' Hr]%quorum_of_in. destruct (decide (r = l)) as [->|Hrl].
    + exists cl. split; [done|]. by apply (tr_msgs _ _ _ _ Htl).
    + destruct (Hfol r) as (c1 & Hc1 & t1 & Ht1 & _ & Hv1); [by apply Hrs|]. exists c1. split; [done|]. by apply (tr_msgs _ _ _ _ Ht1).
  - split; [done|by apply next_proposal_proper| |].
    + exists c', t'. rewrite lookup_insert_eq, behind_next. done.
    + intros r Hr Hrl'. rewrite lookup_insert_ne by done. destruct (decide (r = l)) as [->|Hrl]; [by exists cl, tl|].
      destruct (Hfol r) as (c1 & Hc1 & t1 & Ht1 & Hs1 & _); [by apply Hrs|]. by exists c1, t1.
Qed.

(** ** Many rounds *)

(** The blocks that the leaders make of the data [xs], after [h]. *)
Fixpoint future (h : Header) (xs : list payload) : list Header :=
  match xs with [] => [] | x :: xs => next_of h x :: future (next_of h x) xs end.
Fixpoint can_run (h : Header) (xs : list payload) : Prop :=
  match xs with
  | [] => True
  | x :: xs => (forall l, leader_of replicas (h.(Header_View) + 1) = Ok l -> can_send l h x) /\ can_run (next_of h x) xs
  end.

Lemma many_rounds v0 xs : in_service -> forall g p h parent bs l, round_of v0 g p h parent bs (future h xs) l ->
  can_run h xs -> NoDup (Header_Hash <$> h :: future h xs) ->
  exists g' p' h' parent' bs' l', rtc (delivery traffic) g g' /\ round_of v0 g' p' h' parent' bs' [] l'
    /\ (forall b, b ∈ future h xs -> exists q, proposed g' q b /\ q.(Proposal_Timeout) = None)
    /\ canon h' :: behind h' parent' bs' = reverse (canon <$> h :: future h xs) ++ behind h parent bs.
Proof.
  intros Hin. induction xs as [|x xs IH]; intros g p h parent bs l Hr Hc Hd.
  { exists g, p, h, parent, bs, l. split_and!; [done..| |done]. intros b Hb. by apply elem_of_nil in Hb. }
  destruct Hc as [Hx Hc]. destruct (leader_ok replicas (is_many Hin) (h.(Header_View) + 1)) as [l' Hl'].
  destruct (a_round v0 g p h parent bs (future (next_of h x) xs) x l l') as (g1 & Hs1 & Hr1); [done..|by apply Hx|done|].
  destruct (IH g1 _ _ _ _ _ Hr1 Hc) as (g' & p' & h' & parent' & bs' & l2 & Hs2 & Hr2 & Hq & E).
  { rewrite fmap_cons in Hd. by apply list.NoDup_cons in Hd as [_ ?]. }
  exists g', p', h', parent', bs', l2. split_and!; [by etrans|done| |].
  { intros b [->|Hb]%list.elem_of_cons; [|by apply Hq]. exists (next_proposal l' h x). split; [|done].
    eapply proposed_stays; [exact Hs2|]. by eapply round_proposed. }
  rewrite E, behind_next. cbn [future].
  change (canon <$> h :: next_of h x :: future (next_of h x) xs) with (canon h :: (canon <$> next_of h x :: future (next_of h x) xs)).
  by rewrite (reverse_cons _ (canon h)), <- app_assoc.
Qed.

(** What a round leaves behind is final at all replicas, but for the last blocks. *)
Lemma round_reported v0 g p h parent bs hs l r : round_of v0 g p h parent bs hs l -> r ∈ replicas ->
  exists c, g !! r = Some c /\ forall b, b ∈ drop 4 (canon h :: behind h parent bs) -> v0 < b.(Header_View) -> mkBlockEvent b true ∈ c.(c_Progress).(Events).
Proof.
  intros [_ _ (cl & tl & Hgl & Htl & Hsl & _) Hrest] Hr. destruct (decide (r = l)) as [->|Hrl].
  - exists cl. split; [done|]. intros b Hb Hv. apply (tr_events _ _ _ _ Htl). pose proof (sn_reported _ _ _ _ _ Hsl) as Hrep.
    unfold reported in Hrep. rewrite list.Forall_forall in Hrep. apply Hrep; [|done]. clear -Hb. revert Hb. generalize (behind h parent bs).
    intros [|x [|y [|z bs']]] Hb; simpl in *; [by apply elem_of_nil in Hb..|by right].
  - destruct (Hrest r Hr Hrl) as (c & t & Hc & Ht & Hs). exists c. split; [done|]. intros b Hb Hv. apply (tr_events _ _ _ _ Ht).
    pose proof (sn_reported _ _ _ _ _ Hs) as Hrep. unfold reported in Hrep. rewrite list.Forall_forall in Hrep. apply Hrep; [|done].
    unfold behind in Hb. destruct (_ =? _); [exact Hb|by apply elem_of_nil in Hb].
Qed.
End Synchrony.
