(* ===== verification/ViewChange.v ===== *)
(** * Views without a block

    What a replica does when a view passes in silence: its clock ticks as often as
    [resetTimeout] allows, it moves on and sends a new-view to the leader it moves
    to.  A leader that has collected the new-views of a quorum holds a timeout
    certificate, waits for data, and proposes as in Leading.v.

    The timeout doubles with every such view.  At most 62 can pass: the timeout of
    the next is no longer positive, and the clock never meets it (Pacemaker.v). *)

From Stdlib Require Import ZArith Lia.
From S2P Require Import Prelude Wire Types Proto Codec Encoding Crypto Store Quorum Progress Consensus.
From S2P Require Import ConsensusFacts Handlers Replica Safety Pacemaker Progression Rounds Leading Synchrony.

Section Silence.
Context {DB : Type} `{KVStore DB} `{!KVLaws DB} `{Hasher} `{!HasherLaws} `{Signer} `{Verifier}.
Context (th : Z) `{!VerifierLaws th}.
Context (Hput : forall (db : DB) k v, is_Some (db_put db k v)) (Hsign : forall msg, len msg = 32 -> exists sig, Sign [] msg = Ok sig).
Context (self : Z) (Hself : is_u64 self) (replicas : list Z) (Hn : 2 <= len replicas) (Hnd : NoDup replicas).
Context (Hown : forall msg sig, Sign [] msg = Ok sig -> Verify self msg sig = true) (Hth : 1 <= th <= quorum_size (len replicas)).
(** The last block with a certificate. *)
Context (h0 : Header) (cert : Certificate) (Hcert : sbytes cert.(Certificate_Block) = Header_Hash h0).
Implicit Types (c : consensus DB) (t : tracked) (T : Timeouts).

Abbreviation tracks := (tracks self replicas).
Abbreviation quorum := (quorum_size (len replicas)).
Abbreviation leads := (leads self replicas).

(** ** New-views *)

(** The collector after the new-views [ns] for the view [v]. *)
Definition newview_sig (n : NewView) : Z * slice := (n.(NewView_Voter), n.(NewView_Sig)).
Definition timeout_cert (v : Z) (ns : list NewView) : TimeoutCertificate := mkTimeoutCertificate v (tallied (newview_sig <$> ns)).
Definition timeouts_of (v : Z) (ns : list NewView) : Timeouts :=
  mkTimeouts v quorum (list_to_set (newview_sig <$> ns).*1) (Some (timeout_cert v ns)).

Record newview_for (v : Z) (n : NewView) : Prop := {
  nf_voter : is_u64 n.(NewView_Voter);
  nf_view : n.(NewView_View) = v;
  nf_cert : n.(NewView_Cert) = Some cert;
  nf_sig : Verify n.(NewView_Voter) (timeout_digest v) (sbytes n.(NewView_Sig)) = true;
}.
Definition newviews (v : Z) (ns : list NewView) : Prop := Forall (newview_for v) ns /\ NoDup (NewView_Voter <$> ns).

Lemma newviews_signed v ns : newviews v ns -> signed (timeout_digest v) (newview_sig <$> ns).
Proof.
  intros [Hf Hd]. split; [|by rewrite <- list_fmap_compose]. apply Forall_fmap. eapply list.Forall_impl; [exact Hf|]. by intros n [].
Qed.
Lemma newviews_snoc v ns n : newviews v (ns ++ [n]) -> newviews v ns /\ newview_for v n.
Proof.
  unfold newviews. rewrite fmap_app, list.NoDup_app, Forall_app. by intros [[Hf [Hv _]%list.Forall_cons_1] (Hd & _)].
Qed.

Lemma gather_next v ns n : v <> 0 -> newviews v (ns ++ [n]) ->
  Timeouts_Collect (timeouts_of v ns) n = Ok (timeouts_of v (ns ++ [n]), quorum <=? len (ns ++ [n])).
Proof.
  intros Hv0 Hb. assert (E : newview_sig <$> ns ++ [n] = (newview_sig <$> ns) ++ [newview_sig n]) by exact (fmap_app newview_sig ns [n]).
  pose proof (newviews_signed _ _ Hb) as Hs. rewrite E in Hs. apply newviews_snoc in Hb as [_ [_ Hv _ _]].
  pose proof (tallied_next th _ _ _ Hs) as Hm. destruct (signed_snoc _ _ _ Hs) as (_ & _ & Hvf & Hnew).
  unfold Timeouts_Collect, timeouts_of, timeout_cert.
  cbn [Timeouts_view Timeouts_majority Timeouts_received Timeouts_Cert TimeoutCertificate_View TimeoutCertificate_Sig].
  rewrite (proj2 (Z.eqb_neq _ _)) by done. rewrite Hv, Z.eqb_refl. cbn [negb].
  rewrite bool_decide_eq_false_2 by (by rewrite elem_of_list_to_set). simpl in Hvf, Hm. rewrite Hvf. cbn [negb deref mbind res_bind TimeoutCertificate_View TimeoutCertificate_Sig].
  rewrite (tally_set (newview_sig <$> ns) (newview_sig n)). rewrite Hm, E. cbn [mbind res_bind mret res_ret].
  do 2 f_equal. rewrite tally_count by apply Hs. unfold len. by rewrite !length_app, length_fmap.
Qed.

Lemma digest_signs v : exists sig, Sign [] (timeout_digest v) = Ok sig.
Proof. apply Hsign. unfold timeout_digest, HashSum, len. by rewrite blake2s256_length. Qed.

Definition own_newview (v : Z) : NewView :=
  mkNewView v self (Some (match Sign [] (timeout_digest v) with Ok s => s | _ => [] end)) (Some cert).
(** The message that says that the view [v] is over. *)
Definition newview_msg (v : Z) : MsgTo :=
  mkMsgTo (Some [match leader_of replicas (v + 1) with Ok r => r | _ => 0 end]) (NewViewMsg (own_newview v)).

Lemma own_newview_for v : newview_for v (own_newview v).
Proof. destruct (digest_signs v) as [sig E]. split; try done. simpl. rewrite E. by apply Hown. Qed.

(** ** The clock *)

(** What the abstract replica of Rounds.v leaves out. *)
Definition pace c : Z * Z * tcptr * Certificate * Timeouts :=
  (c.(c_ticks), c.(c_timeout), c.(c_timeoutCert), c.(c_prepareCert), c.(c_timeouts)).

(** In a view without a timeout certificate. *)
Definition paced (k d : Z) t T c : Prop := tracks t c /\ pace c = (k, d, TcNil, cert, T).
Definition idle t T c : Prop := paced 0 (timeout_for (wrap64 (t.(t_view) - h0.(Header_View)))) t T c.

(** The collector is empty when it is the next view that this replica leads. *)
Definition stationed (v : Z) T : Prop := T.(Timeouts_majority) = quorum /\ (leads (v + 1) -> T = timeouts_of v []).

(** The end of [nextRound]. *)
Definition settle (step : Message -> M (consensus DB) unit) (timedout : bool) (view : Z) : M (consensus DB) unit :=
  voted ← gets c_voted;
  if timedout && (voted <? wrap64 (view - 1)) then sendNewView step
  else leader ← getLeader view; when (self =? leader) waitForData.

Lemma paced_timeouts k d t T T' c : paced k d t T c -> paced k d t T' (set_timeouts T' c).
Proof.
  intros [Hc E]. injection E as E1 E2 E3 E4 E5. split; [|unfold pace; simpl; congruence].
  destruct Hc. split; try done. rewrite load_unshared by by rewrite E3. done.
Qed.
Lemma paced_reset k d t T c : paced k d t T c -> resetTimeouts c = set_timeouts (Timeouts_Reset T) c.
Proof. intros [_ E]. injection E as E1 E2 E3 E4 E5. unfold resetTimeouts. by rewrite E3, E5. Qed.

Lemma returns_entered step b t T k d J : is_u64 (t.(t_view) - 1) -> is_u64 (t.(t_view) + 1) -> t.(t_view) <> 0 ->
  t.(t_prepare) = h0 -> T.(Timeouts_majority) = quorum ->
  (forall T', stationed t.(t_view) T' -> (~ leads (t.(t_view) - 1) -> ~ leads (t.(t_view) + 1) -> T' = T) ->
    returns (idle (t_enter t.(t_view) t) T') (settle step b t.(t_view)) J) ->
  returns (paced k d t T) (nextRound step b) J.
Proof.
  intros Hu1 Hu2 Hv0 Hp HT HJ c [Hc E]. set (v := t.(t_view)) in *. set (t' := t_enter v t).
  unfold nextRound, resetTimeout, releaseTimeoutCert. apply wp_bind, wp_modify, wp_bind, wp_modify, wp_bind, wp_modify, wp_bind, wp_modify.
  set (c1 := set_votes _ _).
  assert (Hi : idle t' T c1).
  { injection E as E1 E2 E3 E4 E5. split; [destruct Hc; by split|]. unfold pace. simpl. rewrite E3, E4, E5. rewrite newTimeout_for. simpl.
    by rewrite (tr_view _ _ _ _ Hc), (tr_prepare _ _ _ _ Hc), Hp. }
  clearbody c1. assert (E0 : load_timeoutCert c1 = None) by (destruct Hi as [_ E']; injection E' as _ _ E' _ _; unfold load_timeoutCert; by rewrite E').
  rewrite E0. clear Hc E E0. clear c. revert c1 Hi. intros c Hi.
  apply wp_bind, wp_gets, wp_bind, wp_gets. rewrite (tr_id _ _ _ _ (proj1 Hi)), (tr_view _ _ _ _ (proj1 Hi)).
  change (t_view t') with v. fold (settle step b v). rewrite !(wrap64_small (v - 1)), !(wrap64_small (v + 1)) by done.
  apply wp_bind. unfold wp at 1, getLeader at 1, liftr. rewrite (tr_replicas _ _ _ _ (proj1 Hi)).
  destruct (leader_ok replicas Hn (v - 1)) as [prev Eprev]. rewrite Eprev. apply wp_bind.
  assert (Hnext : forall T1 c, T1.(Timeouts_majority) = quorum -> (~ leads (v - 1) -> T1 = T) -> idle t' T1 c ->
    wp (next ← getLeader (v + 1); when (self =? next) (modify resetTimeouts ;; startTimeouts) ;; settle step b v) J (fun _ => False) c).
  { clear c Hi. intros T1 c HT1 HT1' Hi. apply wp_bind. unfold wp at 1, getLeader, liftr. rewrite (tr_replicas _ _ _ _ (proj1 Hi)).
    destruct (leader_ok replicas Hn (v + 1)) as [next Enext]. rewrite Enext. apply wp_bind, wp_when.
    - intros En. zbool. subst next. apply wp_bind, wp_modify. rewrite (paced_reset _ _ _ _ _ Hi).
      unfold wp at 1, startTimeouts, Timeouts_Start. simpl. rewrite (tr_view _ _ _ _ (proj1 Hi)). change (t_view t') with v.
      set (T2 := mkTimeouts _ _ _ _). assert (ET2 : T2 = timeouts_of v []) by (unfold T2, timeouts_of; by rewrite HT1).
      apply (HJ T2); [by split; [simpl; by rewrite <- HT1|]|by intros _ []|].
      by apply (paced_timeouts _ _ _ (Timeouts_Reset T1)), (paced_timeouts _ _ _ T1).
    - intros En. zbool. assert (Hnl : ~ leads (v + 1)) by (unfold Leading.leads; rewrite Enext; intros [= ->]; done).
      apply (HJ T1); [by split; [done|intros ?]|by intros ? _; apply HT1'|done]. }
  apply wp_when; intros En; zbool.
  - subst prev. apply wp_modify. rewrite (paced_reset _ _ _ _ _ Hi). apply (Hnext (Timeouts_Reset T)); [done|by intros []|by eapply paced_timeouts].
  - by apply (Hnext T).
Qed.

(** ** New-views arrive *)

(** The prepared block is stored. *)
Definition rests t : Prop := t.(t_prepare) = h0 /\ t_find (Header_Hash h0) t = Some h0.

Lemma returns_newview step k d t T T' n b K : rests t -> leads (wrap64 (n.(NewView_View) + 1)) -> n.(NewView_Cert) = Some cert ->
  Timeouts_Collect T n = Ok (T', b) ->
  returns (paced k d t T') (when b (view ← gets c_view; modify (set_timeoutCert TcTimeouts) ;; prepare ← gets c_prepare;
     syncView step prepare T'.(Timeouts_Cert) ;; if view =? n.(NewView_View) then nextRound step false else waitForData)) (fun _ => K) ->
  returns (paced k d t T) (onNewView step n) (fun _ => K).
Proof.
  intros [Hp Hf] Hl Ec Eb HK c [Hc E]. unfold onNewView. apply wp_bind, wp_gets, wp_bind.
  unfold wp at 1, getLeader, liftr. rewrite (tr_replicas _ _ _ _ Hc), Hl, (tr_id _ _ _ _ Hc), Z.eqb_refl. cbn [when].
  rewrite Ec. apply wp_bind. unfold wp at 1, liftr. cbn [deref]. apply wp_bind. unfold wp at 1, getHeader.
  destruct (t_find_stored self replicas _ _ _ _ Hc Hf) as [_ Eg]. rewrite Hcert, Eg. unfold updatePrepare.
  apply wp_bind, wp_bind, wp_gets. rewrite (tr_prepare _ _ _ _ Hc), Hp, Z.ltb_irrefl. cbn [when]. apply wp_skip.
  apply wp_bind, wp_gets. assert (ET : c.(c_timeouts) = T) by (injection E as _ _ _ _ E; exact E). rewrite ET.
  apply wp_bind. unfold wp at 1, liftr. rewrite Eb. apply wp_bind, wp_modify. apply HK. by eapply paced_timeouts.
Qed.

(** One that is not the last of a quorum. *)
Lemma newview_counted step k d t v ns n : rests t -> v <> 0 -> is_u64 (v + 1) -> leads (v + 1) -> newviews v (ns ++ [n]) -> len (ns ++ [n]) < quorum ->
  returns (paced k d t (timeouts_of v ns)) (onNewView step n) (fun _ => paced k d t (timeouts_of v (ns ++ [n]))).
Proof.
  intros Hr Hv Hu Hl Hb Hq. pose proof (gather_next v ns n Hv Hb) as E. apply newviews_snoc in Hb as [_ [_ Ev Ec _]].
  eapply returns_newview; [done|by rewrite Ev, wrap64_small|done|exact E|]. rewrite (proj2 (Z.leb_gt _ _)) by done.
  intros c Hc. by apply wp_skip.
Qed.

(** The last one. *)
Lemma newview_elects step k d t v ns n : rests t -> v <> 0 -> t.(t_view) = v + 1 -> is_u64 (v + 1) -> leads (v + 1) ->
  newviews v (ns ++ [n]) -> quorum <= len (ns ++ [n]) ->
  returns (paced k d t (timeouts_of v ns)) (onNewView step n) (fun _ => led self replicas cert (Some (timeout_cert v (ns ++ [n]))) t).
Proof.
  intros Hr Hv Ht Hu Hl Hb Hq. pose proof (gather_next v ns n Hv Hb) as E. apply newviews_snoc in Hb as [_ [_ Ev Ec _]].
  eapply returns_newview; [done|by rewrite Ev, wrap64_small|done|exact E|]. rewrite (proj2 (Z.leb_le _ _)) by done. cbn [when].
  intros c [Hc Hpc]. injection Hpc as _ _ E3 E4 E5. apply wp_bind, wp_gets, wp_bind, wp_modify, wp_bind, wp_gets.
  set (c1 := set_timeoutCert TcTimeouts c).
  assert (El : load_timeoutCert c1 = Some (timeout_cert v (ns ++ [n]))) by (unfold load_timeoutCert; simpl; by rewrite E5).
  assert (Hc1 : tracks t c1).
  { destruct Hc. split; try done. rewrite El. intros tc [= <-]. simpl. lia. }
  apply wp_bind. cbn [timeouts_of Timeouts_Cert]. unfold syncView. apply wp_bind, wp_gets.
  rewrite (tr_view _ _ _ _ Hc1), Ht. cbn [timeout_cert TimeoutCertificate_View]. rewrite (proj2 (Z.leb_gt _ _)) by lia. cbn [when]. apply wp_skip.
  rewrite (tr_view _ _ _ _ Hc), Ht, Ev, (proj2 (Z.eqb_neq _ _)) by lia.
  unfold waitForData, modify_progress. apply wp_bind, wp_modify, wp_modify. split; [destruct Hc1; by split|done|exact El|done].
Qed.

(** ** A view ends *)

(** The replica has given up the view it is in. *)
Definition t_quit t : tracked :=
  mkTracked (t.(t_view) + 1) t.(t_view) true t.(t_prepare) t.(t_commit) t.(t_stored) t.(t_events) (newview_msg t.(t_view) :: t.(t_msgs)) t.(t_absent).

Lemma quorum_not_one : 1 < quorum.
Proof. pose proof (quorum_two replicas Hn). lia. Qed.

Lemma own_newviews v : newviews v [own_newview v].
Proof. split; [repeat constructor; apply own_newview_for|apply NoDup_singleton]. Qed.

(** [sendNewView], after [nextRound] has begun. *)
Lemma returns_sendNewView v t T : rests t -> is_u64 v -> is_u64 (v + 1) -> v <> 0 -> t.(t_view) = v + 1 -> (leads (v + 1) -> T = timeouts_of v []) ->
  let t' := mkTracked t.(t_view) v t.(t_idle) t.(t_prepare) t.(t_commit) t.(t_stored) t.(t_events) (newview_msg v :: t.(t_msgs)) t.(t_absent) in
  returns (idle t T) (sendNewView (Step 2)) (fun _ c => exists T', idle t' T' c
    /\ (leads (v + 1) -> T' = timeouts_of v [own_newview v]) /\ (~ leads (v + 1) -> T' = T)).
Proof.
  intros Hr Hu Hu1 Hv Ht HT t' c [Hc E]. unfold sendNewView. apply wp_bind, wp_gets. rewrite (tr_view _ _ _ _ Hc), Ht.
  replace (v + 1 - 1) with v by lia. rewrite wrap64_small by done.
  apply wp_bind. unfold wp at 1, getLeader, liftr. rewrite (tr_replicas _ _ _ _ Hc). destruct (leader_ok replicas Hn (v + 1)) as [next Enext].
  rewrite Enext. apply wp_bind, wp_gets, wp_bind, wp_gets, wp_bind. destruct (digest_signs v) as [sig Es]. unfold wp at 1, liftr. rewrite Es.
  assert (Eo : mkNewView v c.(c_id) (Some sig) (Some c.(c_prepareCert)) = own_newview v).
  { injection E as _ _ _ E4 _. unfold own_newview. by rewrite Es, E4, (tr_id _ _ _ _ Hc). }
  rewrite Eo. apply wp_bind, wp_modify, wp_bind.
  set (t1 := mkTracked t.(t_view) v t.(t_idle) t.(t_prepare) t.(t_commit) t.(t_stored) t.(t_events) t.(t_msgs) t.(t_absent)).
  assert (Hc1 : idle t1 T (set_voted v c)) by (split; [destruct Hc; by split|exact E]).
  assert (Hs : returns (idle t1 T) (save (fun db => SaveVoted db v)) (fun _ => idle t1 T)).
  { apply returns_frame; [by apply steps_save, (plain_put Hput KVoted)|by apply fixes_save]. }
  eapply wp_mono; [exact (Hs _ Hc1)| |done].
  intros [] c2 Hc2. unfold sendMsg. apply wp_bind, wp_modify. cbn [deliver_self]. apply wp_bind, wp_gets, wp_bind.
  assert (Em : newview_msg v = mkMsgTo (Some [next]) (NewViewMsg (own_newview v))) by (unfold newview_msg; by rewrite Enext).
  set (c3 := set_Progress _ _).
  assert (Hc3 : idle t' T c3).
  { destruct Hc2 as [Hc2 E2]. split; [|exact E2]. destruct Hc2. split; try done. simpl. rewrite Em. intros x Hx.
    apply list.elem_of_cons in Hx as [->|Hx]; apply elem_of_app; [right; by left|left; by apply tr_msgs]. }
  rewrite (tr_id _ _ _ _ (proj1 Hc3)). clearbody c3. apply wp_when; intros En; zbool.
  - subst next. assert (Hl : leads (v + 1)) by exact Enext. change (Step 2 (NewViewMsg (own_newview v))) with (onNewView (Step 1) (own_newview v)).
    rewrite (HT Hl) in Hc3. eapply wp_mono; [exact (newview_counted (Step 1) _ _ t' v [] _ Hr Hv Hu1 Hl (own_newviews v) quorum_not_one c3 Hc3)| |done].
    intros [] c4 Hc4. apply wp_skip. exists (timeouts_of v [own_newview v]). split_and!; [exact Hc4|done|done].
  - assert (Hl : ~ leads (v + 1)) by (unfold Leading.leads; rewrite Enext; intros [= ->]; done).
    apply wp_skip. exists T. split_and!; [exact Hc3|done|done].
Qed.

(** When the clock has run out. *)
Lemma returns_onTimeout k d t T v : rests t -> t.(t_view) = v -> t.(t_voted) < v -> v <> 0 -> 0 <= v -> is_u64 (v + 2) -> stationed v T ->
  returns (paced k d t T) (onTimeout (Step 2)) (fun _ c => exists T', idle (t_quit t) T' c /\ stationed (v + 1) T'
    /\ (leads (v + 1) -> T' = timeouts_of v [own_newview v])).
Proof.
  intros Hr Ht Hvo Hv0 Hv Hu [Hm HT] c Hc. unfold is_u64 in Hu.
  assert (Hnb : forall w, leads w -> ~ leads (w + 1)) by (intros w Hw Hw'; by destruct (leaders_differ replicas w self self Hnd Hn Hw Hw')).
  unfold onTimeout. apply wp_bind, wp_gets, wp_bind. rewrite (tr_view _ _ _ _ (proj1 Hc)), Ht, wrap64_small by (unfold is_u64; lia).
  set (t1 := mkTracked (v + 1) t.(t_voted) t.(t_idle) t.(t_prepare) t.(t_commit) t.(t_stored) t.(t_events) t.(t_msgs) t.(t_absent)).
  assert (Hs : returns (paced k d t T) (setView (v + 1)) (fun _ => paced k d t1 T)).
  { apply returns_frame; [apply steps_setView; [done|lia]|by apply fixes_setView]. }
  eapply wp_mono; [exact (Hs _ Hc)| |done].
  intros [] c1 Hc1. revert c1 Hc1.
  apply (returns_entered (Step 2) true t1 T); simpl; try done; try (unfold is_u64; lia); [apply Hr|].
  intros T' [Hm' HT'] Hkeep. replace (v + 1 - 1) with v in Hkeep by lia. replace (v + 1 + 1) with (v + 2) in * by lia.
  intros c1 Hc1. unfold settle. apply wp_bind, wp_gets. rewrite (tr_voted _ _ _ _ (proj1 Hc1)). simpl t_voted.
  replace (v + 1 - 1) with v by lia. rewrite wrap64_small by (unfold is_u64; lia). rewrite (proj2 (Z.ltb_lt _ _)) by done. cbn [andb].
  assert (Hl1 : leads (v + 1) -> T' = timeouts_of v []).
  { intros Hl. rewrite <- HT by done. apply Hkeep; [intros Hl'; by apply (Hnb v)|]. replace (v + 2) with (v + 1 + 1) by lia. by apply Hnb. }
  assert (Hu0 : is_u64 v /\ is_u64 (v + 1)) by (unfold is_u64; lia).
  pose proof (returns_sendNewView v (t_enter (v + 1) t1) T' Hr (proj1 Hu0) (proj2 Hu0) Hv0 eq_refl Hl1 c1 Hc1) as Hsend.
  eapply wp_mono; [exact Hsend| |done].
  intros [] c2 (T2 & Hc2 & Hc2' & Hc2''). exists T2. split_and!; [unfold t_quit; rewrite Ht; exact Hc2| |done].
  destruct (leader_ok replicas Hn (v + 1)) as [r Er]. destruct (decide (r = self)) as [->|Hne].
  - rewrite Hc2' by exact Er. split; [done|]. intros Hl. by destruct (Hnb (v + 1) Er Hl).
  - rewrite Hc2'' by (unfold Leading.leads; rewrite Er; intros [= ->]; done). split; [done|]. replace (v + 1 + 1) with (v + 2) by lia. exact HT'.
Qed.

Lemma handle_ticks n c : handle_all (replicate (S n) ITick) c = (Ticks (Step 2) n ;; Tick (Step 2)) c.
Proof.
  revert c. induction n as [|n IH]; intros c.
  - change ((Tick (Step 2) ;; skip) c = Tick (Step 2) c). unfold mbind, M_bind. by destruct (Tick _ c) as [c' [[]|k]].
  - change ((Tick (Step 2) ;; handle_all (replicate (S n) ITick)) c = (Ticks (Step 2) (S n) ;; Tick (Step 2)) c). cbn [Ticks].
    unfold mbind, M_bind in *. destruct (Tick _ c) as [c' [[]|k]]; [apply IH|done].
Qed.

(** The ticks of a view. *)
Definition view_ticks (v : Z) : list input := replicate (Z.to_nat (2 ^ (v - h0.(Header_View)))) ITick.

Lemma silent_view t T v : rests t -> t.(t_view) = v -> t.(t_voted) < v -> 0 <= h0.(Header_View) < v -> v - h0.(Header_View) < 63 -> is_u64 (v + 2) ->
  stationed v T ->
  returns (idle t T) (handle_all (view_ticks v)) (fun _ c => exists T', idle (t_quit t) T' c /\ stationed (v + 1) T'
    /\ (leads (v + 1) -> T' = timeouts_of v [own_newview v])).
Proof.
  intros Hr Ht Hvo Hv Hg Hu HT c Hc. unfold view_ticks. set (gap := v - h0.(Header_View)) in *.
  assert (Hpow : 0 < 2 ^ gap < two63) by (split; [apply Z.pow_pos_nonneg; lia|change two63 with (2 ^ 63); apply Z.pow_lt_mono_r; lia]).
  destruct (Z.to_nat (2 ^ gap)) as [|n] eqn:En; [lia|].
  assert (Eg : timeout_for (wrap64 (t.(t_view) - h0.(Header_View))) = Z.of_nat (S n)).
  { rewrite Ht. fold gap. unfold is_u64, two64 in *. rewrite wrap64_small, timeout_for_pow by (unfold is_u64, two64; lia). lia. }
  destruct Hc as [Hc E]. rewrite Eg in E. pose proof E as E'. injection E' as E1 E2 _ _ _.
  destruct (tick_times_out (Step 2) c n 0 E1 E2) as [_ Etick]; [lia|].
  unfold wp. rewrite handle_ticks, Etick.
  assert (Hp : paced (Z.of_nat (S n)) (Z.of_nat (S n)) t T (set_ticks (Z.of_nat (S n)) c)).
  { split; [destruct Hc; by split|]. unfold pace in *. simpl. congruence. }
  exact (returns_onTimeout _ _ t T v Hr Ht Hvo ltac:(lia) ltac:(lia) Hu HT _ Hp).
Qed.

(** [k] silent views. *)
Fixpoint silence (v : Z) (k : nat) : list input :=
  match k with O => [] | S k => silence v k ++ view_ticks (v + Z.of_nat k) end.
Definition t_silent (k : nat) t : tracked := Nat.iter k t_quit t.

Lemma silent_view_of k t : (t_silent k t).(t_view) = t.(t_view) + Z.of_nat k.
Proof. induction k as [|k IH]; [unfold t_silent; simpl; lia|]. change (t_view (t_silent k t) + 1 = t_view t + Z.of_nat (S k)). lia. Qed.
Lemma silent_voted k t : t.(t_voted) < t.(t_view) -> (t_silent k t).(t_voted) < (t_silent k t).(t_view).
Proof. destruct k as [|k]; [done|]. intros _. unfold t_silent. simpl. lia. Qed.
Lemma silent_rests k t : rests t -> rests (t_silent k t).
Proof. induction k as [|k IH]; [done|]. intros Hr. exact (IH Hr). Qed.
Lemma silent_ledger k t : same_ledger t (t_silent k t).
Proof. induction k as [|k IH]; [by split|]. destruct IH. by split. Qed.
Lemma silent_prepare k t : (t_silent k t).(t_prepare) = t.(t_prepare).
Proof. induction k as [|k IH]; [done|exact IH]. Qed.
Lemma silent_expecting k t parent v : t.(t_view) = v -> t.(t_idle) = true -> expecting t parent v -> expecting (t_silent k t) parent (v + Z.of_nat k).
Proof.
  intros Ht Hi He. induction k as [|k IH]; [by rewrite Z.add_0_r|]. pose proof (silent_view_of k t) as Hv. rewrite Ht in Hv.
  change (t_silent (S k) t) with (t_quit (t_silent k t)). destruct IH as [Hp _ _ Ha Hpr Hc Hr Hd]. split; try done; simpl; [right; split; [lia|done]|lia..].
Qed.
Lemma silent_sent k t v : t.(t_view) <= v < t.(t_view) + Z.of_nat k -> newview_msg v ∈ (t_silent k t).(t_msgs).
Proof.
  induction k as [|k IH]; intros Hv; [lia|]. change (t_silent (S k) t) with (t_quit (t_silent k t)). simpl t_msgs. rewrite silent_view_of.
  destruct (decide (v = t.(t_view) + Z.of_nat k)) as [->|Hne]; [left|right; apply IH; lia].
Qed.

(** The replica after [k] silent views, in the view [v + k]. *)
Definition quiet (v : Z) (k : nat) t c : Prop := exists T, idle (t_silent k t) T c /\ stationed (v + Z.of_nat k) T
  /\ ((0 < k)%nat -> leads (v + Z.of_nat k) -> T = timeouts_of (v + Z.of_nat k - 1) [own_newview (v + Z.of_nat k - 1)]).

Lemma silent_views v k t : rests t -> t.(t_view) = v -> t.(t_voted) < v -> 0 <= h0.(Header_View) < v ->
  v + Z.of_nat k - h0.(Header_View) <= 63 -> is_u64 (v + Z.of_nat k + 1) ->
  returns (quiet v 0 t) (handle_all (silence v k)) (fun _ => quiet v k t).
Proof.
  intros Hr Ht Hvo Hv Hk Hu. unfold is_u64 in Hu. induction k as [|k IH]; [intros c Hc; by apply wp_skip|].
  cbn [silence]. eapply handle_all_app; [apply IH; lia|]. intros c (T & Hc & HT & _).
  assert (Hu' : is_u64 (v + Z.of_nat k + 2)) by (unfold is_u64; lia).
  pose proof (silent_view (t_silent k t) T (v + Z.of_nat k) (silent_rests k t Hr)) as Hs. rewrite (silent_view_of k t), Ht in Hs.
  pose proof (silent_voted k t ltac:(lia)) as Hvo'. rewrite (silent_view_of k t), Ht in Hvo'.
  specialize (Hs eq_refl Hvo' ltac:(lia) ltac:(lia) Hu' HT c Hc). eapply wp_mono; [exact Hs| |done].
  intros [] c' (T' & Hc' & HT' & Hl). exists T'. replace (v + Z.of_nat (S k)) with (v + Z.of_nat k + 1) by lia.
  split_and!; [exact Hc'|exact HT'|]. intros _. replace (v + Z.of_nat k + 1 - 1) with (v + Z.of_nat k) by lia. exact Hl.
Qed.

(** ** From the start to the first leader that speaks *)

Lemma returns_Start v t T k d : rests t -> t.(t_view) = v -> t.(t_idle) = true -> is_u64 (v - 1) -> is_u64 (v + 1) -> v <> 0 ->
  T.(Timeouts_majority) = quorum ->
  returns (paced k d t T) (handle IStart) (fun _ c => quiet v 0 t c /\ (leads v -> c.(c_waitingData) = true)).
Proof.
  intros Hr Ht Hi Hu1 Hu2 Hv HT. change (handle IStart) with (nextRound (Step 2) false).
  assert (Et : t_enter t.(t_view) t = t) by (destruct t; simpl in *; by subst).
  apply returns_entered; rewrite ?Ht; try done; [apply Hr|]. intros T' HT' _. rewrite <- Ht at 1. rewrite Et.
  intros c Hc. unfold settle. apply wp_bind, wp_gets. cbn [andb]. apply wp_bind. unfold wp at 1, getLeader, liftr. rewrite (tr_replicas _ _ _ _ (proj1 Hc)).
  assert (Hq : forall c, idle t T' c -> quiet v 0 t c) by (intros c' Hc'; exists T'; rewrite Z.add_0_r; split_and!; [done..|lia]).
  destruct (leader_ok replicas Hn v) as [r Er]. rewrite Er. apply wp_when; intros E; zbool.
  - unfold waitForData, modify_progress. apply wp_bind, wp_modify, wp_modify. split; [|done]. apply Hq. destruct Hc as [Hc Ep].
    split; [destruct Hc; by split|exact Ep].
  - split; [by apply Hq|]. unfold Leading.leads. rewrite Er. intros [= ->]. done.
Qed.

(** A replica that is started and hears nothing for [k] views. *)
Definition opening_silence (v : Z) (k : nat) : list input := IStart :: silence v k.

Lemma returns_opening_silence v k t T n d : rests t -> t.(t_view) = v -> t.(t_idle) = true -> t.(t_voted) < v -> 0 <= h0.(Header_View) < v ->
  v + Z.of_nat k - h0.(Header_View) <= 63 -> is_u64 (v + Z.of_nat k + 1) -> T.(Timeouts_majority) = quorum ->
  returns (paced n d t T) (handle_all (opening_silence v k)) (fun _ c => quiet v k t c /\ (k = O -> leads v -> c.(c_waitingData) = true)).
Proof.
  intros Hr Ht Hi Hvo Hv Hk Hu HT. unfold opening_silence. cbn [handle_all]. unfold is_u64 in Hu.
  eapply returns_bind; [apply (returns_Start v t T n d); try done; try (unfold is_u64; lia); lia|]. intros [] c [Hc Hw].
  destruct k as [|k]; [by apply wp_skip|]. eapply wp_mono; [exact (silent_views v (S k) t Hr Ht Hvo Hv Hk ltac:(unfold is_u64; lia) c Hc)| |done].
  intros [] c' Hc'. by split.
Qed.

Definition newview_input (n : NewView) : input := IStep (NewViewMsg n).

Lemma newviews_counted k d t v rest : forall ns, rests t -> v <> 0 -> is_u64 (v + 1) -> leads (v + 1) -> newviews v (ns ++ rest) -> len (ns ++ rest) < quorum ->
  returns (paced k d t (timeouts_of v ns)) (handle_all (newview_input <$> rest)) (fun _ => paced k d t (timeouts_of v (ns ++ rest))).
Proof.
  induction rest as [|n rest IH]; intros ns Hr Hv Hu Hl Hb Hq; [rewrite app_nil_r; intros c Hc; by apply wp_skip|].
  assert (E : ns ++ n :: rest = (ns ++ [n]) ++ rest) by by rewrite <- app_assoc. rewrite E in *.
  cbn [fmap list_fmap handle_all]. apply (returns_bind _ _ (fun _ => paced k d t (timeouts_of v (ns ++ [n])))); [|intros []; by apply (IH (ns ++ [n]))].
  apply (newview_counted (Step 1)); try done; [|unfold len in *; rewrite length_app in Hq; lia].
  destruct Hb as [Hf Hd]. rewrite fmap_app in Hd. split; [by apply Forall_app in Hf as [? _]|by apply list.NoDup_app in Hd as [? _]].
Qed.

(** The new-views of a quorum, the last of which elects. *)
Lemma newviews_elect k d t v rest : rest <> [] -> rests t -> v <> 0 -> t.(t_view) = v + 1 -> is_u64 (v + 1) -> leads (v + 1) ->
  newviews v (own_newview v :: rest) -> len (own_newview v :: rest) = quorum ->
  returns (paced k d t (timeouts_of v [own_newview v])) (handle_all (newview_input <$> rest))
    (fun _ => led self replicas cert (Some (timeout_cert v (own_newview v :: rest))) t).
Proof.
  intros Hne Hr Hv Ht Hu Hl Hb Hq. destruct rest as [|n rest _] using rev_ind; [done|]. rewrite fmap_app.
  change (own_newview v :: rest ++ [n]) with ((own_newview v :: rest) ++ [n]) in *. eapply handle_all_app.
  - apply newviews_counted; try done; [by apply newviews_snoc in Hb as [? _]|]. unfold len in *. rewrite length_app in Hq. simpl in *. lia.
  - apply handle_one, (newview_elects (Step 1)); try done. lia.
Qed.

(** What the first leader is given before its data, and the certificate it then has. *)
Definition opening (k : nat) (ns : list NewView) : list input := match k with O => [] | S _ => newview_input <$> ns end.
Definition opening_cert (v : Z) (k : nat) (ns : list NewView) : option TimeoutCertificate :=
  match k with O => None | S _ => Some (timeout_cert (v + Z.of_nat k - 1) ns) end.

Lemma leader_opens v k t rest : rests t -> t.(t_view) = v -> 0 < v -> is_u64 (v + Z.of_nat k) -> leads (v + Z.of_nat k) ->
  newviews (v + Z.of_nat k - 1) (own_newview (v + Z.of_nat k - 1) :: rest) -> len (own_newview (v + Z.of_nat k - 1) :: rest) = quorum ->
  returns (fun c => quiet v k t c /\ (k = O -> leads v -> c.(c_waitingData) = true)) (handle_all (opening k rest))
    (fun _ => led self replicas cert (opening_cert v k (own_newview (v + Z.of_nat k - 1) :: rest)) (t_silent k t)).
Proof.
  intros Hr Ht Hv Hu Hl Hb Hq c [(T & Hc & _ & HT) Hw]. destruct k as [|k].
  - rewrite Z.add_0_r in Hl. apply wp_skip. destruct Hc as [Hc E]. injection E as _ _ E3 E4 _. split; [exact Hc|exact E4| |by apply Hw].
    simpl. unfold load_timeoutCert. by rewrite E3.
  - rewrite HT in Hc by (done || lia). set (w := v + Z.of_nat (S k) - 1) in *. assert (Ew : v + Z.of_nat (S k) = w + 1) by lia. rewrite Ew in *.
    assert (Hne : rest <> []) by (pose proof quorum_not_one; intros ->; change (1 = quorum) in Hq; lia).
    assert (Hv' : t_view (t_silent (S k) t) = w + 1) by (rewrite silent_view_of; lia). cbn [opening opening_cert]. rewrite Ew. fold w.
    replace (w + 1 - 1) with w by lia.
    exact (newviews_elect _ _ (t_silent (S k) t) w rest Hne (silent_rests _ t Hr) ltac:(lia) Hv' Hu Hl Hb Hq c Hc).
Qed.
End Silence.
