(* ===== verification/Deployment.v ===== *)
(** * A deployment that has just been started

    All replicas have imported the genesis block; the first [k] views pass in
    silence, the leader of the next one proposes, and Synchrony.v takes over. *)

From Stdlib Require Import ZArith Lia.
From stdpp Require Import relations.
From S2P Require Import Prelude Wire Types Proto Codec Encoding Crypto Store Quorum Progress Consensus.
From S2P Require Import ConsensusFacts Handlers Replica Instances CryptoSpec Safety Pacemaker Progression Agreement.
From S2P Require Import Rounds Leading Synchrony ViewChange.

Section Deployment.
Context {DB : Type} `{KVStore DB} `{!KVLaws DB} `{Hasher} `{!HasherLaws} `{Verifier} (signer : Z -> Signer).
Context (th : Z) `{!VerifierLaws th} (replicas : list Z).
Implicit Types (c : consensus DB) (t : tracked) (g : gmap Z (consensus DB)).

Abbreviation in_service := (in_service (DB := DB) signer th replicas).
Abbreviation run_all := (run_all signer).
Abbreviation delivery := (delivery signer).
Abbreviation round_of := (round_of signer replicas).

(** ** From genesis *)

(** The genesis block: its certificate, as it is read back, is one that every replica
    accepts. *)
Record genesis_ready (genesis : Block) (header : Header) (cert : Certificate) : Prop := {
  gr_header : genesis.(Block_Header) = Some header;
  gr_cert : genesis.(Block_Cert) = Some cert;
  gr_good : good header;
  gr_good_cert : good cert;
  gr_certifies : certifies (canon cert) (canon header);
  gr_next : is_u64 (header.(Header_View) + 1);
}.

(** A new replica. *)
Definition t_born (header : Header) : tracked :=
  mkTracked (header.(Header_View) + 1) header.(Header_View) true header header [header] [] [] [sbytes header.(Header_Parent)].

Lemma certificate_block_canon cert : sbytes (canon cert).(Certificate_Block) = sbytes cert.(Certificate_Block).
Proof. unfold canon. simpl. unfold Certificate_canon. simpl. by destruct (Certificate_Block cert) as [[]|]. Qed.

Lemma canon_idem (h : Header) : canon (canon h) = canon h.
Proof. unfold canon. simpl. unfold Header_canon. simpl. by destruct (Header_Parent h) as [[]|], (Header_DataRoot h) as [[]|], (Header_StateRoot h) as [[]|]. Qed.

Lemma born_tracks genesis header cert r c : in_service -> genesis_ready genesis header cert ->
  sbytes header.(Header_Parent) <> Header_Hash header -> is_u64 r -> born replicas genesis r c ->
  exists n d T, paced r replicas (canon cert) n d (t_born (canon header)) T c /\ T.(Timeouts_majority) = quorum_size (len replicas).
Proof.
  intros Hin [Eh Ec Hg Hgc [Hcb _] Hu] Hpar Hr (db & db' & Hno & Him & Hnew).
  rewrite certificate_block_canon, Header_Hash_canon in Hcb by done.
  destruct (ImportGenesis_disk db db' genesis header cert) as (D & Cg & Honly); try done. rewrite Hcb in Cg.
  destruct (newConsensus_recovers th _ r replicas _ _ _ _ _ _ D Cg) as (c' & E & [Es Ev Ew _ _ _ Ep] & Ecert & Eid & Erep & _).
  rewrite Hnew in E. injection E as <-.
  destruct (newConsensus_loads _ _ _ _ Hnew) as ((k1 & Hk1) & (k2 & Hk2) & Evotes & Etimeouts & Etc).
  exists c.(c_ticks), c.(c_timeout), c.(c_timeouts). split; [|by rewrite Etimeouts]. split; [|unfold pace; by rewrite Etc, Ecert].
  assert (Eload : load_timeoutCert c = None) by (unfold load_timeoutCert; by rewrite Etc).
  apply Honly in Hk1 as [_ Hk1]. apply Honly in Hk2 as [_ Hk2].
  split; simpl; rewrite ?Evotes, ?Es, ?Ep, ?Eload; try done.
  - by rewrite Ev, wrap64_small.
  - apply D.
  - apply list.Forall_cons_2; [|constructor]. rewrite Header_Hash_canon by done.
    destruct (has_header_get db' header) as (h' & Hh' & _); [apply D|apply D|]. destruct (Honly _ _ Hh') as [_ ->]. done.
  - apply list.Forall_cons_2; [|constructor]. change (entry db' (KHeader (sbytes (Header_Parent (canon header)))) = None). rewrite canon_parent. destruct (entry db' (KHeader (sbytes (Header_Parent header)))) as [b|] eqn:Eb; [|done].
    destruct (disk_store _ _ _ _ _ _ D _ _ Eb) as (h' & Hg' & -> & _).
    destruct (Honly (sbytes (Header_Parent header)) (canon h')) as [? _]; [|done]. by rewrite GetHeader_entry, Eb, decode_encoding.
Qed.

Lemma born_stands header hs : good header -> is_u64 (header.(Header_View) + 1) ->
  NoDup (sbytes header.(Header_Parent) :: Header_Hash header :: (Header_Hash <$> hs)) ->
  stands header.(Header_View) (header.(Header_View) + 1) [canon header] hs (t_born (canon header)).
Proof.
  intros Hg Hu Hnd. apply list.NoDup_cons in Hnd as [Hpar Hnd]. apply list.NoDup_cons in Hnd as [Hd _].
  assert (Hf : t_find (sbytes (canon header).(Header_Parent)) (t_born (canon header)) = None).
  { unfold t_find, t_born. cbn [t_stored find]. rewrite canon_parent, Header_Hash_canon by done.
    destruct (bytes_eqb (Header_Hash header) (sbytes (Header_Parent header))) eqn:E; [|done].
    apply bytes_eqb_eq in E. exfalso. apply Hpar. rewrite E. left. }
  assert (Hfg : t_find (Header_Hash (canon header)) (t_born (canon header)) = Some (canon header)).
  { unfold t_find, t_born. cbn [t_stored find]. by rewrite (proj2 (bytes_eqb_eq _ _)). }
  split.
  - exists (canon header), []. split_and!; [done| |unfold commit_bound; simpl t_commit; rewrite canon_view; lia]. split; try done.
    + by right.
    + simpl. lia.
    + simpl. lia.
    + by right.
    + split; [right; by left|]. rewrite Hf. by intros g.
    + apply Hg.
    + rewrite Hf. by intros g.
  - done.
  - apply list.Forall_forall. intros h Hh. split; [apply list.Forall_cons_2; [|constructor]|].
    + rewrite Header_Hash_canon by done. intros E. apply Hd. rewrite E. by apply list_elem_of_fmap_2.
    + unfold t_born. cbn [t_absent]. rewrite canon_parent. intros [E|E]%list.elem_of_cons; [|by apply elem_of_nil in E]. apply Hpar. rewrite <- E. right. by apply list_elem_of_fmap_2.
  - constructor.
Qed.

(** ** Silence, then the first block *)

(** The new-views of the first leader's quorum. *)
Definition newview (r : Z) (cert : Certificate) (v : Z) : NewView := own_newview (H2 := signer r) r cert v.
Definition newviews_to (l : Z) (cert : Certificate) (v : Z) : list NewView := (fun r => newview r cert v) <$> quorum_of replicas l.
Definition quorum_newviews (l : Z) (cert : Certificate) (v : Z) : list NewView := newview l cert v :: newviews_to l cert v.

Lemma quorum_newviews_count l cert v : in_service -> l ∈ replicas -> len (quorum_newviews l cert v) = quorum_size (len replicas).
Proof.
  intros Hin Hl. rewrite <- (quorum_votes_count signer th replicas l (mkHeader 0 None 0 None None) Hin Hl).
  unfold quorum_newviews, newviews_to, quorum_votes. rewrite !len_cons. unfold len. by rewrite !length_fmap.
Qed.

Lemma quorum_newviews_ok l cert v : in_service -> l ∈ replicas -> newviews cert v (quorum_newviews l cert v).
Proof.
  intros Hin Hl. change (quorum_newviews l cert v) with ((fun r => newview r cert v) <$> (l :: quorum_of replicas l)). split.
  - apply list.Forall_forall. intros n (r & -> & Hr)%list_elem_of_fmap.
    assert (Hr' : r ∈ replicas) by (apply list.elem_of_cons in Hr as [->|Hr]; [done|by apply quorum_of_in in Hr as [_ ?]]).
    apply (own_newview_for (H2 := signer r)); [by apply (is_signs _ _ _ Hin)|by apply (is_ids _ _ _ Hin)|].
    intros msg sig. by apply (is_verifies _ _ _ Hin).
  - rewrite <- list_fmap_compose. change (NoDup (id <$> (l :: quorum_of replicas l))). rewrite list_fmap_id. apply list.NoDup_cons. split.
    + intros Hr. by apply quorum_of_in in Hr as [? _].
    + unfold quorum_of. eapply sublist_NoDup; [|apply sublist_take]. apply list.NoDup_filter, Hin.
Qed.

(** The view of the first block, the block, and its proposal. *)
Definition first_view (header : Header) (k : nat) : Z := header.(Header_View) + 1 + Z.of_nat k.
Definition first_of (header : Header) (k : nat) (x : payload) : Header := built_header (first_view header k) header x.(pl_state) x.(pl_root).
Definition first_cert (l : Z) (header : Header) (cert : Certificate) (k : nat) : option TimeoutCertificate :=
  opening_cert (header.(Header_View) + 1) k (quorum_newviews l cert (first_view header k - 1)).
Definition first_proposal (l : Z) (header : Header) (cert : Certificate) (k : nat) (x : payload) : Proposal :=
  proposal_on (H2 := signer l) (first_view header k) header cert (first_cert l header cert k) x.(pl_state) x.(pl_root) x.(pl_data).

Lemma first_reached l header cert k : in_service -> l ∈ replicas -> reached (first_view header k) header (first_cert l header cert k).
Proof.
  intros Hin Hl. unfold reached, first_cert, first_view. split; [lia|]. destruct k as [|k]; [simpl; lia|].
  cbn [opening_cert]. split; [simpl; lia|]. cbn [timeout_cert TimeoutCertificate_View TimeoutCertificate_Sig].
  apply (tallied_accepted th); [by apply (newviews_signed cert), quorum_newviews_ok|].
  pose proof (quorum_newviews_count l cert (Header_View header + 1 + Z.of_nat (S k) - 1) Hin Hl) as Hq. unfold len in *. rewrite length_fmap.
  pose proof (is_threshold _ _ _ Hin). unfold len in *. lia.
Qed.

Section First.
Context (header : Header) (cert : Certificate) (k : nat) (Hin : in_service).
Abbreviation v := (header.(Header_View) + 1).
Abbreviation vk := (first_view header k).
Context (Hgood : good header) (Hidem : canon header = header) (Hcert : certifies cert header) (Hk : (k <= 62)%nat) (Hu : is_u64 (vk + 1)).

(** Replica [r] after the silence. *)
Definition after_silence (r : Z) : tracked := t_silent (H2 := signer r) r replicas cert k (t_born header).
Definition hushed (r : Z) c : Prop := quiet (H2 := signer r) r replicas header cert v k (t_born header) c
  /\ (k = O -> leads r replicas v -> c.(c_waitingData) = true).

Lemma born_rests : rests header (t_born header).
Proof. split; [done|]. unfold t_find, t_born. cbn [t_stored find]. by rewrite (proj2 (bytes_eqb_eq _ _)). Qed.

Lemma view_range : 0 <= header.(Header_View) < two64.
Proof. apply Hgood. Qed.

Lemma stays_silent r c n d T : r ∈ replicas -> paced r replicas cert n d (t_born header) T c -> T.(Timeouts_majority) = quorum_size (len replicas) ->
  exists c', run_all r (opening_silence header v k) c = (c', inl tt) /\ hushed r c'.
Proof.
  intros Hr Hc HT. pose proof view_range. unfold first_view, is_u64 in Hu. pose proof Hin as [].
  pose proof (returns_opening_silence (H2 := signer r) th is_writes (is_signs r) r (is_ids r Hr) replicas is_many is_distinct
    (fun msg sig => is_verifies r msg sig Hr) header cert (proj1 Hcert) v k (t_born header) T n d born_rests eq_refl eq_refl) as Hw.
  simpl t_voted in Hw. specialize (Hw ltac:(lia) ltac:(lia) ltac:(lia) ltac:(unfold is_u64; lia) HT c Hc). unfold wp in Hw.
  change (run_all r (opening_silence header v k) c) with (handle_all (H2 := signer r) (opening_silence header v k) c).
  destruct (handle_all _ c) as [c' [[]|e]]; [|done]. by exists c'.
Qed.

(** It has entered the view of the first block, and announced all views before. *)
Definition hushed_sent r c : Prop := c.(c_view) = vk
  /\ forall v, header.(Header_View) < v < vk -> newview_msg (H2 := signer r) r replicas cert v ∈ c.(c_Progress).(Messages).
Lemma hushed_sends r c : hushed r c -> hushed_sent r c.
Proof.
  clear Hk Hu. intros [(T & [Hc _] & _) _]. split; [rewrite (tr_view _ _ _ _ Hc); apply silent_view_of|]. intros w Hw. apply (tr_msgs _ _ _ _ Hc).
  apply (silent_sent (H2 := signer r) r replicas cert k (t_born header)). unfold first_view in Hw. simpl. lia.
Qed.

(** The first leader, with the new-views and data. *)
Lemma first_leader l c x hs : leader_of replicas vk = Ok l -> hushed l c ->
  sendable vk header cert x.(pl_state) x.(pl_root) x.(pl_data) ->
  stands header.(Header_View) vk [header] (first_of header k x :: hs) (after_silence l) ->
  Forall (fun h' => Header_Hash (first_of header k x) <> Header_Hash h') hs ->
  exists c' t', run_all l (opening k (newviews_to l cert (vk - 1)) ++ [ISend x.(pl_state) x.(pl_root) (Some x.(pl_data))]) c = (c', inl tt)
    /\ tracks l replicas t' c' /\ stands header.(Header_View) (vk + 1) (canon (first_of header k x) :: behind (first_of header k x) header []) hs t'
    /\ proposal_msg (first_proposal l header cert k x) ∈ t'.(t_msgs) /\ vote_sent signer replicas l (first_of header k x) ∈ t'.(t_msgs)
    /\ proper replicas (first_proposal l header cert k x) (first_of header k x) header.
Proof.
  intros Hl Hc Hsd Hs Hd. pose proof (leader_in _ _ _ Hl) as Hr. pose proof view_range as Hvr. pose proof Hin as Hin'. destruct Hin' as [].
  pose proof (first_reached l header cert k Hin Hr) as Hre. set (o := first_cert l header cert k) in *.
  assert (Hpr : proper replicas (first_proposal l header cert k x) (first_of header k x) header).
  { rewrite <- Hidem at 3. by apply (proposal_on_proper (H2 := signer l) (is_signs l) l); [by intros ? ?; apply is_verifies|..]. }
  assert (Hu' : is_u64 vk) by (unfold first_view, is_u64 in *; lia).
  pose proof (leader_opens (H2 := signer l) th l replicas is_many header cert (proj1 Hcert) v k (t_born header) (newviews_to l cert (vk - 1))
    born_rests eq_refl ltac:(lia) Hu' Hl (quorum_newviews_ok l cert (vk - 1) Hin Hr) (quorum_newviews_count l cert (vk - 1) Hin Hr)) as Hop.
  assert (Ev : (after_silence l).(t_view) = vk) by apply silent_view_of.
  assert (Ep : (after_silence l).(t_prepare) = header) by apply silent_prepare.
  assert (Hex : expecting (after_silence l) (canon header) vk) by (rewrite Hidem; by apply (stands_expecting _ _ _ _ _ _ Hs)).
  assert (Hfr : t_fresh (after_silence l) (first_of header k x)) by by destruct (list.Forall_cons_1 _ _ _ (sn_fresh _ _ _ _ _ Hs)).
  pose proof (led_sends (H2 := signer l) th is_writes (is_signs l) l (is_ids l Hr) replicas is_many (fun msg sig => is_verifies l msg sig Hr)
    vk header cert o (after_silence l) x.(pl_state) x.(pl_root) x.(pl_data) Hgood Hl Hre Hsd Hcert Ev Ep Hex Hfr) as Hls.
  pose proof (handle_all_app (H2 := signer l) _ _ _ _ _ Hop (handle_one (H2 := signer l) _ _ _ Hls) c Hc) as Hw.
  unfold wp in Hw. unfold Synchrony.run_all. destruct (handle_all _ c) as [c' [[]|e]]; [|done].
  set (t2 := t_sent (proposal_msg (first_proposal l header cert k x)) (after_silence l)).
  assert (Hs2 : stands header.(Header_View) vk [header] (first_of header k x :: hs) t2) by by apply stands_sent.
  pose proof (proper_extends _ _ _ _ Hpr) as Hx.
  exists c', (follow (first_of header k x) header (vote_sent signer replicas l (first_of header k x)) t2). split_and!; [done| |..].
  - unfold launch in Hw. rewrite Hidem in Hw. exact Hw.
  - exact (stands_follow _ header [] (first_of header k x) hs t2 _ Hs2 Hx Hd).
  - rewrite (follow_msgs header.(Header_View) header [] _ hs) by done. right. left.
  - rewrite (follow_msgs header.(Header_View) header [] _ hs) by done. left.
  - exact Hpr.
Qed.
End First.

Lemma silence_silent header v k : Forall silent_input (opening_silence header v k).
Proof.
  apply list.Forall_cons_2; [exact I|]. induction k as [|k IH]; [constructor|]. cbn [silence]. apply Forall_app. split; [exact IH|]. by apply Forall_replicate.
Qed.
Lemma opening_traffic k ns x : Forall traffic (opening k ns ++ [ISend x.(pl_state) x.(pl_root) (Some x.(pl_data))]).
Proof.
  apply Forall_app. split; [|by repeat constructor]. destruct k as [|k]; [constructor|]. apply list.Forall_forall. by intros i (n & -> & _)%list_elem_of_fmap.
Qed.
Lemma silence_ticks header v k : Forall (fun i => i = ITick) (silence header v k).
Proof. induction k as [|k IH]; [constructor|]. cbn [silence]. apply Forall_app. split; [exact IH|]. by apply Forall_replicate. Qed.
Lemma silence_available header g r v k : Forall (available g r) (opening_silence header v k).
Proof.
  apply list.Forall_cons_2; [done|]. eapply list.Forall_impl; [apply silence_ticks|]. by intros i ->.
Qed.

Lemma silent_stands r header cert k bs hs v : stands header.(Header_View) v (header :: bs) hs (t_born header) -> v = header.(Header_View) + 1 ->
  stands header.(Header_View) (v + Z.of_nat k) (header :: bs) hs (t_silent (H2 := signer r) r replicas cert k (t_born header)).
Proof.
  intros Hs ->. eapply stands_ledger; [apply silent_ledger| |exact Hs].
  apply silent_expecting; [done..|]. by apply (stands_expecting _ _ _ _ _ _ Hs).
Qed.

Lemma first_round genesis header cert k x hs g : in_service -> genesis_ready genesis header cert -> (k <= 62)%nat ->
  (forall r, r ∈ replicas -> exists c, g !! r = Some c /\ born replicas genesis r c) ->
  sendable (first_view header k) (canon header) (canon cert) x.(pl_state) x.(pl_root) x.(pl_data) ->
  NoDup (sbytes header.(Header_Parent) :: Header_Hash header :: (Header_Hash <$> first_of (canon header) k x :: hs)) ->
  exists g1 g' l, rtc (delivery silent_input) g g1
    /\ (forall r, r ∈ replicas -> exists c, g1 !! r = Some c /\ hushed_sent (canon header) (canon cert) k r c)
    /\ rtc (delivery traffic) g1 g'
    /\ round_of header.(Header_View) g' (first_proposal l (canon header) (canon cert) k x) (first_of (canon header) k x) (canon header) [] hs l.
Proof.
  intros Hin Hgr Hk Hborn Hsd Hnd. set (h0 := canon header) in *. set (vk := first_view header k) in *.
  destruct (leader_ok replicas (is_many _ _ _ Hin) vk) as [l Hl].
  pose proof (leader_in _ _ _ Hl) as Hlr. pose proof (gr_good _ _ _ Hgr) as Hg.
  assert (Hg0 : good h0) by by apply good_canon. assert (E0 : canon h0 = h0) by apply canon_idem.
  assert (Hpar : sbytes header.(Header_Parent) <> Header_Hash header).
  { intros E. apply list.NoDup_cons in Hnd as [Hn _]. apply Hn. rewrite E. left. }
  pose proof (born_stands header (first_of h0 k x :: hs) Hg (gr_next _ _ _ Hgr) Hnd) as Hs.
  pose proof (fun r => silent_stands r h0 (canon cert) k [] _ _ Hs eq_refl) as Hsk.
  destruct (deliver_each signer silent_input (opening_silence h0 (h0.(Header_View) + 1) k) (hushed h0 (canon cert) k) replicas) with (g := g) as (g1 & Hsteps & Hst & _).
  { apply silence_silent. }
  { apply Hin. }
  { intros. apply silence_available. }
  { intros r Hr. destruct (Hborn r Hr) as (c & Hc & Hb).
    destruct (born_tracks genesis header cert r c Hin Hgr Hpar (is_ids _ _ _ Hin r Hr) Hb) as (n & d & T & Hp & HT).
    destruct (stays_silent h0 (canon cert) k Hin Hg0 (gr_certifies _ _ _ Hgr) Hk (sd_next _ _ _ _ _ _ Hsd) r c n d T Hr Hp HT) as (c' & Hrun & Hh).
    by exists c, c'. }
  destruct (Hst l Hlr) as (cl & Hgl & Hhl).
  destruct (first_leader h0 (canon cert) k Hin Hg0 E0 (gr_certifies _ _ _ Hgr) Hk (sd_next _ _ _ _ _ _ Hsd) l cl x hs Hl Hhl Hsd (Hsk l))
    as (c' & t' & Hrun & Ht' & Hs' & Hp' & Hv' & Hpr).
  { rewrite !fmap_cons, !list.NoDup_cons in Hnd. destruct Hnd as (_ & _ & Hn1 & _). by apply hash_new. }
  exists g1, (<[l := c']> g1), l. split_and!; [exact Hsteps| | |].
  - intros r Hr. destruct (Hst r Hr) as (c & Hc & Hh). exists c. split; [done|]. by apply hushed_sends.
  - eapply deliver_all; [apply opening_traffic|exact Hgl| |exact Hrun]. apply Forall_app. split; [|by repeat constructor].
    destruct k as [|k]; [constructor|]. apply list.Forall_forall.
    intros i (n & -> & (r & -> & Hr)%list_elem_of_fmap)%list_elem_of_fmap. apply quorum_of_in in Hr as [Hrl Hr].
    destruct (Hst r Hr) as (c & Hc & Hh). exists r, c, (Some [l]). split_and!; [done..| |by left].
    pose proof (proj2 (hushed_sends h0 (canon cert) (S k) r c Hh) (first_view h0 (S k) - 1) ltac:(unfold first_view; lia)) as Hm. unfold newview_msg in Hm.
    replace (first_view h0 (S k) - 1 + 1) with vk in Hm by (unfold vk, first_view, h0; rewrite canon_view; lia). rewrite Hl in Hm. exact Hm.
  - split; [done|exact Hpr| |].
    + exists c', t'. rewrite lookup_insert_eq. done.
    + intros r Hr Hrl. rewrite lookup_insert_ne by done. destruct (Hst r Hr) as (c & Hc & (T & [Hc' _] & _) & _).
      exists c, (t_silent (H2 := signer r) r replicas (canon cert) k (t_born h0)). split_and!; [done|exact Hc'|apply Hsk].
Qed.

Lemma future_length xs : forall h, length (future h xs) = length xs.
Proof. induction xs as [|x xs IH]; intros h; [done|]. simpl. by rewrite IH. Qed.
Lemma future_views xs : forall h i b, (h :: future h xs) !! i = Some b -> b.(Header_View) = h.(Header_View) + Z.of_nat i.
Proof.
  induction xs as [|x xs IH]; intros h [|i] b Hb; simpl in Hb; try done; try (injection Hb as <-; lia).
  apply (IH (next_of h x)) in Hb. simpl in Hb. lia.
Qed.
End Deployment.

(** ** Theorem *)

Section Finality.
Context {DB : Type} `{KVStore DB} `{!KVLaws DB} `{Hasher} `{!HasherLaws} `{Verifier} (signer : Z -> Signer).
Context (th : Z) `{!VerifierLaws th} (replicas : list Z).

(** The proposal of the block [i] of the chain: the first one, after a silence, comes
    with a certificate that the view before has timed out; no other comes with one. *)
Definition opens (k i : nat) (b : Header) (p : Proposal) : Prop :=
  match p.(Proposal_Timeout) with
  | Some tc => (0 < k)%nat /\ i = 0%nat /\ tc.(TimeoutCertificate_View) = b.(Header_View) - 1
      /\ VerifyAggregated (timeout_digest tc.(TimeoutCertificate_View)) tc.(TimeoutCertificate_Sig) = Ok true
  | None => k = 0%nat \/ (0 < i)%nat
  end.

Lemma first_opens l header cert k x parent : proper replicas (first_proposal signer replicas l header cert k x) (first_of header k x) parent ->
  opens k 0 (first_of header k x) (first_proposal signer replicas l header cert k x).
Proof.
  intros Hp. pose proof (pr_timeout _ _ _ _ Hp) as Ht. unfold opens. destruct k as [|k]; [by left|].
  cbn [first_proposal proposal_on first_cert opening_cert Proposal_Timeout] in *. destruct Ht as [Hv Hs]. split_and!; [lia|done|lia|exact Hs].
Qed.

(** C6: a deployment recovers from silence.  All replicas have imported the genesis
    block into an empty database.  There is a run in two parts, in which no handler
    fails.  In the first, the replicas are started and get nothing but the ticks of
    their clocks, until each is in the view [k] after the first one, [k] at most 62,
    and has sent the leaders in turn a new-view for each of the [k] views before.
    In the second, no clock ticks: leaders get data, and replicas get messages that
    others have sent them.  In its course every block of the chain that the leaders
    in turn make of [x :: xs] is proposed to all by the leader of its view, with a
    certificate of its parent that verifies; the first one, of the view after the
    silence, has a timeout certificate of the view before that verifies when there
    was a silence ([k > 0]), and no other proposal has one.  In the end every one of
    the replicas has reported every block of the chain but the last four final.
    This is under the hypotheses that databases accept writes, signatures verify,
    the blocks to be made can be encoded and their hashes do not collide. *)
Theorem deployment_finalizes genesis header cert k x xs (g : gmap Z (consensus DB)) :
  in_service signer th replicas (DB := DB) -> genesis_ready genesis header cert -> (k <= 62)%nat ->
  (forall r, r ∈ replicas -> exists c, g !! r = Some c /\ born replicas genesis r c) ->
  let first := first_of (canon header) k x in
  sendable (first_view header k) (canon header) (canon cert) x.(pl_state) x.(pl_root) x.(pl_data) ->
  can_run signer replicas first xs ->
  NoDup (sbytes header.(Header_Parent) :: Header_Hash header :: (Header_Hash <$> first :: future first xs)) ->
  exists g1 g2,
    rtc (delivery signer silent_input) g g1
    /\ (forall r, r ∈ replicas -> exists c, g1 !! r = Some c /\ c.(c_view) = header.(Header_View) + 1 + Z.of_nat k
          /\ forall v, header.(Header_View) < v <= header.(Header_View) + Z.of_nat k ->
               newview_msg (H2 := signer r) r replicas (canon cert) v ∈ c.(c_Progress).(Messages))
    /\ rtc (delivery signer traffic) g1 g2
    /\ (forall i b, (first :: future first xs) !! i = Some b -> exists p, proposed replicas g2 p b /\ opens k i b p)
    /\ forall r, r ∈ replicas -> exists c, g2 !! r = Some c
         /\ forall i b, (first :: future first xs) !! i = Some b -> (i + 3 < length xs)%nat ->
              mkBlockEvent (canon b) true ∈ c.(c_Progress).(Events).
Proof.
  intros Hin Hgr Hk Hborn h Hsd Hrun Hnd.
  destruct (first_round signer th replicas genesis header cert k x (future h xs) g) as (g1 & g1' & l & Hs1 & Hq & Hs1' & Hr1); [done..|].
  destruct (many_rounds signer th replicas header.(Header_View) xs Hin g1' _ h (canon header) [] l Hr1 Hrun)
    as (g2 & p2 & h2 & parent2 & bs2 & l2 & Hs2 & Hr2 & Hprop & E).
  { apply list.NoDup_cons in Hnd as [_ Hnd]. by apply list.NoDup_cons in Hnd as [_ Hnd]. }
  exists g1, g2. split_and!; [exact Hs1| |by etrans| |].
  - intros r Hr. destruct (Hq r Hr) as (c & Hc & Hv & Hm). exists c. unfold first_view in *. rewrite canon_view in *. split_and!; [done..|].
    intros v Hv'. apply Hm. lia.
  - intros [|i] b Hb.
    + injection Hb as <-. eexists. split; [eapply proposed_stays; [exact Hs2|by eapply round_proposed]|]. by eapply first_opens, ro_proper.
    + destruct (Hprop b) as (q & Hq' & Ht); [by eapply list_elem_of_lookup_2|]. exists q. split; [done|]. unfold opens. rewrite Ht. right. lia.
  - intros r Hr. destruct (round_reported _ _ _ _ _ _ _ _ _ _ r Hr2 Hr) as (c & Hc & Hrep). exists c. split; [done|].
    intros i b Hb Hi. pose proof (future_views xs h i b Hb) as Hv. apply Hrep; [|rewrite canon_view, Hv; unfold h, first_of, first_view; simpl; lia].
    assert (El : length (canon <$> h :: future h xs) = S (length xs)) by (rewrite length_fmap; simpl; by rewrite future_length).
    rewrite E. apply (list_elem_of_lookup_2 _ (length xs - i - 4)). rewrite lookup_drop, lookup_app_l by (rewrite length_reverse, El; lia).
    rewrite reverse_lookup, El by (rewrite El; lia).
    replace (S (length xs) - S (4 + (length xs - i - 4)))%nat with i by lia. by rewrite list_lookup_fmap, Hb.
Qed.
End Finality.

(** ** Witness: four replicas, two silent views and five blocks

    Every replica finalizes the block of view 3. *)

Definition view_data (x : byte) : payload := mkPayload None (Some [x]) (mkData []).
Definition demo_pool : gmap Z (consensus mem_db) := <[0 := demo 0]> (<[1 := demo 1]> (<[2 := demo 2]> {[3 := demo 3]})).

Lemma demo_ids r : r ∈ demo_replicas -> r = 0 \/ r = 1 \/ r = 2 \/ r = 3.
Proof. unfold demo_replicas. set_solver. Qed.

Lemma demo_sign_length sk msg sig : BLS12381Signer_Sign sk [] msg = Ok sig -> len msg = 32.
Proof. unfold BLS12381Signer_Sign. destruct (len msg =? 32) eqn:E; [|done]. intros _. by apply Z.eqb_eq. Qed.

Lemma demo_in_service : in_service demo_signers 3 demo_replicas (DB := mem_db).
Proof.
  split.
  - intros db k v. eexists. reflexivity.
  - intros r msg Hm. eexists. cbn [Sign demo_signers demo_signer bls_signer]. unfold BLS12381Signer_Sign. rewrite (proj2 (Z.eqb_eq _ _) Hm). reflexivity.
  - intros r msg sig Hr Hs. cbn [Sign demo_signers demo_signer bls_signer] in Hs. pose proof (demo_sign_length _ _ _ Hs) as Hm.
    destruct (sign_verifies demo_verifier [0; 1; 2; 3]%nat (Z.to_nat r) r msg) as (sig' & Hs' & Hv); [reflexivity| | |exact Hm|].
    + destruct (demo_ids r Hr) as [->|[->|[->| ->]]]; computed.
    + destruct (demo_ids r Hr) as [->|[->|[->| ->]]]; reflexivity.
    + rewrite Hs in Hs'. injection Hs' as <-. exact Hv.
  - intros r Hr. destruct (demo_ids r Hr) as [->|[->|[->| ->]]]; split; computed.
  - apply (bool_decide_unpack (NoDup demo_replicas)). vm_compute. exact I.
  - vm_compute. discriminate.
  - vm_compute. split; discriminate.
Qed.

Lemma demo_genesis_ready : genesis_ready genesis genesis_header genesis_cert.
Proof.
  split; [reflexivity|reflexivity|apply genesis_header_good|apply genesis_cert_good| |].
  - split; vm_compute; reflexivity.
  - split; computed.
Qed.

Lemma demo_pool_born r : r ∈ demo_replicas -> exists c, demo_pool !! r = Some c /\ born demo_replicas genesis r c.
Proof.
  intros Hr. exists (demo r). apply demo_ids in Hr as Hr'.
  split; [destruct Hr' as [->|[->|[->| ->]]]; reflexivity|apply demo_born; lia].
Qed.

Definition demo_blocks : list payload := view_data <$> [x02; x03; x04; x05].
Definition first_block : Header := first_of (canon genesis_header) 2 (view_data x01).

(** What is built can be encoded. *)
Ltac can_be_sent := split;
  [ computed
  | split; [split; computed|computed]
  | split; [constructor|computed]
  | split; [let E := fresh in intros ? E; vm_compute in E; injection E as <-; repeat constructor; computed|computed] ].

Lemma demo_can_send : sendable (first_view genesis_header 2) (canon genesis_header) (canon genesis_cert) None (Some [x01]) (mkData []).
Proof. can_be_sent. Qed.

Lemma demo_can_run : can_run demo_signers demo_replicas first_block demo_blocks.
Proof.
  cbn [can_run demo_blocks fmap list_fmap].
  split_and!; try exact I; intros l E; vm_compute in E; injection E as <-; can_be_sent.
Qed.

Lemma deployment_finalizes_witness : exists g1 g2 c p, rtc (delivery demo_signers silent_input) demo_pool g1
  /\ rtc (delivery demo_signers traffic) g1 g2 /\ g2 !! 3 = Some c
  /\ mkBlockEvent (canon first_block) true ∈ c.(c_Progress).(Events)
  /\ proposed demo_replicas g2 p first_block /\ opens 2 0 first_block p /\ is_Some p.(Proposal_Timeout).
Proof.
  destruct (deployment_finalizes demo_signers 3 demo_replicas genesis genesis_header genesis_cert 2 (view_data x01) demo_blocks demo_pool)
    as (g1 & g2 & Hquiet & _ & Hsteps & Hprop & Hall).
  - exact demo_in_service.
  - exact demo_genesis_ready.
  - lia.
  - exact demo_pool_born.
  - exact demo_can_send.
  - exact demo_can_run.
  - apply (bool_decide_unpack (NoDup (A := bytes) _)). vm_compute. exact I.
  - destruct (Hall 3) as (c & Hc & Hfin); [unfold demo_replicas; set_solver|].
    destruct (Hprop 0%nat first_block eq_refl) as (p & Hp & Ho). exists g1, g2, c, p. split_and!; [exact Hquiet|exact Hsteps|exact Hc| |exact Hp|exact Ho|].
    + apply (Hfin 0%nat); [reflexivity|simpl; lia].
    + unfold opens in Ho. destruct (Proposal_Timeout p) as [tc|]; [by exists tc|]. exfalso. lia.
Defined.
