(* ===== verification/Crash.v ===== *)
(** * One crashed replica

    The rule of consensus.go finalizes a block when it, its child and its grandchild
    are certified in three consecutive views, and the certificate of a view is made
    by the leader of the next.  So it takes four consecutive views whose leaders are
    up, and the leaders rotate: with four replicas, one that is down from the
    beginning is enough, and nothing is ever finalized.

    [stuck] is the invariant of a replica that runs: every block it knows, every
    certificate and every ballot that reaches it comes from views whose leaders are
    up.  No message is lost, no other replica fails. *)

From Stdlib Require Import ZArith Lia.
From stdpp Require Import relations.
From S2P Require Import Prelude Wire Types Proto Codec Encoding Crypto Store Quorum Progress Consensus.
From S2P Require Import ConsensusFacts Handlers Replica Ledger Locking Instances CryptoSpec Safety Agreement.

Create HintDb stuck.

Section Stuck.
Context {DB : Type} `{KVStore DB} `{!KVLaws DB} `{Hasher} `{!HasherLaws} `{Signer} `{Verifier}.
Context (blk : bytes -> option (Z * bytes)) (root : bytes) (replicas : list Z) (up : Z -> bool).
(** The signatures of the replicas that are up; [self] is one of them. *)
Context (honest : bytes -> bytes -> Prop) (self : Z) (Hself : up self = true)
  (Hsign : forall msg sig, Sign [] msg = Ok sig -> honest msg sig)
  (Hverify : forall r msg sig, honest msg sig -> Verify r msg sig = true -> up r = true).
Implicit Types c : consensus DB.

(** The leader of view [v] is up. *)
Definition manned (v : Z) : Prop := exists r, leader_of replicas (wrap64 v) = Ok r /\ up r = true.
(** A block for which there may be a certificate. *)
Definition certifiable (k : bytes) : Prop := k = root \/ exists v, at_view blk k v /\ manned v /\ manned (v + 1).

(** Of four consecutive views one has a leader that is down; nothing is known of the
    parent of the root. *)
Context (Hcover : forall v, manned v -> manned (v + 1) -> manned (v + 2) -> manned (v + 3) -> False) (Hroot : rooted blk root).

(** What is sent. *)
Definition fair (m : Message) : Prop :=
  match m.(Message_GetType) with
  | Some (Message_Proposal p) => forall h, p.(Proposal_Header) = Some h -> good h /\ conforms blk h
      /\ (forall cert, p.(Proposal_ParentCert) = Some cert -> certifiable (sbytes cert.(Certificate_Block)))
      /\ honest (Header_Hash h) (sbytes p.(Proposal_Sig))
  | Some (Message_Vote v) => exists h, conforms blk h /\ sbytes v.(Vote_Block) = Header_Hash h /\ v.(Vote_View) = h.(Header_View)
      /\ manned h.(Header_View)
  | Some (Message_Newview n) => forall cert, n.(NewView_Cert) = Some cert -> certifiable (sbytes cert.(Certificate_Block))
  | Some (Message_Sync _) => False
  | None => True
  end.

(** The headers of a store, and the collector. *)
Definition store_manned (db : DB) : Prop := forall k h, GetHeader db k = Ok h -> Header_Hash h = k /\ conforms blk h
  /\ is_u64 h.(Header_View) /\ (k = root \/ (certifiable (sbytes h.(Header_Parent)) /\ manned h.(Header_View))).
Definition votes_manned (v : Votes) : Prop := forall cert, v.(Votes_Cert) = Some cert -> exists h, v.(Votes_Header) = Some h
  /\ sbytes cert.(Certificate_Block) = Header_Hash h /\ conforms blk h /\ manned h.(Header_View).
Definition unfinal (e : BlockEvent) : Prop := e.(Finalized) = false.

Record stuck c : Prop := {
  sk_store : store_manned c.(c_store);
  sk_cert : certifiable (sbytes c.(c_prepareCert).(Certificate_Block));
  sk_votes : votes_manned c.(c_votes);
  sk_commit : forall v0, at_view blk root v0 -> v0 <= c.(c_commit).(Header_View);
  sk_id : c.(c_id) = self;
  sk_replicas : c.(c_replicas) = replicas;
  sk_messages : Forall (fun m => fair m.(MsgTo_Message)) c.(c_Progress).(Messages);
  sk_events : Forall unfinal c.(c_Progress).(Events);
}.

Definition always (_ _ : consensus DB) : Prop := True.
#[local] Instance always_preorder : PreOrder always.
Proof. done. Qed.
Abbreviation stays m := (moves stuck stuck always m).

(** ** No certified three-chain *)

Lemma certifiable_at k v : certifiable k -> k <> root -> at_view blk k v -> manned v /\ manned (v + 1).
Proof. intros [?|(v' & Hv' & Hm)] Hne Hv; [done|]. by rewrite (at_view_inj _ _ _ _ Hv Hv'). Qed.

Lemma conforms_at_view h : conforms blk h -> at_view blk (Header_Hash h) h.(Header_View).
Proof. intros Hc. by eexists. Qed.

Lemma wrap_next a b : is_u64 a -> is_u64 b -> wrap64 (a - b) = 1 -> forall k, manned (a + k) -> manned (b + 1 + k).
Proof.
  intros Ha Hb E k (r & Hr & Hu). exists r. split; [|done]. rewrite <- Hr. f_equal. unfold wrap64 in *.
  replace (b + 1 + k) with (b + k + 1) by lia. rewrite <- E, Zplus_mod_idemp_r. f_equal. lia.
Qed.

(** A three-chain in consecutive views starts at the root. *)
Lemma three_views db parent g gg : store_manned db -> conforms blk parent -> is_u64 parent.(Header_View) ->
  certifiable (Header_Hash parent) -> (Header_Hash parent = root \/ certifiable (sbytes parent.(Header_Parent))) ->
  GetHeader db (sbytes parent.(Header_Parent)) = Ok g -> GetHeader db (sbytes g.(Header_Parent)) = Ok gg ->
  wrap64 (parent.(Header_View) - g.(Header_View)) = 1 -> wrap64 (g.(Header_View) - gg.(Header_View)) = 1 ->
  Header_Hash gg = root.
Proof.
  intros Hs Hp Up Hcp Hpp Hg Hgg E1 E2.
  destruct (Hs _ _ Hg) as (Eg & Cg & Ug & Tg), (Hs _ _ Hgg) as (Egg & Cgg & Ugg & Tgg).
  destruct Hroot as (w & p & Er & Np).
  assert (Npr : forall h q, GetHeader db (sbytes h.(Header_Parent)) = Ok q -> conforms blk h -> Header_Hash h <> root).
  { intros h q Hq Ch E. unfold conforms in Ch. rewrite E, Er in Ch. injection Ch as _ Ep.
    destruct (Hs _ _ Hq) as (Eq & Cq & _). unfold conforms in Cq. rewrite Eq, <- Ep in Cq. congruence. }
  pose proof (Npr _ _ Hg Hp) as Np1. pose proof (Npr _ _ Hgg Cg) as Np2.
  destruct (decide (Header_Hash gg = root)) as [|Ngg]; [done|exfalso].
  destruct Hpp as [?|Hpp]; [done|]. destruct Tg as [?|[Hpg Hmg]]; [congruence|]. destruct Tgg as [?|[_ Hmgg]]; [congruence|].
  destruct (certifiable_at _ _ Hcp Np1 (conforms_at_view _ Hp)) as [Hm1 Hm1'].
  apply (Hcover gg.(Header_View)); [done|..].
  - rewrite <- (Z.add_0_r (_ + 1)). apply (wrap_next _ _ Ug Ugg E2). by rewrite Z.add_0_r.
  - replace (Header_View gg + 2) with (Header_View gg + 1 + 1) by lia. apply (wrap_next _ _ Ug Ugg E2).
    rewrite <- (Z.add_0_r (_ + 1)). apply (wrap_next _ _ Up Ug E1). by rewrite Z.add_0_r.
  - replace (Header_View gg + 3) with (Header_View gg + 1 + 2) by lia. apply (wrap_next _ _ Ug Ugg E2).
    replace (Header_View g + 2) with (Header_View g + 1 + 1) by lia. by apply (wrap_next _ _ Up Ug E1).
Qed.

(** ** Steps that do not matter *)

Record unmoved c c' : Prop := {
  um_store : c'.(c_store) = c.(c_store);
  um_cert : c'.(c_prepareCert) = c.(c_prepareCert);
  um_votes : c'.(c_votes) = c.(c_votes) \/ c'.(c_votes).(Votes_Cert) = None;
  um_commit : c'.(c_commit) = c.(c_commit);
  um_id : c'.(c_id) = c.(c_id);
  um_replicas : c'.(c_replicas) = c.(c_replicas);
  um_messages : c'.(c_Progress).(Messages) = c.(c_Progress).(Messages);
  um_events : c'.(c_Progress).(Events) = c.(c_Progress).(Events);
}.

Lemma stays_modify (g : consensus DB -> consensus DB) : (forall c, unmoved c (g c)) -> stays (modify g).
Proof.
  intros Hg c []. split; [done|]. destruct (Hg c) as [E1 E2 E3 E4 E5 E6 E7 E8].
  split; rewrite ?E1, ?E2, ?E4, ?E5, ?E6, ?E7, ?E8; try done.
  destruct E3 as [->|E3]; [done|]. intros cert. by rewrite E3.
Qed.

Definition no_header (f : DB -> res DB) : Prop := forall db db', f db = Ok db' ->
  exists k v, (forall hash, k <> KHeader hash) /\ writes_entry db db' k v.

Lemma store_manned_other db db' k v : (forall hash, k <> KHeader hash) -> writes_entry db db' k v -> store_manned db -> store_manned db'.
Proof. intros N W Hs k' h. rewrite (GetHeader_other _ _ _ _ _ W) by done. apply Hs. Qed.

Lemma stays_save f : no_header f -> stays (save f).
Proof.
  intros Hf c []. apply wp_save; [done|]. intros db (k & v & N & W)%Hf. split; [done|]. split; try done. by eapply store_manned_other.
Qed.

Lemma no_header_SaveView v : no_header (fun db => SaveView db v).
Proof. intros db db' W%SaveView_entry. by exists KView, (EncodeUint64 v). Qed.
Lemma no_header_SaveVoted v : no_header (fun db => SaveVoted db v).
Proof. intros db db' W%SaveVoted_entry. by exists KVoted, (EncodeUint64 v). Qed.
Lemma no_header_SaveCertificate cert : no_header (fun db => SaveCertificate db cert).
Proof. intros db db' (buf & _ & W)%SaveCertificate_entry. eexists (KCert _), buf. by split. Qed.
Lemma no_header_SaveData hash d : no_header (fun db => SaveData db hash d).
Proof. intros db db' (dd & buf & _ & _ & W)%SaveData_entry. eexists (KData _), buf. by split. Qed.
Lemma no_header_SetTag sk hash : sk ∈ [KPrepare; KLocked; KDecide] -> no_header (fun db => SetTag db (skey_bytes sk) hash).
Proof. intros Hk db db' W%SetTag_entry; [|done]. exists sk, hash. split; [|done]. intros h ->. set_solver. Qed.

Lemma stays_getHeader hash : stays (getHeader hash).
Proof. intros c Hc. unfold wp, getHeader. by destruct (GetHeader (c_store c) (sbytes hash)). Qed.
Lemma stays_getLeader view : stays (getLeader view).
Proof. intros c Hc. by apply wp_getLeader. Qed.
Lemma stays_startTimeouts : stays startTimeouts.
Proof.
  intros c Hc. unfold wp, startTimeouts. destruct (Timeouts_Start (c_timeouts c) (c_view c)) as [t| |]; [|done..].
  destruct Hc. by split.
Qed.
Lemma stays_resetTimeouts : stays (modify resetTimeouts).
Proof.
  apply stays_modify. intros c. unfold resetTimeouts.
  destruct (c_timeoutCert c), (Timeouts_Cert (c_timeouts c)); split; try done; by left.
Qed.
Lemma stays_release : stays releaseTimeoutCert.
Proof.
  apply stays_modify. intros c. destruct (load_timeoutCert c) as [t|]; [destruct (TimeoutCertificate_View t <? _)|]; split; try done; by left.
Qed.

(** ** The handlers *)

Section Reentrant.
Context (step : Message -> M (consensus DB) unit) (step_stays : forall m, fair m -> stays (step m)).

Lemma stays_deliver m ids : fair m -> stays (deliver_self step m ids).
Proof.
  intros Hm. induction ids as [|i ids IH]; simpl; [apply keeps_skip, _|].
  apply keeps_bind; [apply _|apply keeps_gets, _|intros me].
  apply keeps_bind; [apply _| |by intros _]. apply keeps_when; [apply _|auto].
Qed.

Lemma stays_sendMsg m ids : fair m -> stays (sendMsg step m ids).
Proof.
  intros Hm. unfold sendMsg. apply keeps_bind; [apply _| |intros _].
  - intros c []. split; [done|]. split; try done. apply Forall_app. split; [done|]. by constructor.
  - destruct ids; [by apply stays_deliver|by apply step_stays].
Qed.

Ltac walk := repeat first
  [ apply keeps_ret; apply _ | apply keeps_gets; apply _ | apply keeps_skip; apply _
  | apply keeps_liftr; apply _ | apply keeps_die; apply _
  | apply stays_save; first [apply no_header_SaveView|apply no_header_SaveVoted|apply no_header_SaveCertificate|apply no_header_SaveData]
  | apply stays_getHeader | apply stays_getLeader | apply stays_startTimeouts
  | apply stays_resetTimeouts | apply stays_release | apply stays_sendMsg
  | solve [auto with stuck nocore]
  | apply keeps_bind; [apply _| |intros ?]
  | apply keeps_when; [apply _|intros ?]
  | lazymatch goal with
    | |- moves _ _ _ (match ?x with _ => _ end) => destruct x
    | |- moves _ _ _ (let '_ := ?x in _) => destruct x
    end
  | apply stays_modify; intros ?; split; (reflexivity || (left; reflexivity) || (right; reflexivity)) ].

Lemma stays_sendNewView : stays (sendNewView step).
Proof.
  intros c Hc. unfold sendNewView. apply wp_bind, wp_gets, wp_bind, wp_getLeader; [done|intros leader _].
  apply wp_bind, wp_gets, wp_bind, wp_gets. pose proof (sk_cert c Hc) as Hcert. generalize dependent (c_prepareCert c). intros cert Hcert.
  apply (wp_moves always stuck stuck stuck); [|done|exact Hc|done].
  walk. by intros ? [= <-].
Qed.

Hint Resolve stays_sendNewView : stuck.
Lemma stays_nextRound b : stays (nextRound step b).
Proof. unfold nextRound, resetTimeout, waitForData, modify_progress. walk. Qed.
Lemma stays_setView v : stays (setView v).
Proof. unfold setView. walk. Qed.
Hint Resolve stays_nextRound stays_setView : stuck.
Lemma stays_syncView header tcert : stays (syncView step header tcert).
Proof. unfold syncView. walk. Qed.
Lemma stays_Tick : stays (Tick step).
Proof. unfold Tick, onTimeout. walk. Qed.
Lemma stays_checkTimeout header t : stays (checkTimeout header t).
Proof. unfold checkTimeout. walk. Qed.
Hint Resolve stays_syncView stays_checkTimeout : stuck.

Lemma stays_updatePrepare header cert : certifiable (sbytes cert.(Certificate_Block)) -> stays (updatePrepare header cert).
Proof.
  intros Hcert. unfold updatePrepare, modify_progress. apply keeps_bind; [apply _|by walk|intros p]. apply keeps_when; [apply _|intros _].
  apply keeps_bind; [apply _| |intros _]; [apply stays_modify; intros c; split; try done; by left|].
  apply keeps_bind; [apply _| |intros _]; [intros c []; split; [done|]; by split|].
  apply keeps_bind; [apply _| |intros _]; [apply stays_save, (no_header_SetTag KPrepare); set_solver|].
  intros c []. split; [done|]. split; try done. apply Forall_app. split; [done|]. by constructor.
Qed.

Lemma stays_update parent : conforms blk parent -> is_u64 parent.(Header_View) -> certifiable (Header_Hash parent) ->
  (Header_Hash parent = root \/ certifiable (sbytes parent.(Header_Parent))) -> stays (update parent).
Proof.
  intros Hp Up Hcp Hpp c Hc. unfold update. apply wp_bind, wp_lookup; [done|by intros _; apply wp_skip|]. intros g Hg.
  apply wp_bind, wp_lookup; [done|by intros _; apply wp_skip|]. intros gg Hgg.
  pose proof (three_views _ parent g gg (sk_store c Hc) Hp Up Hcp Hpp Hg Hgg) as Hthree.
  destruct (sk_store c Hc _ _ Hgg) as (_ & Cgg & _).
  apply (wp_moves always stuck stuck stuck); [|done|exact Hc|done].
  apply keeps_bind; [apply _|by walk|intros locked]. apply keeps_bind; [apply _| |intros _].
  { apply keeps_when; [apply _|intros _]. apply keeps_bind; [apply _| |intros _].
    - apply stays_modify. intros c1. split; try done. by left.
    - apply stays_save, (no_header_SetTag KLocked). set_solver. }
  intros c1 Hc1. apply wp_bind, wp_gets, wp_when; [|by intros _]. intros E. zbool. exfalso.
  pose proof (conforms_at_view _ Cgg) as Hv. rewrite Hthree in Hv by done. pose proof (sk_commit c1 Hc1 _ Hv). lia.
Qed.

Lemma store_manned_save db db' h : good h -> conforms blk h -> certifiable (sbytes h.(Header_Parent)) -> manned h.(Header_View) ->
  SaveHeader db h = Ok db' -> store_manned db -> store_manned db'.
Proof.
  intros Hg Hc Hp Hm Hs HT. pose proof (SaveHeader_GetHeader _ _ _ Hg Hs) as Hget.
  apply SaveHeader_entry in Hs as (buf & _ & W). intros k h'. destruct (decide (k = Header_Hash h)) as [->|N].
  - rewrite Hget. intros [= <-]. unfold conforms. rewrite Header_Hash_canon by done.
    assert (E : sbytes (canon h).(Header_Parent) = sbytes h.(Header_Parent)).
    { unfold canon. simpl. unfold Header_canon. simpl. by destruct (Header_Parent h) as [[]|]. }
    rewrite E. split_and!; [done..|apply Hg|by right].
  - rewrite (GetHeader_other _ _ _ _ _ W) by congruence. apply HT.
Qed.

Lemma stays_persistProposal header data cert : good header -> conforms blk header -> certifiable (sbytes header.(Header_Parent)) ->
  manned header.(Header_View) -> stays (persistProposal header data cert).
Proof.
  intros Hg Hh Hp Hm. unfold persistProposal. apply keeps_bind; [apply _| |intros _; by walk].
  intros c []. apply wp_save; [done|]. intros db S. split; [done|]. split; try done. by eapply store_manned_save.
Qed.

Lemma stays_sendVote header : conforms blk header -> manned header.(Header_View) -> stays (sendVote step header).
Proof.
  intros Hh Hm. unfold sendVote. apply keeps_bind; [apply _|by walk|intros _]. apply keeps_bind; [apply _|by walk|intros _].
  apply keeps_bind; [apply _| |intros _].
  { intros c []. split; [done|]. split; try done. intros cert [= <-]. by exists header. }
  walk. by exists header.
Qed.

Lemma stays_acceptProposal msg header parent cert : good header -> conforms blk header -> certifiable (sbytes header.(Header_Parent)) ->
  manned header.(Header_View) -> certifiable (sbytes cert.(Certificate_Block)) ->
  conforms blk parent -> is_u64 parent.(Header_View) -> certifiable (Header_Hash parent) ->
  (Header_Hash parent = root \/ certifiable (sbytes parent.(Header_Parent))) ->
  stays (acceptProposal step msg header parent cert).
Proof.
  intros. unfold acceptProposal, safeNode. apply keeps_bind; [apply _|by apply stays_updatePrepare|intros _].
  apply keeps_bind; [apply _|apply stays_syncView|intros _]. apply keeps_bind; [apply _|by apply stays_update|intros _].
  apply keeps_bind; [apply _|by walk|intros view]. apply keeps_when; [apply _|intros _].
  apply keeps_bind; [apply _|by apply stays_persistProposal|intros _]. apply keeps_bind; [apply _|by walk|intros voted].
  apply keeps_when; [apply _|intros _]. apply keeps_bind; [apply _|by walk|intros ok].
  apply keeps_when; [apply _|intros _]. by apply stays_sendVote.
Qed.

Lemma stays_onProposal p : fair (NewProposalMsg p) -> stays (onProposal step p).
Proof.
  intros Hp c Hc. unfold onProposal. apply wp_bind, wp_liftr; [done|]. intros h Hh.
  destruct (Hp h) as (Hg & Hch & Hcert & Hhon); [by destruct (Proposal_Header p); simplify_eq/=|].
  destruct (Proposal_ParentCert p) as [cert|] eqn:Ecert; [|by apply wp_skip]. specialize (Hcert cert eq_refl).
  apply wp_when; [intros Eb|by intros _]. apply bytes_eqb_eq in Eb. rewrite <- Eb in Hcert.
  apply wp_bind, wp_liftr; [done|]. intros valid _. apply wp_when; [intros _|by intros _].
  apply wp_bind, wp_lookup; [done|intros _; apply (wp_moves always stuck stuck stuck); [unfold modify_progress; walk|done..]|].
  intros parent Hget. destruct (sk_store c Hc _ _ Hget) as (Epar & Cpar & Upar & Tpar).
  apply (wp_moves always stuck stuck stuck); [|done|exact Hc|done].
  apply keeps_bind; [apply _|apply stays_checkTimeout|intros tok]. apply keeps_when; [apply _|intros _].
  intros c1 Hc1. apply wp_bind, wp_getLeader; [done|]. intros leader Hl. apply wp_when; [intros Hv|by intros _].
  assert (Hm : manned h.(Header_View)).
  { exists leader. split; [|by eapply Hverify]. rewrite wrap64_small by apply Hg. by rewrite <- (sk_replicas c1 Hc1). }
  apply (wp_moves always stuck stuck stuck); [|done|exact Hc1|done].
  apply stays_acceptProposal; try done; [by rewrite <- Eb|by rewrite Epar|]. rewrite Epar. destruct Tpar as [?|[? _]]; [by left|by right].
Qed.

(** The collector keeps its header, and its certificate names the block of the
    ballot it counts. *)
Lemma Votes_Collect_block v vote v' b : Votes_Collect v vote = Ok (v', b) -> v'.(Votes_Header) = v.(Votes_Header)
  /\ forall cert', v'.(Votes_Cert) = Some cert' -> exists cert, v.(Votes_Cert) = Some cert
     /\ sbytes cert'.(Certificate_Block) = sbytes cert.(Certificate_Block)
     /\ (b = true -> sbytes cert.(Certificate_Block) = sbytes vote.(Vote_Block)).
Proof.
  unfold Votes_Collect. destruct (Votes_Cert v) as [cert|] eqn:Ec; [|by intros [= <- <-]; rewrite Ec].
  assert (Hid : Ok (v, false) = Ok (v', b) -> v' = v /\ b = false) by by intros [= <- <-].
  destruct (bytes_eqb _ _) eqn:Eb; simpl negb; cbv iota; [|intros E; destruct (Hid E) as [-> ->]; split; [done|]; intros cert' E'; exists cert; split_and!; congruence].
  destruct (bool_decide _); [intros E; destruct (Hid E) as [-> ->]; split; [done|]; intros cert' E'; exists cert; split_and!; congruence|].
  destruct (Verify _ _ _); simpl negb; cbv iota; [|intros E; destruct (Hid E) as [-> ->]; split; [done|]; intros cert' E'; exists cert; split_and!; congruence].
  intros (sig & _ & [= <- <-])%res_bind_Ok. split; [done|]. intros cert' [= <-]. exists cert. split_and!; [done..|].
  intros _. by apply bytes_eqb_eq.
Qed.

Lemma stays_onVote vote : fair (NewVoteMsg vote) -> stays (onVote step vote).
Proof.
  intros (hv & Chv & Ehv & Evv & _) c Hc. unfold onVote. apply wp_bind, wp_gets, wp_bind, wp_getLeader; [done|]. intros leader Hl.
  apply wp_when; [intros Eme|by intros _]. apply Z.eqb_eq in Eme.
  apply wp_bind, wp_gets, wp_bind, wp_liftr; [done|]. intros [votes' majority] [Eh Hcol]%Votes_Collect_block.
  apply wp_bind, wp_modify.
  assert (Hv' : votes_manned votes').
  { intros cert' Ec'. destruct (Hcol cert' Ec') as (cert & Ec & Eb & _). destruct (sk_votes c Hc cert Ec) as (h & Hh & Ebh & Hrest).
    exists h. rewrite Eh, Eb. done. }
  assert (Hc1 : stuck (set_votes votes' c)) by (destruct Hc; by split).
  apply wp_when; [intros ->|by intros _]. apply wp_bind, wp_liftr; [done|]. intros cert' Ed.
  assert (Ec' : votes'.(Votes_Cert) = Some cert') by by destruct (Votes_Cert votes'); simplify_eq/=.
  destruct (Hcol cert' Ec') as (cert & Ec & Eb & Ebv). specialize (Ebv eq_refl).
  destruct (Hv' cert' Ec') as (h & Hh & Ebh & Ch & Hm).
  assert (Hcert : certifiable (sbytes cert'.(Certificate_Block))).
  { right. exists h.(Header_View). rewrite Ebh. split_and!; [by apply conforms_at_view|done|].
    assert (Ev : h.(Header_View) = vote.(Vote_View)).
    { rewrite Evv. eapply at_view_inj; [by apply conforms_at_view|]. replace (Header_Hash h) with (Header_Hash hv) by congruence.
      by apply conforms_at_view. }
    rewrite Ev. exists leader. rewrite (sk_replicas c Hc) in Hl. split; [done|]. by rewrite <- Eme, (sk_id c Hc). }
  pose proof (fun h' => stays_updatePrepare h' cert' Hcert) as Hup.
  apply (wp_moves always stuck stuck stuck); [|done|exact Hc1|done]. walk.
Qed.

Lemma stays_onNewView n : fair (NewViewMsg n) -> stays (onNewView step n).
Proof.
  intros Hn. unfold onNewView. do 2 (apply keeps_bind; [apply _|by walk|intros ?]). apply keeps_when; [apply _|intros _].
  intros c Hc. apply wp_bind, wp_liftr; [done|]. intros cert Ed.
  assert (Hcert : certifiable (sbytes cert.(Certificate_Block))) by (apply Hn; by destruct (NewView_Cert n); simplify_eq/=).
  apply (wp_moves always stuck stuck stuck); [|done|exact Hc|done]. unfold waitForData, modify_progress.
  apply keeps_bind; [apply _|by walk|intros [header|]]; [|by walk]. apply keeps_bind; [apply _|by apply stays_updatePrepare|intros _]. walk.
Qed.

Lemma stays_dispatch m : fair m -> stays (dispatch step m).
Proof.
  intros Hm. unfold dispatch. pose proof Hm as Hm'. unfold fair in Hm'.
  destruct m as [[[]|]]; simpl in *; [by apply stays_onProposal|by apply stays_onNewView|by apply stays_onVote|done|apply keeps_skip, _].
Qed.

(** What the leader is asked to propose conforms. *)
Lemma stays_Send state droot data c : stuck c -> (c.(c_waitingData) = true -> good (own_header state droot c) /\ conforms blk (own_header state droot c)) ->
  wp (Send step state droot data) (fun _ s' => always c s' /\ stuck s') (always c) c.
Proof.
  intros Hc Hh. unfold Send. apply wp_bind, wp_gets, wp_when; [intros Ew|by intros _]. destruct (Hh Ew) as [Hg Hch].
  apply wp_bind, wp_modify, wp_bind, wp_gets, wp_bind, wp_liftr; [done|]. intros sig Hs.
  assert (Hc1 : stuck (set_waitingData false c)) by (destruct Hc; by split).
  apply (wp_moves always stuck stuck stuck); [|done|exact Hc1|done]. apply stays_sendMsg. intros h [= <-]. split_and!; [done|done| |by apply Hsign].
  intros cert [= <-]. apply (sk_cert c Hc).
Qed.
End Reentrant.

Lemma stays_Step d m : fair m -> stays (Step d m).
Proof. revert m. induction d as [|d IH]; intros m Hm; [apply keeps_die, _|]. by apply stays_dispatch. Qed.

(** What a replica may be given. *)
Definition fair_input c (i : input) : Prop :=
  match i with
  | IStep m => fair m
  | ISend state droot _ => c.(c_waitingData) = true -> good (own_header state droot c) /\ conforms blk (own_header state droot c)
  | IStart | ITick => True
  end.

Lemma stays_handle c i : fair_input c i -> stuck c -> wp (handle i) (fun _ s' => always c s' /\ stuck s') (always c) c.
Proof.
  intros Hi Hc. assert (Hs : forall m, fair m -> stays (Step 2 m)) by (intros; by apply stays_Step).
  destruct i; cbn [handle]; [by apply stays_nextRound|by apply Hs|by apply stays_Send|by apply stays_Tick].
Qed.
End Stuck.

(** ** The deployment *)

Section Deployment.
Context {DB : Type} `{KVStore DB} `{!KVLaws DB} `{Hasher} `{!HasherLaws} `{Verifier} (signer : Z -> Signer).
Context (th : Z) `{!VerifierLaws th}.
Context (blk : bytes -> option (Z * bytes)) (root : bytes) (replicas : list Z) (up : Z -> bool).
Implicit Types (g : gmap Z (consensus DB)) (c : consensus DB).

(** Replica [r] may be given its start, a tick, data for a block that can be encoded
    and that [blk] knows, and any message that a replica has sent. *)
Definition given g (r : Z) c (i : input) : Prop :=
  match i with
  | IStart | ITick => True
  | ISend state droot _ => c.(c_waitingData) = true -> good (own_header state droot c) /\ conforms blk (own_header state droot c)
  | IStep m => exists src cs ids, g !! src = Some cs /\ mkMsgTo ids m ∈ cs.(c_Progress).(Messages)
  end.
(** Steps of the replicas that are up. *)
Inductive upstep g : gmap Z (consensus DB) -> Prop :=
| up_input_step r i c c' : up r = true -> g !! r = Some c -> given g r c i -> run signer r i c = (c', inl tt) -> upstep g (<[r := c']> g).

(** Signatures of replicas that are up verify for such replicas only. *)
Definition no_forgery : Prop := forall r r' msg sig, up r = true -> @Sign (signer r) [] msg = Ok sig ->
  Verify r' msg sig = true -> up r' = true.
Definition honest_sig (msg sig : bytes) : Prop := exists r, up r = true /\ @Sign (signer r) [] msg = Ok sig.

Abbreviation fair := (fair blk root replicas up honest_sig).
Abbreviation stuck := (stuck blk root replicas up honest_sig).

Record node_stuck (r : Z) c : Prop := {
  ns_messages : Forall (fun m => fair m.(MsgTo_Message)) c.(c_Progress).(Messages);
  ns_events : Forall unfinal c.(c_Progress).(Events);
  ns_up : up r = true -> stuck r c;
}.
Definition all_stuck g : Prop := forall r c, g !! r = Some c -> node_stuck r c.

Lemma upstep_stuck g g' : no_forgery -> rooted blk root ->
  (forall v, manned replicas up v -> manned replicas up (v + 1) -> manned replicas up (v + 2) -> manned replicas up (v + 3) -> False) ->
  upstep g g' -> all_stuck g -> all_stuck g'.
Proof.
  intros Hf Hr Hcov [r i c c' Hup Hc Hi Hrun] Hg r1 c1. destruct (decide (r1 = r)) as [->|Hne]; [|rewrite lookup_insert_ne by done; apply Hg].
  rewrite lookup_insert_eq. intros [= <-].
  assert (Hfi : fair_input blk root replicas up honest_sig c i).
  { destruct i as [|m|st dr data|]; try done. destruct Hi as (src & cs & ids & Hsrc & Hm).
    pose proof (ns_messages _ _ (Hg _ _ Hsrc)) as Hms. rewrite list.Forall_forall in Hms. by apply (Hms _ Hm). }
  pose proof (stays_handle (H2 := signer r) blk root replicas up honest_sig r Hup
    (fun msg sig Hs => ex_intro _ r (conj Hup Hs))
    (fun r' msg sig Hh Hv => match Hh with ex_intro _ r0 (conj Hu0 Hs0) => Hf r0 r' msg sig Hu0 Hs0 Hv end)
    Hcov Hr c i Hfi (ns_up _ _ (Hg _ _ Hc) Hup)) as Hw.
  unfold wp in Hw. unfold run in Hrun. rewrite Hrun in Hw. destruct Hw as [_ Hs]. split; [apply Hs|apply Hs|done].
Qed.

(** ** Four replicas *)

Lemma manned_index v : len replicas = 4 -> manned replicas up v ->
  exists r, replicas !! Z.to_nat (v mod 4) = Some r /\ up r = true.
Proof.
  intros Hlen (r & Hr & Hu). exists r. split; [|done]. unfold leader_of in Hr. rewrite Hlen in Hr. simpl in Hr.
  replace (wrap64 v mod 4) with (v mod 4) in Hr; [by destruct (replicas !! _); simplify_eq|].
  unfold wrap64. rewrite Z.mod_mod_divide; [done|]. by exists (2 ^ 62).
Qed.

Lemma four_views d : len replicas = 4 -> d ∈ replicas -> up d = false ->
  forall v, manned replicas up v -> manned replicas up (v + 1) -> manned replicas up (v + 2) -> manned replicas up (v + 3) -> False.
Proof.
  intros Hlen Hd Hdown v M0 M1 M2 M3. apply list_elem_of_lookup in Hd as [i Hi].
  assert (Hi4 : Z.of_nat i < 4) by (apply lookup_lt_Some in Hi; unfold len in Hlen; lia).
  assert (Hno : forall k, (v + k) mod 4 = Z.of_nat i -> ~ manned replicas up (v + k)).
  { intros k E Hm. destruct (manned_index _ Hlen Hm) as (r & Hr & Hu). rewrite E, Nat2Z.id in Hr. congruence. }
  assert (E : exists k, 0 <= k < 4 /\ (v + k) mod 4 = Z.of_nat i).
  { exists ((Z.of_nat i - v) mod 4). split; [apply Z.mod_pos_bound; lia|]. rewrite Zplus_mod_idemp_r.
    replace (v + (Z.of_nat i - v)) with (Z.of_nat i) by lia. apply Z.mod_small. lia. }
  destruct E as (k & Hk & E). apply (Hno k E).
  assert (k = 0 \/ k = 1 \/ k = 2 \/ k = 3) as [->|[->|[->| ->]]] by lia; [by rewrite Z.add_0_r|done..].
Qed.

(** A new replica. *)
Lemma born_stuck genesis r c : genesis_ok blk root genesis -> born replicas genesis r c -> node_stuck r c.
Proof.
  intros [(header & Eh & Hg & Eroot & Eb & En) (cert & Ec & Hgc & Hb)] (db & db' & Hno & Him & Hnew).
  destruct (ImportGenesis_disk db db' genesis header cert) as (D & Cg & Honly); try done. rewrite Hb, Eroot in Cg.
  destruct (newConsensus_recovers th _ r replicas _ _ _ _ _ _ D Cg) as (c' & E & [Es _ _ _ _ _ _] & Ecert & _).
  rewrite Hnew in E. injection E as <-.
  destruct (newConsensus_loads _ _ _ _ Hnew) as (_ & (k2 & Hk2) & Evotes & _). apply Honly in Hk2 as [_ Hk2].
  pose proof (newConsensus_progress _ _ _ _ Hnew) as Ep. destruct (newConsensus_fields _ _ _ _ Hnew) as [Eid Erep].
  assert (Hh : conforms blk header) by (unfold conforms; by rewrite <- Eroot).
  assert (Hst : store_manned blk root replicas up c.(c_store)).
  { rewrite Es. intros k h [-> ->]%Honly. rewrite Header_Hash_canon by done.
    split_and!; [done| |apply Hg|by left]. unfold conforms. rewrite Header_Hash_canon by done. rewrite <- Eroot, Eb.
    unfold canon. simpl. unfold Header_canon. simpl. f_equal. f_equal. by destruct (Header_Parent header) as [[]|]. }
  split; rewrite ?Ep; try done. intros Hup. split; rewrite ?Ep, ?Evotes; try done.
  - left. rewrite Ecert, <- Hb. unfold canon. simpl. unfold Certificate_canon. simpl. by destruct (Certificate_Block cert) as [[]|].
  - intros v0 [p0 Ev]. rewrite Eb in Ev. injection Ev as <- <-. rewrite Hk2. apply Z.le_refl.
Qed.

(** C38: one crashed replica of four stops finality.  When one of four replicas takes
    no step, then, whatever the three others are given of ticks, data and messages
    that replicas have sent, in whatever order and however often, none of them ever
    reports a block as final.  Signatures are not forged and blocks are told apart by
    their hashes; nothing else goes wrong. *)
Theorem crash_stops_finality genesis g0 g d r c h : len replicas = 4 -> d ∈ replicas -> up d = false ->
  no_forgery -> genesis_ok blk root genesis -> (forall r c, g0 !! r = Some c -> born replicas genesis r c) ->
  rtc upstep g0 g -> g !! r = Some c -> mkBlockEvent h true ∉ c.(c_Progress).(Events).
Proof.
  intros Hlen Hd Hdown Hf Hgen Hborn Hrun Hc Hev.
  assert (Hall : all_stuck g0) by (intros r1 c1 Hc1; by eapply born_stuck, Hborn).
  assert (Hg : all_stuck g).
  { clear Hc Hborn. induction Hrun as [|g1 g2 g3 Hs _ IH]; [done|]. apply IH.
    by apply (upstep_stuck g1); [|eapply genesis_rooted|eapply four_views|..]. }
  pose proof (ns_events _ _ (Hg _ _ Hc)) as He. rewrite list.Forall_forall in He. by specialize (He _ Hev).
Qed.

(** ** Execution *)

Definition up_input g (o : netop) : option (Z * input) :=
  match o with
  | Give r (IStep _) => None
  | Give r i => Some (r, i)
  | Pass src j dst => c ← g !! src; m ← c.(c_Progress).(Messages) !! j; Some (dst, IStep m.(MsgTo_Message))
  end.
Definition givenb c (i : input) : bool :=
  match i with ISend state droot _ => negb c.(c_waitingData) || header_wfb blk (own_header state droot c) | _ => true end.
Definition up_exec1 g (o : netop) : option (gmap Z (consensus DB)) :=
  '(r, i) ← up_input g o; c ← g !! r;
  if up r && givenb c i then match run signer r i c with (c', inl _) => Some (<[r := c']> g) | _ => None end else None.
Fixpoint up_exec g (l : list netop) : option (gmap Z (consensus DB)) :=
  match l with [] => Some g | o :: l => g' ← up_exec1 g o; up_exec g' l end.

Lemma up_exec1_step g o g' : up_exec1 g o = Some g' -> upstep g g'.
Proof.
  unfold up_exec1. destruct (up_input g o) as [[r i]|] eqn:Ei; [|done]. simpl. destruct (g !! r) as [c|] eqn:Hc; [|done]. simpl.
  destruct (up r && givenb c i) eqn:Eb; [|done]. apply andb_prop in Eb as [Hup Hb].
  destruct (run signer r i c) as [c' [[]|k]] eqn:Hr; [|done]. intros [= <-]. eapply up_input_step; [done|done| |exact Hr].
  destruct o as [r0 [|m|st dr data|]|src j dst]; simpl in Ei; simplify_eq; try done.
  - simpl in Hb. intros Hw. rewrite Hw in Hb. by apply header_wfb_ok.
  - destruct (g !! src) as [cs|] eqn:Hs; [|done]. simpl in Ei. destruct (Messages _ !! j) as [[ids m]|] eqn:Hm; [|done].
    simpl in Ei. simplify_eq. exists src, cs, ids. split; [done|]. by apply list_elem_of_lookup_2 in Hm.
Qed.
Lemma up_exec_rtc g l g' : up_exec g l = Some g' -> rtc upstep g g'.
Proof.
  revert g. induction l as [|o l IH]; simpl; intros g; [intros [= <-]; apply rtc_refl|].
  destruct (up_exec1 g o) as [g1|] eqn:E; [|done]. simpl. intros Hl. eapply rtc_l; [by eapply up_exec1_step|auto].
Qed.
End Deployment.

(** ** Witness: replica 0 is down

    Replicas 1, 2 and 3 go through the views 1 to 3, time out of view 4, that of
    replica 0, and send their new-views to the leader of view 5. *)

Definition down_pool : gmap Z (consensus mem_db) := <[0 := demo 0]> (<[1 := demo 1]> (<[2 := demo 2]> {[3 := demo 3]})).
Definition up_ops : list netop := views123 ++ concat (replicate 6 [Give 1 ITick; Give 2 ITick; Give 3 ITick]) ++ [Pass 2 4 1; Pass 3 4 1].
Definition only_three (r : Z) : bool := (1 <=? r) && (r <=? 3).
Definition down_exec : option (gmap Z (consensus mem_db)) := up_exec demo_signers demo_blk only_three down_pool up_ops.

Lemma demo_no_forgery : no_forgery demo_signers only_three.
Proof.
  intros r r' msg sig Hr Hs Hv. assert (Hr3 : r = 1 \/ r = 2 \/ r = 3) by (unfold only_three in Hr; apply andb_prop in Hr as [? ?]; zbool; lia).
  cbn [Sign demo_signers demo_signer bls_signer] in Hs. unfold BLS12381Signer_Sign in Hs. destruct (len msg =? 32); [|done].
  assert (Es : sig = SignatureToCompressed (blssig_Sign (to32 msg) domain (Z.to_nat r))) by (injection Hs; intros Es; symmetry; exact Es). clear Hs.
  cbn [Verify demo_verifier_inst bls_verifier] in Hv. apply Verify_inv in Hv as (_ & key & s & Hkey & Hd & Hok).
  rewrite Es, compressed_roundtrip in Hd. injection Hd as <-. simpl in Hok. apply bool_decide_eq_true in Hok. injection Hok as Ek.
  cbn [pubkeys demo_verifier] in Hkey. subst key.
  assert (Hlt : (Z.to_nat r' < 4)%nat) by by apply lookup_lt_Some in Hkey.
  assert (Ek : Z.to_nat r = Z.to_nat r') by (destruct (Z.to_nat r') as [|[|[|[|n]]]]; simpl in Hkey; simplify_eq; try done; lia).
  unfold only_three. apply andb_true_iff. split; apply Z.leb_le; lia.
Qed.

Lemma down_born r c : down_pool !! r = Some c -> born demo_replicas genesis r c.
Proof.
  unfold down_pool. rewrite !lookup_insert_Some, lookup_singleton_Some.
  intros [[<- <-]|[_ [[<- <-]|[_ [[<- <-]|[_ [<- <-]]]]]]]; apply demo_born; lia.
Qed.

Lemma crash_stops_finality_witness : exists g c, down_exec = Some g /\ g !! 3 = Some c
  /\ (c.(c_view), length c.(c_Progress).(Events)) = (5, 2%nat)
  /\ mkBlockEvent (canon (demo_header 1)) true ∉ c.(c_Progress).(Events).
Proof.
  assert (E : (fun g => (fun c => (c.(c_view), length c.(c_Progress).(Events))) <$> g !! 3) <$> down_exec = Some (Some (5, 2%nat)))
    by (vm_compute; reflexivity).
  destruct down_exec as [g|] eqn:Eg; [|discriminate E]. apply (inj Some) in E. destruct (g !! 3) as [c|] eqn:Ec; [|discriminate E].
  apply (inj Some) in E. exists g, c. split; [reflexivity|]. split; [exact Ec|]. split; [exact E|].
  apply (crash_stops_finality demo_signers 3 demo_blk demo_root demo_replicas only_three genesis down_pool g 0 3 c).
  - reflexivity.
  - clear. unfold demo_replicas. left.
  - reflexivity.
  - exact demo_no_forgery.
  - exact demo_genesis_ok.
  - exact down_born.
  - apply (up_exec_rtc demo_signers demo_blk only_three down_pool up_ops). exact Eg.
  - exact Ec.
Defined.
