(* ===== verification/Boot.v ===== *)
(** * How a deployment starts

    [GenerateKeys] of crypto/utils.go, [NewMemDB] of db.go and the part of
    hotstuff-node/main.go that builds a node: every process draws the genesis
    block and all the keys from a generator with the same seed, certifies the
    block with everybody's signature, imports it and starts its replica.  The
    theorem says that the processes so started are a start of the network of
    Agreement.v. *)

From Stdlib Require Import ZArith Lia.
From S2P Require Import Prelude Wire Types Proto Codec Encoding Crypto CryptoSpec Store Quorum Progress Consensus.
From S2P Require Import ConsensusFacts Instances Replica Safety Node Locking Agreement Progression.

(** ** Randomness *)

(** A source of random bytes ([io.Reader], [rand.Rand]) is its state; [NewSource]
    is deterministic.  [RandSecretKey] is the pairing library's, [None] an error. *)
Class Random `{BLS} : Type := {
  reader : Type;
  NewSource : Z -> reader;
  rng_Read : nat -> reader -> bytes * reader;
  RandSecretKey : reader -> option SecretKey * reader;
  rand_Reader : reader;  (* crypto/rand *)
}.
Class RandomLaws `{Random} : Prop := {
  rng_Read_length k r : length (fst (rng_Read k r)) = k;
}.

(** [leveldb.Open] on memory storage: [None] is an error. *)
Class MemStorage (DB : Type) : Type := { leveldb_Open : option DB }.

(** [if err != nil { panic(err) }] *)
Definition must {A} (r : res A) : res A := match r with Err _ => Panic PanicCall | _ => r end.

Definition NewMemDB {DB} `{MemStorage DB} : res DB :=
  match leveldb_Open with Some db => Ok db | None => Panic PanicCall end.

(** ** crypto/utils.go *)

Section Keys.
Context `{Random}.

(** The generator in use, [None] for a nil [rng], and the system's, [rand.Reader]. *)
Record randomness : Type := mkRandomness { rng : option reader; system_reader : reader }.

Definition GenerateKey (r : randomness) : res (SecretKey * PublicKey) * randomness :=
  let source := default r.(system_reader) r.(rng) in
  let '(o, source') := RandSecretKey source in
  let r' := match r.(rng) with
            | None => mkRandomness None source'
            | Some _ => mkRandomness (Some source') r.(system_reader)
            end in
  (match o with None => Err ErrRand | Some priv => Ok (priv, PublicKeyFromSecretKey priv) end, r').

(** The loop of [GenerateKeys] over the [n] keys that are left. *)
Fixpoint GenerateKeys (r : randomness) (n : nat) : res (list PublicKey * list SecretKey) * randomness :=
  match n with
  | O => (Ok ([], []), r)
  | S n =>
      match GenerateKey r with
      | (Ok (priv, pub), r') =>
          let '(ks, r'') := GenerateKeys r' n in
          (('(pubs, privs) ← ks; mret (pub :: pubs, priv :: privs)), r'')
      | (Err e, r') => (Err e, r')
      | (Panic c, r') => (Panic c, r')
      end
  end.

Lemma GenerateKeys_pairs r n pubs privs : fst (GenerateKeys r n) = Ok (pubs, privs) ->
  length privs = n /\ pubs = PublicKeyFromSecretKey <$> privs.
Proof.
  revert r pubs privs. induction n as [|n IH]; intros r pubs privs; simpl; [by intros [= <- <-]|].
  unfold GenerateKey. destruct (RandSecretKey _) as [[priv|] source]; [|done].
  destruct (GenerateKeys _ n) as [ks r''] eqn:E. simpl.
  intros ([pubs' privs'] & Eks & [= <- <-])%res_bind_Ok.
  destruct (IH _ pubs' privs' (eq_trans (f_equal fst E) Eks)) as [<- ->]. done.
Qed.
End Keys.

(** ** hotstuff-node/main.go: one node *)

Section Boot.
Context `{Random} `{EqDecision PublicKey} {DB : Type} `{KVStore DB} `{MemStorage DB} `{Hasher}.

Definition randRoot (r : reader) : bytes * reader := rng_Read 32 r.

Definition randGenesis (r : reader) : Block * reader :=
  let '(root, r') := randRoot r in
  let header := mkHeader 0 None 0 (Some root) None in
  (mkBlock (Some header) (Some (mkData [])) (Some (mkCertificate (Some (Header_Hash header)) (Some empty_agg))), r').

(** A started node: its event loop, and the signer and the verifier that [NewNode]
    makes of its key and of the keys of the replicas. *)
Record deployed : Type := mkDeployed {
  d_node : node DB;
  d_verifier : BLS12381Verifier;
  d_key : SecretKey;
}.

(** The keys, and the genesis block certified by all of them; the certificate is
    built in place by [verifier.Merge(genesis.Cert.Sig, ...)]. *)
Definition certified_genesis (seed : Z) (n : nat) : res (Block * (list PublicKey * list SecretKey)) :=
  let '(genesis, r) := randGenesis (NewSource seed) in
  header ← deref genesis.(Block_Header);
  cert ← deref genesis.(Block_Cert);
  '(pubs, privs) ← must (fst (GenerateKeys (mkRandomness (Some r) rand_Reader) n));
  let verifier := NewBLS12381Verifier (quorum_size (len pubs)) pubs in
  sig ← sign_merge verifier privs (Header_Hash header) cert.(Certificate_Sig) (replica_ids pubs);
  okay ← BLS12381Verifier_VerifyAggregated verifier (Header_Hash header) sig;
  if negb okay then Panic PanicCall
  else Ok (mkBlock genesis.(Block_Header) genesis.(Block_Data) (Some (mkCertificate cert.(Certificate_Block) sig)),
           (pubs, privs)).

Definition createExampleNode (seed : Z) (idx n : nat) : res deployed :=
  '(genesis, (pubs, privs)) ← certified_genesis seed n;
  db ← NewMemDB;
  let '(store, r) := ImportGenesis db genesis in
  _ ← must r;
  priv ← index privs idx;
  id ← index pubs idx;
  node ← NewNode store id pubs;
  mret (mkDeployed node (NewBLS12381Verifier (quorum_size (len pubs)) pubs) priv).
End Boot.

(** ** The start succeeds *)

Lemma replica_ids_lookup {Key} (l : list Key) i : (i < length l)%nat -> replica_ids l !! i = Some (Z.of_nat i).
Proof. intros Hi. unfold replica_ids. by rewrite list_lookup_fmap, lookup_seq_lt. Qed.

Lemma replica_ids_range {Key} (l : list Key) : Forall (fun i => 0 <= i < len l) (replica_ids l).
Proof.
  apply list.Forall_forall. intros z (i & -> & Hi)%list_elem_of_fmap. apply elem_of_seq in Hi. unfold len. lia.
Qed.

Lemma replica_ids_NoDup {Key} (l : list Key) : NoDup (replica_ids l).
Proof. apply NoDup_fmap_2; [apply Nat2Z.inj'|apply NoDup_seq]. Qed.

Lemma len_replica_ids {Key} (l : list Key) : len (replica_ids l) = len l.
Proof. unfold replica_ids, len. by rewrite length_fmap, length_seq. Qed.

Section Starts.
Context `{Random} `{!BLSLaws} `{!RandomLaws} `{EqDecision PublicKey}
        {DB : Type} `{KVStore DB} `{!KVLaws DB} `{MemStorage DB} `{Hasher} `{!HasherLaws}.

(** The header of the genesis block of a seed, and what is left of the source. *)
Definition genesis_of (seed : Z) : Header := mkHeader 0 None 0 (Some (fst (randRoot (NewSource seed)))) None.
Definition key_source (seed : Z) : randomness := mkRandomness (Some (snd (randRoot (NewSource seed)))) rand_Reader.

Lemma genesis_of_good seed : good (genesis_of seed).
Proof.
  apply Header_good; [done..|]. simpl. unfold len, randRoot. rewrite rng_Read_length. done.
Qed.

Lemma genesis_hash_length seed : len (Header_Hash (genesis_of seed)) = 32.
Proof. rewrite Header_Hash_encoding by apply genesis_of_good. unfold len. by rewrite blake2s256_length. Qed.

(** Everybody's signatures make a certificate that everybody accepts. *)
Lemma certified_genesis_ok seed n pubs privs :
  fst (GenerateKeys (key_source seed) n) = Ok (pubs, privs) -> (0 < n)%nat ->
  exists a, certified_genesis seed n
            = Ok (mkBlock (Some (genesis_of seed)) (Some (mkData []))
                    (Some (mkCertificate (Some (Header_Hash (genesis_of seed))) (Some a))), (pubs, privs))
    /\ a.(AggregatedSignature_Voters) = replica_ids pubs.
Proof.
  intros Hk Hn. destruct (GenerateKeys_pairs _ _ _ _ Hk) as [Hl Hp].
  set (v := NewBLS12381Verifier (quorum_size (len pubs)) pubs). set (hash := Header_Hash (genesis_of seed)).
  assert (Hlen : len privs = len pubs) by (rewrite Hp; unfold len; by rewrite length_fmap).
  assert (Hpos : 0 < len pubs) by (rewrite <- Hlen; unfold len; lia).
  assert (Hne : replica_ids pubs <> []).
  { intros E. pose proof (len_replica_ids pubs) as El. rewrite E in El. unfold len in El, Hpos. simpl in El. lia. }
  destruct (sign_merge_collects v privs hash empty_agg (replica_ids pubs)) as (a & Ea & Hv & Hc); [exact Hp|apply genesis_hash_length|by left| | |].
  - apply replica_ids_NoDup.
  - rewrite Hlen. apply replica_ids_range.
  - exists a. split; [|exact Hv]. unfold certified_genesis, randGenesis. unfold key_source, genesis_of in *.
    destruct (randRoot (NewSource seed)) as [root r]. cbn [fst snd] in *. cbn [Block_Header Block_Cert deref mbind res_bind Block_Data].
    rewrite Hk. cbn [must mbind res_bind Certificate_Sig Certificate_Block]. fold v hash. rewrite Ea. cbn [mbind res_bind].
    rewrite (collected_verifies v hash a Hc) by (rewrite Hv; exact Hne). cbn [mbind res_bind].
    rewrite Hv. cbn [AggregatedSignature_Voters empty_agg app]. rewrite len_replica_ids. simpl threshold.
    rewrite (proj2 (Z.leb_le _ _)); [done|]. unfold quorum_size.
    pose proof (Z.div_lt_upper_bound (2 * len pubs) 3 (len pubs) ltac:(lia) ltac:(lia)). lia.
Qed.
(** The certificate of the genesis block has been checked. *)
Lemma genesis_verified seed n pubs privs cert genesis : certified_genesis seed n = Ok (genesis, (pubs, privs)) ->
  genesis.(Block_Cert) = Some cert ->
  BLS12381Verifier_VerifyAggregated (NewBLS12381Verifier (quorum_size (len pubs)) pubs) (Header_Hash (genesis_of seed)) cert.(Certificate_Sig) = Ok true.
Proof.
  unfold certified_genesis, randGenesis, genesis_of. destruct (randRoot (NewSource seed)) as [root r]. cbn [fst deref mbind res_bind Block_Header Block_Cert].
  intros ([pubs' privs'] & _ & (sig & _ & (ok & Ev & E)%res_bind_Ok)%res_bind_Ok)%res_bind_Ok.
  destruct ok; [|done]. injection E as <- <- <-. by intros [= <-].
Qed.

(** The import succeeds on a database that accepts writes. *)
Lemma ImportGenesis_succeeds (db : DB) header data cert :
  (forall (db : DB) k v, is_Some (db_put db k v)) -> (forall k, entry db (KHeader k) = None) ->
  good header -> good data -> good cert ->
  exists db', ImportGenesis db (mkBlock (Some header) (Some data) (Some cert)) = (db', Ok tt).
Proof.
  intros Hput Hno Hh Hd Hc. unfold ImportGenesis. cbn [Block_Header]. rewrite GetHeader_entry, Hno. unfold genesis_writes.
  assert (Hw : forall (ws : list (DB -> res DB)) db, Forall (fun w => forall db, exists db', w db = Ok db') ws ->
    exists db', run_writes ws db = (db', Ok tt)).
  { induction ws as [|w ws IH]; intros d Hws; [by exists d|]. apply list.Forall_cons_1 in Hws as [Hw Hws].
    destruct (Hw d) as [d' Ed]. destruct (IH d' Hws) as [d'' E]. exists d''. simpl. by rewrite Ed. }
  apply Hw. unfold SaveHeader, SaveCertificate, SaveData, SaveView, SaveVoted, SetTag.
  repeat (apply list.Forall_cons_2; [intros d; simpl; rewrite ?marshal_encoding by done; apply (Put_ok Hput)|]). constructor.
Qed.

Lemma is_u64_small z : 0 <= z < 2 ^ 32 -> is_u64 z.
Proof. unfold is_u64, two64. intros. assert (2 ^ 32 < 2 ^ 64) by done. lia. Qed.

(** Parts of the genesis certificate are in range. *)
Lemma genesis_cert_wf {Key} (pubs : list Key) block a : len pubs < 2 ^ 32 ->
  a.(AggregatedSignature_Voters) = replica_ids pubs -> wf (mkCertificate block (Some a)).
Proof.
  intros Hl Hv a' E. cbn in E. injection E as <-. unfold wf. simpl. unfold AggregatedSignature_wf. rewrite Hv.
  eapply list.Forall_impl; [apply replica_ids_range|]. simpl. intros z Hz. apply is_u64_small. lia.
Qed.

(** The state of a replica that starts from the imported genesis block. *)
Lemma imported_starts (v : BLS12381Verifier) (db : DB) header data cert id replicas :
  (forall (db : DB) k v, is_Some (db_put db k v)) -> (forall k, entry db (KHeader k) = None) ->
  good header -> good data -> good cert -> sbytes cert.(Certificate_Block) = Header_Hash header ->
  is_u64 id -> 1 <= v.(threshold) <= quorum_size (len replicas) ->
  exists db' c, ImportGenesis db (mkBlock (Some header) (Some data) (Some cert)) = (db', Ok tt)
    /\ newConsensus db' id replicas = Ok c /\ c.(c_id) = id
    /\ Inv (H2 := bls_verifier v) (VerifierLaws0 := bls_verifier_laws v) v.(threshold) c.
Proof.
  intros Hput Hno Hh Hd Hc Hb Hid Hth. destruct (ImportGenesis_succeeds db header data cert Hput Hno Hh Hd Hc) as [db' E].
  destruct (ImportGenesis_disk db db' (mkBlock (Some header) (Some data) (Some cert)) header cert eq_refl eq_refl Hh Hc Hno E) as (D & C & _). rewrite Hb in C.
  destruct (newConsensus_recovers (H3 := bls_verifier v) (VerifierLaws0 := bls_verifier_laws v) v.(threshold)
              _ id replicas _ _ _ _ _ _ D C) as (c & Ec & _ & _ & Eid & _ & HI).
  exists db', c. split_and!; [done..|]. by apply HI.
Qed.

(** What a start needs: enough different keys, and an empty database that accepts
    writes. *)
Record bootable (seed : Z) (n : nat) (pubs : list PublicKey) (privs : list SecretKey) (db : DB) : Prop := {
  bt_keys : fst (GenerateKeys (key_source seed) n) = Ok (pubs, privs);
  bt_distinct : NoDup pubs;
  bt_count : 0 < Z.of_nat n < 2 ^ 32;
  bt_open : NewMemDB = Ok db;
  bt_empty : forall k, entry db (KHeader k) = None;
  bt_put : forall (db : DB) k v, is_Some (db_put db k v);
  bt_fits : forall genesis keys cert, certified_genesis seed n = Ok (genesis, keys) ->
    genesis.(Block_Cert) = Some cert -> fits (Certificate_fields cert);
}.

(** What one process of the deployment starts with. *)
Record process_ok (seed : Z) (n : nat) (pubs : list PublicKey) (genesis : Block) (idx : nat) (d : deployed (DB := DB))
    (c : consensus DB) : Prop := {
  po_created : createExampleNode seed idx n = Ok d;
  po_node : d.(d_node) = fresh_node c;
  po_id : c.(c_id) = Z.of_nat idx;
  po_replicas : c.(c_replicas) = replica_ids pubs;
  po_progress : c.(c_Progress) = empty_progress;
  po_born : born (replica_ids pubs) genesis (Z.of_nat idx) c;
  po_verifier : d.(d_verifier) = NewBLS12381Verifier (quorum_size (Z.of_nat n)) pubs;
  po_inv : Inv (H2 := bls_verifier d.(d_verifier)) (VerifierLaws0 := bls_verifier_laws d.(d_verifier))
             d.(d_verifier).(threshold) c;
  po_key : forall msg, len msg = 32 -> exists sig,
    BLS12381Signer_Sign d.(d_key) [] msg = Ok sig
    /\ BLS12381Verifier_Verify d.(d_verifier) (Z.of_nat idx) msg sig = true;
}.

Lemma processes_start seed n pubs privs (db : DB) : bootable seed n pubs privs db ->
  exists genesis, certified_genesis seed n = Ok (genesis, (pubs, privs))
  /\ (forall blk, let root := Header_Hash (genesis_of seed) in
        blk root = Some (0, []) -> blk [] = None -> genesis_ok blk root genesis)
  /\ forall idx, (idx < n)%nat -> exists d c, process_ok seed n pubs genesis idx d c.
Proof.
  intros [Hk Hnd Hn Hopen Hno Hput Hfits]. destruct (GenerateKeys_pairs _ _ _ _ Hk) as [Hl Hp].
  assert (Hlen : length pubs = n) by (by rewrite Hp, length_fmap).
  destruct (certified_genesis_ok seed n pubs privs Hk ltac:(lia)) as (a & Eg & Ha).
  specialize (Hfits _ _ _ Eg eq_refl).
  assert (Hcert : good (mkCertificate (Some (Header_Hash (genesis_of seed))) (Some a))).
  { split; [|done]. apply (genesis_cert_wf pubs); [unfold len; lia|done]. }
  eexists. split; [exact Eg|]. split.
  { intros blk root Hr Hn0. split; eexists; (split; [reflexivity|]); split_and!; try done. apply genesis_of_good. }
  intros idx Hidx.
  assert (Hpriv : is_Some (privs !! idx)) by (apply lookup_lt_is_Some; lia). destruct Hpriv as [priv Hpriv].
  assert (Hpub : pubs !! idx = Some (PublicKeyFromSecretKey priv)) by (by rewrite Hp, list_lookup_fmap, Hpriv).
  set (v := NewBLS12381Verifier (quorum_size (len pubs)) pubs).
  set (cert := mkCertificate (Some (Header_Hash (genesis_of seed))) (Some a)) in *.
  destruct (imported_starts v db (genesis_of seed) (mkData []) cert (Z.of_nat idx) (replica_ids pubs))
    as (db' & c & Ei & Ec & Eid & HI); try done.
  { apply genesis_of_good. }
  { split; [constructor|done]. }
  { apply is_u64_small. lia. }
  { rewrite len_replica_ids. simpl. unfold quorum_size. pose proof (Z.div_pos (2 * len pubs) 3). unfold len in *. lia. }
  exists (mkDeployed (fresh_node c) v priv), c.
  split; cbn [d_node d_verifier d_key]; [|done|done|by eapply newConsensus_fields|by eapply newConsensus_progress| | |exact HI|].
  - unfold createExampleNode. rewrite Eg. cbn [mbind res_bind]. rewrite Hopen. cbn [mbind res_bind]. rewrite Ei.
    cbn [must mbind res_bind]. unfold index. rewrite Hpriv, Hpub. cbn [mbind res_bind]. unfold NewNode.
    rewrite (own_index_lookup _ 0 pubs 0 idx Hnd Hpub), Z.add_0_l, Ec. done.
  - exists db, db'. split_and!; [done|exact Ei|exact Ec].
  - unfold v, len. by rewrite Hlen.
  - intros msg Hmsg. eapply (sign_verifies v privs priv (Z.of_nat idx) msg); [exact Hp|lia|by rewrite Nat2Z.id|done].
Qed.

(** C13: when key generation succeeds with different keys and the database is empty and
    accepts writes, every process of the deployment starts: all from the same
    genesis block, certified by all the keys, a root for any tree of blocks that
    has it at view 0 and without parent, the [idx]-th one with the identity
    [idx], in a state that satisfies the invariant, and with a key whose
    signatures the verifiers of all processes, which are the same, accept under
    that identity. *)
Theorem deployment_starts seed n pubs privs (db : DB) : bootable seed n pubs privs db ->
  exists genesis, certified_genesis seed n = Ok (genesis, (pubs, privs))
  /\ (forall blk, let root := Header_Hash (genesis_of seed) in
        blk root = Some (0, []) -> blk [] = None -> genesis_ok blk root genesis)
  /\ forall idx, (idx < n)%nat ->
  exists d c, createExampleNode seed idx n = Ok d /\ d.(d_node) = fresh_node c
    /\ c.(c_id) = Z.of_nat idx /\ born (replica_ids pubs) genesis (Z.of_nat idx) c
    /\ d.(d_verifier) = NewBLS12381Verifier (quorum_size (Z.of_nat n)) pubs
    /\ Inv (H2 := bls_verifier d.(d_verifier)) (VerifierLaws0 := bls_verifier_laws d.(d_verifier))
         d.(d_verifier).(threshold) c
    /\ forall msg, len msg = 32 -> exists sig,
         BLS12381Signer_Sign d.(d_key) [] msg = Ok sig
         /\ BLS12381Verifier_Verify d.(d_verifier) (Z.of_nat idx) msg sig = true.
Proof.
  intros (genesis & Eg & Hroot & Hn)%processes_start. exists genesis. split_and!; [done..|].
  intros idx (d & c & [])%Hn. exists d, c. by split_and!.
Qed.
End Starts.

(** ** Witness: the four nodes of hotstuff-node *)

(** A generator that counts: the [k]-th key is [k], the genesis root repeats the seed. *)
#[local] Instance counting_random : Random := {|
  reader := nat;
  NewSource seed := Z.to_nat seed;
  rng_Read k r := (replicate k (byte_of_Z (Z.of_nat r)), r);
  RandSecretKey r := (Some r, S r);
  rand_Reader := 0%nat;
|}.
#[local] Instance counting_laws : RandomLaws.
Proof. split. intros k r. apply length_replicate. Qed.
#[local] Instance fresh_storage : MemStorage mem_db := {| leveldb_Open := Some ∅ |}.
#[local] Instance key_eq_dec : EqDecision PublicKey := Nat.eq_dec.

Definition four_publics : list PublicKey := [0; 1; 2; 3]%nat.
Definition four_secrets : list SecretKey := [0; 1; 2; 3]%nat.

Lemma demo_bootable : bootable (DB := mem_db) 0 4 four_publics four_secrets ∅.
Proof.
  split; [reflexivity| |done|reflexivity|intros k; reflexivity|intros db k v; by eexists|].
  - apply (bool_decide_eq_true_1 (NoDup four_publics)). reflexivity.
  - assert (E : (fun g => is_ok g && match g with
                            | Ok (g, _) => match g.(Block_Cert) with
                                           | Some c => len (enc_fields (Certificate_fields c)) <? two63
                                           | None => true end
                            | _ => true end) (certified_genesis (H0 := counting_random) 0 4) = true) by (vm_compute; reflexivity).
    intros genesis keys cert Eg Ec. rewrite Eg, Ec in E. by apply Z.ltb_lt in E.
Qed.

Lemma deployment_starts_witness : exists d : deployed (DB := mem_db),
  createExampleNode 0 2 4 = Ok d /\ d.(d_node).(n_consensus).(c_id) = 2.
Proof.
  destruct (deployment_starts 0 4 four_publics four_secrets (∅ : mem_db) demo_bootable) as (genesis & _ & _ & Hn).
  destruct (Hn 2%nat) as (d & c & E & Ed & Ec & _); [lia|].
  exists d. split; [exact E|]. rewrite Ed. exact Ec.
Defined.
