(* ===== verification/Restart.v ===== *)
(** * A restart forgets the votes

    The database of a process is in memory ([NewMemDB]): a process that dies and is
    started again is what it was at its first start.  A replica alone never votes
    twice in a view, restarts included, since its votes are on its disk (C3); a
    process of this deployment does. *)

From Stdlib Require Import ZArith Lia.
From stdpp Require Import relations.
From S2P Require Import Prelude Wire Types Proto Codec Encoding Crypto CryptoSpec Store Quorum Progress Consensus.
From S2P Require Import ConsensusFacts Instances Replica Safety Node Pacemaker Agreement Progression Rounds Leading Synchrony ViewChange Deployment Boot.

(** ** The lives of a process *)

Section Lives.
Context `{Random} `{EqDecision PublicKey} {DB : Type} `{KVStore DB} `{MemStorage DB} `{Hasher}.
Context (seed : Z) (idx n : nat).

(** A process that runs, with the node it has made at its start and the replica's
    state, or is dead.  [sent] is what it has sent in the lives before. *)
Inductive process : Type :=
| Up (sent : list MsgTo) (d : deployed (DB := DB)) (c : consensus DB)
| Down (sent : list MsgTo).

Definition sent_by (p : process) : list MsgTo :=
  match p with Up sent _ c => sent ++ c.(c_Progress).(Messages) | Down sent => sent end.

(** The process is started; its replica handles an input; it is killed, which leaves
    nothing behind. *)
Inductive lives : process -> process -> Prop :=
| L_start sent d : createExampleNode seed idx n = Ok d -> lives (Down sent) (Up sent d d.(d_node).(n_consensus))
| L_handle sent d c i c' : @handle DB _ _ (bls_signer d.(d_key)) (bls_verifier d.(d_verifier)) i c = (c', inl tt) ->
    lives (Up sent d c) (Up sent d c')
| L_kill sent d c : lives (Up sent d c) (Down (sent ++ c.(c_Progress).(Messages))).
End Lives.

Section Restart.
Context `{Random} `{!BLSLaws} `{!RandomLaws} `{EqDecision PublicKey}
        {DB : Type} `{KVStore DB} `{!KVLaws DB} `{MemStorage DB} `{Hasher} `{!HasherLaws}.

(** The verifier that all processes make of the public keys. *)
Definition verifier_of (pubs : list PublicKey) : BLS12381Verifier := NewBLS12381Verifier (quorum_size (len pubs)) pubs.
#[local] Abbreviation V pubs := (bls_verifier (verifier_of pubs)).

#[local] Instance verifier_laws pubs : VerifierLaws (H := V pubs) (quorum_size (len pubs)) := bls_verifier_laws (verifier_of pubs).

Lemma verified_canon v msg a : BLS12381Verifier_VerifyAggregated v msg (Some (canon a)) = BLS12381Verifier_VerifyAggregated v msg (Some a).
Proof.
  unfold BLS12381Verifier_VerifyAggregated. cbn [deref mbind res_bind]. unfold canon. simpl. unfold AggregatedSignature_canon.
  by destruct a as [vs [[|]|]].
Qed.

Lemma genesis_created seed n pubs privs (db : DB) : bootable seed n pubs privs db -> exists genesis cert,
  certified_genesis seed n = Ok (genesis, (pubs, privs)) /\ genesis_ready (H2 := V pubs) genesis (genesis_of seed) cert.
Proof.
  intros [Hk Hnd Hn _ _ _ Hfits]. destruct (GenerateKeys_pairs _ _ _ _ Hk) as [Hl Hp].
  destruct (certified_genesis_ok seed n pubs privs Hk ltac:(lia)) as (a & Eg & Ha). specialize (Hfits _ _ _ Eg eq_refl).
  do 2 eexists. split; [exact Eg|]. pose proof (genesis_of_good seed) as Hgood. split; try done.
  - split; [|done]. apply (genesis_cert_wf pubs); [unfold len; rewrite Hp, length_fmap; lia|done].
  - split.
    + unfold canon. simpl. unfold Certificate_canon. simpl. rewrite Header_Hash_canon by done. by destruct (Header_Hash _).
    + rewrite Header_Hash_canon by done. unfold canon. simpl. unfold Certificate_canon. simpl.
      rewrite verified_canon. exact (genesis_verified seed n pubs privs _ _ Eg eq_refl).
Qed.

(** The key of process [idx]. *)
Lemma created_key seed idx n genesis pubs privs d : createExampleNode (DB := DB) seed idx n = Ok d ->
  certified_genesis seed n = Ok (genesis, (pubs, privs)) -> privs !! idx = Some d.(d_key).
Proof.
  intros Ed Eg. unfold createExampleNode in Ed. rewrite Eg in Ed. cbn [mbind res_bind] in Ed.
  apply res_bind_Ok in Ed as (db & _ & Ed). destruct (ImportGenesis db genesis) as [store r].
  apply res_bind_Ok in Ed as (u & _ & Ed). apply res_bind_Ok in Ed as (priv & Epriv & Ed).
  apply res_bind_Ok in Ed as (id & _ & Ed). apply res_bind_Ok in Ed as (node & _ & [= <-]).
  unfold index in Epriv. by destruct (privs !! idx); simplify_eq.
Qed.

(** The signers of the deployment. *)
Definition signer_of (privs : list SecretKey) (other : SecretKey) (r : Z) : Signer := bls_signer (default other (privs !! Z.to_nat r)).

Lemma deployment_in_service seed n pubs privs (db : DB) other : bootable seed n pubs privs db -> (2 <= n)%nat ->
  in_service (H2 := V pubs) (DB := DB) (signer_of privs other) (quorum_size (len pubs)) (replica_ids pubs).
Proof.
  intros [Hk Hnd Hn _ _ Hput _] H2'. destruct (GenerateKeys_pairs _ _ _ _ Hk) as [Hl Hp].
  assert (Hlen : len pubs = Z.of_nat n) by (unfold len; rewrite Hp, length_fmap; lia). split; rewrite ?len_replica_ids.
  - exact Hput.
  - intros r msg Hm. cbn [Sign signer_of bls_signer]. unfold BLS12381Signer_Sign. rewrite Hm. by eexists.
  - intros r msg sig Hr Hs. pose proof (replica_ids_range pubs) as Hrange. rewrite list.Forall_forall in Hrange. specialize (Hrange r Hr).
    unfold len in *. destruct (lookup_lt_is_Some_2 privs (Z.to_nat r)) as [sk Hsk]; [lia|].
    unfold signer_of in Hs. rewrite Hsk in Hs. cbn [Sign bls_signer default from_option id] in Hs.
    assert (Hm : len msg = 32) by (unfold BLS12381Signer_Sign in Hs; destruct (len msg =? 32) eqn:E; [by apply Z.eqb_eq|done]).
    destruct (sign_verifies (verifier_of pubs) privs sk r msg Hp ltac:(lia) Hsk Hm) as (sig' & Hs' & Hv). cbn [Verify bls_verifier]. congruence.
  - intros r Hr. pose proof (replica_ids_range pubs) as Hrange. rewrite list.Forall_forall in Hrange. specialize (Hrange r Hr). apply is_u64_small. lia.
  - apply replica_ids_NoDup.
  - lia.
  - rewrite Hlen. unfold quorum_size. pose proof (Z.div_pos (2 * Z.of_nat n) 3). lia.
Qed.

(** ** One life *)

(** A proposal [p] of the block [h] of the first view, on the genesis block, by the
    leader. *)
Record offered (seed : Z) (pubs : list PublicKey) (p : Proposal) (h : Header) : Prop := {
  of_view : h.(Header_View) = 1;
  of_proper : proper (H3 := V pubs) (replica_ids pubs) p h (canon (genesis_of seed));
  of_fresh : NoDup [[]; Header_Hash (genesis_of seed); Header_Hash h];
}.

(** A vote of [r] for [h], signed. *)
Definition voted_for (pubs : list PublicKey) (r : Z) (h : Header) (m : MsgTo) : Prop := exists sig,
  m.(MsgTo_Message) = NewVoteMsg (mkVote (Some (Header_Hash h)) h.(Header_View) r (Some sig))
  /\ BLS12381Verifier_Verify (verifier_of pubs) r (Header_Hash h) sig = true.

Lemma handle_single `{Signer} `{Verifier} i (c c' : consensus DB) : handle_all [i] c = (c', inl tt) -> handle i c = (c', inl tt).
Proof. cbn [handle_all]. unfold mbind, M_bind. destruct (handle i c) as [c1 [[]|k]]; [by intros [= ->]|done]. Qed.

Lemma one_life seed n pubs privs (db : DB) idx p h sent : bootable seed n pubs privs db -> (2 <= n)%nat -> (idx < n)%nat ->
  offered seed pubs p h -> exists d c m, rtc (lives seed idx n) (Down sent) (Up sent d c)
    /\ m ∈ c.(c_Progress).(Messages) /\ voted_for pubs (Z.of_nat idx) h m.
Proof.
  intros Hboot Hn Hidx [Hv Hp Hnd]. destruct (genesis_created seed n pubs privs db Hboot) as (genesis & cert & Eg & Hready).
  destruct (processes_start seed n pubs privs db Hboot) as (genesis' & Eg' & _ & Hproc).
  assert (genesis' = genesis) as -> by congruence. destruct (Hproc idx Hidx) as (d & c & [Ed En _ _ _ Hborn Ev _ _]).
  pose proof (created_key seed idx n genesis pubs privs d Ed Eg) as Hkey.
  assert (Hlen : len pubs = Z.of_nat n) by (destruct (GenerateKeys_pairs _ _ _ _ (bt_keys _ _ _ _ _ Hboot)) as [Hl ->]; unfold len; rewrite length_fmap; lia).
  set (r := Z.of_nat idx) in *. set (signer := signer_of privs d.(d_key)).
  pose proof (deployment_in_service seed n pubs privs db d.(d_key) Hboot Hn) as Hin. fold signer in Hin.
  assert (Hr : r ∈ replica_ids pubs).
  { unfold r. apply list_elem_of_fmap. exists idx. split; [done|]. apply elem_of_seq. unfold len in Hlen. lia. }
  assert (Es : signer r = bls_signer d.(d_key)) by (unfold signer, signer_of, r; by rewrite Nat2Z.id, Hkey).
  pose proof (genesis_of_good seed) as Hgood. pose proof Hnd as Hnd'. rewrite !list.NoDup_cons in Hnd'. destruct Hnd' as (N1 & _).
  destruct (born_tracks (H2 := V pubs) signer _ (replica_ids pubs) genesis (genesis_of seed) cert r c Hin Hready)
    as (k & t & T & Hc & HT); [intros E; apply N1; simpl in E; rewrite E; left|by apply (is_ids _ _ _ Hin)|exact Hborn|].
  destruct (stays_silent (H2 := V pubs) signer _ (replica_ids pubs) (canon (genesis_of seed)) (canon cert) 0 Hin (good_canon _ Hgood)
    (gr_certifies _ _ _ Hready) ltac:(lia) ltac:(split; computed) r c k t T Hr Hc HT) as (c1 & Hstart & (T1 & [Hc1 _] & _) & _).
  pose proof (born_stands (genesis_of seed) [h] Hgood ltac:(split; computed) Hnd) as Hstands.
  destruct (replica_follows (H2 := V pubs) signer _ (replica_ids pubs) 0 p h (canon (genesis_of seed)) [] [] r (t_born (canon (genesis_of seed))) c1
    Hin Hr Hp Hc1) as (c2 & Hvote & (t2 & Ht2 & _ & Hm)); [by rewrite Hv|constructor|].
  exists d, c2, (vote_sent signer (replica_ids pubs) r h). split_and!.
  - assert (Ever : d.(d_verifier) = verifier_of pubs) by (rewrite Ev; unfold verifier_of; by rewrite Hlen).
    unfold run_all in Hstart, Hvote. apply handle_single in Hstart, Hvote. rewrite Es in Hstart, Hvote.
    eapply rtc_l; [by apply L_start|]. rewrite En. change (n_consensus (fresh_node c)) with c.
    eapply rtc_l; [eapply L_handle; rewrite Ever; exact Hstart|]. apply rtc_once. eapply L_handle. rewrite Ever. exact Hvote.
  - by apply (tr_msgs _ _ _ _ Ht2).
  - destruct (hash_signs (H2 := signer r) (is_signs _ _ _ Hin r) h (pr_good _ _ _ _ Hp)) as [sig Hsig]. exists sig. split.
    + unfold vote_sent, own_msg. by rewrite Hsig.
    + exact (is_verifies _ _ _ Hin r _ _ Hr Hsig).
Qed.

(** C35: a process of the deployment that is started again votes twice in a view.  When
    the leader of the first view offers two different blocks, there is a life of any
    process in which it votes for the first and a next one in which it votes for the
    second: it is started, gets a proposal and sends its vote, is killed, is started
    again, gets the other proposal and votes.  Both votes are of the first view, in
    its own name, and its signatures on them verify. *)
Theorem restart_votes_twice seed n pubs privs (db : DB) idx p1 h1 p2 h2 : bootable seed n pubs privs db -> (2 <= n)%nat -> (idx < n)%nat ->
  offered seed pubs p1 h1 -> offered seed pubs p2 h2 -> Header_Hash h1 <> Header_Hash h2 ->
  exists s m1 m2, rtc (lives seed idx n) (Down []) s /\ m1 ∈ sent_by s /\ m2 ∈ sent_by s
    /\ voted_for pubs (Z.of_nat idx) h1 m1 /\ voted_for pubs (Z.of_nat idx) h2 m2
    /\ h1.(Header_View) = h2.(Header_View) /\ m1 <> m2.
Proof.
  intros Hboot Hn Hidx O1 O2 Hne. destruct (one_life seed n pubs privs db idx p1 h1 [] Hboot Hn Hidx O1) as (d1 & c1 & m1 & S1 & I1 & V1).
  set (sent := c1.(c_Progress).(Messages)).
  destruct (one_life seed n pubs privs db idx p2 h2 sent Hboot Hn Hidx O2) as (d2 & c2 & m2 & S2 & I2 & V2).
  exists (Up sent d2 c2), m1, m2. split_and!; [|apply elem_of_app; by left|apply elem_of_app; by right|done|done|destruct O1, O2; congruence|].
  - etrans; [exact S1|]. eapply rtc_l; [apply L_kill|exact S2].
  - intros ->. destruct V1 as (s1 & E1 & _), V2 as (s2 & E2 & _). rewrite E1 in E2. unfold NewVoteMsg in E2. simplify_eq.
Qed.
End Restart.

(** ** Witness: process 3 of four, and two blocks of process 1 *)

#[local] Existing Instances counting_random counting_laws fresh_storage key_eq_dec.

Definition genesis_cert_of : Certificate :=
  match certified_genesis 0 4 with Ok (g, _) => default (mkCertificate None None) g.(Block_Cert) | _ => mkCertificate None None end.
Definition block_offered (x : byte) : Header := mkHeader 1 (Some (Header_Hash (genesis_of 0))) 0 (Some [x]) None.
Definition proposal_offered (x : byte) : Proposal :=
  mkProposal (Some (block_offered x)) (Some (mkData []))
    (Some (SignatureToCompressed (blssig_Sign (to32 (Header_Hash (block_offered x))) domain 1%nat))) (Some genesis_cert_of) None.

Lemma is_offered x : x = x01 \/ x = x02 -> offered 0 four_publics (proposal_offered x) (block_offered x).
Proof.
  intros [-> | ->]; (split; [reflexivity| |apply (bool_decide_unpack (NoDup (A := bytes) _)); vm_compute; exact I]);
    (split; [reflexivity|exists (mkData []); split; [reflexivity|split; [constructor|computed]]| |reflexivity
            |split; [split; computed|computed]|computed|split; computed|computed|exists 1; split; computed]);
    (exists genesis_cert_of; split; [reflexivity|split; [split; [|computed]|split; computed]]);
    (intros ? E; vm_compute in E; injection E as <-; repeat constructor; computed).
Qed.

Lemma restart_votes_twice_witness : exists s m1 m2, rtc (lives (DB := mem_db) 0 3 4) (Down []) s /\ m1 ∈ sent_by s /\ m2 ∈ sent_by s
  /\ voted_for four_publics 3 (block_offered x01) m1 /\ voted_for four_publics 3 (block_offered x02) m2.
Proof.
  destruct (restart_votes_twice 0 4 four_publics four_secrets (∅ : mem_db) 3 (proposal_offered x01) (block_offered x01)
    (proposal_offered x02) (block_offered x02) demo_bootable) as (s & m1 & m2 & Hs & I1 & I2 & V1 & V2 & _).
  - lia.
  - lia.
  - apply is_offered. by left.
  - apply is_offered. by right.
  - vm_compute. intros E. discriminate E.
  - exists s, m1, m2. split_and!; [exact Hs|exact I1|exact I2|exact V1|exact V2].
Defined.
