(* ===== verification/Host.v ===== *)
(** * hotstuff-node/main.go: a running process

    [entryPoint] connects a node to its peers: it waits for what the node has to
    say, dispatches messages to the channels of the peers, answers requests for
    data, counts finalized blocks, and passes on what the connections read.  Its
    state is the node's loop (Node.v), the channels it shares with the connections
    and the statements of the current case that are still to run.  Every statement
    may block on a channel, and the node, the connections and this loop interleave
    freely: [hstep].

    What reaches a peer is, in order, what the replica wrote to it; and the loop
    stops for good at the 101st finalized block. *)

From Stdlib Require Import ZArith Lia.
From stdpp Require Import relations.
From S2P Require Import Prelude Wire Types Proto Codec Encoding Crypto Store Quorum Progress Consensus.
From S2P Require Import ConsensusFacts Handlers Replica Instances Routing Safety Scenarios Node Net.

(** ** Addresses *)

Definition DEFAULT_ADDRESS_NUMBER : Z := 9000.
Definition node_port (i : nat) : bytes := x3a :: Itoa (DEFAULT_ADDRESS_NUMBER + Z.of_nat i).
Definition getAddressList : list bytes := node_port <$> seq 0 (Z.to_nat NUMBER_OF_NODES).
(** "127.0.0.1" *)
Definition localhost : bytes := [x31; x32; x37; x2e; x30; x2e; x30; x2e; x31].
Definition getIPAddressList : list bytes := (fun i => localhost ++ node_port i) <$> seq 0 (Z.to_nat NUMBER_OF_NODES).

(** [strings.Split(_, ",")] *)
Fixpoint split_commas (b : bytes) : list bytes :=
  match b with
  | [] => [[]]
  | x :: b =>
      if bool_decide (x = x2c) then [] :: split_commas b
      else match split_commas b with [] => [[x]] | w :: ws => (x :: w) :: ws end
  end.

(** [main]: the flag [ipAddresses] as the addresses of the nodes, and what
    [entryPoint] listens on and dials. *)
Definition main_addresses (ipAddresses : bytes) : res (list bytes) :=
  let ipAddressList := split_commas ipAddresses in
  if negb (len ipAddressList =? NUMBER_OF_NODES) then Panic PanicCall
  else Ok (imap (fun i a => a ++ node_port i) ipAddressList).
Definition endpoints (index : nat) (ipAddressList : list bytes) : res (bytes * list bytes) :=
  myIpAddress ← Prelude.index ipAddressList index;
  mret (myIpAddress, take index ipAddressList).

Lemma split_commas_app a b : x2c ∉ a -> split_commas (a ++ x2c :: b) = a :: split_commas b.
Proof.
  induction a as [|x a IH]; intros Ha; [done|]. simpl. rewrite bool_decide_eq_false_2 by set_solver.
  by rewrite IH by set_solver.
Qed.
Lemma split_commas_last a : x2c ∉ a -> split_commas a = [a].
Proof.
  induction a as [|x a IH]; intros Ha; [done|]. simpl. rewrite bool_decide_eq_false_2 by set_solver.
  by rewrite IH by set_solver.
Qed.

(** The flag lists the hosts of the nodes; node [i] listens on port [9000 + i], and of
    two nodes the one with the higher index dials the other. *)
Lemma main_addresses_spec a0 a1 a2 a3 : Forall (fun a => x2c ∉ a) [a0; a1; a2; a3] ->
  main_addresses (a0 ++ x2c :: a1 ++ x2c :: a2 ++ x2c :: a3)
  = Ok [a0 ++ node_port 0; a1 ++ node_port 1; a2 ++ node_port 2; a3 ++ node_port 3].
Proof.
  intros Ha. repeat (apply list.Forall_cons_1 in Ha as [? Ha]). unfold main_addresses.
  by rewrite !split_commas_app, split_commas_last by done.
Qed.

(** ** The state of the process *)

(** A statement of a case that writes to a channel. *)
Inductive stmt : Type :=
| CallStep (m : Message)             (* node.Step(ctx, m) *)
| CallSend (d : NodeData)            (* node.Send(ctx, d) *)
| PushTo (rx : Z) (m : Message)      (* arrayOfChannels[rx] <- m *)
| Confirm.                           (* confirmedChannel <- 1 *)

Record host (DB : Type) : Type := mkHost {
  h_node : system DB;
  h_out : list (list Message);       (* arrayOfChannels *)
  h_in : list Message;               (* inMsgsChan *)
  h_confirmed : nat;                 (* values in confirmedChannel *)
  h_todo : list stmt;
  h_taken : list (list Message);     (* what the connections have taken from each channel *)
}.
Arguments mkHost {DB}.
Arguments h_node {DB} h.
Arguments h_out {DB} h.
Arguments h_in {DB} h.
Arguments h_confirmed {DB} h.
Arguments h_todo {DB} h.
Arguments h_taken {DB} h.

(** The capacities of the channels. *)
Definition in_capacity : nat := 1000.
Definition out_capacity : nat := 1000.
Definition confirmed_capacity : nat := 100.

Definition createArrayOfChannels : list (list Message) := replicate (Z.to_nat NUMBER_OF_NODES) [].

Section Host.
Context {DB : Type} `{KVStore DB} `{Hasher} `{Signer} `{Verifier}.
Context (index : Z) (dummyData : bytes).
Implicit Types h : host DB.

(** [hotstuff.Data{State: []byte{}, Root: []byte{}, Data: &types.Data{randTx}}] *)
Definition proposal_data : NodeData :=
  mkNodeData (Some []) (Some []) (Some (mkData [mkTransaction None 0 (Some dummyData) None])).

(** [dispatchMessage] as statements; the index into the array is an [int]. *)
Definition dispatch_stmt (m : Message) (rx : Z) : stmt :=
  if rx =? index then CallStep m else PushTo rx m.
Definition dispatch_stmts (m : MsgTo) : list stmt :=
  dispatch_stmt m.(MsgTo_Message) <$>
    match m.(Recipients) with None | Some [] => [0; 1; 2; 3] | Some l => swrap64 <$> l end.

Definition confirm_stmts (b : BlockEvent) : list stmt := if b.(Finalized) then [Confirm] else [].

(** The state in which the loop starts: the node was started and is about to be
    given an empty message. *)
Definition entryPoint (n : node DB) : option (host DB) :=
  s ← use UStart (mkSystem n [] []);
  Some (mkHost s createArrayOfChannels [] 0 [CallStep (mkMessage None)] createArrayOfChannels).

(** The cases of the loop's select; [ctx.Done()] of the background context is never
    ready.  [None]: not ready. *)
Inductive hcase : Type := HReady | HMessages | HBlocks | HIncoming.

Definition with_node h (s : system DB) (todo : list stmt) : host DB :=
  mkHost s h.(h_out) h.(h_in) h.(h_confirmed) todo h.(h_taken).

Definition host_case (k : hcase) h : option (host DB) :=
  match k with
  | HReady => s ← use UReady h.(h_node); Some (with_node h s [CallSend proposal_data])
  | HMessages =>
      msgs ← h.(h_node).(s_node).(deliver);
      s ← use UMessages h.(h_node);
      Some (with_node h s (mjoin (dispatch_stmts <$> msgs)))
  | HBlocks =>
      bs ← h.(h_node).(s_node).(blocks);
      s ← use UBlocks h.(h_node);
      Some (with_node h s (mjoin (confirm_stmts <$> bs)))
  | HIncoming =>
      match h.(h_in) with
      | [] => None
      | m :: rest => Some (mkHost h.(h_node) h.(h_out) rest h.(h_confirmed) [CallStep m] h.(h_taken))
      end
  end.

(** One statement, with what follows it: [None] while it blocks, [Panic] for an
    index out of range. *)
Definition run_stmt (c : stmt) (rest : list stmt) h : option (res (host DB)) :=
  match c with
  | CallStep m => s ← use (UStep m) h.(h_node); Some (Ok (with_node h s rest))
  | CallSend d => s ← use (USend d) h.(h_node); Some (Ok (with_node h s rest))
  | PushTo rx m =>
      match (if 0 <=? rx then h.(h_out) !! Z.to_nat rx else None) with
      | None => Some (Panic OutOfRange)
      | Some q =>
          if (length q <? out_capacity)%nat
          then Some (Ok (mkHost h.(h_node) (<[Z.to_nat rx := q ++ [m]]> h.(h_out)) h.(h_in) h.(h_confirmed) rest h.(h_taken)))
          else None
      end
  | Confirm =>
      if (h.(h_confirmed) <? confirmed_capacity)%nat
      then Some (Ok (mkHost h.(h_node) h.(h_out) h.(h_in) (S h.(h_confirmed)) rest h.(h_taken)))
      else None
  end.

(** One step of the loop: the next statement, or, between statements, a case. *)
Definition loop_step (k : hcase) h : option (res (host DB)) :=
  match h.(h_todo) with
  | [] => Ok <$> host_case k h
  | c :: rest => run_stmt c rest h
  end.

(** What a connection to [rx] takes from its channel, and what a connection reads. *)
Definition connection_takes (rx : nat) h : option (host DB) :=
  q ← h.(h_out) !! rx;
  t ← h.(h_taken) !! rx;
  match q with
  | [] => None
  | m :: q => Some (mkHost h.(h_node) (<[rx := q]> h.(h_out)) h.(h_in) h.(h_confirmed) h.(h_todo) (<[rx := t ++ [m]]> h.(h_taken)))
  end.
Definition connection_reads (m : Message) h : option (host DB) :=
  if (length h.(h_in) <? in_capacity)%nat
  then Some (mkHost h.(h_node) h.(h_out) (h.(h_in) ++ [m]) h.(h_confirmed) h.(h_todo) h.(h_taken))
  else None.

Inductive hstep : host DB -> host DB -> Prop :=
| H_node k h n' : turn k h.(h_node).(s_node) = Some (n', inl tt) ->
    hstep h (mkHost (mkSystem n' h.(h_node).(got_messages) h.(h_node).(got_blocks))
               h.(h_out) h.(h_in) h.(h_confirmed) h.(h_todo) h.(h_taken))
| H_loop k h h' : loop_step k h = Some (Ok h') -> hstep h h'
| H_takes rx h h' : connection_takes rx h = Some h' -> hstep h h'
| H_reads m h h' : msg_ok m -> connection_reads m h = Some h' -> hstep h h'.
End Host.
Arguments host DB : clear implicits.

(** ** Dispatch *)

(** Whom a message is for. *)
Definition intended (m : MsgTo) : list Z := default [0; 1; 2; 3] m.(Recipients).

Lemma in_four rx : rx ∈ [0; 1; 2; 3] -> 0 <= rx < NUMBER_OF_NODES.
Proof. unfold NUMBER_OF_NODES. intros Hr. repeat (apply list.elem_of_cons in Hr as [->|Hr]; [lia|]). by apply list.elem_of_nil in Hr. Qed.

(** ** The node in the process *)

Section HostFacts.
Context {DB : Type} `{KVStore DB} `{!KVLaws DB} `{Hasher} `{!HasherLaws} `{Signer} `{Verifier}
        (th : Z) `{!VerifierLaws th}.
Context (index : Z) (dummyData : bytes).
Implicit Types h : host DB.

Definition took_messages (u : user) (s : system DB) : list MsgTo :=
  match u with UMessages => default [] s.(s_node).(deliver) | _ => [] end.
Definition took_blocks (u : user) (s : system DB) : list BlockEvent :=
  match u with UBlocks => default [] s.(s_node).(blocks) | _ => [] end.

Lemma use_got u (s s' : system DB) : use u s = Some s' ->
  got_messages s' = got_messages s ++ took_messages u s /\ got_blocks s' = got_blocks s ++ took_blocks u s.
Proof.
  destruct s as [[c ts tu ty lm lb lw li rc sd dl bl wd ms st qt dn] gm gb]. unfold use. simpl.
  destruct u; repeat case_match; intros [= <-]; simpl; by rewrite ?app_nil_r.
Qed.

(** What the node hands over is well formed and addressed to replicas. *)
Lemma delivered_ok (c : consensus DB) s l : Inv th c -> c.(c_Progress) = empty_progress ->
  rtc nstep (mkSystem (fresh_node c) [] []) s -> s.(s_node).(deliver) = Some l ->
  Forall sent_ok l /\ Forall (addressed c.(c_replicas)) l.
Proof.
  intros HI HP Hs Hd. destruct (nsteps_sim (mkSystem (fresh_node c) [] []) s (fresh_ok c) Hs) as [_ Hw].
  pose proof (winv_sent _ _ _ _ _ (worlds_inv th _ _ _ _ _ (WInv_start th c HI HP) Hw)) as Hsent.
  destruct (worlds_routed c.(c_replicas) (mkWorld c [] []) (abs s)) as [_ Haddr]; [|exact Hw|].
  { split; [done|]. unfold w_messages. simpl. rewrite HP. constructor. }
  unfold w_messages, abs, out_messages in Hsent, Haddr. simpl in Hsent, Haddr. rewrite Hd in Hsent, Haddr.
  simpl in Hsent, Haddr. rewrite !Forall_app in Hsent, Haddr. split; [apply Hsent|apply Haddr].
Qed.

(** ** What is on its way to a peer *)

(** The messages to be put into the channel of [rx]. *)
Definition pushes (rx : Z) (l : list stmt) : list Message :=
  omap (fun c => match c with PushTo r m => if r =? rx then Some m else None | _ => None end) l.

(** One copy of [m] for each time it names [rx], and the messages for [rx]. *)
Definition copies (rx : Z) (m : MsgTo) : list Message :=
  omap (fun r => if r =? rx then Some m.(MsgTo_Message) else None) (intended m).
Definition peer_messages (rx : Z) (l : list MsgTo) : list Message := mjoin (copies rx <$> l).

Definition channel (rx : Z) (l : list (list Message)) : list Message := default [] (l !! Z.to_nat rx).

(** A statement can be run: what it passes on is acceptable. *)
Definition stmt_ok (c : stmt) : Prop :=
  match c with
  | CallStep m => msg_ok m
  | CallSend d => len (sbytes d.(Root)) + len (sbytes d.(State)) < 2 ^ 61
  | PushTo rx _ => 0 <= rx < NUMBER_OF_NODES
  | Confirm => True
  end.

Lemma dispatch_stmts_intended m : addressed [0; 1; 2; 3] m ->
  dispatch_stmts index m = dispatch_stmt index m.(MsgTo_Message) <$> intended m.
Proof.
  unfold addressed, dispatch_stmts, intended. destruct (Recipients m) as [[|r l]|]; simpl default; [by intros [? _]| |done].
  intros [_ Hl]. f_equal. rewrite <- (list_fmap_id (r :: l)) at 2. apply list_fmap_ext. intros i x Hx.
  rewrite list.Forall_forall in Hl. unfold id. apply swrap64_small. assert (NUMBER_OF_NODES < two63) by done.
  pose proof (in_four x (Hl x (list_elem_of_lookup_2 _ _ _ Hx))). lia.
Qed.

Lemma dispatch_stmts_pushes rx m : addressed [0; 1; 2; 3] m -> rx <> index ->
  pushes rx (dispatch_stmts index m) = copies rx m.
Proof.
  intros Ha Hne. rewrite dispatch_stmts_intended by done. unfold pushes, copies.
  induction (intended m) as [|r l IH]; [done|]. cbn [fmap list_fmap omap list_omap]. rewrite IH. unfold dispatch_stmt.
  destruct (r =? index) eqn:E; [|done]. zbool. by rewrite (proj2 (Z.eqb_neq r rx)) by lia.
Qed.

Lemma dispatch_stmts_ok m : addressed [0; 1; 2; 3] m -> sent_ok m -> Forall stmt_ok (dispatch_stmts index m).
Proof.
  intros Ha Hm. rewrite dispatch_stmts_intended by done. apply list.Forall_fmap, list.Forall_forall. intros r Hr.
  unfold dispatch_stmt. simpl. destruct (r =? index); [exact Hm|]. apply in_four. revert Hr. unfold intended, addressed in *.
  destruct (Recipients m) as [l|]; [|done]. destruct Ha as [_ Ha]. rewrite list.Forall_forall in Ha. apply Ha.
Qed.

Lemma pushes_app rx l1 l2 : pushes rx (l1 ++ l2) = pushes rx l1 ++ pushes rx l2.
Proof. apply omap_app. Qed.

Lemma mjoin_cons {A} (x : list A) (l : list (list A)) : mjoin (x :: l) = x ++ mjoin l.
Proof. done. Qed.

Lemma dispatched_all rx l : Forall sent_ok l -> Forall (addressed [0; 1; 2; 3]) l ->
  Forall stmt_ok (mjoin (dispatch_stmts index <$> l))
  /\ (rx <> index -> pushes rx (mjoin (dispatch_stmts index <$> l)) = peer_messages rx l).
Proof.
  intros Hs. induction Hs as [|m l Hm _ IH]; intros Ha; [by split; [constructor|]|].
  apply list.Forall_cons_1 in Ha as [Ham Ha]. destruct (IH Ha) as [IHo IHp]. unfold peer_messages in *. rewrite !fmap_cons, !mjoin_cons. split.
  - apply Forall_app_2; [by apply dispatch_stmts_ok|done].
  - intros Hne. rewrite pushes_app, IHp, dispatch_stmts_pushes by done. done.
Qed.
(** ** The invariant of the process *)

Record HInv (c : consensus DB) h : Prop := {
  hi_node : rtc nstep (mkSystem (fresh_node c) [] []) h.(h_node);
  hi_todo : Forall stmt_ok h.(h_todo);
  hi_in : Forall msg_ok h.(h_in);
  hi_out : length h.(h_out) = Z.to_nat NUMBER_OF_NODES;
  hi_taken : length h.(h_taken) = Z.to_nat NUMBER_OF_NODES;
  hi_peers : forall rx, 0 <= rx < NUMBER_OF_NODES -> rx <> index ->
    channel rx h.(h_taken) ++ channel rx h.(h_out) ++ pushes rx h.(h_todo) = peer_messages rx h.(h_node).(got_messages);
}.

Lemma channel_insert rx r q (l : list (list Message)) : 0 <= rx -> 0 <= r < Z.of_nat (length l) ->
  channel rx (<[Z.to_nat r := q]> l) = if rx =? r then q else channel rx l.
Proof.
  intros Hrx Hr. unfold channel. destruct (rx =? r) eqn:E; zbool.
  - subst. rewrite list_lookup_insert_eq by lia. done.
  - rewrite list_lookup_insert_ne by lia. done.
Qed.

(** The node takes a step, and the loop goes on with [todo]. *)
Lemma HInv_use c h u s todo : HInv c h -> user_ok u -> use u h.(h_node) = Some s -> Forall stmt_ok todo ->
  (forall rx, 0 <= rx < NUMBER_OF_NODES -> rx <> index ->
    pushes rx todo = pushes rx h.(h_todo) ++ peer_messages rx (took_messages u h.(h_node))) ->
  HInv c (with_node h s todo).
Proof.
  intros [Hn Ht Hi Ho Htk Hp] Hu Hs Hok Hpush. destruct (use_got _ _ _ Hs) as [Eg _]. split; simpl; try done.
  - eapply rtc_r; [exact Hn|by eapply N_use].
  - intros rx Hrx Hne. rewrite Eg, Hpush by done. unfold peer_messages. rewrite fmap_app, join_app.
    specialize (Hp rx Hrx Hne). unfold peer_messages in Hp. by rewrite <- Hp, !app_assoc.
Qed.

Definition finalized_blocks (l : list BlockEvent) : list BlockEvent := filter (fun b => b.(Finalized) = true) l.

Lemma confirm_stmts_replicate bs :
  mjoin (confirm_stmts <$> bs) = replicate (length (finalized_blocks bs)) Confirm.
Proof.
  induction bs as [|b bs IH]; [done|]. rewrite fmap_cons, mjoin_cons, IH. unfold finalized_blocks, confirm_stmts.
  rewrite filter_cons. destruct (Finalized b); case_decide; done.
Qed.
Lemma confirms_ok n : Forall stmt_ok (replicate n Confirm).
Proof. by induction n; constructor. Qed.
Lemma confirms_pushes rx n : pushes rx (replicate n Confirm) = [].
Proof. induction n as [|n IH]; [done|]. exact IH. Qed.

Lemma HInv_case c k h h' : Inv th c -> c.(c_Progress) = empty_progress -> c.(c_replicas) = [0; 1; 2; 3] ->
  HInv c h -> h.(h_todo) = [] -> host_case index dummyData k h = Some h' -> HInv c h'.
Proof.
  intros HI HP Hr HV E Hk. pose proof HV as [Hn _ Hi Ho Htk Hp]. unfold host_case in Hk. destruct k.
  - destruct (use UReady (h_node h)) as [s|] eqn:Eu; [|done]. injection Hk as <-.
    eapply HInv_use; [done| |exact Eu|by repeat constructor|]; [done|]. intros rx _ _. by rewrite E.
  - destruct (deliver (s_node (h_node h))) as [l|] eqn:Ed; [|done]. cbn [mbind option_bind] in Hk.
    destruct (use UMessages (h_node h)) as [s|] eqn:Eu; [|done]. injection Hk as <-.
    destruct (delivered_ok c _ l HI HP Hn Ed) as [Hs Ha]. rewrite Hr in Ha.
    eapply HInv_use; [done| |exact Eu|by apply (dispatched_all 0 _ Hs Ha)|]; [done|]. intros rx _ Hne.
    rewrite E. unfold took_messages. rewrite Ed. by apply (dispatched_all rx _ Hs Ha).
  - destruct (blocks (s_node (h_node h))) as [bs|]; [|done]. cbn [mbind option_bind] in Hk.
    destruct (use UBlocks (h_node h)) as [s|] eqn:Eu; [|done]. injection Hk as <-. rewrite confirm_stmts_replicate.
    eapply HInv_use; [done| |exact Eu|apply confirms_ok|]; [done|]. intros rx _ _. by rewrite E, confirms_pushes.
  - destruct (h_in h) as [|m rest] eqn:Ei; [done|]. injection Hk as <-. apply list.Forall_cons_1 in Hi as [Hm Hi].
    split; simpl; try done; [by repeat constructor|]. intros rx Hrx Hne. rewrite <- Hp by done. by rewrite E.
Qed.

Lemma HInv_stmt c x rest h h' : HInv c h -> h.(h_todo) = x :: rest -> run_stmt x rest h = Some (Ok h') -> HInv c h'.
Proof.
  intros HV E Hx. pose proof HV as [Hn Ht Hi Ho Htk Hp]. rewrite E in Ht. apply list.Forall_cons_1 in Ht as [Hok Ht].
  destruct x as [m|d|r m|]; cbn [run_stmt] in Hx.
  - destruct (use (UStep m) (h_node h)) as [s|] eqn:Eu; [|done]. injection Hx as <-.
    eapply HInv_use; [done| |exact Eu|done|]; [done|]. intros rx _ _. rewrite E. simpl. by rewrite app_nil_r.
  - destruct (use (USend d) (h_node h)) as [s|] eqn:Eu; [|done]. injection Hx as <-.
    eapply HInv_use; [done| |exact Eu|done|]; [done|]. intros rx _ _. rewrite E. simpl. by rewrite app_nil_r.
  - simpl in Hok. rewrite (proj2 (Z.leb_le 0 r)) in Hx by lia.
    destruct (h_out h !! Z.to_nat r) as [q|] eqn:Eq; [|done]. destruct (_ <? _)%nat; [|done]. injection Hx as <-.
    split; simpl; try done; [by rewrite length_insert|]. intros rx Hrx Hne. rewrite <- Hp, E by done.
    rewrite channel_insert by (rewrite ?Ho; lia). unfold pushes. simpl. rewrite (Z.eqb_sym rx r).
    destruct (r =? rx) eqn:Er; [|done]. zbool. subst. unfold channel. rewrite Eq. simpl. by rewrite <- !app_assoc.
  - destruct (_ <? _)%nat; [|done]. injection Hx as <-. split; simpl; try done.
    intros rx Hrx Hne. rewrite <- Hp, E by done. done.
Qed.

Lemma HInv_step c h h' : Inv th c -> c.(c_Progress) = empty_progress -> c.(c_replicas) = [0; 1; 2; 3] ->
  HInv c h -> hstep index dummyData h h' -> HInv c h'.
Proof.
  intros HI HP Hr HV Hs. pose proof HV as [Hn Ht Hi Ho Htk Hp]. destruct Hs as [k h n' Hk|k h h' Hk|rx h h' Hk|m h h' Hm Hk].
  - split; simpl; try done. eapply rtc_r; [exact Hn|by eapply N_turn].
  - unfold loop_step in Hk. destruct (h_todo h) as [|x rest] eqn:E; [|by eapply HInv_stmt].
    destruct (host_case index dummyData k h) as [h1|] eqn:Ec; [|done]. injection Hk as <-. by eapply HInv_case.
  - unfold connection_takes in Hk. destruct (h_out h !! rx) as [q|] eqn:Eq; [|done].
    destruct (h_taken h !! rx) as [t|] eqn:Et; [|done]. simpl in Hk. destruct q as [|m q]; [done|]. injection Hk as <-.
    split; simpl; try done; [by rewrite length_insert..|]. intros z Hz Hne. rewrite <- Hp by done.
    rewrite <- (Nat2Z.id rx). apply lookup_lt_Some in Eq as Hlt. rewrite !channel_insert by lia.
    destruct (z =? Z.of_nat rx) eqn:Ez; [|done]. zbool. subst. unfold channel. rewrite Nat2Z.id, Eq, Et. simpl.
    by rewrite <- !app_assoc.
  - unfold connection_reads in Hk. destruct (_ <? _)%nat; [|done]. injection Hk as <-. split; simpl; try done.
    apply Forall_app_2; [done|by repeat constructor].
Qed.

Lemma HInv_steps c h h' : Inv th c -> c.(c_Progress) = empty_progress -> c.(c_replicas) = [0; 1; 2; 3] ->
  HInv c h -> rtc (hstep index dummyData) h h' -> HInv c h'.
Proof. intros HI HP Hr HV Hs. induction Hs as [|h1 h2 h3 Hst _ IH]; [done|]. by eapply IH, HInv_step. Qed.

Lemma HInv_start c h : entryPoint (fresh_node c) = Some h -> HInv c h.
Proof.
  unfold entryPoint. simpl. intros [= <-]. split; simpl; try done.
  - apply rtc_once. by apply (N_use UStart).
  - by repeat constructor.
  - intros rx Hrx Hne. assert (rx = 0 \/ rx = 1 \/ rx = 2 \/ rx = 3) as Hc by (unfold NUMBER_OF_NODES in Hrx; lia).
    by repeat destruct Hc as [->|Hc]; [..|subst].
Qed.
End HostFacts.

(** ** The 101st block *)

Section Confirmed.
Context {DB : Type} `{KVStore DB} `{Hasher} `{Signer} `{Verifier} (index : Z) (dummyData : bytes).
Implicit Types h : host DB.

Definition finalized_got h : nat := length (finalized_blocks h.(h_node).(got_blocks)).

(** Either no confirmation is pending, or only confirmations are. *)
Definition counted h : Prop := (h.(h_confirmed) <= confirmed_capacity)%nat /\
  ((Confirm ∉ h.(h_todo) /\ h.(h_confirmed) = finalized_got h)
   \/ exists n, h.(h_todo) = replicate (S n) Confirm /\ (h.(h_confirmed) + S n)%nat = finalized_got h).

Lemma counted_replicate h n : (h.(h_confirmed) <= confirmed_capacity)%nat -> h.(h_todo) = replicate n Confirm ->
  (h.(h_confirmed) + n)%nat = finalized_got h -> counted h.
Proof.
  intros Hc Ht Hn. split; [done|]. destruct n as [|n]; [left|right; by exists n]. rewrite Ht. split; [apply list.not_elem_of_nil|lia].
Qed.

Lemma dispatched_no_confirm l : Confirm ∉ mjoin (dispatch_stmts index <$> l).
Proof.
  intros (x & Hx & (m & -> & _)%list_elem_of_fmap)%list_elem_of_join.
  apply list_elem_of_fmap in Hx as (r & E & _). unfold dispatch_stmt in E. by destruct (r =? index).
Qed.

Lemma use_finalized u h s todo : use u h.(h_node) = Some s -> u <> UBlocks ->
  finalized_got (with_node h s todo) = finalized_got h.
Proof.
  intros Hs Hu. apply use_got in Hs as [_ Hb]. unfold finalized_got. simpl. rewrite Hb. by destruct u; rewrite ?app_nil_r.
Qed.

Lemma counted_case k h h' : counted h -> h.(h_todo) = [] -> host_case index dummyData k h = Some h' -> counted h'.
Proof.
  intros [Hc HT] E Hk. assert (Hn : h_confirmed h = finalized_got h) by (destruct HT as [[_ ?]|(n & E' & _)]; [done|by rewrite E in E']).
  unfold host_case in Hk. destruct k.
  - destruct (use UReady (h_node h)) as [s|] eqn:Eu; [|done]. injection Hk as <-. split; [done|left].
    rewrite (use_finalized UReady) by done. split; [|done]. simpl. set_solver.
  - destruct (deliver (s_node (h_node h))) as [l|]; [|done]. cbn [mbind option_bind] in Hk.
    destruct (use UMessages (h_node h)) as [s|] eqn:Eu; [|done]. injection Hk as <-. split; [done|left].
    rewrite (use_finalized UMessages) by done. split; [apply dispatched_no_confirm|done].
  - destruct (blocks (s_node (h_node h))) as [bs|] eqn:Eb; [|done]. cbn [mbind option_bind] in Hk.
    destruct (use UBlocks (h_node h)) as [s|] eqn:Eu; [|done]. injection Hk as <-. rewrite confirm_stmts_replicate.
    eapply counted_replicate; [done|done|]. unfold finalized_got in *. simpl.
    apply use_got in Eu as [_ ->]. simpl. rewrite Eb. unfold finalized_blocks in *. rewrite list.filter_app, length_app. simpl. lia.
  - destruct (h_in h) as [|m rest]; [done|]. injection Hk as <-. split; [done|left]. split; [|done]. simpl. set_solver.
Qed.

Lemma counted_stmt x rest h h' : counted h -> h.(h_todo) = x :: rest -> run_stmt x rest h = Some (Ok h') -> counted h'.
Proof.
  intros [Hc HT] E Hx. destruct HT as [[HC Hn]|(n & E' & Hn)].
  - assert (Hr : Confirm ∉ rest /\ x <> Confirm) by (rewrite E in HC; set_solver). destruct Hr as [Hr Hxc].
    destruct x as [m|d|r m|]; cbn [run_stmt] in Hx; [| | |done].
    + destruct (use (UStep m) (h_node h)) as [s|] eqn:Eu; [|done]. injection Hx as <-. split; [done|left].
      by rewrite (use_finalized (UStep m)).
    + destruct (use (USend d) (h_node h)) as [s|] eqn:Eu; [|done]. injection Hx as <-. split; [done|left].
      by rewrite (use_finalized (USend d)).
    + repeat case_match; simplify_eq. split; [done|by left].
  - rewrite E in E'. simpl in E'. injection E' as -> ->. cbn [run_stmt] in Hx.
    destruct (h_confirmed h <? confirmed_capacity)%nat eqn:El; [|done]. injection Hx as <-. apply Nat.ltb_lt in El.
    eapply counted_replicate; [exact El|done|]. unfold finalized_got in *. simpl. lia.
Qed.

Lemma counted_step h h' : counted h -> hstep index dummyData h h' -> counted h'.
Proof.
  intros HC Hs. destruct Hs as [k h n' Hk|k h h' Hk|rx h h' Hk|m h h' Hm Hk].
  - exact HC.
  - unfold loop_step in Hk. destruct (h_todo h) as [|x rest] eqn:E; [|by eapply counted_stmt].
    destruct (host_case index dummyData k h) as [h1|] eqn:Ec; [|done]. injection Hk as <-. by eapply counted_case.
  - unfold connection_takes in Hk. destruct (h_out h !! rx) as [[|m q]|], (h_taken h !! rx); try done.
    injection Hk as <-. exact HC.
  - unfold connection_reads in Hk. destruct (_ <? _)%nat; [|done]. injection Hk as <-. exact HC.
Qed.

Lemma counted_start (c : consensus DB) h : entryPoint (fresh_node c) = Some h -> counted h.
Proof. unfold entryPoint. simpl. intros [= <-]. split; [simpl; unfold confirmed_capacity; lia|left]. simpl. split; [set_solver|done]. Qed.

(** More blocks were finalized than the channel has room for. *)
Definition overfull h : Prop := counted h /\ (confirmed_capacity < finalized_got h)%nat.

(** What has been put into the channel of a peer so far. *)
Definition put_to (rx : nat) h : list Message := default [] (h.(h_taken) !! rx) ++ default [] (h.(h_out) !! rx).

(** The loop gets no further: it takes nothing from the node or from the connections
    and writes nothing to the peers. *)
Definition standstill h h' : Prop :=
  h'.(h_node).(got_messages) = h.(h_node).(got_messages) /\ h'.(h_node).(got_blocks) = h.(h_node).(got_blocks)
  /\ h.(h_in) `prefix_of` h'.(h_in) /\ forall rx, put_to rx h' = put_to rx h.

#[export] Instance standstill_preorder : PreOrder standstill.
Proof.
  split; [by intros h; split_and!|]. intros h1 h2 h3 (M1 & B1 & I1 & P1) (M2 & B2 & I2 & P2).
  split_and!; [congruence..|by etrans|]. intros rx. by rewrite P2, P1.
Qed.

Lemma overfull_todo h : overfull h -> exists n, h.(h_todo) = replicate (S n) Confirm.
Proof. intros [[Hc [[_ Hn]|(n & E & _)]] Ho]; [lia|by exists n]. Qed.

Lemma overfull_step h h' : overfull h -> hstep index dummyData h h' -> standstill h h' /\ overfull h'.
Proof.
  intros Ho Hs. pose proof (counted_step _ _ (proj1 Ho) Hs) as HC. destruct (overfull_todo _ Ho) as [n E].
  destruct Hs as [k h n' Hk|k h h' Hk|rx h h' Hk|m h h' Hm Hk].
  - split; [done|by split; [|apply Ho]].
  - unfold loop_step in Hk. rewrite E in Hk. cbn [replicate run_stmt] in Hk. destruct (_ <? _)%nat; [|done].
    injection Hk as <-. split; [done|by split; [|apply Ho]].
  - unfold connection_takes in Hk. destruct (h_out h !! rx) as [[|m q]|] eqn:Eo, (h_taken h !! rx) as [t|] eqn:Et; try done.
    injection Hk as <-. split; [|by split; [|apply Ho]]. split_and!; [done..|]. intros r. unfold put_to. simpl.
    apply lookup_lt_Some in Eo as Lo. apply lookup_lt_Some in Et as Lt. destruct (decide (r = rx)) as [->|Hne].
    + rewrite !list_lookup_insert_eq, Eo, Et by done. simpl. by rewrite <- app_assoc.
    + by rewrite !list_lookup_insert_ne by done.
  - unfold connection_reads in Hk. destruct (_ <? _)%nat; [|done]. injection Hk as <-.
    split; [|by split; [|apply Ho]]. split_and!; [done..| |done]. by eexists.
Qed.
End Confirmed.

(** ** Theorems *)

Section Theorems.
Context {DB : Type} `{KVStore DB} `{!KVLaws DB} `{Hasher} `{!HasherLaws} `{Signer} `{Verifier}
        (th : Z) `{!VerifierLaws th} (index : Z) (dummyData : bytes).

(** In the four-node configuration the process passes on to every peer, in
    order, exactly the messages of its replica that are for it, each one once for
    every time it is named: taken by the connection, in the channel, or about to
    be put into it; and no statement of the loop panics. *)
Theorem process_delivers (c : consensus DB) h0 h : Inv th c -> c.(c_Progress) = empty_progress ->
  c.(c_replicas) = [0; 1; 2; 3] -> entryPoint (fresh_node c) = Some h0 -> rtc (hstep index dummyData) h0 h ->
  exists w, rtc wstep (mkWorld c [] []) w /\ h.(h_node).(got_messages) `prefix_of` w.(w_sent)
  /\ (forall rx, 0 <= rx < NUMBER_OF_NODES -> rx <> index ->
        channel rx h.(h_taken) ++ channel rx h.(h_out) ++ pushes rx h.(h_todo)
        = peer_messages rx h.(h_node).(got_messages))
  /\ forall k p, loop_step index dummyData k h <> Some (Panic p).
Proof.
  intros HI HP Hr Hstart Hsteps.
  pose proof (HInv_steps th index dummyData c h0 h HI HP Hr (HInv_start index c h0 Hstart) Hsteps) as [Hn Ht _ Ho _ Hp].
  destruct (nsteps_sim (mkSystem (fresh_node c) [] []) _ (fresh_ok c) Hn) as [_ Hw].
  exists (abs (h_node h)). split_and!; [exact Hw|by eexists|exact Hp|]. intros k p Hk. unfold loop_step in Hk.
  destruct (h_todo h) as [|x rest]; [by destruct (host_case _ _ k h)|]. apply list.Forall_cons_1 in Ht as [Hx _].
  destruct x as [m|d|r m|]; cbn [run_stmt] in Hk.
  - by destruct (use (UStep m) (h_node h)).
  - by destruct (use (USend d) (h_node h)).
  - simpl in Hx. rewrite (proj2 (Z.leb_le 0 r)) in Hk by lia.
    destruct (h_out h !! Z.to_nat r) as [q|] eqn:Eq; [by destruct (_ <? _)%nat|].
    apply lookup_ge_None in Eq. unfold NUMBER_OF_NODES in *. lia.
  - by destruct (_ <? _)%nat.
Qed.

(** C40: [confirmedChannel] has room for 100 values and nobody reads it: once the node
    has reported more than 100 finalized blocks the process stands still.  Whatever
    happens then, it takes no message and no block from the node, nothing that the
    connections have read, and writes nothing to its peers. *)
Theorem loop_stops_at_101 (c : consensus DB) h0 h h' : entryPoint (fresh_node c) = Some h0 ->
  rtc (hstep index dummyData) h0 h -> (100 < finalized_got h)%nat -> rtc (hstep index dummyData) h h' ->
  standstill h h'.
Proof.
  intros Hstart Hsteps Hn Hs.
  assert (HC : counted h).
  { pose proof (counted_start c h0 Hstart) as HC. clear Hstart Hn Hs. induction Hsteps as [|h1 h2 h3 Hst _ IH]; [done|].
    by eapply IH, counted_step. }
  assert (Ho : overfull h) by (split; [exact HC|exact Hn]). clear Hsteps Hn HC Hstart.
  induction Hs as [h|h1 h2 h3 Hst _ IH]; [done|]. destruct (overfull_step index dummyData _ _ Ho Hst) as [Hss Ho2].
  etrans; [exact Hss|exact (IH Ho2)].
Qed.
End Theorems.

(** ** Scripted runs *)

Inductive hop : Type := NodeTurn (k : select) | Loop (k : hcase) | Takes (rx : nat) | Reads (m : Message).

Section Scripts.
Context {DB : Type} `{KVStore DB} `{Hasher} `{Signer} `{Verifier} (index : Z) (dummyData : bytes).

Definition do_hop (h : host DB) (o : hop) : option (host DB) :=
  match o with
  | NodeTurn k =>
      match turn k h.(h_node).(s_node) with
      | Some (n', inl _) => Some (mkHost (mkSystem n' h.(h_node).(got_messages) h.(h_node).(got_blocks))
                                    h.(h_out) h.(h_in) h.(h_confirmed) h.(h_todo) h.(h_taken))
      | _ => None
      end
  | Loop k => match loop_step index dummyData k h with Some (Ok h') => Some h' | _ => None end
  | Takes rx => connection_takes rx h
  | Reads m => connection_reads m h
  end.
Definition hop_ok (o : hop) : Prop := match o with Reads m => msg_ok m | _ => True end.

Fixpoint hrun (h : host DB) (l : list hop) : option (host DB) :=
  match l with [] => Some h | o :: l => h' ← do_hop h o; hrun h' l end.

Lemma do_hop_step h o h' : hop_ok o -> do_hop h o = Some h' -> hstep index dummyData h h'.
Proof.
  destruct o as [k|k|rx|m]; simpl; intros Ho.
  - destruct (turn k _) as [[n' [[]|]]|] eqn:E; try done. intros [= <-]. by eapply H_node.
  - destruct (loop_step _ _ k h) as [[h1| |]|] eqn:E; try done. intros [= <-]. by eapply H_loop.
  - by apply H_takes.
  - by apply H_reads.
Qed.

Lemma hrun_rtc l h h' : Forall hop_ok l -> hrun h l = Some h' -> rtc (hstep index dummyData) h h'.
Proof.
  intros Hl. revert h. induction Hl as [|o l Ho _ IH]; simpl; intros h; [by intros [= <-]|].
  destruct (do_hop h o) as [h1|] eqn:E; [|done]. intros ?. eapply rtc_l; [by eapply do_hop_step|auto].
Qed.
End Scripts.

(** ** Witnesses *)

#[local] Instance signer1 : Signer := demo_signer 1.

Definition demo_host : host mem_db :=
  default (mkHost (mkSystem (fresh_node (demo 1)) [] []) [] [] 0 [] []) (entryPoint (fresh_node (demo 1))).

Lemma demo_entry : entryPoint (fresh_node (demo 1)) = Some demo_host.
Proof. reflexivity. Qed.

(** Node 1 starts, is asked for data and proposes; its proposal is dispatched, to
    itself and to the others, and its vote to node 2, which takes one message. *)
Definition proposing : list hop :=
  [Loop HReady; NodeTurn SStart; NodeTurn SReceived; NodeTurn SWaitingData; Loop HReady; Loop HReady; NodeTurn SSend;
   NodeTurn SMessages; Loop HMessages; Loop HReady; Loop HReady; Loop HReady; Loop HReady; Takes 2].

Lemma process_delivers_witness : exists h : host mem_db, hrun 1 [x01] demo_host proposing = Some h
  /\ length (channel 2 h.(h_taken)) = 1%nat
  /\ channel 2 h.(h_taken) ++ channel 2 h.(h_out) ++ pushes 2 h.(h_todo) = peer_messages 2 h.(h_node).(got_messages).
Proof.
  assert (E : (fun h => length (channel 2 h.(h_taken))) <$> hrun 1 [x01] demo_host proposing = Some 1%nat) by (vm_compute; reflexivity).
  destruct (hrun 1 [x01] demo_host proposing) as [h|] eqn:Eh; [|discriminate E]. apply (inj Some) in E.
  exists h. split; [reflexivity|]. split; [exact E|].
  destruct (demo_inv 1) as [HI HP]; [lia|].
  destruct (process_delivers 3 1 [x01] (demo 1) demo_host h HI HP) as (w & _ & _ & Hp & _).
  - vm_compute. reflexivity.
  - apply demo_entry.
  - apply (hrun_rtc 1 [x01] proposing); [repeat constructor|exact Eh].
  - apply Hp; unfold NUMBER_OF_NODES; lia.
Defined.

(** For a run of more than a hundred blocks: the view is enough of a hash, and every
    certificate is accepted. *)
Module Light.
#[local] Instance hasher : Hasher := {| blake2s256 b := take 3 b |}.
#[local] Instance signer : Signer := {| Sign _ _ := Ok [] |}.
#[local] Instance verifier : Verifier := {|
  VerifyAggregated _ _ := Ok true; Verify _ _ _ := true; Merge a _ _ := Ok a
|}.

Definition certificate (h : Header) : Certificate := mkCertificate (Some (Header_Hash h)) None.
Definition first : Header := mkHeader 0 None 0 (Some [x2a]) None.
Definition replica : option (consensus mem_db) :=
  match newConsensus (fst (ImportGenesis (∅ : mem_db) (mkBlock (Some first) (Some (mkData [])) (Some (certificate first))))) 1 demo_replicas with
  | Ok c => Some c | _ => None
  end.
Definition running : option (host mem_db) := c ← replica; entryPoint (fresh_node c).

Fixpoint blocks_on (n : nat) (parent : Header) : list Block :=
  match n with
  | O => []
  | S n =>
      let h := mkHeader (Header_View parent + 1) (Some (Header_Hash parent)) (Header_View parent) None None in
      mkBlock (Some h) (Some (mkData [])) (Some (certificate h)) :: blocks_on n h
  end.

(** A peer sends 103 certified blocks in one message, which finalize 101. *)
Definition long_chain : Message := NewSyncMsg (blocks_on 103 first).

Lemma blocks_on_good n parent : 0 <= Header_View parent -> Header_View parent + Z.of_nat n < two64 ->
  Forall (fun b => forall h, b.(Block_Header) = Some h -> good h) (blocks_on n parent).
Proof.
  revert parent. induction n as [|n IH]; intros parent Hv Hn; [constructor|]. constructor; [|by apply IH; simpl; lia].
  intros h [= <-]. apply Header_good; [unfold is_u64; lia..|].
  assert (len (Header_Hash parent) <= 3) by (unfold Header_Hash, len; simpl; rewrite length_take; lia).
  assert (len (Header_Hash parent) + 0 + 0 < 2 ^ 62) as Hl by (assert (3 < 2 ^ 62) by done; lia). exact Hl.
Qed.

Lemma long_chain_ok : msg_ok long_chain.
Proof. apply blocks_on_good; [done|]. simpl. unfold two64. lia. Qed.

Definition finalizing : list hop :=
  [Loop HReady; NodeTurn SStart; NodeTurn SReceived; NodeTurn SWaitingData; Reads long_chain; Loop HIncoming; Loop HReady;
   NodeTurn SReceived; NodeTurn SBlocks; Loop HBlocks].

Lemma finalizing_ok : Forall hop_ok finalizing.
Proof.
  do 4 (apply list.Forall_cons_2; [exact I|]). apply list.Forall_cons_2; [exact long_chain_ok|].
  do 5 (apply list.Forall_cons_2; [exact I|]). apply list.Forall_nil_2.
Qed.

(** A message from a peer that it never gets to see. *)
Definition later : list hop := replicate 100 (Loop HReady) ++ [Reads (mkMessage None)].

Lemma later_ok : Forall hop_ok later.
Proof. apply Forall_app_2; [by apply list.Forall_replicate|]. apply list.Forall_cons_2; [exact I|apply list.Forall_nil_2]. Qed.

Lemma loop_stops_at_101_witness : exists h0 h h' : host mem_db, running = Some h0
  /\ hrun 1 [x01] h0 finalizing = Some h /\ finalized_got h = 101%nat
  /\ hrun 1 [x01] h later = Some h' /\ h'.(h_confirmed) = 100%nat /\ standstill h h'.
Proof.
  assert (E : (h0 ← running; h ← hrun 1 [x01] h0 finalizing; h' ← hrun 1 [x01] h later;
               Some (finalized_got h, h'.(h_confirmed))) = Some (101%nat, 100%nat)) by (vm_compute; reflexivity).
  destruct running as [h0|] eqn:E0; [|discriminate E]. cbn [mbind option_bind] in E.
  destruct (hrun 1 [x01] h0 finalizing) as [h|] eqn:Eh; [|discriminate E]. cbn [mbind option_bind] in E.
  destruct (hrun 1 [x01] h later) as [h'|] eqn:Eh'; [|discriminate E]. apply (inj Some) in E.
  apply pair_equal_spec in E as [En E]. exists h0, h, h'. split; [reflexivity|]. split; [exact Eh|]. split; [exact En|].
  split; [exact Eh'|]. split; [exact E|]. unfold running in E0. destruct replica as [c|]; [|discriminate E0].
  apply (loop_stops_at_101 1 [x01] c h0 h h').
  - exact E0.
  - apply (hrun_rtc 1 [x01] finalizing); [exact finalizing_ok|exact Eh].
  - rewrite En. lia.
  - apply (hrun_rtc 1 [x01] later); [exact later_ok|exact Eh'].
Defined.
End Light.
