(* ===== verification/Received.v ===== *)
(** * What a decoder makes of the bytes of a peer

    The theorems about a replica assume of a message that arrives that it is
    acceptable, [msg_ok]: the voter of a ballot is a 64-bit number, and the headers
    in it have an encoding that fits in memory.  Here this is proved of everything that
    hotstuff-node/tcpNode.go reads from a connection, whatever the peer sends:
    every byte field of a decoded message is a piece of the frame it was in, and a
    frame is shorter than 2^32. *)

From Stdlib Require Import ZArith Lia.
From S2P Require Import Prelude Wire Types Proto Codec Encoding Crypto Store Quorum Progress Consensus.
From S2P Require Import ConsensusFacts CodecSpec Net.

(** ** Pieces of the input *)

Section Within.
Context (N : Z) (HN : N < two63).

Definition piece (s : slice) : Prop := len (sbytes s) <= N.

(** A message of which the header is made of pieces of the input. *)
Definition Header_within (h : Header) : Prop := wf h
  /\ piece h.(Header_Parent) /\ piece h.(Header_DataRoot) /\ piece h.(Header_StateRoot).
Definition Block_within (b : Block) : Prop := wf b /\ forall h, b.(Block_Header) = Some h -> Header_within h.
Definition Proposal_within (p : Proposal) : Prop := wf p /\ forall h, p.(Proposal_Header) = Some h -> Header_within h.
Definition Sync_within (s : Sync) : Prop := Forall Block_within s.(Sync_Blocks).
Definition Message_within (m : Message) : Prop :=
  match m.(Message_GetType) with
  | Some (Message_Proposal p) => Proposal_within p
  | Some (Message_Newview n) => wf n
  | Some (Message_Vote v) => wf v
  | Some (Message_Sync s) => Sync_within s
  | None => True
  end.

(** The decoder of [A] keeps [P] on inputs of at most [N] bytes. *)
Definition decodes_within {A} `{ProtoMessage A} (P : A -> Prop) : Prop := P zero
  /\ forall m d, len d <= N -> P m -> P (fst (Unmarshal m d)) /\ is_panic (snd (Unmarshal m d)) = false.

Lemma wf_within {A} `{ProtoLaws A} : decodes_within (wf (A := A)).
Proof. split; [apply law_wf_zero|]. intros m d Hd Hm. apply law_safe; [lia|done]. Qed.

Lemma msg_field {M B} `{ProtoMessage B} (wfb : B -> Prop) (wfm : M -> Prop) wt d i cur (set : B -> M) :
  decodes_within wfb -> 0 <= i -> len d <= N -> (forall b, cur = Some b -> wfb b) -> (forall b, wfb b -> wfm (set b)) ->
  safe (fun '(m', j) => wfm m' /\ i <= j <= len d) (msg_case wt d i cur set).
Proof.
  intros [Hz Hd] Hi Hl Hcur Hs. apply (msg_case_within wfm wfb); [done|lia|done..| |done].
  intros b bs Hbs. apply Hd. lia.
Qed.
Lemma bytes_field {M} (wfm : M -> Prop) wt d i (set : slice -> M) :
  0 <= i -> len d <= N -> (forall s, piece s -> wfm (set s)) ->
  safe (fun '(m', j) => wfm m' /\ i <= j <= len d) (bytes_case wt d i set).
Proof. intros Hi Hl Hs. apply bytes_case_within; [done|lia|]. intros s Hsl. apply Hs. unfold piece. lia. Qed.

(** One case of the decoder. *)
Ltac field := simpl; repeat (case_match; simplify_eq; try done);
  first [ apply varint_case_safe; [lia|] | apply bytes_field; [lia|done|] ]; simpl; intros; unfold wf in *; naive_solver.
Ltac by_cases wf := split; [|intros msg d Hd Hm; apply (unmarshal_within _ wf N HN); [|done|done]].

Lemma Header_decodes : 0 <= N -> decodes_within Header_within.
Proof.
  intros HN0. by_cases Header_within; [done|]. intros d' num wt i m' Hi Hd' Hw. destruct m'.
  unfold Header_within, Header_cases, wf, Header_laws, Header_wf in *. simpl in Hw. field.
Qed.

Lemma Block_decodes : 0 <= N -> decodes_within Block_within.
Proof.
  intros HN0. by_cases Block_within; [done|]. intros d' num wt i [header data cert] Hi Hd' [(Hh & Hda & Hc) Hw].
  simpl in *. repeat (case_match; simplify_eq; try done);
    first [ apply (msg_field Header_within); [by apply Header_decodes|lia|done|done|]; intros b Hb; pose proof (proj1 Hb)
          | apply (msg_field wf); [apply wf_within|lia|done|done|]; intros b Hb ];
    (split; [split_and!|]; [..|]; simpl; try done; by intros x [= <-]).
Qed.

Lemma Proposal_decodes : 0 <= N -> decodes_within Proposal_within.
Proof.
  intros HN0. by_cases Proposal_within; [done|]. intros d' num wt i [header data sig cert timeout] Hi Hd' [(Hh & Hda & Hc & Ht) Hw].
  simpl in *. repeat (case_match; simplify_eq; try done);
    first [ apply bytes_field; [lia|done|]; by intros x Hx
          | apply (msg_field Header_within); [by apply Header_decodes|lia|done|done|]; intros b Hb; pose proof (proj1 Hb)
          | apply (msg_field wf); [apply wf_within|lia|done|done|]; intros b Hb ];
    (split; [split_and!|]; [..|]; simpl; try done; by intros x [= <-]).
Qed.

Lemma Sync_decodes : 0 <= N -> decodes_within Sync_within.
Proof.
  intros HN0. by_cases Sync_within; [constructor|]. intros d' num wt i [l] Hi Hd' Hw. simpl in *.
  repeat (case_match; simplify_eq; try done). apply (msg_field Block_within); [by apply Block_decodes|lia|done|done|].
  intros b Hb. apply Forall_app_2; [exact Hw|by constructor].
Qed.

Lemma Message_decodes : 0 <= N -> decodes_within Message_within.
Proof.
  intros HN0. by_cases Message_within; [done|]. intros d' num wt i m' Hi Hd' Hw. unfold Message_cases. simpl in *.
  repeat (case_match; simplify_eq; try done);
    first [ apply (msg_field Proposal_within); [by apply Proposal_decodes|lia|done|done|done]
          | apply (msg_field Sync_within); [by apply Sync_decodes|lia|done|done|done]
          | apply (msg_field wf); [apply wf_within|lia|done|done|done] ].
Qed.
End Within.

(** ** Acceptable *)

Lemma Header_within_good N h : N < 2 ^ 60 -> Header_within N h -> good h.
Proof.
  intros HN ([Hv Hp] & H1' & H2' & H3'). destruct h. apply Header_good; [done..|]. unfold piece in *. simpl in *.
  assert (2 ^ 62 = 4 * 2 ^ 60) by done. lia.
Qed.

Lemma Message_within_ok N m : N < 2 ^ 60 -> Message_within N m -> msg_ok m.
Proof.
  intros HN. unfold Message_within, msg_ok. destruct (Message_GetType m) as [[p|n|v|s]|]; [|by intros (_ & ? & _)|by intros [_ ?]| |done].
  - intros [_ Hh] h Eh. eapply Header_within_good; eauto.
  - intros Hs. eapply list.Forall_impl; [exact Hs|]. intros b [_ Hb] h Eh. eapply Header_within_good; eauto.
Qed.

Lemma decoded_ok b : len b < 2 ^ 32 -> msg_ok (fst (Unmarshal (zero : Message) b)) /\ is_panic (snd (Unmarshal (zero : Message) b)) = false.
Proof.
  intros Hb. destruct (Message_decodes (2 ^ 32) ltac:(done) ltac:(done)) as [Hz Hd].
  destruct (Hd zero b ltac:(lia) Hz) as [Hw Hp]. split; [|done]. by apply (Message_within_ok (2 ^ 32)).
Qed.

Lemma frame_length s b rest : getMessageFromReader s = Ok (b, rest) -> len b < 2 ^ 32.
Proof.
  unfold getMessageFromReader. destruct (ReadFull _ s) as [[pre r]|]; [|done]. intros (n & Hn & Hr)%res_bind_Ok.
  destruct (ReadFull (Z.to_nat n) r) as [[b' r']|] eqn:E; [|done]. injection Hr as -> ->.
  apply ReadFull_Some in E as [_ E]. apply getMsgLength_range in Hn. unfold len. rewrite E. lia.
Qed.

Lemma listen_ok fuel s : Forall msg_ok (fst (listen fuel s)).
Proof.
  revert s. induction fuel as [|fuel IH]; intros s; cbn [listen]; [constructor|].
  destruct (getMessageFromReader s) as [[b rest]| |] eqn:E; [|constructor..].
  destruct (decoded_ok b (frame_length _ _ _ E)) as [Hm Hp]. specialize (IH rest).
  destruct (Unmarshal (zero : Message) b) as [m [[]|e|c]]; [| |done]; destruct (listen fuel rest); by constructor.
Qed.

(** Whatever bytes a peer sends, every message that [listenForMessages] hands to the
    process is one that the theorems about a replica speak of: it has a voter in range
    and headers that can be hashed and stored.  That holds also of a message
    that was decoded in part, which is handed over as well. *)
Lemma received_well_formed (stream : bytes) : Forall msg_ok (fst (listenForMessages stream)).
Proof. apply listen_ok. Qed.
