(* ===== verification/Connections.v ===== *)
(** * Connections and their goroutines

    What happens to a TCP connection in hotstuff-node/tcpNode.go (Module
    [Deployed]) and in the experiment of node/ (Module [Experiment]): the
    goroutines that read and write it, the WaitGroup that its handler waits on,
    and the loop that dialled it.  A WaitGroup is its counter; a WaitGroup passed
    by value is a copy.  A connection's step relation interleaves its goroutines
    with what the network does. *)

From Stdlib Require Import ZArith Lia.
From stdpp Require Import relations.
From S2P Require Import Prelude Wire Types Proto Codec CodecSpec Encoding Net Received.

(** ** initiateConnection

    Both programs dial in a loop that starts a handler and waits on a WaitGroup of
    its own; the handler does not know that WaitGroup.  On a refused connection
    the one retries, the other returns. *)

Section Dialer.
Context {K : Type} (accepted : K -> Prop) (kstep : relation K) (retries : bool).

(** About to dial, for the first time or [again]; waiting on its WaitGroup; ended. *)
Inductive position : Type := Dialing (again : bool) | Waiting (wg : Z) | Returned.
Record initiator : Type := mkInitiator { i_at : position; i_conns : list K }.

Inductive istep : relation initiator :=
| I_dial again k ks : accepted k -> istep (mkInitiator (Dialing again) ks) (mkInitiator (Waiting 1) (ks ++ [k]))
| I_refused again ks : istep (mkInitiator (Dialing again) ks) (mkInitiator (if retries then Dialing true else Returned) ks)
| I_wait ks : istep (mkInitiator (Waiting 0) ks) (mkInitiator (Dialing true) ks)
| I_conn p ks1 k k' ks2 : kstep k k' -> istep (mkInitiator p (ks1 ++ k :: ks2)) (mkInitiator p (ks1 ++ k' :: ks2)).

Definition initiateConnection : initiator := mkInitiator (Dialing false) [].

Context (P : K -> Prop) (Pstart : forall k, accepted k -> P k) (Pstep : forall k k', P k -> kstep k k' -> P k').

(** One connection at most, of which [P] holds; after it the loop waits for ever. *)
Definition dialled_once (s : initiator) : Prop :=
  (i_conns s = [] /\ (i_at s = Dialing false \/ i_at s = if retries then Dialing true else Returned))
  \/ (i_at s = Waiting 1 /\ exists k, i_conns s = [k] /\ P k).

Lemma istep_once s s' : dialled_once s -> istep s s' -> dialled_once s'.
Proof.
  intros HD Hs. destruct Hs as [again k ks Hk|again ks|ks|p ks1 k k' ks2 Hk]; destruct HD as [[E Hp]|(E & x & Ex & Hx)]; simpl in *;
    try (by destruct Hp as [|Hp]; destruct retries); try done; subst.
  - right. split; [done|]. exists k. by auto.
  - left. split; [done|]. by right.
  - by destruct ks1.
  - right. split; [done|]. destruct ks1 as [|y [|]]; simplify_eq/=. exists k'. eauto.
Qed.

Lemma isteps_once s : rtc istep initiateConnection s -> dialled_once s.
Proof.
  intros Hs. assert (HD : dialled_once initiateConnection) by by left; split; [|left]. revert HD.
  induction Hs as [s|s1 s2 s3 Hst _ IH]; [done|]. intros HD. by eapply IH, istep_once.
Qed.
(** A run of the one connection. *)
Lemma dial_and_run k k' : accepted k -> rtc kstep k k' -> rtc istep initiateConnection (mkInitiator (Waiting 1) [k']).
Proof.
  intros Hk Hs. eapply rtc_l; [by apply (I_dial false k [])|]. simpl. clear Hk.
  induction Hs as [k|k1 k2 k3 Hst _ IH]; [apply rtc_refl|]. eapply rtc_l; [exact (I_conn _ [] _ _ [] Hst)|exact IH].
Qed.
End Dialer.

(** A list of events as a run. *)
Lemma run_events {K E} (step : E -> K -> option K) (R : relation K) :
  (forall e k k', step e k = Some k' -> R k k') ->
  forall l k k', foldl (fun o e => o ≫= step e) (Some k) l = Some k' -> rtc R k k'.
Proof.
  intros HR l. induction l as [|e l IH]; simpl; intros k k'; [by intros [= <-]|].
  destruct (step e k) as [k1|] eqn:E1; [intros ?; eapply rtc_l; [by eapply HR|auto]|].
  intros F. exfalso. clear -F. induction l; [done|auto].
Qed.
Arguments initiator K : clear implicits.

(** ** Reading frames *)

Lemma be_value_cons x b : be_value (x :: b) = Z_of_byte x * 2 ^ (8 * len b) + be_value b.
Proof. unfold be_value. simpl. rewrite be_fold. by rewrite Z.shiftl_0_l, Z.lor_0_l. Qed.

Lemma be_bytes_value b acc : 0 <= acc -> be_bytes (length b) (acc * 2 ^ (8 * len b) + be_value b) = b.
Proof.
  revert acc. induction b as [|x b IH]; intros acc Ha; [done|]. simpl be_bytes.
  pose proof (Z_of_byte_range x). pose proof (be_value_range b). pose proof (len_nonneg b).
  assert (Hp : 0 < 2 ^ (8 * len b)) by (apply Z.pow_pos_nonneg; lia).
  replace (acc * 2 ^ (8 * len (x :: b)) + be_value (x :: b))
    with ((acc * 256 + Z_of_byte x) * 2 ^ (8 * len b) + be_value b).
  - rewrite IH by lia. f_equal. unfold len. rewrite Z.shiftr_div_pow2 by lia. change (Z.of_nat (length b)) with (len b).
    rewrite Z.div_add_l, (Z.div_small (be_value b)), Z.add_0_r by lia.
    apply Z_of_byte_inj. rewrite Z_of_byte_of_Z, Z.add_comm, Z.mod_add, Z.mod_small by lia. done.
  - rewrite be_value_cons, len_cons, Z.mul_add_distr_l, Z.pow_add_r by lia. change (2 ^ (8 * 1)) with 256. lia.
Qed.

(** A frame is the bytes it was read from. *)
Lemma read_frame_inv s b rest : getMessageFromReader s = Ok (b, rest) -> s = toByteArray b ++ rest.
Proof.
  unfold getMessageFromReader. destruct (ReadFull BYTES_ARRAY_PREFIX_LENGTH s) as [[pre r]|] eqn:E1; [|done].
  intros (n & Hn & Hr)%res_bind_Ok. destruct (ReadFull (Z.to_nat n) r) as [[b' r']|] eqn:E2; [|done]. injection Hr as -> ->.
  apply ReadFull_Some in E1 as [-> E1], E2 as [-> E2]. unfold toByteArray. rewrite <- app_assoc. f_equal.
  pose proof (getMsgLength_range _ _ Hn) as Hrange. unfold getMsgLength in Hn. destruct (len pre <? 4); [done|].
  injection Hn as <-. rewrite take_ge in Hrange, E2 by (by rewrite E1). unfold length_prefix, len. rewrite E2, Z2Nat.id by lia.
  rewrite Z.mod_small by lia. rewrite <- E1. symmetry. apply (be_bytes_value pre 0). done.
Qed.

(** The bytes [arrived] are those of the frames of [read] and then [unread]. *)
Definition framed (arrived : bytes) (read : list bytes) (unread : bytes) : Prop :=
  arrived = concat (toByteArray <$> read) ++ unread /\ Forall (fun b => len b < 2 ^ 32) read.

Lemma framed_more arrived read unread b : framed arrived read unread -> framed (arrived ++ b) read (unread ++ b).
Proof. intros [-> Hl]. split; [by rewrite app_assoc|done]. Qed.

Lemma framed_read arrived read unread b rest : framed arrived read unread ->
  getMessageFromReader unread = Ok (b, rest) -> framed arrived (read ++ [b]) rest.
Proof.
  intros [-> Hl] Hr. pose proof (frame_length _ _ _ Hr). apply read_frame_inv in Hr as ->. split.
  - rewrite fmap_app, concat_app. simpl. by rewrite app_nil_r, <- !app_assoc.
  - apply Forall_app_2; [done|by repeat constructor].
Qed.

(** Frames that arrive from a stream of frames are the first ones of that stream. *)
Lemma framed_prefix arrived read unread bs : framed arrived read unread -> Forall (fun b => len b < 2 ^ 32) bs ->
  arrived `prefix_of` concat (toByteArray <$> bs) -> read `prefix_of` bs.
Proof.
  intros [-> Hl] Hb. revert bs Hb. induction Hl as [|b read Hbl _ IH]; intros bs Hb [tl E]; [apply prefix_nil|].
  destruct Hb as [|b' bs Hbl' Hb]; [discriminate E|]. cbn [fmap list_fmap concat] in E.
  rewrite <- !app_assoc in E. apply (f_equal getMessageFromReader) in E. rewrite !read_frame in E by done.
  injection E as -> E. apply prefix_cons, IH; [done|]. exists tl. by rewrite <- app_assoc.
Qed.

(** Also when a part of one more frame follows it. *)
Lemma framed_partial arrived read unread bs b partial : framed arrived read unread ->
  Forall (fun b => len b < 2 ^ 32) (bs ++ [b]) -> partial `prefix_of` toByteArray b ->
  (length partial < length (toByteArray b))%nat ->
  arrived `prefix_of` concat (toByteArray <$> bs) ++ partial -> read `prefix_of` bs.
Proof.
  intros Hf Hb [tl Etl] Hlen [tl' E'].
  assert (Ec : concat (toByteArray <$> (bs ++ [b])) = concat (toByteArray <$> bs) ++ toByteArray b)
    by (rewrite fmap_app, concat_app; simpl; by rewrite app_nil_r).
  assert (Hr : read `prefix_of` bs ++ [b]).
  { apply (framed_prefix arrived read unread); [done..|]. rewrite Ec, Etl, app_assoc, E'. exists (tl' ++ tl). by rewrite app_assoc. }
  destruct Hr as [rest Er]. destruct rest as [|x rest _] using rev_ind.
  2: { rewrite app_assoc in Er. apply app_inj_tail in Er as [-> _]. by eexists. }
  rewrite app_nil_r in Er. subst read. exfalso. destruct Hf as [-> _].
  apply (f_equal length) in E'. rewrite Ec, !length_app in E'. lia.
Qed.

(** ** hotstuff-node/tcpNode.go *)

Module Deployed.

(** Where a goroutine is: at the top of its loop, blocked in a read, after its
    loop before [cancelFunction()], before the deferred [wg.Done()], at its end. *)
Inductive goroutine : Type := Looping | Reading | Cancelling | Deferred | Finished.

(** A connection after the handshake.  The listener and the sender are goroutines
    of [handleConnection]. *)
Record connection : Type := mkConnection {
  k_wg : Z;
  k_cancelled : bool;               (* ctxWithCancel *)
  k_listener : goroutine;
  k_sender : goroutine;
  k_arrived : bytes;                (* all the bytes that have arrived *)
  k_unread : bytes;                 (* those not yet read *)
  k_eof : bool;                     (* no more will arrive *)
  k_delivered : list Message;       (* put into inMsgsChan *)
  k_queue : list Message;           (* outMsgsChan *)
  k_sent : list Message;            (* the messages written *)
  k_lost : list Message;            (* the one whose write failed *)
  k_written : bytes;
  k_broken : bool;                  (* writes fail *)
  k_closed : bool;                  (* conn.Close() was called *)
}.

(** [handleConnection] once both goroutines are started; the peer may have written
    after its identity. *)
Definition handleConnection (unread : bytes) (queue : list Message) : connection :=
  mkConnection 2 false Looping Looping unread unread false [] queue [] [] [] false false.
Definition accepted (k : connection) : Prop := exists unread queue, k = handleConnection unread queue.

Definition set_listener l k : connection :=
  mkConnection k.(k_wg) k.(k_cancelled) l k.(k_sender) k.(k_arrived) k.(k_unread) k.(k_eof) k.(k_delivered)
    k.(k_queue) k.(k_sent) k.(k_lost) k.(k_written) k.(k_broken) k.(k_closed).
Definition set_sender s k : connection :=
  mkConnection k.(k_wg) k.(k_cancelled) k.(k_listener) s k.(k_arrived) k.(k_unread) k.(k_eof) k.(k_delivered)
    k.(k_queue) k.(k_sent) k.(k_lost) k.(k_written) k.(k_broken) k.(k_closed).
Definition set_wg wg cancelled k : connection :=
  mkConnection wg cancelled k.(k_listener) k.(k_sender) k.(k_arrived) k.(k_unread) k.(k_eof) k.(k_delivered)
    k.(k_queue) k.(k_sent) k.(k_lost) k.(k_written) k.(k_broken) k.(k_closed).

(** The end of a goroutine: [cancelFunction()], then [defer wg.Done()]. *)
Definition finish (g : goroutine) k : option (goroutine * connection) :=
  match g with
  | Cancelling => Some (Deferred, set_wg k.(k_wg) true k)
  | Deferred => Some (Finished, set_wg (k.(k_wg) - 1) k.(k_cancelled) k)
  | _ => None
  end.

(** [listenForMessages]: the context is looked at between messages only; a read
    waits for bytes and fails when no more come.  [None]: not ready. *)
Definition listener_step k : option connection :=
  match k.(k_listener) with
  | Looping => Some (set_listener (if k.(k_cancelled) then Cancelling else Reading) k)
  | Reading =>
      match getMessageFromReader k.(k_unread) with
      | Ok (b, rest) =>
          match Unmarshal (zero : Message) b with
          | (_, Panic _) => None
          | (m, _) =>
              Some (mkConnection k.(k_wg) k.(k_cancelled) Looping k.(k_sender) k.(k_arrived) rest k.(k_eof)
                      (k.(k_delivered) ++ [m]) k.(k_queue) k.(k_sent) k.(k_lost) k.(k_written) k.(k_broken) k.(k_closed))
          end
      | _ => if k.(k_eof) || k.(k_closed) then Some (set_listener Cancelling k) else None
      end
  | g => '(g', k') ← finish g k; Some (set_listener g' k')
  end.

(** [sendMessages]: the ready case that the select takes; a [conn.Write] that fails
    has written some of the frame, [partial] bytes, but not all. *)
Inductive sending : Type := Cancelled | Take (partial : nat).

Definition sender_step (e : sending) k : option connection :=
  match k.(k_sender) with
  | Looping =>
      match e with
      | Cancelled => if k.(k_cancelled) then Some (set_sender Cancelling k) else None
      | Take partial =>
        match k.(k_queue) with
        | [] => None
        | m :: queue =>
            match sent_one m with
            | Ok b =>
                if k.(k_broken) || k.(k_closed)
                then if (partial <? length b)%nat
                     then Some (mkConnection k.(k_wg) k.(k_cancelled) k.(k_listener) Cancelling k.(k_arrived) k.(k_unread) k.(k_eof)
                                  k.(k_delivered) queue k.(k_sent) (k.(k_lost) ++ [m]) (k.(k_written) ++ take partial b) k.(k_broken) k.(k_closed))
                     else None
                else Some (mkConnection k.(k_wg) k.(k_cancelled) k.(k_listener) Looping k.(k_arrived) k.(k_unread)
                             k.(k_eof) k.(k_delivered) queue (k.(k_sent) ++ [m]) k.(k_lost) (k.(k_written) ++ b) k.(k_broken) k.(k_closed))
            | _ => None
            end
        end
      end
  | g => '(g', k') ← finish g k; Some (set_sender g' k')
  end.

(** [wg.Wait(); conn.Close()] *)
Definition closer_step k : option connection :=
  if (k.(k_wg) =? 0) && negb k.(k_closed)
  then Some (mkConnection k.(k_wg) true k.(k_listener) k.(k_sender) k.(k_arrived) k.(k_unread) k.(k_eof)
               k.(k_delivered) k.(k_queue) k.(k_sent) k.(k_lost) k.(k_written) k.(k_broken) true)
  else None.

(** What happens around the handler: bytes arrive, the peer closes, the network
    fails, a message is dispatched. *)
Inductive outside : Type := Arrive (b : bytes) | Eof | Break | Queue (m : Message).
Definition outside_step (o : outside) k : connection :=
  match o with
  | Arrive b => if k.(k_eof) then k else
      mkConnection k.(k_wg) k.(k_cancelled) k.(k_listener) k.(k_sender) (k.(k_arrived) ++ b) (k.(k_unread) ++ b) k.(k_eof)
        k.(k_delivered) k.(k_queue) k.(k_sent) k.(k_lost) k.(k_written) k.(k_broken) k.(k_closed)
  | Eof => mkConnection k.(k_wg) k.(k_cancelled) k.(k_listener) k.(k_sender) k.(k_arrived) k.(k_unread) true
        k.(k_delivered) k.(k_queue) k.(k_sent) k.(k_lost) k.(k_written) k.(k_broken) k.(k_closed)
  | Break => mkConnection k.(k_wg) k.(k_cancelled) k.(k_listener) k.(k_sender) k.(k_arrived) k.(k_unread) k.(k_eof)
        k.(k_delivered) k.(k_queue) k.(k_sent) k.(k_lost) k.(k_written) true k.(k_closed)
  | Queue m => mkConnection k.(k_wg) k.(k_cancelled) k.(k_listener) k.(k_sender) k.(k_arrived) k.(k_unread) k.(k_eof)
        k.(k_delivered) (k.(k_queue) ++ [m]) k.(k_sent) k.(k_lost) k.(k_written) k.(k_broken) k.(k_closed)
  end.

Inductive cstep : relation connection :=
| C_listener k k' : listener_step k = Some k' -> cstep k k'
| C_sender e k k' : sender_step e k = Some k' -> cstep k k'
| C_closer k k' : closer_step k = Some k' -> cstep k k'
| C_outside o k : cstep k (outside_step o k).

(** *** The invariant *)

Definition alive (g : goroutine) : Z := match g with Finished => 0 | _ => 1 end.
(** Past its call of [cancelFunction]. *)
Definition past_cancel (g : goroutine) : bool := match g with Deferred | Finished => true | _ => false end.

(** What was written: the frames of the messages sent, and then, when a write has
    failed, a part of the frame of the message that it took, and no more. *)
Definition written_ok k : Prop := exists stream partial,
  sendMessages k.(k_sent) = Ok stream /\ k.(k_written) = stream ++ partial
  /\ ((k.(k_lost) = [] /\ partial = [])
      \/ exists m b, k.(k_lost) = [m] /\ k.(k_sender) <> Looping /\ sent_one m = Ok b
           /\ partial `prefix_of` b /\ (length partial < length b)%nat).

(** What a connection guarantees: the WaitGroup counts the goroutines that have
    not ended; the connection is closed only when both have; either one's end
    cancels the context; what was delivered is what the bytes read decode to; and
    what was written, [written_ok]. *)
Record lifecycle k : Prop := {
  lc_wg : k.(k_wg) = alive k.(k_listener) + alive k.(k_sender);
  lc_closed : k.(k_closed) = true -> k.(k_wg) = 0;
  lc_cancelled : k.(k_cancelled) = past_cancel k.(k_listener) || past_cancel k.(k_sender);
  lc_delivered : exists read, framed k.(k_arrived) read k.(k_unread)
    /\ k.(k_delivered) = (fun b => fst (Unmarshal (zero : Message) b)) <$> read;
  lc_written : written_ok k;
}.

Lemma lifecycle_start unread queue : lifecycle (handleConnection unread queue).
Proof.
  split; try done; [by exists []|]. exists [], []. split_and!; [done..|by left].
Qed.

Lemma alive_range g : 0 <= alive g <= 1.
Proof. destruct g; simpl; lia. Qed.

(** Finish with the fields that a step leaves alone. *)
Ltac keep := simpl in *; try done; try lia;
  try (lazymatch goal with H : ?c = true -> _ |- ?c = true -> _ => intros Ec; specialize (H Ec); lia end).

Lemma listener_lifecycle k k' : lifecycle k -> listener_step k = Some k' -> lifecycle k'.
Proof.
  destruct k as [wg ca l s ar un eof de qu se lo wr br cl]. intros [Hw Hc Hx Hd Hs] E. unfold listener_step in E. cbn -[Unmarshal zero] in *.
  pose proof (alive_range s) as Hr.
  destruct l; cbn -[Unmarshal zero] in *; try done.
  - injection E as <-. split; simpl; try done; by destruct ca.
  - destruct (getMessageFromReader un) as [[b rest]|e|p] eqn:Eg.
    + destruct (Unmarshal zero b) as [m r] eqn:Eu. assert (Hd' : exists read, framed ar read rest
        /\ de ++ [m] = (fun b => fst (Unmarshal (zero : Message) b)) <$> read).
      { destruct Hd as (read & Hf & ->). exists (read ++ [b]). split; [by eapply framed_read|].
        rewrite fmap_app. f_equal. cbn [fmap list_fmap]. by rewrite Eu. }
      destruct r; [injection E as <-; split; keep..|discriminate E].
    + destruct (eof || cl); [|done]. injection E as <-. split; keep.
    + destruct (eof || cl); [|done]. injection E as <-. split; keep.
  - injection E as <-. split; keep.
  - injection E as <-. split; keep.
Qed.

Lemma sendMessages_snoc ms m b w : sendMessages ms = Ok w -> sent_one m = Ok b -> sendMessages (ms ++ [m]) = Ok (w ++ b).
Proof.
  revert w. induction ms as [|x ms IH]; intros w; simpl.
  - intros [= <-] ->. simpl. by rewrite app_nil_r.
  - intros (b1 & -> & (w1 & Hw1 & [= <-])%res_bind_Ok)%res_bind_Ok Hm. simpl. rewrite (IH w1) by done. simpl.
    by rewrite app_assoc.
Qed.

(** The sender leaves its loop. *)
Lemma written_ok_leaves k k' : k'.(k_sent) = k.(k_sent) -> k'.(k_lost) = k.(k_lost) -> k'.(k_written) = k.(k_written) ->
  (k.(k_sender) <> Looping -> k'.(k_sender) <> Looping) -> written_ok k -> written_ok k'.
Proof.
  intros Es El Ew Hk (w & pt & Hw & E & Hl). exists w, pt. rewrite Es, El, Ew. split_and!; [done..|].
  destruct Hl as [Hl|(m & b & ? & ? & Hl)]; [by left|right; exists m, b; tauto].
Qed.

(** A message is taken: its frame is written, or a part of it. *)
Lemma sender_takes k k' m queue b : k.(k_sender) = Looping -> k.(k_queue) = m :: queue -> sent_one m = Ok b -> written_ok k ->
  k'.(k_sent) ++ k'.(k_lost) = k.(k_sent) ++ [m] ->
  (k'.(k_sent) = k.(k_sent) ++ [m] /\ k'.(k_written) = k.(k_written) ++ b)
  \/ (k'.(k_sent) = k.(k_sent) /\ k'.(k_sender) <> Looping
      /\ exists partial, (partial < length b)%nat /\ k'.(k_written) = k.(k_written) ++ take partial b) ->
  written_ok k'.
Proof.
  intros Hlo Hq Hb (w & pt & Hw & E & Hl) Es Hk. destruct Hl as [[Hl ->]|(? & ? & _ & ? & _)]; [|done]. rewrite app_nil_r in E.
  destruct Hk as [[Es' Ew]|(Es' & Hs & n & Hn & Ew)]; rewrite Es' in Es.
  - exists (w ++ b), []. rewrite Es', Ew, E, app_nil_r. split_and!; [by apply sendMessages_snoc|done|].
    left. split; [|done]. apply (app_inv_head (k_sent k ++ [m])). by rewrite app_nil_r.
  - exists w, (take n b). rewrite Es', Ew, E. split_and!; [done..|]. right. exists m, b.
    split_and!; [by apply app_inv_head in Es|done..|apply prefix_take|rewrite length_take; lia].
Qed.

Lemma sender_lifecycle e k k' : lifecycle k -> sender_step e k = Some k' -> lifecycle k'.
Proof.
  destruct k as [wg ca l s ar un eof de qu se lo wr br cl]. intros [Hw Hc Hx Hd Hs] E. unfold sender_step in E. simpl in *.
  pose proof (alive_range l) as Hr.
  destruct s; simpl in *; try done.
  - destruct e as [|n]; [destruct ca; [|done]; injection E as <-; split; keep; by eapply written_ok_leaves; [..|exact Hs]|].
    destruct qu as [|m qu]; [done|]. destruct (sent_one m) as [bs| |] eqn:Em; try done.
    destruct (br || cl); [destruct (n <? length bs)%nat eqn:En; [|done]; zbool|]; injection E as <-; split; keep;
      (eapply sender_takes; [..|exact Hs| |]; [done..| |]); simpl.
    + destruct Hs as (? & ? & _ & _ & [[Hl _]|(? & ? & _ & ? & _)]); [|done]. simpl in Hl. by subst.
    + right. split_and!; [done..|]. exists n. split; [by apply Nat.ltb_lt|done].
    + destruct Hs as (? & ? & _ & _ & [[Hl _]|(? & ? & _ & ? & _)]); [|done]. simpl in Hl. subst. by rewrite app_nil_r.
    + by left.
  - injection E as <-. split; keep. by eapply written_ok_leaves; [..|exact Hs].
  - injection E as <-. split; keep. by eapply written_ok_leaves; [..|exact Hs].
Qed.

Lemma lifecycle_step k k' : lifecycle k -> cstep k k' -> lifecycle k'.
Proof.
  intros HL Hs. destruct Hs as [k k' E|e k k' E|k k' E|o k]; [by eapply listener_lifecycle|by eapply sender_lifecycle| |].
  - unfold closer_step in E. destruct (k_wg k =? 0) eqn:Ew; [|done]. destruct (k_closed k); [done|]. injection E as <-. zbool.
    destruct HL as [Hw Hc Hx Hd Hs]. split; simpl; try done. pose proof (alive_range (k_listener k)).
    destruct (k_listener k), (k_sender k); simpl in *; done || lia.
  - destruct HL as [Hw Hc Hx (read & Hf & Hd) Hs]. destruct o; simpl; [destruct (k_eof k)|..]; split; simpl; try done;
      exists read; (split; [try apply framed_more; exact Hf|exact Hd]).
Qed.
(** *** Theorems *)

(** C30: the node that dials a peer makes at most one connection to it and then waits
    for ever, also when that connection is closed; and a connection keeps its
    promises, [lifecycle], whatever its goroutines, the peer and the network do. *)
Theorem dialled_connection (s : initiator connection) : rtc (istep accepted cstep true) initiateConnection s ->
  (i_conns s = [] /\ exists again, i_at s = Dialing again) \/ (i_at s = Waiting 1 /\ exists k, i_conns s = [k] /\ lifecycle k).
Proof.
  intros Hs. apply (isteps_once accepted cstep true lifecycle) in Hs as [[E Hp]|Hw]; [left; split; [done|]; destruct Hp; by eexists|by right|..].
  - intros k (unread & queue & ->). apply lifecycle_start.
  - apply lifecycle_step.
Qed.

(** A step in which neither bytes nor the end of the stream arrive. *)
Definition silent_step k k' : Prop :=
  (exists k0, listener_step k = Some k0 /\ k' = k0) \/ (exists e, sender_step e k = Some k') \/ closer_step k = Some k'
  \/ exists o, (o = Break \/ exists m, o = Queue m) /\ k' = outside_step o k.

(** A listener that waits for a peer who is silent keeps the connection open, also
    when the sender has failed and cancelled the context. *)
Theorem silent_peer_keeps_open k k' : lifecycle k -> k.(k_listener) = Reading -> k.(k_eof) = false -> k.(k_closed) = false ->
  is_ok (getMessageFromReader k.(k_unread)) = false -> rtc silent_step k k' -> k'.(k_closed) = false.
Proof.
  intros HL Hl He Hc Hr Hs. induction Hs as [k|k1 k2 k3 Hst _ IH]; [done|].
  assert (HL2 : lifecycle k2).
  { eapply lifecycle_step; [exact HL|]. destruct Hst as [(k0 & E & ->)|[(b & E)|[E|(o & _ & ->)]]]; by econstructor. }
  pose proof (lc_wg _ HL) as Hw. pose proof (alive_range (k_sender k1)). rewrite Hl in Hw. simpl in Hw.
  destruct Hst as [(k0 & E & ->)|[(b & E)|[E|(o & Ho & ->)]]].
  - unfold listener_step in E. rewrite Hl, He, Hc in E. by destruct (getMessageFromReader (k_unread k1)) as [[]| |].
  - unfold sender_step in E. destruct k1; simpl in *. subst. repeat case_match; simplify_eq/=; apply IH; done.
  - unfold closer_step in E. rewrite (proj2 (Z.eqb_neq _ _)) in E by lia. done.
  - apply IH; [done|..]; by destruct Ho as [->|[m ->]].
Qed.
(** A message arrives; the network fails, and of the frame of a message to the peer two
    bytes are written: the sender ends, the listener follows when the peer closes, and
    the connection is closed. *)
Inductive event : Type := Listener | Sender (e : sending) | Closer | Outside (o : outside).
Definition do (e : event) (k : connection) : option connection :=
  match e with
  | Listener => listener_step k | Sender e => sender_step e k | Closer => closer_step k
  | Outside o => Some (outside_step o k)
  end.
Definition one_message : list event :=
  [Listener; Outside (Arrive [x00; x00; x00; x00]); Listener; Outside (Queue (mkMessage None)); Outside Break; Sender (Take 2);
   Sender Cancelled; Sender Cancelled; Listener; Outside Eof; Listener; Listener; Closer].

Lemma dialled_connection_witness : exists k,
  foldl (fun o e => o ≫= do e) (Some (handleConnection [] [])) one_message = Some k
  /\ k.(k_closed) = true /\ length k.(k_delivered) = 1%nat /\ length k.(k_lost) = 1%nat /\ length k.(k_written) = 2%nat /\ lifecycle k.
Proof.
  assert (E : (fun k => (k.(k_closed), length k.(k_delivered), length k.(k_lost), length k.(k_written)))
              <$> foldl (fun o e => o ≫= do e) (Some (handleConnection [] [])) one_message = Some (true, 1%nat, 1%nat, 2%nat))
    by (vm_compute; reflexivity).
  destruct (foldl _ _ one_message) as [k|] eqn:Ek; [|discriminate E]. injection E as Ec Ed El Ew.
  exists k. split_and!; [done..|].
  destruct (dialled_connection (mkInitiator (Waiting 1) [k])) as [[En _]|(_ & k' & Ek' & HL)].
  - apply (dial_and_run accepted cstep true (handleConnection [] [])); [by exists [], []|].
    eapply (run_events do); [|exact Ek]. intros [| | |]; simpl; intros k1 k2 E; [by apply C_listener|by eapply C_sender|by apply C_closer|].
    injection E as <-. apply C_outside.
  - discriminate En.
  - injection Ek' as ->. exact HL.
Defined.
End Deployed.

(** ** node/: the experiment

    It has its own copy of the framing, on strings, and a handler that is given the
    text to send. *)

Module Experiment.

(** *** bytes_encoding.go *)

Definition BYTES_ARRAY_PREFIX_LENGTH : nat := 4.
Definition toByteArray (msg : bytes) : bytes :=
  be_bytes BYTES_ARRAY_PREFIX_LENGTH (len msg mod 2 ^ 32) ++ msg.
Definition getMsgLength (b : bytes) : res Z :=
  if len b <? 4 then Panic OutOfRange else Ok (be_value (take 4 b)).

(** A string is its bytes. *)
Definition toString (b : bytes) : bytes := b.

Definition getMessageFromReader (stream : bytes) : res (bytes * bytes) :=
  match ReadFull BYTES_ARRAY_PREFIX_LENGTH stream with
  | None => Err ErrReadLength
  | Some (length_buf, rest) =>
      n ← getMsgLength length_buf;
      match ReadFull (Z.to_nat n) rest with
      | None => Err ErrReadBody
      | Some (msg_buf, rest') => Ok (toString msg_buf, rest')
      end
  end.

(** *** main.go *)

Definition NUMBER_OF_NODES : nat := 4.
Definition DEFAULT_ADDRESS_NUMBER : Z := 8000.
Definition getAddressList : list bytes :=
  (fun i => x3a :: Itoa (DEFAULT_ADDRESS_NUMBER + Z.of_nat i)) <$> seq 0 NUMBER_OF_NODES.

(** "listen" and "initiate" *)
Definition mode_listen : bytes := [x6c; x69; x73; x74; x65; x6e].
Definition mode_initiate : bytes := [x69; x6e; x69; x74; x69; x61; x74; x65].
Definition checkFlags (mode : bytes) : res unit :=
  if negb (bytes_eqb mode mode_listen) && negb (bytes_eqb mode mode_initiate) then Panic PanicCall else Ok tt.

(** [main]: the address to listen on, those to dial, and the text to send, "hello
    from node " and the index. *)
Definition hello : bytes :=
  [x68; x65; x6c; x6c; x6f; x20; x66; x72; x6f; x6d; x20; x6e; x6f; x64; x65; x20].
Definition main (index : nat) (mode : bytes) : res (bytes * list bytes * bytes) :=
  _ ← checkFlags mode;
  nodeAddress ← Prelude.index getAddressList index;
  mret (nodeAddress, take index getAddressList, hello ++ Itoa (Z.of_nat index)).

(** *** tcpNode.go *)

(** A connection: the WaitGroup of [handleConnection], the copy that
    [listenForMessages] was given, whether the goroutines are running, and the
    stream of bytes in both directions. *)
Record connection : Type := mkConnection {
  x_wg : Z;
  x_copy : Z;
  x_listening : bool;
  x_sending : bool;
  x_arrived : bytes;
  x_unread : bytes;
  x_eof : bool;
  x_received : list bytes;          (* printed *)
  x_written : bytes;
  x_closed : bool;
}.

(** [handleConnection]: [wg.Add(1)], the listener with a copy of [wg], and, when
    there is something to send, [wg.Add(1)] and the sender. *)
Definition handleConnection (sendMsg : bool) : connection :=
  mkConnection (if sendMsg then 2 else 1) 1 true sendMsg [] [] false [] [] false.

Inductive event : Type := XArrive (b : bytes) | XEof | XListen | XSend (fails : option nat) | XClose.

(** [None]: not ready.  [listenForMessages] returns on the first error, with the
    deferred [wg.Done()] on its copy; [sendMessages] writes the text once, and when
    [conn.Write] fails it has written some of the frame, but not all. *)
Definition xdo (msg : bytes) (e : event) (k : connection) : option connection :=
  let '(mkConnection wg copy listening sending arrived unread eof received written closed) := k in
  match e with
  | XArrive b => if eof then None
      else Some (mkConnection wg copy listening sending (arrived ++ b) (unread ++ b) eof received written closed)
  | XEof => Some (mkConnection wg copy listening sending arrived unread true received written closed)
  | XListen =>
      if listening then
        match getMessageFromReader unread with
        | Ok (m, rest) => Some (mkConnection wg copy true sending arrived rest eof (received ++ [m]) written closed)
        | _ => if eof then Some (mkConnection wg (copy - 1) false sending arrived unread eof received written closed) else None
        end
      else None
  | XSend fails =>
      let ends out := Some (mkConnection wg copy listening false arrived unread eof received (written ++ out) closed) in
      if sending then
        match fails with
        | None => ends (toByteArray msg)
        | Some n => if (n <? length (toByteArray msg))%nat then ends (take n (toByteArray msg)) else None
        end
      else None
  | XClose =>
      if (wg =? 0) && negb closed
      then Some (mkConnection wg copy listening sending arrived unread eof received written true) else None
  end.
Definition xstep (msg : bytes) (k k' : connection) : Prop := exists e, xdo msg e k = Some k'.

(** The framing is that of hotstuff-node. *)
Lemma same_reader s : getMessageFromReader s = Net.getMessageFromReader s.
Proof. done. Qed.

(** What holds of a connection: it is never closed, no more was written than the text
    once, and what was printed are the frames that arrived. *)
Record left_open (sendMsg : bool) (msg : bytes) (k : connection) : Prop := {
  lo_wg : k.(x_wg) = if sendMsg then 2 else 1;
  lo_closed : k.(x_closed) = false;
  lo_written : k.(x_written) `prefix_of` toByteArray msg;
  lo_silent : sendMsg = false -> k.(x_sending) = false /\ k.(x_written) = [];
  lo_sending : k.(x_sending) = true -> k.(x_written) = [];
  lo_received : framed k.(x_arrived) k.(x_received) k.(x_unread);
}.

Lemma left_open_start sendMsg msg : left_open sendMsg msg (handleConnection sendMsg).
Proof. destruct sendMsg; split; try done; apply prefix_nil. Qed.

Lemma left_open_step sendMsg msg k k' : left_open sendMsg msg k -> xstep msg k k' -> left_open sendMsg msg k'.
Proof.
  destruct k as [wg copy listening sending arrived unread eof received written closed].
  intros [Hw Hc Hwr Hsi Hs Hr] [e E]. simpl in *. destruct e as [b| | |fails|].
  - destruct eof; [done|]. injection E as <-. split; try done. by apply framed_more.
  - injection E as <-. by split.
  - destruct listening; [|done]. destruct (getMessageFromReader unread) as [[m rest]|e|c] eqn:Eg.
    + injection E as <-. split; try done. eapply framed_read; [exact Hr|by rewrite <- same_reader].
    + destruct eof; [|done]. injection E as <-. by split.
    + destruct eof; [|done]. injection E as <-. by split.
  - destruct sending; [|done]. specialize (Hs eq_refl). subst written.
    assert (Hk : sendMsg = true) by (destruct sendMsg; [done|by destruct (Hsi eq_refl)]). subst sendMsg.
    destruct fails as [n|]; [destruct (n <? _)%nat; [|done]|]; injection E as <-; split; try done. apply prefix_take.
  - rewrite Hw in E. by destruct sendMsg.
Qed.

(** The experiment's WaitGroups are passed by value or to nobody: whatever the
    peer and the network do, a node makes at most one connection to a peer and
    waits for ever, and never closes it; over it the text is written at most
    once, and the texts printed are the frames that have arrived, in order. *)
Theorem experiment_never_closes sendMsg msg (s : initiator connection) :
  rtc (istep (fun k => k = handleConnection sendMsg) (xstep msg) false) initiateConnection s ->
  i_conns s = [] \/ (i_at s = Waiting 1 /\ exists k, i_conns s = [k] /\ left_open sendMsg msg k).
Proof.
  intros Hs. apply (isteps_once _ (xstep msg) false (left_open sendMsg msg)) in Hs as [[E _]|Hw]; [by left|by right|..].
  - intros k ->. apply left_open_start.
  - apply left_open_step.
Qed.
(** A node sends its text, reads that of its peer, and the peer closes. *)
Definition talk : list event :=
  [XSend None; XArrive (toByteArray (hello ++ Itoa 3)); XListen; XEof; XListen].

Lemma experiment_never_closes_witness : exists k,
  foldl (fun o e => o ≫= xdo (hello ++ Itoa 1) e) (Some (handleConnection true)) talk = Some k
  /\ k.(x_received) = [hello ++ Itoa 3] /\ k.(x_listening) = false /\ left_open true (hello ++ Itoa 1) k.
Proof.
  assert (E : (fun k => (k.(x_received), k.(x_listening)))
              <$> foldl (fun o e => o ≫= xdo (hello ++ Itoa 1) e) (Some (handleConnection true)) talk
              = Some ([hello ++ Itoa 3], false)) by (vm_compute; reflexivity).
  destruct (foldl _ _ talk) as [k|] eqn:Ek; [|discriminate E]. injection E as Er El.
  exists k. split_and!; [done..|].
  destruct (experiment_never_closes true (hello ++ Itoa 1) (mkInitiator (Waiting 1) [k])) as [En|(_ & k' & Ek' & HL)].
  - apply (dial_and_run _ (xstep (hello ++ Itoa 1)) false (handleConnection true)); [done|].
    eapply (run_events (xdo (hello ++ Itoa 1))); [|exact Ek]. intros e k1 k2 E. by exists e.
  - discriminate En.
  - injection Ek' as ->. exact HL.
Defined.
End Experiment.
