(* ===== verification/Sockets.v ===== *)
(** * Sockets: the whole process

    What a process of hotstuff-node does with the network: it listens, accepts
    connections and dials the nodes before it, exchanges identities on every
    connection (hotstuff-node/tcpNode.go), and the goroutines of all its connections
    share the channels of the loop of Host.v.

    Host.v abstracts the connections to two steps, one that takes a message from a
    channel and one that puts in a message of a peer.  Here the code of the
    connections is shown to do no more than that, and what is on the wire is
    related to what the replica wrote. *)

From Stdlib Require Import ZArith Lia.
From stdpp Require Import relations sorting.
From S2P Require Import Prelude Wire Types Proto Codec CodecSpec Encoding Crypto Store Quorum Progress Consensus.
From S2P Require Import ConsensusFacts Handlers Replica Instances Safety Scenarios Agreement Node Net Host Received Connections.

(** ** Listening and dialling

    [listenForConnections], [acceptConnections] and the goroutines of
    [initiateConnection], for any kind of connection [K] and any state [S] that the
    connections share.  After an error of [Accept] a handler is started on a nil
    connection, [nilconn]. *)

Section Sockets.
Context {S K : Type}.

Record sockets : Type := mkSockets {
  q_state : S;
  q_listening : bool;
  q_dialers : list position;        (* one goroutine for each node to be dialled *)
  q_conns : list K;
  q_died : bool;                    (* a goroutine panicked, or log.Fatal *)
}.

Context (retries : bool) (fresh nilconn : K).
Context (sstep : relation S) (sdies : S -> Prop) (kstep : S -> K -> S -> K -> Prop) (kpanic : S -> K -> Prop).

Inductive sockstep : relation sockets :=
| Q_state s s' l ds ks : sstep s s' -> sockstep (mkSockets s l ds ks false) (mkSockets s' l ds ks false)
| Q_state_dies s l ds ks : sdies s -> sockstep (mkSockets s l ds ks false) (mkSockets s l ds ks true)
| Q_listen s ds ks : sockstep (mkSockets s false ds ks false) (mkSockets s true ds ks false)
| Q_listen_error s ds ks : sockstep (mkSockets s false ds ks false) (mkSockets s false ds ks true)
| Q_accept s ds ks : sockstep (mkSockets s true ds ks false) (mkSockets s true ds (ks ++ [fresh]) false)
| Q_accept_error s ds ks : sockstep (mkSockets s true ds ks false) (mkSockets s true ds (ks ++ [nilconn]) false)
| Q_dial s l i again ds ks : ds !! i = Some (Dialing again) ->
    sockstep (mkSockets s l ds ks false) (mkSockets s l (<[i := Waiting 1]> ds) (ks ++ [fresh]) false)
| Q_refused s l i again ds ks : ds !! i = Some (Dialing again) ->
    sockstep (mkSockets s l ds ks false) (mkSockets s l (<[i := if retries then Dialing true else Returned]> ds) ks false)
| Q_wait s l i ds ks : ds !! i = Some (Waiting 0) ->
    sockstep (mkSockets s l ds ks false) (mkSockets s l (<[i := Dialing true]> ds) ks false)
| Q_conn s s' l ds ks1 k k' ks2 : kstep s k s' k' ->
    sockstep (mkSockets s l ds (ks1 ++ k :: ks2) false) (mkSockets s' l ds (ks1 ++ k' :: ks2) false)
| Q_panic s l ds ks1 k ks2 : kpanic s k ->
    sockstep (mkSockets s l ds (ks1 ++ k :: ks2) false) (mkSockets s l ds (ks1 ++ k :: ks2) true).

(** [main] and [entryPoint]: [index] goroutines that dial. *)
Definition start_sockets (index : nat) (s : S) : sockets := mkSockets s false (replicate index (Dialing false)) [] false.

(** The process can be ended: it is not listening yet, or what its connections share
    or one of them is about to end it. *)
Definition fatal (p : sockets) : Prop :=
  q_listening p = false \/ sdies (q_state p) \/ exists k, k ∈ q_conns p /\ kpanic (q_state p) k.

Lemma died_fatal p p' : (q_died p = true -> fatal p) -> sockstep p p' -> q_died p' = true -> fatal p'.
Proof.
  intros Hp Hs Hd. destruct Hs; simpl in Hd; try discriminate Hd; [by right; left|by left|].
  right; right. exists k. split; [|done]. apply elem_of_app. right. by left.
Qed.

Lemma dies_for index s p : rtc sockstep (start_sockets index s) p -> q_died p = true -> fatal p.
Proof.
  intros Hs. assert (Hd : q_died (start_sockets index s) = true -> fatal (start_sockets index s)) by done.
  revert Hd. induction Hs as [p|p1 p2 p3 Hst _ IH]; [done|]. intros Hd. apply IH. by eapply died_fatal.
Qed.

Lemma fatal_dies p : q_died p = false -> fatal p -> exists p', sockstep p p' /\ q_died p' = true.
Proof.
  destruct p as [s l ds ks d]. simpl. intros -> [Hl|[Hd|(k & Hk & Hp)]]; simpl in *.
  - subst. by eexists; split; [apply Q_listen_error|].
  - by eexists; split; [by apply Q_state_dies|].
  - apply list_elem_of_split in Hk as (ks1 & ks2 & ->). by eexists; split; [by apply Q_panic|].
Qed.
End Sockets.
Arguments sockets S K : clear implicits.

(** ** hotstuff-node *)

Import Connections.Deployed.

(** A connection and its handler: on a nil connection; before and after its identity
    is written; with both goroutines started, draining the channel of [peer]; after
    [exchangeIDs] failed. *)
Inductive handler : Type :=
| NoConn
| Greeting (unread : bytes) (eof broken : bool)
| Awaiting (unread : bytes) (eof broken : bool)
| Talking (peer : Z) (k : connection)
| HungUp.

Inductive hevent : Type := EGreet | EIdentify | EListener | ESender (e : sending) | ECloser | EOutside (o : outside).

Definition set_queue (queue : list Message) (k : connection) : connection :=
  mkConnection k.(k_wg) k.(k_cancelled) k.(k_listener) k.(k_sender) k.(k_arrived) k.(k_unread) k.(k_eof) k.(k_delivered)
    queue k.(k_sent) k.(k_lost) k.(k_written) k.(k_broken) k.(k_closed).

(** Both goroutines are started; what the peer wrote after its identity is unread. *)
Definition talking (peer : Z) (rest : bytes) (eof broken : bool) : handler :=
  let k := Deployed.handleConnection rest [] in
  let k := if eof then outside_step Eof k else k in
  Talking peer (if broken then outside_step Break k else k).

Definition peer_does (o : outside) (unread : bytes) (eof broken : bool) : option (bytes * bool * bool) :=
  match o with
  | Arrive b => Some (if eof then unread else unread ++ b, eof, broken)
  | Eof => Some (unread, true, broken)
  | Break => Some (unread, eof, true)
  | Queue _ => None
  end.

(** The peer's identity, when all of it has arrived; [None] while it has not. *)
Definition identify (index : Z) (unread : bytes) (eof broken : bool) : option (res handler) :=
  match snd (exchangeIDs index unread) with
  | Ok (yourID, rest) =>
      if (0 <=? yourID) && (yourID <? NUMBER_OF_NODES) then Some (Ok (talking yourID rest eof broken)) else Some (Panic OutOfRange)
  | Err ErrAtoi => Some (Ok HungUp)
  | Err _ => if eof then Some (Ok HungUp) else None
  | Panic c => Some (Panic c)
  end.

(** The sender's select finds a message to take. *)
Definition taking (e : sending) (k : connection) : bool :=
  match k.(k_sender), e with Looping, Take _ => true | _, _ => false end.

Section Handler.
Context {DB : Type} (index : Z).
Implicit Types h : host DB.

(** A message is read when [inMsgsChan] has room for it. *)
Definition listener_do (peer : Z) (k : connection) h : option (host DB * handler) :=
  k' ← listener_step k;
  match drop (length k.(k_delivered)) k'.(k_delivered) with
  | [] => Some (h, Talking peer k')
  | m :: _ => h' ← connection_reads m h; Some (h', Talking peer k')
  end.

(** The queue of the connection is the channel of its peer. *)
Definition sender_do (e : sending) (peer : Z) (k : connection) h : option (host DB * handler) :=
  q ← h.(h_out) !! Z.to_nat peer;
  k' ← sender_step e (set_queue q k);
  if taking e k
  then h' ← connection_takes (Z.to_nat peer) h; Some (h', Talking peer (set_queue [] k'))
  else Some (h, Talking peer (set_queue [] k')).

(** [None]: not ready. *)
Definition handler_do (e : hevent) h (x : handler) : option (res (host DB * handler)) :=
  match x, e with
  | NoConn, EGreet => Some (Panic NilDeref)
  | Greeting unread eof broken, EGreet => Some (Ok (h, if broken then HungUp else Awaiting unread eof broken))
  | Greeting unread eof broken, EOutside o =>
      '(u, e, b) ← peer_does o unread eof broken; Some (Ok (h, Greeting u e b))
  | Awaiting unread eof broken, EOutside o =>
      '(u, e, b) ← peer_does o unread eof broken; Some (Ok (h, Awaiting u e b))
  | Awaiting unread eof broken, EIdentify =>
      match identify index unread eof broken with
      | Some (Ok x') => Some (Ok (h, x'))
      | Some (Panic c) => Some (Panic c)
      | _ => None
      end
  | Talking peer k, EListener => Ok <$> listener_do peer k h
  | Talking peer k, ESender e => Ok <$> sender_do e peer k h
  | Talking peer k, ECloser => k' ← closer_step k; Some (Ok (h, Talking peer k'))
  | Talking peer k, EOutside o =>
      match o with Queue _ => None | _ => Some (Ok (h, Talking peer (outside_step o k))) end
  | _, _ => None
  end.

Definition conn_step h x h' x' : Prop := exists e, handler_do e h x = Some (Ok (h', x')).
Definition conn_panic h x : Prop := exists e p, handler_do e h x = Some (Panic p).
End Handler.

(** ** The process *)

Section Process.
Context {DB : Type} `{KVStore DB} `{Hasher} `{Signer} `{Verifier} (index : Z) (dummyData : bytes).
Implicit Types h : host DB.

(** A step of the node or of the loop, as in Host.v. *)
Inductive loop_moves : relation (host DB) :=
| L_node k h n' : turn k h.(h_node).(s_node) = Some (n', inl tt) ->
    loop_moves h (mkHost (mkSystem n' h.(h_node).(got_messages) h.(h_node).(got_blocks))
                    h.(h_out) h.(h_in) h.(h_confirmed) h.(h_todo) h.(h_taken))
| L_loop k h h' : loop_step index dummyData k h = Some (Ok h') -> loop_moves h h'.

(** A handler of the node panics or calls [log.Fatal], or a statement of the loop
    panics: this ends the whole process. *)
Definition node_dies h : Prop := exists k n' c, turn k h.(h_node).(s_node) = Some (n', inr c).
Definition loop_dies h : Prop := exists k c, loop_step index dummyData k h = Some (Panic c).
Definition host_dies h : Prop := node_dies h \/ loop_dies h.

Definition process : Type := sockets (host DB) handler.
Definition pstep : relation process :=
  sockstep true (Greeting [] false false) NoConn loop_moves host_dies (conn_step index) (conn_panic index).
Definition start_process h : process := start_sockets (Z.to_nat index) h.

(** What the handler of a connection does to the process is what Host.v says that
    connections do. *)
Definition connected h h' : Prop :=
  h' = h \/ (exists rx, connection_takes rx h = Some h') \/ exists m, msg_ok m /\ connection_reads m h = Some h'.

Lemma listener_delivers k k' : listener_step k = Some k' ->
  k'.(k_delivered) = k.(k_delivered)
  \/ exists b rest, getMessageFromReader k.(k_unread) = Ok (b, rest)
     /\ k'.(k_delivered) = k.(k_delivered) ++ [fst (Unmarshal (zero : Message) b)].
Proof.
  destruct k as [wg ca l s ar un eof de qu se lo wr br cl]. unfold listener_step. cbn -[Unmarshal zero].
  destruct l; cbn -[Unmarshal zero]; try (by intros [= <-]; left).
  destruct (getMessageFromReader un) as [[b rest]| |] eqn:E; [|by destruct (eof || cl); [|done]; intros [= <-]; left..].
  destruct (Unmarshal zero b) as [m [[]|e|c]] eqn:Eu; [| |done]; intros [= <-]; right; exists b, rest; by rewrite Eu.
Qed.

Lemma listener_host peer k h h' x : listener_do peer k h = Some (h', x) ->
  exists k', listener_step k = Some k' /\ x = Talking peer k' /\ h'.(h_taken) = h.(h_taken)
  /\ connected h h'.
Proof.
  unfold listener_do. destruct (listener_step k) as [k'|] eqn:E; [|done]. cbn [mbind option_bind]. intros Hd. exists k'.
  split; [done|]. destruct (listener_delivers _ _ E) as [Ed|(b & rest & Er & Ed)]; rewrite Ed in Hd.
  - rewrite drop_all in Hd. injection Hd as <- <-. by split_and!; [..|left].
  - rewrite drop_app_length in Hd. unfold connection_reads in Hd. destruct (_ <? _)%nat eqn:El; [|done].
    cbn [mbind option_bind] in Hd. injection Hd as <- <-. split_and!; [done..|right; right].
    exists (fst (Unmarshal (zero : Message) b)). split; [apply decoded_ok; by eapply frame_length|].
    unfold connection_reads. by rewrite El.
Qed.

Lemma sender_host e peer k h h' x : sender_do e peer k h = Some (h', x) ->
  exists q k', h.(h_out) !! Z.to_nat peer = Some q /\ sender_step e (set_queue q k) = Some k'
  /\ x = Talking peer (set_queue [] k')
  /\ if taking e k then connection_takes (Z.to_nat peer) h = Some h' else h' = h.
Proof.
  unfold sender_do. destruct (h_out h !! Z.to_nat peer) as [q|]; [|done]. cbn [mbind option_bind].
  destruct (sender_step e (set_queue q k)) as [k'|] eqn:Ek; [|done]. cbn [mbind option_bind]. intros Hd. exists q, k'. split_and!; [done..| |];
    (destruct (taking e k); [|by injection Hd as <- <-]);
    (destruct (connection_takes (Z.to_nat peer) h) as [h1|]; [|done]; cbn [mbind option_bind] in Hd; by injection Hd as <- <-).
Qed.

Lemma handler_host e h x h' x' : handler_do index e h x = Some (Ok (h', x')) -> connected h h'.
Proof.
  destruct x as [|un eof br|un eof br|peer k|], e as [| | |b| |o]; simpl; try done.
  - intros [= <- _]. by left.
  - destruct (peer_does o un eof br) as [[[u e'] b']|]; [|done]. intros [= <- _]. by left.
  - destruct (identify index un eof br) as [[y| |]|]; try done. intros [= <- _]. by left.
  - destruct (peer_does o un eof br) as [[[u e'] b']|]; [|done]. intros [= <- _]. by left.
  - destruct (listener_do peer k h) as [[h1 y]|] eqn:E; [|done]. intros [= <- _].
    by destruct (listener_host _ _ _ _ _ E) as (? & _ & _ & _ & ?).
  - destruct (sender_do b peer k h) as [[h1 y]|] eqn:E; [|done]. intros [= <- _].
    destruct (sender_host _ _ _ _ _ _ E) as (q & k' & _ & _ & _ & Ht). destruct (taking b k); [|by left].
    right. left. by eexists.
  - destruct (closer_step k); [|done]. intros [= <- _]. by left.
  - destruct o; try done; intros [= <- _]; by left.
Qed.

Lemma connected_host h h' : connected h h' -> rtc (hstep index dummyData) h h'.
Proof.
  intros [->|[[rx Hk]|(m & Hm & Hk)]]; [apply rtc_refl|apply rtc_once; by eapply H_takes|apply rtc_once; by eapply H_reads].
Qed.

Lemma pstep_host p p' : pstep p p' -> rtc (hstep index dummyData) (q_state p) (q_state p').
Proof.
  intros Hs. destruct Hs as [s s' l ds ks Hst| | | | | | | | |s s' l ds ks1 k k' ks2 [e He]|]; simpl; try apply rtc_refl.
  - apply rtc_once. destruct Hst; [by eapply H_node|by eapply H_loop].
  - apply connected_host. by eapply handler_host.
Qed.

Lemma psteps_host p p' : rtc pstep p p' -> rtc (hstep index dummyData) (q_state p) (q_state p').
Proof. intros Hs. induction Hs as [p|p1 p2 p3 Hst _ IH]; [apply rtc_refl|]. etrans; [by apply pstep_host|exact IH]. Qed.
End Process.

(** ** What is on the wire *)

(** What a connection to [rx] took from the channel of [rx]. *)
Definition carried (rx : Z) (x : handler) : list Message :=
  match x with Talking peer k => if peer =? rx then k.(k_sent) ++ k.(k_lost) else [] | _ => [] end.

Lemma sender_sent e k k' : written_ok k -> sender_step e k = Some k' ->
  if taking e k
  then exists m q, k.(k_queue) = m :: q /\ k'.(k_sent) ++ k'.(k_lost) = (k.(k_sent) ++ k.(k_lost)) ++ [m]
  else k'.(k_sent) = k.(k_sent) /\ k'.(k_lost) = k.(k_lost).
Proof.
  destruct k as [wg ca l s ar un eof de qu se lo wr br cl]. intros (w & pt & _ & _ & Hlo). unfold sender_step, taking. simpl in *.
  destruct s; simpl; try done; [|by intros [= <-]..].
  destruct e as [|n]; simpl; [destruct ca; [|done]; by intros [= <-]|]. destruct qu as [|m qu]; [done|].
  destruct Hlo as [[-> _]|(? & ? & _ & ? & _)]; [|done].
  destruct (sent_one m) as [bs| |]; try done. destruct (br || cl); [destruct (n <? length bs)%nat; [|done]|]; intros [= <-];
    exists m, qu; simpl; by rewrite !app_nil_r.
Qed.

Lemma listener_keeps k k' : listener_step k = Some k' -> k'.(k_sent) = k.(k_sent) /\ k'.(k_lost) = k.(k_lost).
Proof.
  destruct k as [wg ca l s ar un eof de qu se lo wr br cl]. unfold listener_step. cbn -[Unmarshal zero].
  destruct l; cbn -[Unmarshal zero]; try (by intros [= <-]).
  destruct (getMessageFromReader un) as [[b rest]| |] eqn:E; [|by destruct (eof || cl); [|done]; intros [= <-]..].
  by destruct (Unmarshal zero b) as [m [[]|e|c]] eqn:Eu; [| |done]; intros [= <-].
Qed.

Lemma closer_keeps k k' : closer_step k = Some k' -> k'.(k_sent) = k.(k_sent) /\ k'.(k_lost) = k.(k_lost).
Proof. unfold closer_step. destruct (_ && _); [|done]. by intros [= <-]. Qed.

Lemma outside_keeps o k : (outside_step o k).(k_sent) = k.(k_sent) /\ (outside_step o k).(k_lost) = k.(k_lost).
Proof. destruct o; simpl; try done. by destruct (k_eof k). Qed.

Lemma lifecycle_queue q k : lifecycle k -> lifecycle (set_queue q k).
Proof. by intros []. Qed.

Lemma talking_ok peer rest eof broken : exists k, talking peer rest eof broken = Talking peer k /\ lifecycle k
  /\ k.(k_sent) = [] /\ k.(k_lost) = [].
Proof.
  unfold talking. eexists. split; [done|].
  assert (HL : lifecycle (if eof then outside_step Eof (Deployed.handleConnection rest []) else Deployed.handleConnection rest []))
    by (destruct eof; [eapply lifecycle_step; [|by apply C_outside]|]; apply lifecycle_start).
  split; [destruct broken; [by eapply lifecycle_step; [|by apply C_outside]|exact HL]|by destruct broken, eof].
Qed.

Section Wired.
Context {DB : Type} `{KVStore DB} `{Hasher} `{Signer} `{Verifier} (index : Z) (dummyData : bytes).
Implicit Types h : host DB.

(** A connection sends what it took from its channel, in order. *)
Definition handler_ok h (x : handler) : Prop :=
  match x with
  | Talking peer k => 0 <= peer < NUMBER_OF_NODES /\ lifecycle k
      /\ k.(k_sent) ++ k.(k_lost) `sublist_of` channel peer h.(h_taken)
  | _ => True
  end.

Record wired h (ks : list handler) : Prop := {
  wi_out : length h.(h_out) = Z.to_nat NUMBER_OF_NODES;
  wi_len : length h.(h_taken) = Z.to_nat NUMBER_OF_NODES;
  wi_each : Forall (handler_ok h) ks;
  wi_taken : forall rx, 0 <= rx < NUMBER_OF_NODES -> channel rx h.(h_taken) ≡ₚ mjoin (carried rx <$> ks);
}.

(** The channels as [h'] leaves them, and what a connection took meanwhile. *)
Definition takes_more h h' x x' : Prop :=
  length h'.(h_out) = length h.(h_out) /\ length h'.(h_taken) = length h.(h_taken)
  /\ forall rx, 0 <= rx < NUMBER_OF_NODES -> exists new,
       channel rx h'.(h_taken) = channel rx h.(h_taken) ++ new /\ carried rx x' ≡ₚ carried rx x ++ new.

Lemma takes_none h x x' : (forall rx, carried rx x' = carried rx x) -> takes_more h h x x'.
Proof. intros E. split_and!; [done..|]. intros rx _. exists []. by rewrite E, !app_nil_r. Qed.

Lemma handler_ok_grow h h' x : (forall rx, 0 <= rx < NUMBER_OF_NODES -> channel rx h.(h_taken) `prefix_of` channel rx h'.(h_taken)) ->
  handler_ok h x -> handler_ok h' x.
Proof.
  destruct x as [| | |peer k|]; try done. intros Hg (Hp & HL & Hs). split_and!; [lia..|done|].
  etrans; [exact Hs|]. destruct (Hg peer Hp) as [l ->]. by apply sublist_inserts_r.
Qed.

Lemma wired_conn h h' ks1 x x' ks2 : wired h (ks1 ++ x :: ks2) -> takes_more h h' x x' -> handler_ok h' x' ->
  wired h' (ks1 ++ x' :: ks2).
Proof.
  intros [Ho Hl He Ht] (Eo & El & Hn) Hx. split; [congruence..| |].
  - apply Forall_app in He as [H1' [_ H2']%list.Forall_cons_1].
    assert (Hg : forall y, handler_ok h y -> handler_ok h' y).
    { intros y. apply handler_ok_grow. intros rx Hrx. destruct (Hn rx Hrx) as (new & -> & _). by exists new. }
    apply Forall_app_2; [by eapply list.Forall_impl|apply list.Forall_cons_2; [done|by eapply list.Forall_impl]].
  - intros rx Hrx. destruct (Hn rx Hrx) as (new & -> & Ec). rewrite (Ht rx Hrx), !fmap_app, !join_app. cbn [fmap list_fmap].
    rewrite !mjoin_cons, Ec. rewrite <- !app_assoc. f_equiv. f_equiv. apply Permutation_app_comm.
Qed.

Lemma takes_channel r h h' m q : 0 <= r < NUMBER_OF_NODES -> length h.(h_taken) = Z.to_nat NUMBER_OF_NODES ->
  h.(h_out) !! Z.to_nat r = Some (m :: q) -> connection_takes (Z.to_nat r) h = Some h' ->
  length h'.(h_out) = length h.(h_out) /\ length h'.(h_taken) = length h.(h_taken)
  /\ forall rx, 0 <= rx < NUMBER_OF_NODES -> channel rx h'.(h_taken) = channel rx h.(h_taken) ++ (if rx =? r then [m] else []).
Proof.
  intros Hr Hl Eq. unfold connection_takes. rewrite Eq. cbn [mbind option_bind].
  destruct (h_taken h !! Z.to_nat r) as [t|] eqn:Et; [|done]. cbn [mbind option_bind]. intros [= <-]. simpl.
  split_and!; [by rewrite length_insert..|]. intros rx Hrx. rewrite channel_insert by (unfold NUMBER_OF_NODES in *; lia).
  destruct (rx =? r) eqn:E; [|by rewrite app_nil_r]. zbool. subst. unfold channel. by rewrite Et.
Qed.

(** The sender of a connection takes a message, or does not. *)
Lemma sender_wired e peer k h h' x' : length h.(h_taken) = Z.to_nat NUMBER_OF_NODES ->
  handler_ok h (Talking peer k) -> sender_do e peer k h = Some (h', x') ->
  takes_more h h' (Talking peer k) x' /\ handler_ok h' x'.
Proof.
  intros Hlen (Hp & HL & Hs) Hd. destruct (sender_host _ _ _ _ _ _ Hd) as (q & k' & Eq & Ek & -> & Hx).
  assert (HL' : lifecycle (set_queue [] k')) by (eapply lifecycle_queue, sender_lifecycle, Ek; by apply lifecycle_queue).
  pose proof (sender_sent _ _ _ (lc_written _ (lifecycle_queue q _ HL)) Ek) as Hsent. change (taking e (set_queue q k)) with (taking e k) in Hsent.
  destruct (taking e k); simpl in Hsent.
  - destruct Hsent as (m & q' & -> & Hsent). destruct (takes_channel _ _ _ _ _ Hp Hlen Eq Hx) as (Eo & El & Hch). split.
    + split_and!; [done..|]. intros rx Hrx. exists (if rx =? peer then [m] else []). split; [by apply Hch|]. simpl.
      rewrite (Z.eqb_sym peer rx). destruct (rx =? peer); [by rewrite Hsent|done].
    + split_and!; [lia..|done|]. simpl. rewrite Hsent, Hch, Z.eqb_refl by lia. by apply sublist_app.
  - destruct Hsent as [Es El]. subst h'. split.
    + apply takes_none. intros rx. simpl. by rewrite Es, El.
    + split_and!; [lia..|done|]. simpl. by rewrite Es, El.
Qed.

Lemma handler_wired e h x h' x' : length h.(h_taken) = Z.to_nat NUMBER_OF_NODES -> handler_ok h x ->
  handler_do index e h x = Some (Ok (h', x')) -> takes_more h h' x x' /\ handler_ok h' x'.
Proof.
  intros Hlen Hx Hd.
  assert (Hkeep : forall peer k k', x = Talking peer k -> k'.(k_sent) = k.(k_sent) /\ k'.(k_lost) = k.(k_lost) ->
    lifecycle k' -> takes_more h h x (Talking peer k') /\ handler_ok h (Talking peer k')).
  { intros peer k k' -> [E1 E2] HL. destruct Hx as (Hp & _ & Hs). split; [apply takes_none; simpl; by rewrite E1, E2|].
    split_and!; [lia..|done|by rewrite E1, E2]. }
  destruct x as [|un eof br|un eof br|peer k|], e as [| | |b| |o]; simpl in Hd; try done.
  - injection Hd as <- <-. split; [apply takes_none|]; by destruct br.
  - destruct (peer_does o un eof br) as [[[u e'] b']|]; [|done]. injection Hd as <- <-. by split; [apply takes_none|].
  - unfold identify in Hd. destruct (snd (exchangeIDs index un)) as [[id rest]|err|c]; [|by destruct err, eof; simplify_eq; (split; [apply takes_none|])|done].
    destruct (_ && _) eqn:Er; [|done]. injection Hd as <- <-. destruct (talking_ok id rest eof br) as (k & -> & HL & Es & El).
    split; [apply takes_none; simpl; intros rx; rewrite Es, El; by destruct (id =? rx)|]. zbool.
    split_and!; [lia..|done|rewrite Es, El; apply sublist_nil_l].
  - destruct (peer_does o un eof br) as [[[u e'] b']|]; [|done]. injection Hd as <- <-. by split; [apply takes_none|].
  - destruct (listener_do peer k h) as [[h1 y]|] eqn:E; [|done]. injection Hd as -> ->.
    destruct (listener_host _ _ _ _ _ E) as (k' & Ek & -> & Et & _).
    destruct (Hkeep peer k k') as [(Eo & El & Hn) Hok]; [done|by apply listener_keeps|by eapply listener_lifecycle; [apply Hx|]|].
    unfold takes_more, handler_ok. rewrite Et. split; [|exact Hok]. split; [|by split].
    unfold listener_do in E. rewrite Ek in E. cbn [mbind option_bind] in E. destruct (drop _ _); [by injection E as <-|].
    unfold connection_reads in E. destruct (_ <? _)%nat; [|done]. cbn [mbind option_bind] in E. by injection E as <-.
  - destruct (sender_do b peer k h) as [[h1 y]|] eqn:E; [|done]. injection Hd as -> ->. by eapply sender_wired.
  - destruct (closer_step k) as [k'|] eqn:Ek; [|done]. injection Hd as <- <-. apply (Hkeep peer k k'); [done|by apply closer_keeps|].
    eapply lifecycle_step; [apply Hx|by apply C_closer].
  - destruct o as [b| | |]; try done; injection Hd as <- <-.
    + apply (Hkeep peer k _); [done|apply (outside_keeps (Arrive b))|apply (lifecycle_step k); [apply Hx|apply (C_outside (Arrive b))]].
    + apply (Hkeep peer k _); [done|apply (outside_keeps Eof)|apply (lifecycle_step k); [apply Hx|apply (C_outside Eof)]].
    + apply (Hkeep peer k _); [done|apply (outside_keeps Break)|apply (lifecycle_step k); [apply Hx|apply (C_outside Break)]].
Qed.

Lemma loop_moves_channels h h' : loop_moves index dummyData h h' ->
  length h'.(h_out) = length h.(h_out) /\ h'.(h_taken) = h.(h_taken).
Proof.
  intros Hs. destruct Hs as [|k h h' Hk]; [done|]. unfold loop_step in Hk. destruct (h_todo h) as [|x rest].
  - destruct (host_case index dummyData k h) as [h1|] eqn:E; [|done]. injection Hk as <-. unfold host_case, with_node in E.
    destruct k; repeat first [progress simplify_option_eq|case_match]; done.
  - destruct x; cbn [run_stmt] in Hk; unfold with_node in Hk; repeat first [progress simplify_option_eq|case_match]; try done.
    split; [by rewrite length_insert|done].
Qed.

Definition pwired (p : process) : Prop := wired p.(q_state) p.(q_conns).

Lemma pstep_wired p p' : pwired p -> pstep index dummyData p p' -> pwired p'.
Proof.
  unfold pwired. intros Hw Hs. destruct Hs as [s s' l ds ks Hst| | | |s ds ks|s ds ks|s l i again ds ks Hi| | |s s' l ds ks1 k k' ks2 [e He]|];
    cbn [q_state q_conns] in *; try exact Hw.
  - destruct (loop_moves_channels _ _ Hst) as [Eo Et]. destruct Hw as [Ho Hl He Ht].
    split; [congruence|congruence| |by rewrite Et]. eapply list.Forall_impl; [exact He|]. intros x. unfold handler_ok. by rewrite Et.
  - destruct Hw as [Ho Hl He Ht]. split; [done..|by apply Forall_app_2; [|repeat constructor]|].
    intros rx Hrx. rewrite fmap_app, join_app. simpl. by rewrite app_nil_r, Ht.
  - destruct Hw as [Ho Hl He Ht]. split; [done..|by apply Forall_app_2; [|repeat constructor]|].
    intros rx Hrx. rewrite fmap_app, join_app. simpl. by rewrite app_nil_r, Ht.
  - destruct Hw as [Ho Hl He Ht]. split; [done..|by apply Forall_app_2; [|repeat constructor]|].
    intros rx Hrx. rewrite fmap_app, join_app. simpl. by rewrite app_nil_r, Ht.
  - pose proof (wi_each _ _ Hw) as He'. apply Forall_app in He' as [_ [Hk _]%list.Forall_cons_1].
    destruct (handler_wired e s k s' k') as [Htm Hok]; [apply Hw|done|done|]. by eapply wired_conn.
Qed.

Lemma psteps_wired p p' : pwired p -> rtc (pstep index dummyData) p p' -> pwired p'.
Proof. intros Hw Hs. induction Hs as [p|p1 p2 p3 Hst _ IH]; [done|]. by apply IH, (pstep_wired p1). Qed.

Lemma start_wired (c : consensus DB) h : entryPoint (fresh_node c) = Some h -> pwired (start_process index h).
Proof.
  unfold entryPoint. simpl. intros [= <-]. split; [done..|constructor|]. intros rx Hrx.
  assert (rx = 0 \/ rx = 1 \/ rx = 2 \/ rx = 3) as Hc by (unfold NUMBER_OF_NODES in Hrx; lia). by repeat destruct Hc as [->|Hc]; [..|subst].
Qed.
End Wired.

(** ** Scripted runs *)

Inductive pop : Type := PNode (k : select) | PLoop (k : hcase) | PListen | PAccept | PDial (i : nat) | PConn (i : nat) (e : hevent).

Section Scripts.
Context {DB : Type} `{KVStore DB} `{Hasher} `{Signer} `{Verifier} (index : Z) (dummyData : bytes).

Definition do_pop (p : process (DB := DB)) (o : pop) : option (process (DB := DB)) :=
  let '(mkSockets h l ds ks d) := p in
  if d then None else
  match o with
  | PNode k =>
      match turn k h.(h_node).(s_node) with
      | Some (n', inl _) =>
          Some (mkSockets (mkHost (mkSystem n' h.(h_node).(got_messages) h.(h_node).(got_blocks))
                             h.(h_out) h.(h_in) h.(h_confirmed) h.(h_todo) h.(h_taken)) l ds ks false)
      | Some (_, inr _) => Some (mkSockets h l ds ks true)
      | None => None
      end
  | PLoop k =>
      match loop_step index dummyData k h with
      | Some (Ok h') => Some (mkSockets h' l ds ks false)
      | Some (Panic _) => Some (mkSockets h l ds ks true)
      | _ => None
      end
  | PListen => if l then None else Some (mkSockets h true ds ks false)
  | PAccept => if l then Some (mkSockets h true ds (ks ++ [Greeting [] false false]) false) else None
  | PDial i =>
      match ds !! i with
      | Some (Dialing _) => Some (mkSockets h l (<[i := Waiting 1]> ds) (ks ++ [Greeting [] false false]) false)
      | _ => None
      end
  | PConn i e =>
      x ← ks !! i;
      match handler_do index e h x with
      | Some (Ok (h', x')) => Some (mkSockets h' l ds (<[i := x']> ks) false)
      | Some (Panic _) => Some (mkSockets h l ds ks true)
      | _ => None
      end
  end.
Fixpoint prun (p : process (DB := DB)) (l : list pop) : option (process (DB := DB)) :=
  match l with [] => Some p | o :: l => p' ← do_pop p o; prun p' l end.

Lemma do_pop_step p o p' : do_pop p o = Some p' -> pstep index dummyData p p'.
Proof.
  destruct p as [h l ds ks d]. unfold do_pop. destruct d; [done|]. destruct o as [k|k| | |i|i e].
  - destruct (turn k _) as [[n' [[]|c]]|] eqn:E; [|..|done]; intros [= <-]; [by apply Q_state, (L_node _ _ k)|].
    apply Q_state_dies. left. by exists k, n', c.
  - destruct (loop_step _ _ k h) as [[h1| |c]|] eqn:E; try done; intros [= <-]; [by apply Q_state, (L_loop _ _ k)|].
    apply Q_state_dies. right. by exists k, c.
  - destruct l; [done|]. intros [= <-]. apply Q_listen.
  - destruct l; [|done]. intros [= <-]. apply Q_accept.
  - destruct (ds !! i) as [[again| |]|] eqn:E; try done. intros [= <-]. by apply (Q_dial _ _ _ _ _ _ _ _ _ i again).
  - destruct (ks !! i) as [x|] eqn:E; [|done]. cbn [mbind option_bind]. intros Hd. pose proof (take_drop_middle ks i x E) as Ek.
    destruct (handler_do index e h x) as [[[h' x']|err|c]|] eqn:Ex; [|done| |done]; injection Hd as <-.
    + rewrite (insert_take_drop _ _ _ (lookup_lt_Some _ _ _ E)), <- Ek at 1. apply Q_conn. by exists e.
    + rewrite <- Ek. apply Q_panic. by exists e, c.
Qed.

Lemma prun_rtc l p p' : prun p l = Some p' -> rtc (pstep index dummyData) p p'.
Proof.
  revert p. induction l as [|o l IH]; simpl; intros p; [by intros [= <-]|].
  destruct (do_pop p o) as [p1|] eqn:E; [|done]. intros ?. eapply rtc_l; [by eapply do_pop_step|auto].
Qed.
End Scripts.

(** ** Theorems *)

Section Theorems.
Context {DB : Type} `{KVStore DB} `{!KVLaws DB} `{Hasher} `{!HasherLaws} `{Signer} `{Verifier}
        (th : Z) `{!VerifierLaws th} (index : Z) (dummyData : bytes).


(** What ends the process: [net.Listen] may still fail; the next turn of the node runs a
    handler that panics or calls [log.Fatal]; a handler on a nil connection; an
    identity of a peer that is no index into the channels. *)
Definition doomed (p : process (DB := DB)) : Prop := q_listening p = false \/ node_dies (q_state p) \/ NoConn ∈ q_conns p
  \/ exists unread eof broken id rest, Awaiting unread eof broken ∈ q_conns p
      /\ snd (exchangeIDs index unread) = Ok (id, rest) /\ ~ (0 <= id < NUMBER_OF_NODES).

Lemma exchange_no_panic unread c : snd (exchangeIDs index unread) <> Panic c.
Proof.
  unfold exchangeIDs. simpl. pose proof (read_no_panic unread) as Hp.
  destruct (getMessageFromReader unread) as [[b rest]| |]; [by destruct (Atoi b)|done..].
Qed.

Lemma conn_panics (h : host DB) x : conn_panic index h x <-> x = NoConn \/ exists unread eof broken id rest,
  x = Awaiting unread eof broken /\ snd (exchangeIDs index unread) = Ok (id, rest) /\ ~ (0 <= id < NUMBER_OF_NODES).
Proof.
  split.
  - intros (e & c & He). destruct x as [|un eof br|un eof br|peer k|], e as [| | |b| |o]; simpl in He; try done; [by left|..].
    + destruct (peer_does o un eof br) as [[[u e'] b']|]; done.
    + right. unfold identify in He. pose proof (exchange_no_panic un) as Hnp.
      destruct (snd (exchangeIDs index un)) as [[id rest]|err|c'] eqn:E; [|by destruct err, eof|by destruct (Hnp c')].
      exists un, eof, br, id, rest. split_and!; [done..|]. destruct (_ && _) eqn:Er; [done|]. intros Hid.
      apply andb_false_iff in Er as [Er|Er]; zbool; lia.
    + destruct (peer_does o un eof br) as [[[u e'] b']|]; done.
    + by destruct (listener_do peer k h).
    + by destruct (sender_do b peer k h).
    + by destruct (closer_step k).
    + by destruct o.
  - intros [->|(un & eof & br & id & rest & -> & Eid & Hid)]; [by exists EGreet, NilDeref|]. exists EIdentify, OutOfRange.
    simpl. unfold identify. rewrite Eid. destruct (_ && _) eqn:Er; [|done]. zbool. lia.
Qed.

Lemma doomed_fatal p : ~ loop_dies index dummyData (q_state p) -> doomed p <-> fatal (host_dies index dummyData) (conn_panic index) p.
Proof.
  intros Hloop. unfold doomed, fatal. split.
  - intros [?|[Hd|[Hn|(un & eof & br & id & rest & Hin & Hid)]]]; [by left|right; left; by left|right; right..].
    + exists NoConn. split; [done|]. apply conn_panics. by left.
    + exists (Awaiting un eof br). split; [done|]. apply conn_panics. right. by exists un, eof, br, id, rest.
  - intros [?|[[?|?]|(x & Hx & [->|(un & eof & br & id & rest & -> & Hid)]%conn_panics)]];
      [by left|by right; left|done|by right; right; left|right; right; right].
    by exists un, eof, br, id, rest.
Qed.

(** The statements of the loop do not panic: their channels exist. *)
Lemma loop_lives c h : HInv index c h -> ~ loop_dies index dummyData h.
Proof.
  intros [_ Ht _ Ho _ _] (k & e & E). unfold loop_step in E. destruct (h_todo h) as [|x rest]; [by destruct (host_case _ _ _ _)|].
  apply list.Forall_cons_1 in Ht as [Hx _]. destruct x as [m|d|rx m|]; cbn [run_stmt] in E.
  - by destruct (use _ _).
  - by destruct (use _ _).
  - simpl in Hx. rewrite (proj2 (Z.leb_le 0 rx)) in E by lia.
    destruct (lookup_lt_is_Some_2 (h_out h) (Z.to_nat rx)) as [q Eq]; [unfold NUMBER_OF_NODES in *; lia|].
    rewrite Eq in E. by case_match.
  - by case_match.
Qed.

(** A stranger connects and announces itself as [id]. *)
Lemma stranger_kills (p : process (DB := DB)) id : q_died p = false -> q_listening p = true -> NUMBER_OF_NODES <= id < two63 ->
  exists p', rtc (pstep index dummyData) p p' /\ q_died p' = true.
Proof.
  destruct p as [h l ds ks d]. simpl. intros -> -> Hid. set (b := toByteArray (Itoa id)).
  assert (Eid : snd (exchangeIDs index b) = Ok (id, [])).
  { unfold exchangeIDs, b. cbn [snd]. rewrite <- (app_nil_r (toByteArray _)), read_frame.
    - by rewrite Atoi_Itoa by (unfold NUMBER_OF_NODES in Hid; lia).
    - pose proof (length_decimal 19 id). unfold Itoa, len. assert (19 < 2 ^ 32) by done. lia. }
  clearbody b.
  assert (E1 : pstep index dummyData (mkSockets h true ds (ks ++ [Greeting [] false false]) false) (mkSockets h true ds (ks ++ [Greeting b false false]) false)).
  { apply Q_conn. by exists (EOutside (Arrive b)). }
  assert (E2 : pstep index dummyData (mkSockets h true ds (ks ++ [Greeting b false false]) false) (mkSockets h true ds (ks ++ [Awaiting b false false]) false)).
  { apply Q_conn. by exists EGreet. }
  exists (mkSockets h true ds (ks ++ [Awaiting b false false]) true). split; [|reflexivity].
  eapply rtc_l; [apply Q_accept|]. eapply rtc_l; [exact E1|]. eapply rtc_l; [exact E2|]. apply rtc_once, Q_panic, conn_panics. right.
  exists b, false, false, id, []. split; [reflexivity|]. split; [exact Eid|lia].
Qed.

(** C29: what ends a process: it dies only when it cannot listen, after an [Accept] that
    failed, when a peer announces an identity other than 0..3, or in a handler of its
    node that panics or calls [log.Fatal], and in each of these cases it can.  So
    whoever can connect to a process ends it with a few bytes, whatever state it is
    in. *)
Theorem process_mortal (c : consensus DB) h0 (p : process) : Inv th c -> c.(c_Progress) = empty_progress ->
  c.(c_replicas) = [0; 1; 2; 3] -> entryPoint (fresh_node c) = Some h0 ->
  rtc (pstep index dummyData) (start_process index h0) p ->
  (q_died p = true -> doomed p)
  /\ (q_died p = false -> doomed p -> exists p', pstep index dummyData p p' /\ q_died p' = true)
  /\ (q_died p = false -> q_listening p = true -> forall id, NUMBER_OF_NODES <= id < two63 ->
        exists p', rtc (pstep index dummyData) p p' /\ q_died p' = true).
Proof.
  intros HI HP Hr Hstart Hs.
  pose proof (HInv_steps th index dummyData c h0 _ HI HP Hr (HInv_start index c h0 Hstart) (psteps_host index dummyData _ _ Hs)) as HV.
  pose proof (doomed_fatal p (loop_lives _ _ HV)) as Hdf. split_and!.
  - intros Hd. apply Hdf. eapply dies_for; [exact Hs|done].
  - intros Hd Hdoom. by apply fatal_dies; [|apply Hdf].
  - clear. intros Hd Hl id Hid. by apply stranger_kills with id.
Qed.
End Theorems.

(** ** From one process to another *)

Section Link.
Context {DBa DBb : Type} `{KVStore DBa} `{KVStore DBb} `{Hasher} (sa sb : Signer) `{Verifier}.

(** C17: two processes and a connection between them: when the bytes that have arrived
    at the one are the first of those that the other has written after its identity,
    the messages that the one has been given are, in order, the first of those that
    the other has sent, up to the encoding of empty byte strings. *)
Theorem link_delivers i j dummy_a dummy_b (ca : consensus DBa) (cb : consensus DBb) ha hb
    (pa : process (DB := DBa)) (pb : process (DB := DBb)) ra rb ka kb :
  entryPoint (fresh_node ca) = Some ha -> entryPoint (fresh_node cb) = Some hb ->
  rtc (pstep (H1 := sa) i dummy_a) (start_process i ha) pa -> rtc (pstep (H1 := sb) j dummy_b) (start_process j hb) pb ->
  Talking ra ka ∈ pa.(q_conns) -> Talking rb kb ∈ pb.(q_conns) ->
  Forall framable (ka.(k_sent) ++ ka.(k_lost)) -> kb.(k_arrived) `prefix_of` ka.(k_written) ->
  kb.(k_delivered) `prefix_of` (canon <$> ka.(k_sent)).
Proof.
  intros Ha Hb Hsa Hsb Hka Hkb Hf Hpre.
  pose proof (wi_each _ _ (psteps_wired (H1 := sa) i dummy_a _ _ (start_wired i ca ha Ha) Hsa)) as Ea.
  pose proof (wi_each _ _ (psteps_wired (H1 := sb) j dummy_b _ _ (start_wired j cb hb Hb) Hsb)) as Eb.
  rewrite list.Forall_forall in Ea. rewrite list.Forall_forall in Eb.
  destruct (Ea _ Hka) as (_ & La & _), (Eb _ Hkb) as (_ & Lb & _).
  pose proof Hf as [Hfs _]%Forall_app. destruct (lc_written _ La) as (stream & partial & Hw & Ew & Hl).
  rewrite sendMessages_stream in Hw by done. injection Hw as Hw.
  destruct (lc_delivered _ Lb) as (read & Hread & ->). rewrite Ew, <- Hw in Hpre. unfold stream_of in Hpre.
  rewrite list_fmap_compose in Hpre.
  assert (Hp : read `prefix_of` (encoding <$> ka.(k_sent))).
  { assert (Hlen : Forall (fun b => len b < 2 ^ 32) (encoding <$> ka.(k_sent) ++ ka.(k_lost)))
      by (apply list.Forall_fmap; eapply list.Forall_impl; [exact Hf|]; intros m []; done).
    rewrite fmap_app in Hlen. destruct Hl as [[_ ->]|(m & b & El & _ & Hsent & Hpt & Hlt)].
    - rewrite app_nil_r in Hpre. apply Forall_app in Hlen as [Hlen _]. by eapply framed_prefix.
    - rewrite El in Hlen, Hf. apply Forall_app in Hf as [_ [[Hm _] _]%list.Forall_cons_1].
      unfold sent_one in Hsent. rewrite marshal_encoding in Hsent by apply Hm. injection Hsent as <-. by eapply framed_partial. }
  destruct Hp as [tl E]. exists ((fun b => fst (Unmarshal (zero : Message) b)) <$> tl). rewrite <- fmap_app, <- E.
  rewrite <- list_fmap_compose. apply list_fmap_ext. intros n m Hm. rewrite list.Forall_forall in Hfs.
  destruct (Hfs m (list_elem_of_lookup_2 _ _ _ Hm)) as [[Hg Hfit] _]. unfold compose, encoding. by rewrite law_unmarshal.
Qed.
End Link.

(** ** node/: the process of the experiment *)

Section ExperimentProcess.
Context (sendMsg : bool) (msg : bytes).

(** A handler; [None] for one on a nil connection, whose listener panics in its first
    read. *)
Definition xconn_step (_ : unit) (k : option Experiment.connection) (_ : unit) (k' : option Experiment.connection) : Prop :=
  exists c c', k = Some c /\ k' = Some c' /\ Experiment.xstep msg c c'.
Definition xconn_panic (_ : unit) (k : option Experiment.connection) : Prop := k = None.
Definition xpstep : relation (sockets unit (option Experiment.connection)) :=
  sockstep false (Some (Experiment.handleConnection sendMsg)) None (fun _ _ => False) (fun _ => False) xconn_step xconn_panic.

(** A goroutine that dials has not dialled yet, waits for ever, or has ended. *)
Definition dials_once (d : position) : Prop := d = Dialing false \/ d = Waiting 1 \/ d = Returned.

Definition all_open (p : sockets unit (option Experiment.connection)) : Prop :=
  Forall (from_option (Experiment.left_open sendMsg msg) True) p.(q_conns)
  /\ Forall dials_once p.(q_dialers).

Lemma all_open_step p p' : all_open p -> xpstep p p' -> all_open p'.
Proof.
  intros [Ho Hd] Hs. destruct Hs as [s s' l ds ks []|s l ds ks []| | |s ds ks|s ds ks|s l i again ds ks Hi|s l i again ds ks Hi|s l i ds ks Hi|s s' l ds ks1 k k' ks2 (c & c' & -> & -> & Hc)|];
    split; simpl in *; try done; try (by apply Forall_insert; [|unfold dials_once; auto]).
  - apply Forall_app_2; [done|]. constructor; [apply Experiment.left_open_start|constructor].
  - by apply Forall_app_2; [|repeat constructor].
  - apply Forall_app_2; [done|]. constructor; [apply Experiment.left_open_start|constructor].
  - exfalso. rewrite list.Forall_forall in Hd. by destruct (Hd _ (list_elem_of_lookup_2 _ _ _ Hi)) as [|[|]].
  - apply Forall_app in Ho as [H1' [Hk H2']%list.Forall_cons_1]. apply Forall_app_2; [done|]. constructor; [|done].
    by eapply Experiment.left_open_step.
Qed.

(** A run of one connection. *)
Lemma xconn_run l ds ks1 c c' ks2 : rtc (Experiment.xstep msg) c c' ->
  rtc xpstep (mkSockets tt l ds (ks1 ++ Some c :: ks2) false) (mkSockets tt l ds (ks1 ++ Some c' :: ks2) false).
Proof.
  intros Hs. induction Hs as [c|c1 c2 c3 Hst _ IH]; [done|]. eapply rtc_l; [apply Q_conn; by exists c1, c2|exact IH].
Qed.

Lemma all_open_steps p p' : rtc xpstep p p' -> all_open p -> all_open p' /\ length p'.(q_dialers) = length p.(q_dialers).
Proof.
  intros Hs. induction Hs as [p|p1 p2 p3 Hst _ IH]; [done|]. intros HO. destruct (IH (all_open_step _ _ HO Hst)) as [HO' ->].
  split; [done|]. destruct Hst; simpl; by rewrite ?length_insert.
Qed.

(** C31: the process of the experiment, with the arguments of [main]: whatever its
    peers and the network do, it never closes a connection, dialled or accepted; over
    each it writes no more than its text, once, and prints the texts that have arrived,
    in order; each of its goroutines that dial dials once, and after a refused
    connection never again; and it dies only when it cannot listen or after an
    [Accept] that failed. *)
Theorem experiment_process index mode address dials p :
  Experiment.main index mode = Ok (address, dials, msg) -> rtc xpstep (start_sockets (length dials) tt) p ->
  (forall k, Some k ∈ p.(q_conns) -> Experiment.left_open sendMsg msg k)
  /\ length p.(q_dialers) = index /\ Forall dials_once p.(q_dialers)
  /\ (q_died p = true -> q_listening p = false \/ None ∈ p.(q_conns)).
Proof.
  intros Hm Hs.
  assert (Hl : length dials = index).
  { unfold Experiment.main in Hm. apply res_bind_Ok in Hm as (u & _ & Hm). apply res_bind_Ok in Hm as (a & Ha & [= _ <- _]).
    rewrite length_take. unfold Prelude.index in Ha. destruct (_ !! index) as [x|] eqn:E; [|done]. apply lookup_lt_Some in E. lia. }
  destruct (all_open_steps _ _ Hs) as [[Ho Hd] Hn].
  { split; [constructor|]. apply Forall_replicate. by left. }
  simpl in Hn. rewrite length_replicate in Hn.
  rewrite list.Forall_forall in Ho. split_and!; [intros k Hk; apply (Ho _ Hk)|congruence|done|].
  intros Hdied. destruct (dies_for _ _ _ _ _ _ _ _ _ _ Hs Hdied) as [?|[[]|(k & Hk & ->)]]; [by left|by right].
Qed.
End ExperimentProcess.

(** ** Witnesses and runs *)

#[local] Instance signer1 : Signer := demo_signer 1.

(** Connection [i]: the peer announces itself as [id]. *)
Definition announce (i : nat) (id : Z) : list pop :=
  [PConn i (EOutside (Arrive (toByteArray (Itoa id)))); PConn i EGreet; PConn i EIdentify].
(** Node 1 starts, is given data and proposes; the proposal and its vote are
    dispatched. *)
Definition propose : list pop :=
  [PLoop HReady; PNode SStart; PNode SReceived; PNode SWaitingData; PLoop HReady; PLoop HReady; PNode SSend;
   PNode SMessages; PLoop HMessages; PLoop HReady; PLoop HReady; PLoop HReady; PLoop HReady; PLoop HReady].

Definition demo_process : process (DB := mem_db) := start_process 1 demo_host.
Definition served : list pop := [PListen; PAccept] ++ announce 0 2 ++ propose ++ [PConn 0 (ESender (Take 0)); PConn 0 (ESender (Take 0))].

Definition sent_on (i : nat) (p : process (DB := mem_db)) : option (nat * nat) :=
  match q_conns p !! i with Some (Talking 2 k) => Some (length k.(k_sent), length k.(k_lost)) | _ => None end.

(** The vote's write fails after five bytes. *)
Definition cut_off : list pop := [PListen; PAccept] ++ announce 0 2 ++ propose ++
  [PConn 0 (ESender (Take 0)); PConn 0 (EOutside Break); PConn 0 (ESender (Take 5))].


(** A peer that has announced itself as node 0 sends two bytes: the handler of its
    proposal without header ends the process. *)
Definition two_bytes : bytes := toByteArray [x0a; x00].
Definition poisoned : list pop := [PListen; PAccept] ++ announce 0 0 ++
  [PLoop HReady; PNode SStart; PNode SReceived; PNode SWaitingData; PConn 0 EListener; PConn 0 (EOutside (Arrive two_bytes)); PConn 0 EListener;
   PLoop HIncoming; PLoop HIncoming].

(** A stranger announces itself as 7 to a process that has just started; and a peer
    sends two bytes. *)
Lemma process_mortal_witness : exists p p' p2 p2' : process (DB := mem_db), prun 1 [x01] demo_process [PListen] = Some p
  /\ rtc (pstep 1 [x01]) p p' /\ q_died p' = true
  /\ prun 1 [x01] demo_process poisoned = Some p2 /\ pstep 1 [x01] p2 p2' /\ q_died p2' = true.
Proof.
  assert (E : (fun p => (q_died p, q_listening p)) <$> prun 1 [x01] demo_process [PListen] = Some (false, true)) by (vm_compute; reflexivity).
  destruct (prun 1 [x01] demo_process [PListen]) as [p|] eqn:Ep; [|discriminate E]. apply (inj Some), pair_equal_spec in E as [Ed El].
  assert (E2 : (fun p => (q_died p, match turn SReceived (q_state p).(h_node).(s_node) with Some (_, inr _) => true | _ => false end))
               <$> prun 1 [x01] demo_process poisoned = Some (false, true)) by (vm_compute; reflexivity).
  destruct (prun 1 [x01] demo_process poisoned) as [p2|] eqn:Ep2; [|discriminate E2]. apply (inj Some), pair_equal_spec in E2 as [Ed2 Et].
  destruct (turn SReceived _) as [[n' [u|k]]|] eqn:Etn; [discriminate Et| |discriminate Et].
  destruct (demo_inv 1) as [HI HP]; [lia|]. assert (Er : (demo 1).(c_replicas) = [0; 1; 2; 3]) by (vm_compute; reflexivity).
  destruct (process_mortal 3 1 [x01] (demo 1) demo_host p HI HP Er demo_entry) as (_ & _ & Hs).
  { apply (prun_rtc 1 [x01] [PListen]). exact Ep. }
  destruct (process_mortal 3 1 [x01] (demo 1) demo_host p2 HI HP Er demo_entry) as (_ & Hdoom & _).
  { apply (prun_rtc 1 [x01] poisoned). exact Ep2. }
  destruct (Hs Ed El 7) as (p' & Hp' & Hd); [split; [discriminate|reflexivity]|].
  destruct (Hdoom Ed2) as (p2' & Hp2' & Hd2); [right; left; exists SReceived, n', k; exact Etn|].
  exists p, p', p2, p2'. split; [reflexivity|]. split; [exact Hp'|]. split; [exact Hd|]. split; [reflexivity|]. split; [exact Hp2'|exact Hd2].
Defined.

(** An impostor connects to node 1 and announces itself as node 2, before node 2 does. *)
Definition impostor : list pop :=
  [PListen; PAccept; PAccept] ++ announce 0 2 ++ announce 1 2 ++ propose ++ [PConn 0 (ESender (Take 0)); PConn 0 (ESender (Take 0))].

(** The identity that a peer announces is all there is to it: another connection
    that announces itself as node 2 is given all that node 1 has for node 2, the
    proposal and the vote, and node 2 itself nothing; node 1 keeps no copy. *)
Theorem impostor_is_served : exists p : process (DB := mem_db), prun 1 [x01] demo_process impostor = Some p
  /\ sent_on 0 p = Some (2%nat, 0%nat) /\ sent_on 1 p = Some (0%nat, 0%nat)
  /\ channel 2 p.(q_state).(h_out) = [] /\ p.(q_state).(h_todo) = []
  /\ length (peer_messages 2 p.(q_state).(h_node).(got_messages)) = 2%nat /\ q_died p = false.
Proof.
  assert (E : (fun p => (sent_on 0 p, sent_on 1 p, channel 2 p.(q_state).(h_out), p.(q_state).(h_todo),
                 length (peer_messages 2 p.(q_state).(h_node).(got_messages)), q_died p)) <$> prun 1 [x01] demo_process impostor
              = Some (Some (2%nat, 0%nat), Some (0%nat, 0%nat), [], [], 2%nat, false)) by (vm_compute; reflexivity).
  destruct (prun 1 [x01] demo_process impostor) as [p|]; [|discriminate E]. exists p. apply (inj Some) in E.
  repeat (apply pair_equal_spec in E as [E ?]). by split_and!.
Qed.

(** Node 2 has dialled node 1 and reads what node 1 has written so far. *)
Definition written_on (i : nat) (p : process (DB := mem_db)) : bytes :=
  match q_conns p !! i with Some (Talking _ k) => k.(k_written) | _ => [] end.
Definition demo_host2 : host mem_db :=
  default (mkHost (mkSystem (fresh_node (demo 2)) [] []) [] [] 0 [] []) (entryPoint (fresh_node (demo 2))).
Definition dialled (b : bytes) : list pop :=
  [PDial 1] ++ announce 0 1 ++ [PConn 0 (EOutside (Arrive b))] ++ mjoin (replicate 2 [PConn 0 EListener; PConn 0 EListener]).
Definition linked_run : option (process (DB := mem_db) * process (DB := mem_db)) :=
  pa ← prun 1 [x01] demo_process served;
  pb ← prun (H1 := demo_signer 2) 2 [x01] (start_process 2 demo_host2) (dialled (written_on 0 pa));
  Some (pa, pb).

(** A proposal without timeout certificate or a vote whose frame is short enough. *)
Definition cert_okb (o : option Certificate) : bool :=
  match o with
  | Some (mkCertificate _ (Some a)) => forallb is_u64b a.(AggregatedSignature_Voters)
  | _ => true
  end.
Definition framableb (m : Message) : bool :=
  match m.(Message_GetType) with
  | Some (Message_Vote v) => is_u64b v.(Vote_View) && is_u64b v.(Vote_Voter)
  | Some (Message_Proposal (mkProposal (Some h) (Some d) _ cert None)) =>
      is_u64b h.(Header_View) && is_u64b h.(Header_ParentView) && forallb (fun x => is_u64b x.(Transaction_Nonce)) d.(Data_Data)
      && cert_okb cert
  | _ => false
  end && (len (encoding m) <? 2 ^ 32).

Lemma forallb_u64 {A} (f : A -> Z) l : forallb (fun x => is_u64b (f x)) l = true -> Forall (fun x => is_u64 (f x)) l.
Proof. rewrite forallb_forall. intros Hl. apply list.Forall_forall. intros x Hx. by apply is_u64b_ok, Hl, list_elem_of_In. Qed.

Lemma cert_okb_wf o : cert_okb o = true -> wf_opt o.
Proof.
  intros Ho [b s] ->. intros a Ea. simpl in *. subst s. by apply (forallb_u64 id) in Ho.
Qed.

Lemma framableb_ok m : framableb m = true -> framable m.
Proof.
  unfold framableb. intros [Hm Hl]%andb_prop. zbool. assert (2 ^ 32 < two63) by done.
  split; [split; [|change (len (encoding m) < two63); lia]|done]. destruct m as [[[p|n|v|s]|]]; simpl in Hm; try done.
  - destruct p as [[h|] [d|] sig cert [t|]]; try done. apply andb_prop in Hm as [[[Hv Hp]%andb_prop Hd]%andb_prop Hc].
    intros ? [= <-]. split_and!; [intros ? [= <-]|intros ? [= <-]|by apply cert_okb_wf|done].
    + split; by apply is_u64b_ok.
    + by apply forallb_u64 in Hd.
  - apply andb_prop in Hm as [Hv Hp]. intros ? [= <-]. split; by apply is_u64b_ok.
Qed.

Definition link_of (r : process (DB := mem_db) * process (DB := mem_db)) : option (Z * connection * (Z * connection)) :=
  match q_conns r.1 !! 0%nat, q_conns r.2 !! 0%nat with
  | Some (Talking ra ka), Some (Talking rb kb) => Some (ra, ka, (rb, kb))
  | _, _ => None
  end.

Lemma linked_parts pa pb : linked_run = Some (pa, pb) -> prun 1 [x01] demo_process served = Some pa
  /\ prun (H1 := demo_signer 2) 2 [x01] (start_process 2 demo_host2) (dialled (written_on 0 pa)) = Some pb.
Proof.
  unfold linked_run. destruct (prun 1 [x01] demo_process served) as [p|]; [|done]. cbn [mbind option_bind].
  destruct (prun 2 _ _ _) as [p'|] eqn:E; [|done]. cbn [mbind option_bind]. intros [= <- <-]. by split.
Qed.
Lemma demo_entry2 : entryPoint (fresh_node (demo 2)) = Some demo_host2.
Proof. reflexivity. Qed.
Lemma link_of_parts pa pb ra ka rb kb : link_of (pa, pb) = Some (ra, ka, (rb, kb)) ->
  Talking ra ka ∈ q_conns pa /\ Talking rb kb ∈ q_conns pb.
Proof.
  unfold link_of. cbn [fst snd]. destruct (q_conns pa !! 0%nat) as [[]|] eqn:Ka; try done.
  destruct (q_conns pb !! 0%nat) as [[]|] eqn:Kb; try done. intros [= <- <- <- <-].
  split; by apply list_elem_of_lookup_2 with 0%nat.
Qed.

Lemma link_delivers_witness : exists ra ka rb kb, linked_run ≫= link_of = Some (ra, ka, (rb, kb))
  /\ length kb.(k_delivered) = 2%nat /\ kb.(k_delivered) `prefix_of` (canon <$> ka.(k_sent)).
Proof.
  assert (E : (fun '(ra, ka, (rb, kb)) => (forallb framableb (ka.(k_sent) ++ ka.(k_lost)), bytes_eqb kb.(k_arrived) ka.(k_written), length kb.(k_delivered)))
              <$> (linked_run ≫= link_of) = Some (true, true, 2%nat)) by (vm_compute; reflexivity).
  destruct linked_run as [[pa pb]|] eqn:El; [|discriminate E]. destruct (linked_parts pa pb El) as [Ea Eb]. cbn [mbind option_bind] in *.
  destruct (link_of (pa, pb)) as [[[ra ka] [rb kb]]|] eqn:Ek; [|discriminate E].
  apply link_of_parts in Ek as [Ka Kb]. apply (inj Some) in E. apply pair_equal_spec in E as [E Ed].
  apply pair_equal_spec in E as [Ef Ew]. apply bytes_eqb_eq in Ew.
  exists ra, ka, rb, kb. split; [reflexivity|]. split; [exact Ed|].
  apply (link_delivers (demo_signer 1) (demo_signer 2) 1 2 [x01] [x01] (demo 1) (demo 2) demo_host demo_host2 pa pb ra rb ka kb).
  - apply demo_entry.
  - apply demo_entry2.
  - apply (prun_rtc 1 [x01] served). exact Ea.
  - apply (prun_rtc (H1 := demo_signer 2) 2 [x01] (dialled (written_on 0 pa))). exact Eb.
  - exact Ka.
  - exact Kb.
  - apply list.Forall_forall. intros m Hm. rewrite forallb_forall in Ef. apply framableb_ok, Ef, list_elem_of_In, Hm.
  - rewrite Ew. reflexivity.
Defined.

(** Node 1 of the experiment dials node 0, and they talk. *)
Lemma experiment_process_witness : exists address dials k,
  Experiment.main 1 Experiment.mode_initiate = Ok (address, dials, Experiment.hello ++ Itoa 1)
  /\ k.(Experiment.x_received) = [Experiment.hello ++ Itoa 3] /\ Experiment.left_open true (Experiment.hello ++ Itoa 1) k.
Proof.
  assert (E : (fun k => k.(Experiment.x_received))
              <$> foldl (fun o e => o ≫= Experiment.xdo (Experiment.hello ++ Itoa 1) e) (Some (Experiment.handleConnection true)) Experiment.talk
              = Some [Experiment.hello ++ Itoa 3]) by (vm_compute; reflexivity).
  destruct (foldl _ _ Experiment.talk) as [k|] eqn:Ek; [|discriminate E]. apply (inj Some) in E.
  exists (x3a :: Itoa 8001), [x3a :: Itoa 8000], k. assert (Em : Experiment.main 1 Experiment.mode_initiate
    = Ok (x3a :: Itoa 8001, [x3a :: Itoa 8000], Experiment.hello ++ Itoa 1)) by (vm_compute; reflexivity).
  split; [exact Em|]. split; [exact E|].
  destruct (experiment_process true (Experiment.hello ++ Itoa 1) 1 Experiment.mode_initiate _ _ (mkSockets tt false [Waiting 1] [Some k] false) Em) as [Ho _].
  - eapply rtc_l; [by apply (Q_dial _ _ _ _ _ _ _ tt false 0 false [Dialing false] [])|].
    apply (xconn_run true (Experiment.hello ++ Itoa 1) false [Waiting 1] [] (Experiment.handleConnection true) k []).
    eapply (run_events (Experiment.xdo (Experiment.hello ++ Itoa 1))); [|exact Ek]. intros e k1 k2 Hk. by exists e.
  - apply Ho. by left.
Defined.
