(* ===== verification/Cluster.v ===== *)
(** * The deployed processes are a network of replicas

    The processes of hotstuff-node/ (Host.v), each with its event loop (Node.v), its
    channels and its own key, as one system: [kstep] interleaves the turns of the
    nodes, the statements of the loops, the connections that take and bring
    messages, and the death of processes, whose database is in memory and dies with
    them.  A step is labelled with the input that it gives to a replica, if any, and
    with the replica's state then; [kstep_when] are the steps whose label satisfies a
    condition.

    The system refines the network of Agreement.v ([kstep_sim]: a step is no step, or
    a hand-over and at most one input, the one of the label), under every condition on
    the inputs.  So, when all inputs are genuine as in Agreement.v, blocks that the
    processes of a deployment have been told to be final are never in conflict. *)

From Stdlib Require Import ZArith Lia.
From stdpp Require Import relations.
From S2P Require Import Prelude Wire Types Proto Codec Encoding Crypto Store Quorum Progress Consensus.
From S2P Require Import ConsensusFacts Handlers Replica Ledger Locking Agreement Instances Routing Safety Node Net Host Boot.

(** ** A turn of the event loop *)

Section Turns.
Context {DB : Type} `{KVStore DB} `{Hasher} `{Signer} `{Verifier}.
Implicit Types (s : system DB) (n : node DB).

(** What a case of the select gives to the replica. *)
Definition case_input (k : select) n : option input :=
  match k with
  | SStart => Some IStart
  | SReceived => IStep <$> n.(received)
  | SSend => (fun d => ISend d.(State) d.(Root) d.(NodeData_Data)) <$> n.(send)
  | STick => Some ITick
  | _ => None
  end.

(** The replica when the loop has taken over its progress. *)
Definition collected_replica n : consensus DB := (refill n).(n_consensus).

Lemma collected_cases n : collected_replica n = n.(n_consensus)
  \/ collected_replica n = set_Progress (Progress_Reset n.(n_consensus).(c_Progress)) n.(n_consensus).
Proof. unfold collected_replica, refill. case_match; [by left|by right]. Qed.

Lemma refill_reported s : w_blocks (abs (mkSystem (refill s.(s_node)) s.(got_messages) s.(got_blocks))) = w_blocks (abs s).
Proof.
  destruct s as [[c ts tu ty lm lb lw li rc sd dl bl wd ms st qt dn] gm gb]. unfold refill. cbn [l_missing l_waitingData l_blocks l_messages s_node].
  destruct (li || lw || lb || lm) eqn:E; [done|].
  apply orb_false_elim in E as [[[-> ->]%orb_false_elim ->]%orb_false_elim ->].
  unfold w_blocks, abs, out_blocks. simpl. rewrite !app_nil_r, <- !app_assoc. do 2 f_equal. by destruct (Events (c_Progress c)).
Qed.

#[local] Opaque handle.

(** A case runs the handler of its input, if it has one, and reports what was
    reported or waiting before. *)
Lemma run_case_spec k n n' gm gb : run_case k n = Some (n', inl tt) ->
  match case_input k n with
  | Some i => handle i n.(n_consensus) = (n'.(n_consensus), inl tt)
  | None => n'.(n_consensus) = n.(n_consensus)
  end /\ out_blocks (mkSystem n' gm gb) = out_blocks (mkSystem n gm gb).
Proof.
  destruct n as [c ts tu ty lm lb lw li rc sd dl bl wd ms st qt dn]. unfold run_case, out_blocks. destruct dn; [done|].
  destruct k; simpl.
  - destruct st; try done. by intros [= (c' & Eh & ->)%handled_inv].
  - destruct rc as [m|]; [|done]. by intros [= (c' & Eh & ->)%handled_inv].
  - destruct sd as [d|]; [|done]. by intros [= (c' & Eh & ->)%handled_inv].
  - by intros [= (c' & Eh & ->)%handled_inv].
  - destruct (lw && negb wd); [|done]. by intros [= <-].
  - destruct li, ms; try done. by intros [= <-].
  - destruct lm, dl; try done. by intros [= <-].
  - destruct lb, bl; try done. intros [= <-]. simpl. by rewrite app_nil_r.
  - destruct qt; [|done]. by intros [= <-].
Qed.

Lemma case_input_refill k n : case_input k (refill n) = case_input k n.
Proof. unfold refill. by case_match. Qed.

Lemma turn_spec k s n' : turn k s.(s_node) = Some (n', inl tt) ->
  let c1 := collected_replica s.(s_node) in
  match case_input k s.(s_node) with
  | Some i => handle i c1 = (n'.(n_consensus), inl tt)
  | None => n'.(n_consensus) = c1
  end
  /\ out_blocks (mkSystem n' s.(got_messages) s.(got_blocks)) ++ c1.(c_Progress).(Events) = w_blocks (abs s).
Proof.
  intros Ht. destruct (run_case_spec k _ n' s.(got_messages) s.(got_blocks) Ht) as [Hi Hb].
  rewrite case_input_refill in Hi. split; [exact Hi|]. rewrite Hb, <- refill_reported. done.
Qed.

Lemma case_input_ok k n i : node_ok n -> case_input k n = Some i -> input_ok i.
Proof.
  intros [Hm Hd] Hi. destruct k; simpl in Hi; simplify_eq/=; try done.
  - destruct (received n) as [m|]; simplify_eq/=. by apply Hm.
  - destruct (send n) as [d|]; simplify_eq/=. by apply Hd.
Qed.
End Turns.

(** ** The system *)

Section Cluster.
Context {DB : Type} `{KVStore DB} `{Hasher} `{Verifier} (signer : Z -> Signer) (dummyData : bytes).

(** The replicas of [createExampleNode]. *)
Definition four : list Z := [0; 1; 2; 3].

(** The processes that are alive, and the ghost state of [net]. *)
Record cluster : Type := mkCluster {
  hosts : gmap Z (host DB);
  cl_ledger : list cast;
  cl_finalized : list (Z * Header);
}.

Definition host_replica (h : host DB) : consensus DB := h.(h_node).(s_node).(n_consensus).
Definition with_turn (h : host DB) (n' : node DB) : host DB :=
  mkHost (mkSystem n' h.(h_node).(got_messages) h.(h_node).(got_blocks)) h.(h_out) h.(h_in) h.(h_confirmed) h.(h_todo) h.(h_taken).

(** What a step gives to a replica: the replica, its progress taken over, and the
    input. *)
Definition given : Type := option (consensus DB * input).
Definition turn_given (k : select) (h : host DB) : given :=
  (fun i => (collected_replica h.(h_node).(s_node), i)) <$> case_input k h.(h_node).(s_node).

Inductive kstep g : given -> cluster -> Prop :=
| K_turn r k h n' : hosts g !! r = Some h ->
    @turn DB _ _ (signer r) _ k h.(h_node).(s_node) = Some (n', inl tt) ->
    let c1 := collected_replica h.(h_node).(s_node) in
    kstep g (turn_given k h) (mkCluster (<[r := with_turn h n']> (hosts g))
               (record_votes r (cl_ledger g) (new_messages c1 n'.(n_consensus)))
               (new_finals r c1 n'.(n_consensus) ++ cl_finalized g))
| K_loop r k h h' : hosts g !! r = Some h -> loop_step r dummyData k h = Some (Ok h') ->
    kstep g None (mkCluster (<[r := h']> (hosts g)) (cl_ledger g) (cl_finalized g))
| K_takes r rx h h' : hosts g !! r = Some h -> connection_takes rx h = Some h' ->
    kstep g None (mkCluster (<[r := h']> (hosts g)) (cl_ledger g) (cl_finalized g))
| K_reads r m h h' : hosts g !! r = Some h -> msg_ok m -> connection_reads m h = Some h' ->
    kstep g None (mkCluster (<[r := h']> (hosts g)) (cl_ledger g) (cl_finalized g))
| K_death r : kstep g None (mkCluster (delete r (hosts g)) (cl_ledger g) (cl_finalized g)).

(** What the step gives to a replica, if anything, satisfies [accept]. *)
Definition accepts (accept : list cast -> consensus DB -> input -> Prop) (L : list cast) (l : given) : Prop :=
  match l with Some (c, i) => accept L c i | None => True end.
Definition kstep_when accept g g' : Prop := exists l, kstep g l g' /\ accepts accept (cl_ledger g) l.

(** Process [r] was started on the replica [c]. *)
Definition launched (r : Z) (h : host DB) (c : consensus DB) : Prop := entryPoint (fresh_node c) = Some h.

Record kstart (g : cluster) (starts : Z -> consensus DB) : Prop := {
  ks_hosts : forall r h, hosts g !! r = Some h -> launched r h (starts r);
  ks_ledger : cl_ledger g = [];
  ks_finalized : cl_finalized g = [];
}.
End Cluster.
Arguments cluster DB : clear implicits.

(** ** Refinement *)

Section Refinement.
Context {DB : Type} `{KVStore DB} `{!KVLaws DB} `{Hasher} `{!HasherLaws} `{Verifier} (th : Z) `{!VerifierLaws th}.
Context (signer : Z -> Signer) (dummyData : bytes) (accept : list cast -> consensus DB -> input -> Prop).
Context (starts : Z -> consensus DB).
Implicit Types (g : cluster DB) (a : net DB) (h : host DB).

Abbreviation HInv r := (@HInv DB _ _ (signer r) _ r (starts r)).
Abbreviation gstep := (gstep_when signer accept).
Abbreviation kstep := (kstep signer dummyData).
Abbreviation kstep_when := (kstep_when signer dummyData accept).

(** What the replicas start from. *)
Record started_ok (r : Z) : Prop := {
  so_inv : Inv th (starts r);
  so_progress : (starts r).(c_Progress) = empty_progress;
  so_replicas : (starts r).(c_replicas) = four;
}.

(** The network that a system of processes implements. *)
Record sim g a : Prop := {
  sim_ledger : ledger a = cl_ledger g;
  sim_finalized : finalized a = cl_finalized g;
  sim_nodes : forall r h, hosts g !! r = Some h -> nodes a !! r = Some (host_replica h);
  sim_start : forall r h, hosts g !! r = Some h -> started_ok r;
  sim_host : forall r h, hosts g !! r = Some h -> HInv r h;
  sim_reported : forall r h e, hosts g !! r = Some h -> e ∈ w_blocks (abs h.(h_node)) -> e.(Finalized) = true ->
    (r, e.(BlockEvent_Header)) ∈ finalized a;
}.

(** The replica in a process keeps its invariant, also when its progress is taken. *)
Lemma host_inv r h : started_ok r -> HInv r h ->
  node_ok h.(h_node).(s_node) /\ Inv th (collected_replica h.(h_node).(s_node)).
Proof.
  intros [HI HP _] [Hn _ _ _ _ _].
  destruct (@nsteps_sim DB _ _ (signer r) _ (mkSystem (fresh_node (starts r)) [] []) _ (fresh_ok (starts r)) Hn) as [Hok Hw].
  split; [exact Hok|]. destruct (@refill_sim DB _ _ (signer r) _ h.(h_node)) as [Hr _].
  pose proof (@worlds_inv DB _ _ _ _ (signer r) _ th _ _ _ _ _ _ (WInv_start th _ HI HP) (transitivity Hw Hr)) as HW.
  exact (winv_inv _ _ _ _ _ HW).
Qed.

(** The events of a handler's replica are the old ones and new ones. *)
Lemma new_final_in r i c c' e : Inv th c -> input_ok i -> @handle DB _ _ (signer r) _ i c = (c', inl tt) ->
  e ∈ c'.(c_Progress).(Events) -> e.(Finalized) = true ->
  e ∈ c.(c_Progress).(Events) \/ (r, e.(BlockEvent_Header)) ∈ new_finals r c c'.
Proof.
  intros HI Hi Hh He Hf. pose proof (@keeps_handle DB _ _ _ _ (signer r) _ th _ i Hi c HI) as K. unfold wp in K. rewrite Hh in K.
  destruct (ev_events _ _ (proj1 K)) as (new & E & _). rewrite E in He.
  apply elem_of_app in He as [He|He]; [by left|right].
  rewrite (new_finals_in r c c' new E). apply list_elem_of_omap. exists e. by rewrite Hf.
Qed.

(** The network takes over the progress of a replica, or does nothing. *)
Lemma collect_steps a r h : nodes a !! r = Some (host_replica h) ->
  rtc gstep a (mkNet (<[r := collected_replica h.(h_node).(s_node)]> (nodes a)) (ledger a) (finalized a)).
Proof.
  intros Ha. destruct (collected_cases h.(h_node).(s_node)) as [->| ->].
  - rewrite insert_id by done. destruct a. apply rtc_refl.
  - apply rtc_once. by apply G_handover.
Qed.

(** A step of one process that does not concern its replica. *)
Lemma sim_other g a r h h' : sim g a -> hosts g !! r = Some h -> HInv r h' ->
  host_replica h' = host_replica h -> abs h'.(h_node) = abs h.(h_node) ->
  sim (mkCluster (<[r := h']> (hosts g)) (cl_ledger g) (cl_finalized g)) a.
Proof.
  intros [El Ef Hn Hst Hh Hr] Hg Hi Er Ea. split; simpl; try done; intros r2 h2; [| | |intros e];
    (destruct (decide (r = r2)) as [<-|N]; [rewrite lookup_insert_eq; intros [= <-]|rewrite lookup_insert_ne by done]); eauto.
  - rewrite Er. eauto.
  - rewrite Ea. eauto.
Qed.

Lemma turn_sim g a r k h n' : sim g a -> hosts g !! r = Some h ->
  @turn DB _ _ (signer r) _ k h.(h_node).(s_node) = Some (n', inl tt) ->
  accepts accept (cl_ledger g) (turn_given k h) ->
  let c1 := collected_replica h.(h_node).(s_node) in
  exists a', rtc gstep a a' /\ sim (mkCluster (<[r := with_turn h n']> (hosts g))
      (record_votes r (cl_ledger g) (new_messages c1 n'.(n_consensus)))
      (new_finals r c1 n'.(n_consensus) ++ cl_finalized g)) a'.
Proof.
  intros HS Hg Ht Hgen c1. unfold turn_given in Hgen. pose proof HS as [El Ef Hn Hst Hh Hr].
  destruct (host_inv r h (Hst _ _ Hg) (Hh _ _ Hg)) as [Hok HI1]. fold c1 in HI1.
  destruct (@turn_spec DB _ _ (signer r) _ k h.(h_node) n' Ht) as [Hi Hb]. fold c1 in Hi, Hb.
  set (c' := n'.(n_consensus)) in *.
  assert (Hsteps : rtc gstep a (mkNet (<[r := c']> (nodes a)) (record_votes r (ledger a) (new_messages c1 c'))
                                  (new_finals r c1 c' ++ finalized a))
                   /\ forall e, e ∈ c'.(c_Progress).(Events) -> e.(Finalized) = true ->
                        e ∈ c1.(c_Progress).(Events) \/ (r, e.(BlockEvent_Header)) ∈ new_finals r c1 c').
  { pose proof (collect_steps a r h (Hn _ _ Hg)) as Hc1. fold c1 in Hc1.
    destruct (case_input k h.(h_node).(s_node)) as [i|] eqn:Ei.
    - pose proof (case_input_ok _ _ _ Hok Ei) as Hiok. split; [|by intros e; apply (new_final_in r i)].
      eapply rtc_r; [exact Hc1|]. rewrite <- (insert_insert_eq (nodes a) r c' c1).
      refine (G_input signer accept (mkNet (<[r:=c1]> (nodes a)) (ledger a) (finalized a)) r c1 c' i _ Hiok _ Hi);
        simpl; [by rewrite lookup_insert_eq|rewrite El; exact Hgen].
    - rewrite Hi. unfold new_messages, new_finals. rewrite !drop_all. split; [exact Hc1|by left]. }
  destruct Hsteps as [Hsteps Hev]. eexists. split; [exact Hsteps|]. split; simpl; [by rewrite El|by rewrite Ef|..]; intros r2 h2; [| | |intros e];
    (destruct (decide (r = r2)) as [<-|N]; [rewrite lookup_insert_eq; intros [= <-]|rewrite lookup_insert_ne by done]); eauto.
  - rewrite lookup_insert_eq. done.
  - rewrite lookup_insert_ne by done. eauto.
  - pose proof (Hst _ _ Hg) as [HI HP Hrep].
    apply (@HInv_step DB _ _ _ _ (signer r) _ th _ r dummyData _ h _ HI HP Hrep (Hh _ _ Hg)). by apply (H_node _ _ k).
  - intros He Hfe. unfold w_blocks in He. simpl in He. apply elem_of_app in He as [He|He].
    + apply elem_of_app. right. eapply Hr; [exact Hg| |done]. rewrite <- Hb. apply elem_of_app. by left.
    + apply elem_of_app. destruct (Hev e He Hfe) as [He1|]; [|by left]. right. eapply Hr; [exact Hg| |done].
      rewrite <- Hb. apply elem_of_app. by right.
  - intros Hg2 He Hfe. apply elem_of_app. right. by eapply Hr.
Qed.

(** A statement, a case of the loop or a connection leaves the replica alone. *)
Lemma use_replica u (s s' : system DB) : use u s = Some s' -> node_ok s.(s_node) -> user_ok u ->
  s'.(s_node).(n_consensus) = s.(s_node).(n_consensus) /\ abs s' = abs s.
Proof.
  intros Hu Hok Ho. destruct (use_sim u s s' Ho Hok Hu) as [_ E]. split; [|exact E].
  by apply (f_equal w_c) in E.
Qed.

Lemma loop_replica r h h' k : HInv r h -> started_ok r -> loop_step r dummyData k h = Some (Ok h') ->
  host_replica h' = host_replica h /\ abs h'.(h_node) = abs h.(h_node).
Proof.
  intros HV Hso Hl. destruct (host_inv r h Hso HV) as [Hok _]. pose proof (hi_todo _ _ _ HV) as Htodo. unfold loop_step in Hl.
  assert (Huse : forall u s todo, user_ok u -> use u h.(h_node) = Some s ->
    host_replica (with_node h s todo) = host_replica h /\ abs (with_node h s todo).(h_node) = abs h.(h_node)).
  { intros u s todo Ho Hu. by apply (use_replica u). }
  destruct (h_todo h) as [|x rest].
  - destruct (host_case r dummyData k h) as [h1|] eqn:Ec; [|done]. injection Hl as <-.
    unfold host_case in Ec. destruct k.
    + destruct (use UReady (h_node h)) as [s|] eqn:Eu; [|done]. injection Ec as <-. by apply (Huse UReady).
    + destruct (deliver _) as [l|]; [|done]. cbn [mbind option_bind] in Ec.
      destruct (use UMessages (h_node h)) as [s|] eqn:Eu; [|done]. injection Ec as <-. by apply (Huse UMessages).
    + destruct (blocks _) as [l|]; [|done]. cbn [mbind option_bind] in Ec.
      destruct (use UBlocks (h_node h)) as [s|] eqn:Eu; [|done]. injection Ec as <-. by apply (Huse UBlocks).
    + destruct (h_in h); [done|]. by injection Ec as <-.
  - apply list.Forall_cons_1 in Htodo as [Hx _]. destruct x as [m|d|rx m|]; cbn [run_stmt] in Hl.
    + destruct (use (UStep m) (h_node h)) as [s|] eqn:Eu; [|done]. injection Hl as <-. by apply (Huse (UStep m)).
    + destruct (use (USend d) (h_node h)) as [s|] eqn:Eu; [|done]. injection Hl as <-. by apply (Huse (USend d)).
    + repeat case_match; simplify_eq. done.
    + repeat case_match; simplify_eq. done.
Qed.

(** Every step of the processes is a sequence of steps of the network. *)
Lemma kstep_sim g a g' : sim g a -> kstep_when g g' -> exists a', rtc gstep a a' /\ sim g' a'.
Proof.
  intros HS (l & Hk & Hacc). pose proof HS as [El Ef Hn Hst Hh Hr].
  assert (Hhost : forall r h h', hosts g !! r = Some h -> @hstep DB _ _ (signer r) _ r dummyData h h' -> HInv r h').
  { intros r h h' Hg Hs. destruct (Hst _ _ Hg) as [HI HP Hrep]. eapply HInv_step; [exact HI|exact HP|exact Hrep|by apply Hh|exact Hs]. }
  destruct Hk as [r k h n' Hg Ht c1|r k h h' Hg Hl|r rx h h' Hg Hc|r m h h' Hg Hm Hc|r].
  - by eapply turn_sim.
  - exists a. split; [apply rtc_refl|]. destruct (loop_replica r h h' k (Hh _ _ Hg) (Hst _ _ Hg) Hl).
    eapply sim_other; [done..| |done|done]. eapply Hhost; [done|by eapply H_loop].
  - exists a. split; [apply rtc_refl|].
    assert (E : h_node h' = h_node h).
    { unfold connection_takes in Hc. destruct (h_out h !! rx) as [[|m q]|], (h_taken h !! rx); try done. by injection Hc as <-. }
    eapply sim_other; [done..|eapply Hhost; [done|by eapply H_takes]|unfold host_replica; by rewrite E|by rewrite E].
  - exists a. split; [apply rtc_refl|].
    assert (E : h_node h' = h_node h) by (unfold connection_reads in Hc; destruct (_ <? _)%nat; [by injection Hc as <-|done]).
    eapply sim_other; [done..|eapply Hhost; [done|by eapply H_reads]|unfold host_replica; by rewrite E|by rewrite E].
  - exists a. split; [apply rtc_refl|]. split; simpl; try done; intros r2 h2; [| | |intros e];
      intros [_ Hg]%lookup_delete_Some; eauto.
Qed.

Lemma ksteps_sim g a g' : sim g a -> rtc kstep_when g g' -> exists a', rtc gstep a a' /\ sim g' a'.
Proof.
  intros HS Hk. revert a HS. induction Hk as [g|g1 g2 g3 Hg12 _ IH]; intros a HS; [by exists a|].
  destruct (kstep_sim _ _ _ HS Hg12) as (a1 & Ha1 & HS1). destruct (IH _ HS1) as (a2 & Ha2 & HS2).
  exists a2. split; [by etrans|done].
Qed.

(** The start. *)
Definition start_net g : net DB := mkNet (host_replica <$> hosts g) [] [].

Lemma start_sim g : (forall r h, hosts g !! r = Some h -> started_ok r) -> kstart g starts -> sim g (start_net g).
Proof.
  intros Hok [Hh El Ef]. split; simpl; [done..| | | |].
  - intros r h Hg. by rewrite lookup_fmap, Hg.
  - done.
  - intros r h Hg. by apply HInv_start, (Hh r h).
  - intros r h e Hg. specialize (Hh r h Hg). unfold launched, entryPoint in Hh. simpl in Hh. injection Hh as <-.
    unfold w_blocks, abs, out_blocks. simpl. rewrite (so_progress r (Hok _ _ Hg)). simpl. by intros ?%elem_of_nil.
Qed.
End Refinement.

(** ** Theorems *)

Section Processes.
Context {DB : Type} `{KVStore DB} `{!KVLaws DB} `{Hasher} `{!HasherLaws} `{Verifier} (th : Z) `{!VerifierLaws th}.
Context (signer : Z -> Signer) (dummyData : bytes).

(** C15: the processes refine the network of replicas.  Whatever the scheduler, the
    connections and the messages that they bring do, the replicas in the processes are
    in the states of a run of the network with the same ledger of votes, and whatever
    a process was told to be final was finalized in that run.  Every condition that
    all inputs of the processes satisfy when they are handled, the empty one included,
    is satisfied by all inputs of that run. *)
Theorem processes_refine accept (starts : Z -> consensus DB) (g0 g : cluster DB) :
  (forall r h, hosts g0 !! r = Some h -> started_ok th starts r) -> kstart g0 starts ->
  rtc (kstep_when signer dummyData accept) g0 g ->
  exists a, rtc (gstep_when signer accept) (start_net g0) a /\ ledger a = cl_ledger g
    /\ (forall r h, hosts g !! r = Some h -> nodes a !! r = Some (host_replica h))
    /\ forall r h e, hosts g !! r = Some h -> e ∈ got_blocks h.(h_node) -> e.(Finalized) = true ->
         (r, e.(BlockEvent_Header)) ∈ finalized a.
Proof.
  intros Hok Hstart Hk. pose proof (start_sim th signer starts g0 Hok Hstart) as HS.
  destruct (ksteps_sim th signer dummyData accept starts g0 _ g HS Hk) as (a & Ha & HS').
  exists a. split_and!; [done|by destruct HS'..|]. intros r h e Hg He Hf. eapply (sim_reported _ _ _ _ _ HS'); [done| |done].
  unfold w_blocks, abs, out_blocks. simpl. rewrite !elem_of_app. auto.
Qed.
End Processes.

Section Deployment.
Context `{Random} `{!BLSLaws} `{!RandomLaws} `{EqDecision PublicKey}
        {DB : Type} `{KVStore DB} `{!KVLaws DB} `{MemStorage DB} `{Hasher} `{!HasherLaws}.
Context (blk : bytes -> option (Z * bytes)) (correct : Z -> bool) (dummyData : bytes).

(** Process [r] signs with the [r]-th key, and all verify with the same verifier. *)
Definition deployed_signer (privs : list SecretKey) (r : Z) : Signer :=
  {| Sign prefix msg := priv ← index privs (Z.to_nat r); BLS12381Signer_Sign priv prefix msg |}.
Definition deployed_verifier (pubs : list PublicKey) : Verifier :=
  bls_verifier (NewBLS12381Verifier (quorum_size 4) pubs).

(** Some of the four processes, just started. *)
Record deployment (seed : Z) (g : cluster DB) : Prop := {
  dp_hosts : forall r h, hosts g !! r = Some h -> 0 <= r < 4 /\ exists d,
    createExampleNode seed (Z.to_nat r) 4 = Ok d /\ entryPoint d.(d_node) = Some h;
  dp_ledger : cl_ledger g = [];
  dp_finalized : cl_finalized g = [];
}.

(** The replicas that the processes start from, and the network they make up. *)
Lemma deployment_net seed pubs privs (db : DB) g : bootable seed 4 pubs privs db -> deployment seed g ->
  exists genesis starts, (forall root, root = Header_Hash (genesis_of seed) -> blk root = Some (0, []) -> blk [] = None ->
      genesis_ok blk root genesis)
  /\ kstart g starts
  /\ (forall r h, hosts g !! r = Some h -> started_ok (H2 := deployed_verifier pubs)
        (VerifierLaws0 := bls_verifier_laws _) 3 starts r)
  /\ gstart four genesis (start_net g).
Proof.
  intros Hboot [Hd El Ef]. destruct (processes_start seed 4 pubs privs db Hboot) as (genesis & _ & Hroot & Hn).
  destruct (GenerateKeys_pairs _ _ _ _ (bt_keys _ _ _ _ _ Hboot)) as [Hl Hp].
  assert (E4 : replica_ids pubs = four) by (unfold replica_ids; by rewrite Hp, length_fmap, Hl).
  destruct (Hn 0%nat) as (d0 & c0 & _); [lia|].
  exists genesis, (fun r => match createExampleNode seed (Z.to_nat r) 4 with Ok d => d.(d_node).(n_consensus) | _ => c0 end).
  assert (Hproc : forall r h, hosts g !! r = Some h -> 0 <= r < 4 /\ exists d c,
    process_ok seed 4 pubs genesis (Z.to_nat r) d c /\ createExampleNode seed (Z.to_nat r) 4 = Ok d
    /\ entryPoint (fresh_node c) = Some h /\ d.(d_node).(n_consensus) = c).
  { intros r h Hg. destruct (Hd r h Hg) as (Hr & d & Ed & Eh). split; [done|].
    destruct (Hn (Z.to_nat r)) as (d' & c & P); [lia|]. assert (d' = d) as -> by (destruct P; congruence).
    exists d, c. pose proof (po_node _ _ _ _ _ _ _ P) as En. rewrite <- En. split_and!; [done..|]. by rewrite En. }
  split; [intros root Er; subst root; exact (Hroot blk)|]. split_and!.
  - split; [|done..]. intros r h Hg. destruct (Hproc r h Hg) as (_ & d & c & P & -> & Eh & ->). exact Eh.
  - intros r h Hg. destruct (Hproc r h Hg) as (_ & d & c & P & Ed & _ & Ec).
    pose proof (po_inv _ _ _ _ _ _ _ P) as HI. rewrite (po_verifier _ _ _ _ _ _ _ P) in HI.
    split; rewrite Ed, Ec; [exact HI|by destruct P|rewrite <- E4; by destruct P].
  - split; [|done..]. intros r c Hg. simpl in Hg. rewrite lookup_fmap in Hg.
    destruct (hosts g !! r) as [h|] eqn:Eh; [|done]. injection Hg as <-.
    destruct (Hproc r h Eh) as (Hr & d & c & P & _ & He & _). split; [split; [lia|]; assert (4 < two64) by done; lia|].
    unfold entryPoint in He. simpl in He. injection He as <-. unfold host_replica. simpl. rewrite <- E4.
    pose proof (po_born _ _ _ _ _ _ _ P) as Hb. by rewrite Z2Nat.id in Hb by lia.
Qed.

(** Agreement for the deployed program.  With at most one of the four nodes
    faulty, blocks that the processes have received as finalized from their
    nodes never conflict, whatever the interleaving of loops, nodes and
    connections and whichever processes die, as long as all that the nodes are given
    is genuine when they handle it. *)
Theorem deployed_agreement seed pubs privs (db : DB) g0 g r1 p1 b1 r2 p2 b2 :
  bootable seed 4 pubs privs db -> faulty_minority four correct ->
  blk (Header_Hash (genesis_of seed)) = Some (0, []) -> blk [] = None -> deployment seed g0 ->
  rtc (kstep_when (H1 := deployed_verifier pubs) (deployed_signer privs) dummyData
         (genuine_at (H1 := deployed_verifier pubs) blk (Header_Hash (genesis_of seed)) four correct)) g0 g ->
  hosts g !! r1 = Some p1 -> b1 ∈ got_blocks p1.(h_node) -> b1.(Finalized) = true ->
  hosts g !! r2 = Some p2 -> b2 ∈ got_blocks p2.(h_node) -> b2.(Finalized) = true ->
  let k1 := Header_Hash b1.(BlockEvent_Header) in let k2 := Header_Hash b2.(BlockEvent_Header) in
  descends blk k1 k2 \/ descends blk k2 k1.
Proof.
  intros Hboot Hmin Hroot Hnil Hdep Hk Hp1 Hb1 Hf1 Hp2 Hb2 Hf2.
  destruct (deployment_net seed pubs privs db g0 Hboot Hdep) as (genesis & starts & Hgen & Hks & Hok & Hgs).
  specialize (Hgen _ eq_refl Hroot Hnil). set (v := NewBLS12381Verifier (quorum_size 4) pubs) in *.
  pose proof (start_sim (H2 := bls_verifier v) (VerifierLaws0 := bls_verifier_laws v) 3 (deployed_signer privs) starts g0 Hok Hks) as HS.
  destruct (ksteps_sim (H2 := bls_verifier v) (VerifierLaws0 := bls_verifier_laws v) 3 (deployed_signer privs)
    dummyData (genuine_at (H1 := bls_verifier v) blk (Header_Hash (genesis_of seed)) four correct) starts g0 _ g HS Hk) as (a & Ha & HS').
  pose proof (genesis_rooted _ _ _ Hgen) as Hrt.
  assert (HG : net_inv (H2 := bls_verifier v) (VerifierLaws0 := bls_verifier_laws v) 3 blk (Header_Hash (genesis_of seed)) four correct a).
  { eapply gsteps_inv; [exact Hmin|exact Hrt| |exact Ha]. eapply gstart_inv; [exact Hgen| |exact Hgs]. done. }
  assert (Hin : forall r p b, hosts g !! r = Some p -> b ∈ got_blocks p.(h_node) -> b.(Finalized) = true ->
    (r, b.(BlockEvent_Header)) ∈ finalized a).
  { intros r p b Hp Hb Hf. eapply (sim_reported _ _ _ _ _ HS'); [done| |done].
    unfold w_blocks, abs, out_blocks. simpl. rewrite !elem_of_app. auto. }
  eapply (finalized_comparable (H2 := bls_verifier v) (VerifierLaws0 := bls_verifier_laws v) 3 _ _ four correct Hmin Hrt a);
    [exact HG|exact (Hin _ _ _ Hp1 Hb1 Hf1)|exact (Hin _ _ _ Hp2 Hb2 Hf2)].
Qed.
End Deployment.

(** ** Scripted runs *)

Section Scripts.
Context {DB : Type} `{KVStore DB} `{Hasher} `{Verifier} (signer : Z -> Signer).
Context (blk : bytes -> option (Z * bytes)) (root : bytes) (correct : Z -> bool) (dummyData : bytes).
Implicit Types g : cluster DB.

Inductive kop : Type := KTurn (r : Z) (k : select) | KLoop (r : Z) (k : hcase) | KReads (r : Z) (m : Message).

(** [input_okb] for a replica in state [c]. *)
Definition process_input_okb g (r : Z) (c : consensus DB) (i : input) : bool :=
  input_okb blk root four correct linkedb (mkNet {[ r := c ]} (cl_ledger g) []) r i.

Definition do_kop g (o : kop) : option (cluster DB) :=
  match o with
  | KTurn r k =>
      h ← hosts g !! r;
      let c1 := collected_replica h.(h_node).(s_node) in
      if match case_input k h.(h_node).(s_node) with Some i => process_input_okb g r c1 i | None => true end then
        match @turn DB _ _ (signer r) _ k h.(h_node).(s_node) with
        | Some (n', inl _) =>
            Some (mkCluster (<[r := with_turn h n']> (hosts g))
                    (record_votes r (cl_ledger g) (new_messages c1 n'.(n_consensus)))
                    (new_finals r c1 n'.(n_consensus) ++ cl_finalized g))
        | _ => None
        end
      else None
  | KLoop r k =>
      h ← hosts g !! r;
      match loop_step r dummyData k h with
      | Some (Ok h') => Some (mkCluster (<[r := h']> (hosts g)) (cl_ledger g) (cl_finalized g))
      | _ => None
      end
  | KReads r m =>
      h ← hosts g !! r;
      h' ← (if process_input_okb g r (host_replica h) (IStep m) then connection_reads m h else None);
      Some (mkCluster (<[r := h']> (hosts g)) (cl_ledger g) (cl_finalized g))
  end.
Fixpoint krun g (l : list kop) : option (cluster DB) :=
  match l with [] => Some g | o :: l => g' ← do_kop g o; krun g' l end.

Lemma process_input_okb_ok g r c i : process_input_okb g r c i = true ->
  input_ok i /\ genuine_input blk (certified_in root four correct (cl_ledger g)) c i.
Proof.
  apply (input_okb_ok blk root four correct linkedb linkedb_ok (mkNet {[ r := c ]} (cl_ledger g) [])).
  - apply (bool_decide_eq_true_1 (NoDup four)). reflexivity.
  - apply lookup_singleton_eq.
Qed.

Abbreviation kgenuine := (kstep_when signer dummyData (genuine_at blk root four correct)).

Lemma do_kop_step g o g' : do_kop g o = Some g' -> kgenuine g g'.
Proof.
  destruct o as [r k|r k|r m]; unfold do_kop; destruct (hosts g !! r) as [h|] eqn:Hh; try done; cbn [mbind option_bind].
  - intros Hd. assert (Hacc : accepts (genuine_at blk root four correct) (cl_ledger g) (turn_given k h)).
    { unfold turn_given. destruct (case_input k (s_node (h_node h))) as [i|]; [|done].
      destruct (process_input_okb g r (collected_replica (s_node (h_node h))) i) eqn:Eo; [|done]. by apply process_input_okb_ok in Eo as [_ Hg]. }
    exists (turn_given k h). split; [|exact Hacc]. clear Hacc. revert Hd.
    case_match; [|done]. destruct (turn k _) as [[n' [[]|]]|] eqn:Et; try done. intros [= <-]. by eapply K_turn.
  - destruct (loop_step _ _ k h) as [[h'| |]|] eqn:El; try done. intros [= <-]. exists None. split; [by eapply K_loop|done].
  - destruct (process_input_okb g r (host_replica h) (IStep m)) eqn:Eo; cbn [mbind option_bind]; [|done]. apply process_input_okb_ok in Eo as [Hm _].
    destruct (connection_reads m h) as [h'|] eqn:Er; cbn [mbind option_bind]; [|done]. intros [= <-]. exists None.
    split; [eapply K_reads; [exact Hh|exact Hm|exact Er]|done].
Qed.

Lemma krun_rtc l g g' : krun g l = Some g' -> rtc kgenuine g g'.
Proof.
  revert g. induction l as [|o l IH]; simpl; intros g; [intros [= <-]; apply rtc_refl|].
  destruct (do_kop g o) as [g1|] eqn:E; [|done]. intros ?. eapply rtc_l; [by eapply do_kop_step|auto].
Qed.
End Scripts.

(** ** Witness: processes 1 and 2 of four

    Process 0 is taken for faulty and process 3 is slow.  Processes 1 and 2 read the
    proposals of views 1 to 4 and vote for them, and are told that block 1 is
    final. *)

#[local] Existing Instances counting_random counting_laws fresh_storage key_eq_dec.

Definition boot_header : Header := genesis_of 0.
Definition boot_headers : list Header := Eval vm_compute in
  let h1 := next_header boot_header x01 in let h2 := next_header h1 x02 in let h3 := next_header h2 x03 in
  [boot_header; h1; h2; h3; next_header h3 x04].
Definition boot_block (v : nat) : Header := nth v boot_headers boot_header.
Definition boot_blk (k : bytes) : option (Z * bytes) :=
  (fun h => (Header_View h, sbytes (Header_Parent h))) <$> find (fun h => bytes_eqb (Header_Hash h) k) boot_headers.
Definition boot_root : bytes := Header_Hash boot_header.

(** The proposal of view [v] by its leader, with the votes for the block before. *)
Definition boot_proposal (v : nat) : Message :=
  let parent := boot_block (v - 1) in
  NewProposalMsg (mkProposal (Some (boot_block v)) (Some (mkData []))
    (Some (sign_by (v mod 4) (Header_Hash (boot_block v))))
    (Some (mkCertificate (Some (Header_Hash parent)) (certify (Header_Hash parent) [0; 1; 2]%nat))) None).

Definition boot_host (r : nat) : option (host mem_db) :=
  match createExampleNode 0 r 4 with Ok d => entryPoint d.(d_node) | _ => None end.
Definition boot_cluster : option (cluster mem_db) :=
  h1 ← boot_host 1; h2 ← boot_host 2; Some (mkCluster (<[1 := h1]> {[2 := h2]}) [] []).

(** A process handles the empty message of its start, and one that it reads. *)
Definition read_and_handle (r : Z) (v : nat) : list kop :=
  [KReads r (boot_proposal v); KLoop r HIncoming; KLoop r HIncoming; KTurn r SReceived].
Definition start_up (r : Z) : list kop := [KTurn r SStart; KLoop r HReady; KTurn r SReceived].
(** The first vote leaves through the loop, [rest] is handled, and the node reports
    what has happened since, in two batches. *)
Definition report (r : Z) (rest : list kop) : list kop :=
  [KLoop r HMessages; KLoop r HMessages] ++ rest ++
  [KTurn r SMessages; KTurn r SBlocks; KLoop r HBlocks; KTurn r SBlocks; KLoop r HBlocks].
Definition both (f : Z -> list kop) : list kop := f 1 ++ f 2.

Definition boot_script : list kop :=
  both start_up ++ [KTurn 1 SWaitingData] ++ both (fun r => read_and_handle r 1) ++ both (fun r => KTurn r SMessages :: read_and_handle r 2)
  ++ both (fun r => read_and_handle r 3) ++ both (fun r => read_and_handle r 4)
  ++ report 1 [] ++ report 2 [KTurn 2 SReceived; KTurn 2 SWaitingData].

Definition boot_run (g0 : cluster mem_db) : option (cluster mem_db) :=
  krun (H1 := deployed_verifier four_publics) (deployed_signer four_secrets) boot_blk boot_root but_zero [x01] g0 boot_script.

Definition final_event : BlockEvent := mkBlockEvent (boot_block 1) true.
Definition told (r : Z) (g : cluster mem_db) : option (list BlockEvent) :=
  (fun h => filter (fun e => e.(Finalized) = true) (got_blocks h.(h_node))) <$> (hosts g !! r).

Lemma told_final r g : told r g = Some [final_event] -> exists h, hosts g !! r = Some h /\ final_event ∈ got_blocks h.(h_node).
Proof.
  unfold told. destruct (hosts g !! r) as [h|]; [|discriminate]. intros E. apply (inj Some) in E. exists h. split; [reflexivity|].
  assert (Hin : final_event ∈ [final_event]) by left. rewrite <- E in Hin. by apply list_elem_of_filter in Hin as [_ Hin].
Qed.

Lemma boot_runs : exists g0 g, boot_cluster = Some g0 /\ boot_run g0 = Some g
  /\ told 1 g = Some [final_event] /\ told 2 g = Some [final_event].
Proof.
  assert (E : (g0 ← boot_cluster; g ← boot_run g0; Some (told 1 g, told 2 g)) = Some (Some [final_event], Some [final_event]))
    by (vm_compute; reflexivity).
  destruct boot_cluster as [g0|]; [|discriminate E]. cbn [mbind option_bind] in E.
  destruct (boot_run g0) as [g|] eqn:Eg; [|discriminate E]. apply (inj Some), pair_equal_spec in E as [E1 E2].
  exists g0, g. split_and!; [reflexivity|exact Eg|exact E1|exact E2].
Qed.

Lemma two_hosts (f : nat -> option (host mem_db)) g0 : (h1 ← f 1%nat; h2 ← f 2%nat; Some (mkCluster (<[1 := h1]> {[2 := h2]}) [] [])) = Some g0 ->
  cl_ledger g0 = [] /\ cl_finalized g0 = [] /\ forall r h, hosts g0 !! r = Some h -> 0 <= r < 4 /\ f (Z.to_nat r) = Some h.
Proof.
  destruct (f 1%nat) as [h1|] eqn:E1; [|done]. cbn [mbind option_bind]. destruct (f 2%nat) as [h2|] eqn:E2; [|done].
  intros [= <-]. split_and!; [done..|]. intros r h. simpl. rewrite lookup_insert_Some, lookup_singleton_Some.
  intros [[<- <-]|[_ [<- <-]]]; (split; [lia|done]).
Qed.

Lemma created_host (x : res (deployed (DB := mem_db))) h : match x with Ok d => entryPoint d.(d_node) | _ => None end = Some h ->
  exists d, x = Ok d /\ entryPoint d.(d_node) = Some h.
Proof. destruct x as [d| |]; [|done..]. intros E. by exists d. Qed.

Lemma boot_host_created r h : boot_host r = Some h -> exists d, createExampleNode 0 r 4 = Ok d /\ entryPoint d.(d_node) = Some h.
Proof.
  unfold boot_host. generalize (createExampleNode (DB := mem_db) 0 r 4). intros x. exact (created_host x h).
Qed.

Lemma boot_deployment g0 : boot_cluster = Some g0 -> deployment 0 g0.
Proof.
  unfold boot_cluster. pose proof boot_host_created as Hc. revert Hc. generalize boot_host. intros f Hc E.
  destruct (two_hosts f g0 E) as (El & Ef & Hh). split; [|exact El|exact Ef]. intros r h Hg. destruct (Hh r h Hg) as [Hr Hb].
  split; [exact Hr|]. exact (Hc _ _ Hb).
Qed.

Lemma boot_rooted : boot_blk boot_root = Some (0, []) /\ boot_blk [] = None.
Proof. split; vm_compute; reflexivity. Qed.

Lemma deployed_agreement_witness : exists (g : cluster mem_db) p1 p2,
  hosts g !! 1 = Some p1 /\ hosts g !! 2 = Some p2 /\ final_event ∈ got_blocks p1.(h_node) /\ final_event ∈ got_blocks p2.(h_node)
  /\ (descends boot_blk (Header_Hash (boot_block 1)) (Header_Hash (boot_block 1))
      \/ descends boot_blk (Header_Hash (boot_block 1)) (Header_Hash (boot_block 1))).
Proof.
  destruct boot_runs as (g0 & g & E0 & Eg & (p1 & Hp1 & Hb1)%told_final & (p2 & Hp2 & Hb2)%told_final).
  exists g, p1, p2. split; [exact Hp1|]. split; [exact Hp2|]. split; [exact Hb1|]. split; [exact Hb2|].
  destruct boot_rooted as [Hr Hn].
  apply (deployed_agreement boot_blk but_zero [x01] 0 four_publics four_secrets (∅ : mem_db) g0 g 1 p1 final_event 2 p2 final_event
           demo_bootable demo_minority Hr Hn (boot_deployment g0 E0)); [|exact Hp1|exact Hb1|reflexivity|exact Hp2|exact Hb2|reflexivity].
  eapply krun_rtc. exact Eg.
Defined.

Lemma processes_refine_witness : exists (g : cluster mem_db) a p1, hosts g !! 1 = Some p1
  /\ nodes a !! 1 = Some (host_replica p1) /\ (1, boot_block 1) ∈ finalized a.
Proof.
  destruct boot_runs as (g0 & g & E0 & Eg & (p1 & Hp1 & Hb1)%told_final & _).
  destruct (deployment_net boot_blk 0 four_publics four_secrets (∅ : mem_db) g0 demo_bootable (boot_deployment g0 E0))
    as (genesis & starts & _ & Hks & Hok & _).
  destruct (processes_refine (H2 := deployed_verifier four_publics) (VerifierLaws0 := bls_verifier_laws _) 3
              (deployed_signer four_secrets) [x01] (genuine_at (H1 := deployed_verifier four_publics) boot_blk boot_root four but_zero)
              starts g0 g Hok Hks) as (a & _ & _ & Hn & Hf).
  { eapply krun_rtc. exact Eg. }
  exists g, a, p1. split; [exact Hp1|]. split; [exact (Hn 1 p1 Hp1)|]. exact (Hf 1 p1 final_event Hp1 Hb1 eq_refl).
Defined.
