(* ===== verification/Fleet.v ===== *)
(** * The deployed program with its connections

    The processes of Cluster.v, each with its sockets, its handshakes and the
    goroutines of its connections (Sockets.v), as one system.  What arrives on a
    connection is any sequence of bytes.  The system refines that of Cluster.v, in
    which the connections are abstract, so the agreement that is proved there holds
    of the program as a whole. *)

From Stdlib Require Import ZArith Lia.
From stdpp Require Import relations.
From S2P Require Import Prelude Wire Types Proto Codec Encoding Crypto Store Quorum Progress Consensus.
From S2P Require Import ConsensusFacts Handlers Replica Ledger Locking Agreement Instances Routing Safety Node Net Host Boot.
From S2P Require Import Received Connections Sockets Cluster.

(** ** Sockets and the state they share *)

Section Moves.
Context {S K : Type} (retries : bool) (fresh nilconn : K) (sdies : S -> Prop).
Context (kstep : S -> K -> S -> K -> Prop) (kpanic : S -> K -> Prop).

Lemma sockstep_mono (R R' : relation S) p p' : (forall s s', R s s' -> R' s s') ->
  sockstep retries fresh nilconn R sdies kstep kpanic p p' -> sockstep retries fresh nilconn R' sdies kstep kpanic p p'.
Proof.
  intros HR Hs. destruct Hs; [apply Q_state; auto|by apply Q_state_dies|apply Q_listen|apply Q_listen_error|apply Q_accept
    |apply Q_accept_error|by eapply Q_dial|by eapply Q_refused|by eapply Q_wait|by apply Q_conn|by apply Q_panic].
Qed.

Lemma sockstep_shared (R : relation S) p p' : sockstep retries fresh nilconn R sdies kstep kpanic p p' ->
  q_state p' = q_state p \/ R (q_state p) (q_state p') \/ exists k k', kstep (q_state p) k (q_state p') k'.
Proof. intros Hs. destruct Hs; simpl; eauto. Qed.
End Moves.

(** ** The system *)

Section Fleet.
Context {DB : Type} `{KVStore DB} `{Hasher} `{Verifier} (signer : Z -> Signer) (dummyData : bytes).

(** The processes that are alive, and the ghost state of [cluster]. *)
Record fleet : Type := mkFleet {
  procs : gmap Z (sockets (host DB) handler);
  fl_ledger : list cast;
  fl_finalized : list (Z * Header);
}.

(** What a process does next to the turns of its node; a handler of the node that
    panics ends it. *)
Definition loop_runs (r : Z) (h h' : host DB) : Prop := exists k, loop_step r dummyData k h = Some (Ok h').
Definition move (r : Z) : relation (sockets (host DB) handler) :=
  sockstep true (Greeting [] false false) NoConn (loop_runs r) (host_dies (H1 := signer r) r dummyData) (conn_step r) (conn_panic r).

Definition turned (n' : node DB) (p : sockets (host DB) handler) : sockets (host DB) handler :=
  mkSockets (with_turn (q_state p) n') (q_listening p) (q_dialers p) (q_conns p) (q_died p).

Inductive fstep g : given (DB := DB) -> fleet -> Prop :=
| F_turn r k p n' : procs g !! r = Some p -> q_died p = false ->
    @turn DB _ _ (signer r) _ k (q_state p).(h_node).(s_node) = Some (n', inl tt) ->
    let c1 := collected_replica (q_state p).(h_node).(s_node) in
    fstep g (turn_given k (q_state p)) (mkFleet (<[r := turned n' p]> (procs g))
               (record_votes r (fl_ledger g) (new_messages c1 n'.(n_consensus)))
               (new_finals r c1 n'.(n_consensus) ++ fl_finalized g))
| F_move r p p' : procs g !! r = Some p -> move r p p' ->
    fstep g None (mkFleet (<[r := p']> (procs g)) (fl_ledger g) (fl_finalized g))
| F_death r : fstep g None (mkFleet (delete r (procs g)) (fl_ledger g) (fl_finalized g)).

(** The steps that give to a replica only what satisfies [accept]. *)
Definition fstep_when accept g g' : Prop := exists l, fstep g l g' /\ accepts accept (fl_ledger g) l.

(** The loops of the processes without their connections. *)
Definition cluster_of g : cluster DB := mkCluster (q_state <$> procs g) (fl_ledger g) (fl_finalized g).

Abbreviation kstep_when := (kstep_when signer dummyData).

Lemma move_cluster accept g r p p' : procs g !! r = Some p -> move r p p' ->
  rtc (kstep_when accept) (cluster_of g) (cluster_of (mkFleet (<[r := p']> (procs g)) (fl_ledger g) (fl_finalized g))).
Proof.
  intros Hp Hm. assert (Hh : hosts (cluster_of g) !! r = Some (q_state p)) by (simpl; by rewrite lookup_fmap, Hp).
  unfold cluster_of at 2. simpl. rewrite fmap_insert. apply sockstep_shared in Hm as [->|[[k Hk]|(x & x' & e & He)]].
  - rewrite insert_id by exact Hh. apply rtc_refl.
  - apply rtc_once. exists None. split; [by eapply (K_loop _ _ (cluster_of g))|done].
  - destruct (handler_host _ _ _ _ _ _ He) as [->|[[rx Hk]|(m & Hok & Hk)]].
    + rewrite insert_id by exact Hh. apply rtc_refl.
    + apply rtc_once. exists None. split; [by eapply (K_takes _ _ (cluster_of g))|done].
    + apply rtc_once. exists None. split; [by eapply (K_reads _ _ (cluster_of g))|done].
Qed.

Lemma fstep_cluster accept g g' : fstep_when accept g g' -> rtc (kstep_when accept) (cluster_of g) (cluster_of g').
Proof.
  intros (l & Hs & Hacc). destruct Hs as [r k p n' Hp _ Ht c1|r p p' Hp Hm|r].
  - assert (Hh : hosts (cluster_of g) !! r = Some (q_state p)) by (simpl; by rewrite lookup_fmap, Hp).
    apply rtc_once. exists (turn_given k (q_state p)). split; [|exact Hacc].
    unfold cluster_of at 2. simpl. rewrite fmap_insert. by apply (K_turn _ _ (cluster_of g) r k (q_state p) n').
  - by apply move_cluster with p.
  - apply rtc_once. exists None. split; [|done]. unfold cluster_of at 2. simpl. rewrite fmap_delete. apply (K_death _ _ (cluster_of g)).
Qed.

Lemma fsteps_cluster accept g g' : rtc (fstep_when accept) g g' -> rtc (kstep_when accept) (cluster_of g) (cluster_of g').
Proof. intros Hs. induction Hs as [g|g1 g2 g3 Hst _ IH]; [apply rtc_refl|]. etrans; [by apply fstep_cluster|exact IH]. Qed.

(** A process of the fleet takes the steps of [pstep]. *)
Lemma fstep_process g l g' r (p p' : sockets (host DB) handler) : fstep g l g' -> procs g !! r = Some p -> procs g' !! r = Some p' ->
  p' = p \/ pstep (H1 := signer r) r dummyData p p'.
Proof.
  intros Hs Hp Hp'. destruct Hs as [r1 k p1 n' Hp1 Hd Ht c1|r1 p1 p1' Hp1 Hm|r1]; simpl in Hp'.
  - destruct (decide (r1 = r)) as [->|Hne]; [|rewrite lookup_insert_ne in Hp' by done; rewrite Hp in Hp'; injection Hp' as ->; by left].
    rewrite lookup_insert_eq in Hp'. injection Hp' as <-. rewrite Hp in Hp1. injection Hp1 as <-. right.
    destruct p as [h l ds ks d]. simpl in *. subst d. apply Q_state. by eapply L_node.
  - destruct (decide (r1 = r)) as [->|Hne]; [|rewrite lookup_insert_ne in Hp' by done; rewrite Hp in Hp'; injection Hp' as ->; by left].
    rewrite lookup_insert_eq in Hp'. injection Hp' as <-. rewrite Hp in Hp1. injection Hp1 as <-. right.
    revert Hm. apply sockstep_mono. intros h h' [k Hk]. by eapply (L_loop (H1 := signer r)).
  - destruct (decide (r1 = r)) as [->|Hne]; [by rewrite lookup_delete_eq in Hp'|rewrite lookup_delete_ne in Hp' by done; rewrite Hp in Hp'; injection Hp' as ->; by left].
Qed.
End Fleet.
Arguments fleet DB : clear implicits.

(** ** Agreement *)

Section Agreement.
Context `{Random} `{!BLSLaws} `{!RandomLaws} `{EqDecision PublicKey}
        {DB : Type} `{KVStore DB} `{!KVLaws DB} `{MemStorage DB} `{Hasher} `{!HasherLaws}.
Context (blk : bytes -> option (Z * bytes)) (correct : Z -> bool) (dummyData : bytes).

(** Some of the four processes, just started: nobody listens yet. *)
Record fleet_started (seed : Z) (g : fleet DB) : Prop := {
  fs_procs : forall r p, procs g !! r = Some p -> 0 <= r < 4 /\ exists d h,
    createExampleNode seed (Z.to_nat r) 4 = Ok d /\ entryPoint d.(d_node) = Some h /\ p = start_process r h;
  fs_ledger : fl_ledger g = [];
  fs_finalized : fl_finalized g = [];
}.

Lemma started_deployment seed g : fleet_started seed g -> deployment seed (cluster_of g).
Proof.
  intros [Hp El Ef]. split; [|done..]. intros r h Hh. unfold cluster_of in Hh. cbn [hosts] in Hh. rewrite lookup_fmap in Hh.
  destruct (procs g !! r) as [p|] eqn:E; [|done]. injection Hh as <-. destruct (Hp r p E) as (Hr & d & h & Ed & Eh & ->).
  split; [done|]. by exists d.
Qed.

(** C2: agreement for the deployed program, connections included.  With at most one of
    the four nodes faulty, blocks that the processes have received as finalized
    from their nodes never conflict, whoever connects, however loops, nodes and
    goroutines interleave, and whichever processes die.  Any bytes may arrive on the
    connections; the condition is on what the nodes handle in the run, [genuine_at]:
    an accepted certificate has a quorum of votes behind it when it is handled, the
    headers of the run, which [blk] names by their hashes, have no hash collision,
    and the blocks of a sync message follow one another from a block that the replica
    has.  Without the last one it fails (Forks.v). *)
Theorem fleet_agreement seed pubs privs (db : DB) (g0 g : fleet DB) r1 p1 b1 r2 p2 b2 :
  bootable seed 4 pubs privs db -> faulty_minority four correct ->
  blk (Header_Hash (genesis_of seed)) = Some (0, []) -> blk [] = None -> fleet_started seed g0 ->
  rtc (fstep_when (H1 := deployed_verifier pubs) (deployed_signer privs) dummyData
         (genuine_at (H1 := deployed_verifier pubs) blk (Header_Hash (genesis_of seed)) four correct)) g0 g ->
  procs g !! r1 = Some p1 -> b1 ∈ got_blocks (q_state p1).(h_node) -> b1.(Finalized) = true ->
  procs g !! r2 = Some p2 -> b2 ∈ got_blocks (q_state p2).(h_node) -> b2.(Finalized) = true ->
  let k1 := Header_Hash b1.(BlockEvent_Header) in let k2 := Header_Hash b2.(BlockEvent_Header) in
  descends blk k1 k2 \/ descends blk k2 k1.
Proof.
  intros Hboot Hmin Hroot Hnil Hs Hrun Hp1 Hb1 Hf1 Hp2 Hb2 Hf2.
  apply (fsteps_cluster (H1 := deployed_verifier pubs)) in Hrun.
  eapply (deployed_agreement blk correct dummyData seed pubs privs db (cluster_of g0) (cluster_of g) r1 (q_state p1) b1 r2 (q_state p2) b2);
    try done; [by apply started_deployment|..]; unfold cluster_of; cbn [hosts]; by rewrite lookup_fmap, ?Hp1, ?Hp2.
Qed.
End Agreement.

(** ** Scripted runs *)

Inductive fop : Type := FTurn (r : Z) (k : select) | FLoop (r : Z) (k : hcase) | FListen (r : Z) | FAccept (r : Z) | FConn (r : Z) (i : nat) (e : hevent).

Section Scripts.
Context {DB : Type} `{KVStore DB} `{Hasher} `{Verifier} (signer : Z -> Signer).
Context (blk : bytes -> option (Z * bytes)) (root : bytes) (correct : Z -> bool) (dummyData : bytes).
Implicit Types g : fleet DB.

(** One step of a process other than a turn of its node. *)
Definition do_move (r : Z) (o : fop) (p : sockets (host DB) handler) : option (sockets (host DB) handler) :=
  let '(mkSockets h l ds ks d) := p in
  if d then None else
  match o with
  | FLoop _ k => match loop_step r dummyData k h with Some (Ok h') => Some (mkSockets h' l ds ks false) | _ => None end
  | FListen _ => if l then None else Some (mkSockets h true ds ks false)
  | FAccept _ => if l then Some (mkSockets h true ds (ks ++ [Greeting [] false false]) false) else None
  | FConn _ i e =>
      x ← ks !! i;
      match handler_do r e h x with Some (Ok (h', x')) => Some (mkSockets h' l ds (<[i := x']> ks) false) | _ => None end
  | FTurn _ _ => None
  end.
Definition fop_process (o : fop) : Z :=
  match o with FTurn r _ | FLoop r _ | FListen r | FAccept r | FConn r _ _ => r end.

Definition do_fop g (o : fop) : option (fleet DB) :=
  let r := fop_process o in
  p ← procs g !! r;
  match o with
  | FTurn _ k =>
      let n := (q_state p).(h_node).(s_node) in
      let c1 := collected_replica n in
      if negb (q_died p) && match case_input k n with Some i => process_input_okb blk root correct (cluster_of g) r c1 i | None => true end then
        match @turn DB _ _ (signer r) _ k n with
        | Some (n', inl _) =>
            Some (mkFleet (<[r := turned n' p]> (procs g)) (record_votes r (fl_ledger g) (new_messages c1 n'.(n_consensus)))
                    (new_finals r c1 n'.(n_consensus) ++ fl_finalized g))
        | _ => None
        end
      else None
  | _ => p' ← do_move r o p; Some (mkFleet (<[r := p']> (procs g)) (fl_ledger g) (fl_finalized g))
  end.
Fixpoint frun g (l : list fop) : option (fleet DB) :=
  match l with [] => Some g | o :: l => g' ← do_fop g o; frun g' l end.

Lemma do_move_move r o p p' : do_move r o p = Some p' -> move signer dummyData r p p'.
Proof.
  destruct p as [h l ds ks d]. unfold do_move. destruct d; [done|]. destruct o as [r' k|r' k|r'|r'|r' i e]; [done|..].
  - destruct (loop_step _ _ k h) as [[h1| |]|] eqn:E; try done. intros [= <-]. apply Q_state. by exists k.
  - destruct l; [done|]. intros [= <-]. apply Q_listen.
  - destruct l; [|done]. intros [= <-]. apply Q_accept.
  - destruct (ks !! i) as [x|] eqn:E; [|done]. cbn [mbind option_bind].
    destruct (handler_do r e h x) as [[[h' x']|err|c]|] eqn:Ex; try done. intros [= <-].
    rewrite (insert_take_drop _ _ _ (lookup_lt_Some _ _ _ E)). rewrite <- (take_drop_middle ks i x E) at 1. apply Q_conn. by exists e.
Qed.

Abbreviation fgenuine := (fstep_when signer dummyData (genuine_at blk root four correct)).

Lemma do_fop_step g o g' : do_fop g o = Some g' -> fgenuine g g'.
Proof.
  unfold do_fop. destruct (procs g !! fop_process o) as [p|] eqn:Hp; [|done]. cbn [mbind option_bind].
  assert (Hmove : (p' ← do_move (fop_process o) o p; Some (mkFleet (<[fop_process o := p']> (procs g)) (fl_ledger g) (fl_finalized g))) = Some g' ->
    fgenuine g g').
  { destruct (do_move _ o p) as [p'|] eqn:Em; [|done]. cbn [mbind option_bind]. intros [= <-]. exists None.
    split; [|done]. eapply F_move; [exact Hp|]. by eapply do_move_move. }
  destruct o as [r k| | | |]; try exact Hmove. clear Hmove. simpl fop_process in *.
  destruct (negb (q_died p) && _) eqn:Eb; [|done]. apply andb_prop in Eb as [Hd%negb_true_iff Hi].
  destruct (turn k _) as [[n' [[]|]]|] eqn:Et; try done. intros [= <-]. exists (turn_given k (q_state p)). split; [by eapply F_turn|].
  unfold turn_given. destruct (case_input k _) as [i|]; [|done]. by apply process_input_okb_ok in Hi as [_ Hg].
Qed.

Lemma frun_rtc l g g' : frun g l = Some g' -> rtc fgenuine g g'.
Proof.
  revert g. induction l as [|o l IH]; simpl; intros g; [intros [= <-]; apply rtc_refl|].
  destruct (do_fop g o) as [g1|] eqn:E; [|done]. intros ?. eapply rtc_l; [by eapply do_fop_step|auto].
Qed.
End Scripts.

(** ** Witness

    The run of Cluster.v, with the proposals as bytes that arrive on a connection of
    processes 1 and 2 whose peer has announced itself as node 0. *)

#[local] Existing Instances counting_random counting_laws fresh_storage key_eq_dec.

Definition boot_fleet : option (fleet mem_db) :=
  h1 ← boot_host 1; h2 ← boot_host 2; Some (mkFleet (<[1 := start_process 1 h1]> {[2 := start_process 2 h2]}) [] []).

Definition meet (r : Z) : list fop :=
  [FListen r; FAccept r; FConn r 0 (EOutside (Deployed.Arrive (toByteArray (Itoa 0)))); FConn r 0 EGreet; FConn r 0 EIdentify].
Definition frame_of (m : Message) : bytes := match sent_one m with Ok b => b | _ => [] end.
Definition fread (r : Z) (v : nat) : list fop :=
  [FConn r 0 EListener; FConn r 0 (EOutside (Deployed.Arrive (frame_of (boot_proposal v)))); FConn r 0 EListener;
   FLoop r HIncoming; FLoop r HIncoming; FTurn r SReceived].
Definition fstart_up (r : Z) : list fop := [FTurn r SStart; FLoop r HReady; FTurn r SReceived].
Definition freport (r : Z) (rest : list fop) : list fop :=
  [FLoop r HMessages; FLoop r HMessages] ++ rest ++
  [FTurn r SMessages; FTurn r SBlocks; FLoop r HBlocks; FTurn r SBlocks; FLoop r HBlocks].
Definition fboth (f : Z -> list fop) : list fop := f 1 ++ f 2.
Definition fleet_script : list fop :=
  fboth meet ++ fboth fstart_up ++ [FTurn 1 SWaitingData] ++ fboth (fun r => fread r 1) ++ fboth (fun r => FTurn r SMessages :: fread r 2)
  ++ fboth (fun r => fread r 3) ++ fboth (fun r => fread r 4)
  ++ freport 1 [] ++ freport 2 [FTurn 2 SReceived; FTurn 2 SWaitingData].

Definition fleet_run (g0 : fleet mem_db) : option (fleet mem_db) :=
  frun (H1 := deployed_verifier four_publics) (deployed_signer four_secrets) boot_blk boot_root but_zero [x01] g0 fleet_script.
Definition fleet_told (r : Z) (g : fleet mem_db) : option (list BlockEvent) :=
  (fun p => filter (fun e => e.(Finalized) = true) (got_blocks (q_state p).(h_node))) <$> (procs g !! r).

Lemma fleet_told_final r g : fleet_told r g = Some [final_event] ->
  exists p, procs g !! r = Some p /\ final_event ∈ got_blocks (q_state p).(h_node).
Proof.
  unfold fleet_told. destruct (procs g !! r) as [p|]; [|discriminate]. intros E. apply (inj Some) in E. exists p. split; [reflexivity|].
  assert (Hin : final_event ∈ [final_event]) by left. rewrite <- E in Hin. by apply list_elem_of_filter in Hin as [_ Hin].
Qed.

Lemma fleet_runs : exists g0 g, boot_fleet = Some g0 /\ fleet_run g0 = Some g
  /\ fleet_told 1 g = Some [final_event] /\ fleet_told 2 g = Some [final_event].
Proof.
  assert (E : (g0 ← boot_fleet; g ← fleet_run g0; Some (fleet_told 1 g, fleet_told 2 g)) = Some (Some [final_event], Some [final_event]))
    by (vm_compute; reflexivity).
  destruct boot_fleet as [g0|]; [|discriminate E]. cbn [mbind option_bind] in E.
  destruct (fleet_run g0) as [g|] eqn:Eg; [|discriminate E]. apply (inj Some), pair_equal_spec in E as [E1 E2].
  exists g0, g. split_and!; [reflexivity|exact Eg|exact E1|exact E2].
Qed.

Lemma two_processes (f : nat -> option (host mem_db)) g0 :
  (h1 ← f 1%nat; h2 ← f 2%nat; Some (mkFleet (<[1 := start_process 1 h1]> {[2 := start_process 2 h2]}) [] [])) = Some g0 ->
  fl_ledger g0 = [] /\ fl_finalized g0 = [] /\ forall r p, procs g0 !! r = Some p -> 0 <= r < 4 /\ exists h, f (Z.to_nat r) = Some h /\ p = start_process r h.
Proof.
  destruct (f 1%nat) as [h1|] eqn:E1; [|done]. cbn [mbind option_bind]. destruct (f 2%nat) as [h2|] eqn:E2; [|done].
  intros [= <-]. split_and!; [done..|]. intros r p. simpl. rewrite lookup_insert_Some, lookup_singleton_Some.
  intros [[<- <-]|[_ [<- <-]]]; (split; [lia|by eexists]).
Qed.

Lemma boot_fleet_started g0 : boot_fleet = Some g0 -> fleet_started 0 g0.
Proof.
  unfold boot_fleet. pose proof boot_host_created as Hc. revert Hc. generalize boot_host. intros f Hc E.
  destruct (two_processes f g0 E) as (El & Ef & Hp). split; [|exact El|exact Ef]. intros r p Hg. destruct (Hp r p Hg) as (Hr & h & Hb & ->).
  split; [exact Hr|]. destruct (Hc _ _ Hb) as (d & Ed & Eh). exists d, h. split; [exact Ed|]. split; [exact Eh|reflexivity].
Qed.

Lemma fleet_agreement_witness : exists (g : fleet mem_db) p1 p2,
  procs g !! 1 = Some p1 /\ procs g !! 2 = Some p2
  /\ final_event ∈ got_blocks (q_state p1).(h_node) /\ final_event ∈ got_blocks (q_state p2).(h_node)
  /\ (descends boot_blk (Header_Hash (boot_block 1)) (Header_Hash (boot_block 1))
      \/ descends boot_blk (Header_Hash (boot_block 1)) (Header_Hash (boot_block 1))).
Proof.
  destruct fleet_runs as (g0 & g & E0 & Eg & (p1 & Hp1 & Hb1)%fleet_told_final & (p2 & Hp2 & Hb2)%fleet_told_final).
  exists g, p1, p2. split; [exact Hp1|]. split; [exact Hp2|]. split; [exact Hb1|]. split; [exact Hb2|].
  destruct boot_rooted as [Hr Hn].
  apply (fleet_agreement boot_blk but_zero [x01] 0 four_publics four_secrets (∅ : mem_db) g0 g 1 p1 final_event 2 p2 final_event
           demo_bootable demo_minority Hr Hn (boot_fleet_started g0 E0)); [|exact Hp1|exact Hb1|reflexivity|exact Hp2|exact Hb2|reflexivity].
  eapply frun_rtc. exact Eg.
Defined.
